(* ===== verification/_CoqProject ===== *)
-Q . S2P
Prelude.v
SpscRing.v
SpscConcurrent.v
MemoryPool.v
PacketProcessor.v
ProcessorConcurrent.v
ProcessorRace.v
Common.v
BpfMaps.v
XdpNetStats.v
TcpTracer.v
TcpTracerSmp.v
SyscallAudit.v
StatsReporter.v
ReporterConcurrent.v
RequestStats.v
ThreadPool.v
PoolRequests.v
HttpServer.v
Metrics.v
Monitor.v
MonitorLoop.v
Effects.v
Loader.v
ServerLifecycle.v
Lifecycle.v
Formats.v
Endpoints.v
EndToEnd.v
Conformance.v
