(* ===== verification/Prelude.v ===== *)
(** * eBPF System Monitor: verification development (root file)

    ** The program

    Three BPF programs run in the kernel: [bpf/tcp_tracer.bpf.c] (kprobes on
    tcp_connect and tcp_close), [bpf/syscall_audit.bpf.c] (tracepoint on
    sys_enter) and [bpf/net_stats.bpf.c] (XDP).  They share the structures of
    [include/common.h] with the monitor, which reads their events from ring
    buffers, aggregates TCP events in a [StatsReporter]
    ([src/stats_reporter.h]) and serves them over HTTP
    ([src/http/async_server.h]).  [src/http/thread_pool.h] and
    [src/http/request_stats.h] are the server's pool and statistics,
    [src/dpdk_sim/] is a packet pipeline: a lock-free ring, a memory pool on
    top of it, and a batch processor on top of both.

    ** The files, and what of the code each models

    - [Prelude]: machine integers ([wrap], [u8] ... [u64]), arrays whose
      out-of-bounds access is [None], the [static_assert] on capacities, shared
      tactics ([break_bool], [split_cond], [unwrap]), the hint database [mach],
      generic lemmas on lists, sums and step relations.
    - [SpscRing] (spsc_ring.h, sequential): [Ring] has one definition per
      method over the record of the ring's members; [Fifo] is the abstract
      bounded queue.
    - [SpscConcurrent] (spsc_ring.h, two threads): [Conc.step] makes every
      access to [head_], [tail_] and [data_] a transition of its own, with
      release stores, stale acquire loads and data-race detection;
      [Producers] is the ring with two producers.
    - [MemoryPool] (memory_pool.h): [Pool] over [Ring]; pointers are block
      numbers.
    - [PacketProcessor] (packet_processor.h): [Processor] over [Ring] and
      [Pool]; the handler is an arbitrary function.
    - [ProcessorConcurrent] (packet_processor.h, memory_pool.h and spsc_ring.h,
      two threads): [Threads.step] is a sending and a processing thread access by
      access, over the two rings they share; [Views] says what a thread knows of
      the other's writes after an acquire load, so that reading or writing a
      packet outside that knowledge is a data race.  The drop path of send is
      part of it, up to its return: the free it makes is a second producer of the
      pool's ring, with its own stores of [head_] ([Threads.drop_state]).
    - [ProcessorRace]: [Race], the schedules that make that second producer
      collide with the processing thread, for all sizes of ring and pool: in its
      own store, and in a store of the other thread after send has returned.
    - [Common] (include/common.h): the structures, their layout and their byte
      representation.
    - [BpfMaps]: the kernel's maps, ring buffers and task data as classes of
      operations with the documented laws, and finite-map instances of them.
    - [XdpNetStats] (net_stats.bpf.c): [Xdp] is the program on one packet,
      [XdpRun] interleaves it on several CPUs.
    - [TcpTracer] (tcp_tracer.bpf.c, and set_filter and the filter set-up of
      src/monitor.cpp): [Tracer], with a labelled step relation for probes of
      several processes.
    - [TcpTracerSmp] (tcp_tracer.bpf.c, several CPUs): [Smp.step], the probes one
      helper call or map access at a time, with the elements of pending_connects
      that a probe may still point to after they were freed.
    - [SyscallAudit] (syscall_audit.bpf.c): [Audit].
    - [StatsReporter] (stats_reporter.h): [Reporter].
    - [ReporterConcurrent] (stats_reporter.h, several threads): [Shared.step], the
      methods one access at a time under [mu_].
    - [RequestStats] (http/request_stats.h): [Requests].
    - [ThreadPool] (http/thread_pool.h): [Tp], a step relation whose
      transitions are critical sections, notifications and counter updates;
      [PoolRequests] runs request handlers with timers on it ([PoolReq]).
    - [HttpServer] (http/async_server.h): [Http]; results of system calls are
      arguments of the handlers.
    - [Metrics] (http/metrics.h): [Prom], the Prometheus text.
    - [Monitor] (src/monitor.cpp): [Mon], the ring buffer callbacks, the routes,
      the options and the main loop of one thread; [MonitorLoop] shows what that
      loop does turn by turn.
    - [Effects]: the control flow of C++ as a monad: exceptions, destructors of
      local objects ([raii]), undefined behaviour, waiting for ever and
      [std::terminate] as outcomes; parts of the world as lenses ([Part]); a
      weakest-precondition calculus for it.
    - [Loader] (src/ebpf_loader.h): [Bpf], the owners of BPF objects, links and
      ring buffers over a parameter for libbpf, with the resources that exist as
      state, and rules for programs that own them.
    - [ServerLifecycle] (http/async_server.h): [Srv], constructor, start, the
      server thread, stop and destructor.
    - [Lifecycle] (src/monitor.cpp): [Daemon], run_monitor and main with all
      their local objects, the main loop interleaved with the events of the server
      thread and with signals; what a signal does is state ([Daemon.disp]), set by
      [std::signal].  A request for /metrics is two steps, as its route takes the
      reporter's lock twice.
    - [Formats]: readers of JSON ([Json]) and of the Prometheus exposition format
      ([Expo], a lenient reader and one that insists on the grouping of lines), as
      a client has them; specifications, not code of the program.
    - [Endpoints]: what those readers find in the texts of the monitor
      ([Endpoint]).
    - [EndToEnd]: [Pipeline], the components composed from the probes to the
      HTTP client.
    - [Conformance] (tests/): the unit tests of the repository, run on the
      definitions above.

    Undefined behaviour (out-of-bounds access, signed overflow, a load outside
    a packet) is [None]; errors the code reports are values; unsigned
    arithmetic wraps explicitly.  Code outside the repository (kernel helpers,
    vmlinux.h, inet_ntop, std::hash, std::sort, iteration order of
    unordered_map) is a parameter, with its documented behaviour as the laws
    of a class or as a hypothesis; each file ends with witnesses at concrete
    instances.

    ** What the theorems show

    - The ring refines a bounded FIFO queue, also across the overflow of its
      64-bit counters, and its burst operations are iterated single operations;
      with one producer and one consumer it is free of data races, linearizable
      and wait-free; what size() tells each of the two threads while the other
      works, and that a third thread can read a size of 2^64 - 1; with two
      producers elements are lost.
    - The pool never hands a block out twice and never loses one; the batch
      processor conserves packets, handles them in order, and drains its ring.
      With a sending and a processing thread, and as many ring slots as packets
      (as with the defaults, 1024 and 512), no packet is touched by both threads
      at once, none is dropped, and the handler sees them in the order sent, each
      once and as it was sent; with fewer slots than packets there is a data race,
      and it needs a dropped packet; it may come after the call that dropped it.
    - The event structures survive the ring buffer byte for byte.
    - The XDP program never reads outside a packet, passes every packet, and
      its counters are exact under any interleaving of CPUs as long as sixteen
      protocols suffice; beyond that only packets of protocols without an entry
      are lost.
    - The probes emit well-formed events as the filters select; a close is
      paired with the connect of its process, and which way that pairing goes
      wrong for a process with two connections; the audit log is exact.  On
      several CPUs processes do not disturb each other as long as each has one
      probe in progress; two threads of one process that close two sockets can
      make a probe report the connection of another process.
    - The reporter's entries are the sums over the events of a connection, and
      print_top shows the connections with the most traffic; called by several
      threads its methods are free of data races and atomic.  Request statistics
      are exact and a timer reports once.
    - The thread pool runs every task once, in order, loses no wake-up, and
      its destructor returns with all tasks done; request handlers on it are
      counted once each, whatever the interleaving.
    - The server answers a request that is there as a whole before a read would
      block with its route's response, its responses parse back, it keeps no stale
      buffers, and it answers, and does not wait for the rest of, a request cut
      short.
    - The monitor records exactly the events whose bytes it polls up to the
      first signal, prints at most one report in five seconds, serves the
      metrics and the JSON list of every connection once, and reads its options
      back from decimal; the ports in both texts are byte-swapped.  A JSON reader
      finds in /connections and in the lines of --json, and a lenient scraper
      in /metrics, exactly the connections and their sums, for process names
      without characters that need an escape; other names can break or forge the
      text.  A strict reader refuses /metrics, and standard output under --json has
      lines that are not JSON.
    - The daemon, for every answer of libbpf, of the sockets and of the thread
      library: nothing is used after it was destroyed, everything acquired is
      released on every path that returns, except an object that failed to
      load; an exception leaves main only for a bad number on the command line; a
      request sees exactly the events handled before it; after a signal main
      returns 0 with everything taken down, when no connection breaks and
      epoll_ctl does not fail; a server that cannot start is reported; a ring
      buffer that cannot be opened makes the daemon hang, and a client whose
      connection is broken when it is answered kills it, as main leaves the action
      for SIGPIPE alone.
    - End to end, a connection of a process arrives in the answer to a client
      with one connect and exactly the bytes of its socket.

    ** Bounds and fuel

    Loops are structural recursions on their iteration count or input.  The
    client's reader [Http.read_head] takes fuel: five lines, the number a
    response has; [Json.parse] takes the length of the text, which is enough for
    every text that is printed from a value.  Runs of the pool are bounded by [Tp.measure], which every
    internal transition decreases.

    The schedule of the daemon ([Daemon.Inputs]) is a finite list of turns: a
    run that is still polling at its end is [Halt Blocked], so theorems that
    main returns have a signal among the inputs.

    ** Not modelled

    Every function of the program has a definition.  Left out are the deleted
    copy operations, the poll time-outs (how long a poll waits does not change
    what it does), failing memory allocation, and the bound of 64 events per
    [epoll_wait] (the models allow any number).  Cache-line alignment and failing
    writes to the standard streams are outside the models; relaxed accesses are
    modelled where two threads write one counter (the drop path of send), other
    counters have one writer.  The copy of an element of pending_connects is one
    access.  Inside the daemon, one event of the server thread is one step
    ([Http.run_split]: an [epoll_wait] with several events is as many), except for
    the reporter's lock that /metrics takes first.  The tests that only stress
    real threads are not replayed; build files and the Grafana configuration are
    not part of the program. *)

From Stdlib Require Export ZArith Lia.
From stdpp Require Export base numbers list gmap strings pretty sorting relations.

#[global] Open Scope Z_scope.

(** ** Machine integers

    A [w]-bit unsigned C integer is a [Z] together with the wrap-around of its
    arithmetic written out: every C expression of type [uint64_t] or [size_t]
    (LP64: 64 bits) is followed by [u64], and so on for the narrower types. *)

Definition wrap (w z : Z) : Z := z mod 2 ^ w.

Definition u8 (z : Z) : Z := wrap 8 z.
Definition u16 (z : Z) : Z := wrap 16 z.
Definition u32 (z : Z) : Z := wrap 32 z.
Definition u64 (z : Z) : Z := wrap 64 z.

(** Range predicate: [z] is a value of the [w]-bit unsigned type. *)
Definition in_width (w z : Z) : Prop := 0 <= z < 2 ^ w.

#[global] Instance in_width_dec w z : Decision (in_width w z).
Proof. unfold in_width. apply _. Defined.

Declare Scope mach_scope.
Delimit Scope mach_scope with mach.
Notation "a +₆₄ b" := (u64 (a + b)) (at level 50, left associativity) : mach_scope.
Notation "a -₆₄ b" := (u64 (a - b)) (at level 50, left associativity) : mach_scope.
#[global] Open Scope mach_scope.

(** The test of the repository's [static_assert]s: [(n & (n - 1)) == 0] on
    [size_t]. *)
Definition pow2_check (n : Z) : bool := Z.land n (n -₆₄ 1) =? 0.

(** ** Arrays

    [std::array] and C arrays: an access outside the bounds is undefined
    behaviour, represented by [None]. *)

Definition array_get {A} (a : list A) (i : Z) : option A :=
  if 0 <=? i then a !! Z.to_nat i else None.

Definition array_set {A} (a : list A) (i : Z) (x : A) : option (list A) :=
  if (0 <=? i) && (i <? Z.of_nat (length a))
  then Some (<[Z.to_nat i := x]> a) else None.

(** ** Lists *)

(** The list without the first occurrence of an element. *)
Fixpoint remove_first {A} `{EqDecision A} (x : A) (l : list A) : list A :=
  match l with
  | [] => []
  | y :: l => if decide (x = y) then l else y :: remove_first x l
  end.

Definition Zsum (l : list Z) : Z := foldr Z.add 0 l.

(** ** Automation *)

Create HintDb mach discriminated.
Create Rewrite HintDb mach.

(** Normal form for hypotheses and goals about booleans and options. *)
Ltac break_bool :=
  repeat match goal with
  | H : (_ && _)%bool = true |- _ => apply andb_true_iff in H as [? ?]
  | H : (_ || _)%bool = false |- _ => apply orb_false_iff in H as [? ?]
  | H : negb _ = true |- _ => apply negb_true_iff in H
  | H : negb _ = false |- _ => apply negb_false_iff in H
  | H : (_ <=? _) = true |- _ => apply Z.leb_le in H
  | H : (_ <=? _) = false |- _ => apply Z.leb_gt in H
  | H : (_ <? _) = true |- _ => apply Z.ltb_lt in H
  | H : (_ <? _) = false |- _ => apply Z.ltb_ge in H
  | H : (_ >=? _) = _ |- _ => rewrite Z.geb_leb in H
  | H : (_ >? _) = _ |- _ => rewrite Z.gtb_ltb in H
  | H : (_ =? _) = true |- _ => apply Z.eqb_eq in H
  | H : (_ =? _) = false |- _ => apply Z.eqb_neq in H
  end.

(** Case analysis on the first conditional or match of the goal. *)
Ltac split_cond :=
  match goal with
  | |- context [if ?b then _ else _] => destruct b eqn:?; break_bool
  end.

(** ** Lemmas on machine integers *)

Lemma wrap_bound w z : 0 <= w -> 0 <= wrap w z < 2 ^ w.
Proof. intros Hw. apply Z.mod_pos_bound. lia. Qed.

Lemma wrap_small w z : in_width w z -> wrap w z = z.
Proof. intros Hz. by apply Z.mod_small. Qed.

Lemma wrap_wrap w z : wrap w (wrap w z) = wrap w z.
Proof. apply Zmod_mod. Qed.

Lemma wrap_add_l w a b : wrap w (wrap w a + b) = wrap w (a + b).
Proof. apply Zplus_mod_idemp_l. Qed.

Lemma wrap_add_r w a b : wrap w (a + wrap w b) = wrap w (a + b).
Proof. apply Zplus_mod_idemp_r. Qed.

Lemma wrap_sub_l w a b : wrap w (wrap w a - b) = wrap w (a - b).
Proof. apply Zminus_mod_idemp_l. Qed.

Lemma wrap_sub_r w a b : wrap w (a - wrap w b) = wrap w (a - b).
Proof. apply Zminus_mod_idemp_r. Qed.

Lemma u64_bound z : 0 <= u64 z < 2 ^ 64.
Proof. by apply wrap_bound. Qed.

Lemma u64_small z : 0 <= z < 2 ^ 64 -> u64 z = z.
Proof. intros Hz. by apply wrap_small. Qed.

Lemma u64_u64 z : u64 (u64 z) = u64 z.
Proof. apply wrap_wrap. Qed.

Lemma u64_add_l a b : u64 (u64 a + b) = u64 (a + b).
Proof. apply wrap_add_l. Qed.

Lemma u64_add_r a b : u64 (a + u64 b) = u64 (a + b).
Proof. apply wrap_add_r. Qed.

Lemma u64_sub_l a b : u64 (u64 a - b) = u64 (a - b).
Proof. apply wrap_sub_l. Qed.

Lemma u64_sub_r a b : u64 (a - u64 b) = u64 (a - b).
Proof. apply wrap_sub_r. Qed.

(** Differences of wrapped counters are exact while the true difference fits
    the width: the arithmetic every free-running ring index relies on. *)
Lemma u64_diff_exact a b :
  0 <= a - b < 2 ^ 64 -> u64 (u64 a - u64 b) = a - b.
Proof. intros H. rewrite u64_sub_l, u64_sub_r. by apply u64_small. Qed.

#[export] Hint Rewrite u64_u64 u64_add_l u64_add_r u64_sub_l u64_sub_r : mach.
#[export] Hint Resolve u64_bound : mach.

(** Proves [u64 a = u64 b] for sums [a] and [b] with wraps inside, from their
    quotients and remainders by the modulus. *)
Ltac u64_congr := unfold u64, wrap in *; Z.to_euclidean_division_equations; lia.

(** Remove inner wraps. *)
Ltac unwrap := autorewrite with mach.

(** ** Powers of two and masks *)

(** A positive [size_t] value passes the [static_assert] exactly when it is a
    power of two. *)
Lemma pow2_check_spec n :
  0 < n < 2 ^ 64 ->
  pow2_check n = true <-> exists k, 0 <= k < 64 /\ n = 2 ^ k.
Proof.
  intros Hn. unfold pow2_check. rewrite u64_small by lia. split.
  - intros Hl%Z.eqb_eq. exists (Z.log2 n).
    pose proof (Z.log2_spec n ltac:(lia)) as Hlog.
    pose proof (Z.log2_nonneg n) as Hnn.
    assert (Z.log2 n < 64) by (apply Z.log2_lt_pow2; lia).
    split; [lia|]. destruct (decide (n = 2 ^ Z.log2 n)) as [|Hne]; [done|exfalso].
    assert (Z.testbit (Z.land n (n - 1)) (Z.log2 n) = true) as Ht.
    { rewrite Z.land_spec, Z.bit_log2 by lia. simpl.
      assert (Z.log2 (n - 1) = Z.log2 n) as <-.
      { apply Z.log2_unique; lia. }
      apply Z.bit_log2. lia. }
    by rewrite Hl, Z.bits_0 in Ht.
  - intros (k & Hk & ->). apply Z.eqb_eq.
    rewrite Z.sub_1_r, <- Z.ones_equiv.
    rewrite Z.land_ones by lia. apply Z_mod_same_full.
Qed.

Lemma pow2_check_zero : pow2_check 0 = true.
Proof. reflexivity. Qed.

(** A power of two that is a [size_t] value divides the modulus of [size_t]. *)
Lemma pow2_divides_u64 n :
  0 < n < 2 ^ 64 -> pow2_check n = true -> (n | 2 ^ 64).
Proof.
  intros Hn Hp. apply pow2_check_spec in Hp as (k & Hk & ->); [|done].
  exists (2 ^ (64 - k)). rewrite <- Z.pow_add_r by lia. f_equal. lia.
Qed.

(** Masking with [n - 1] is reduction modulo [n]. *)
Lemma land_mask n z :
  0 < n < 2 ^ 64 -> pow2_check n = true -> Z.land z (n -₆₄ 1) = z mod n.
Proof.
  intros Hn Hp. rewrite u64_small by lia.
  apply pow2_check_spec in Hp as (k & Hk & ->); [|done].
  rewrite Z.sub_1_r, <- Z.ones_equiv. apply Z.land_ones. lia.
Qed.

(** Reducing a wrapped counter modulo a divisor of the modulus forgets the
    wrap: the slot of a ring index survives the overflow of the index. *)
Lemma u64_mod_divisor n z : (n | 2 ^ 64) -> u64 z mod n = z mod n.
Proof. intros Hd. by apply Z.mod_mod_divide. Qed.

(** Two indices less than [n] apart fall on the same slot only when equal. *)
Lemma mod_window_inj n a b :
  0 < n -> a <= b < a + n -> a mod n = b mod n -> a = b.
Proof.
  intros Hn Hab Hm.
  assert ((b - a) mod n = 0) as H0 by (rewrite Zminus_mod, Hm, Z.sub_diag; apply Zmod_0_l).
  rewrite Z.mod_small in H0; lia.
Qed.

(** ** Lemmas on arrays *)

Lemma array_get_Some {A} (a : list A) i x :
  array_get a i = Some x <-> 0 <= i /\ a !! Z.to_nat i = Some x.
Proof.
  unfold array_get. split_cond; (split; [|intros [? ?]]); done || lia.
Qed.

Lemma array_get_is_Some {A} (a : list A) i :
  is_Some (array_get a i) <-> 0 <= i < Z.of_nat (length a).
Proof.
  unfold array_get. split_cond; rewrite ?lookup_lt_is_Some; split; intros H; try lia.
  by destruct H.
Qed.

Lemma array_set_Some {A} (a : list A) i x b :
  array_set a i x = Some b <->
  0 <= i < Z.of_nat (length a) /\ b = <[Z.to_nat i := x]> a.
Proof.
  unfold array_set. split_cond.
  - split; [intros [= <-]; split; [lia|done]|intros [_ ->]; done].
  - split; [done|]. intros [? _]. apply andb_false_iff in Heqb0. lia.
Qed.

Lemma array_set_in {A} (a : list A) i x :
  0 <= i < Z.of_nat (length a) ->
  array_set a i x = Some (<[Z.to_nat i := x]> a).
Proof. intros Hi. by apply array_set_Some. Qed.

Lemma array_get_set_eq {A} (a b : list A) i x :
  array_set a i x = Some b -> array_get b i = Some x.
Proof.
  intros [Hi ->]%array_set_Some. apply array_get_Some. split; [lia|].
  apply list_lookup_insert_eq. lia.
Qed.

Lemma array_get_set_ne {A} (a b : list A) i j x :
  array_set a i x = Some b -> i <> j -> array_get b j = array_get a j.
Proof.
  intros [Hi ->]%array_set_Some Hne. unfold array_get. split_cond; [|done].
  apply list_lookup_insert_ne. lia.
Qed.

Lemma array_set_length {A} (a b : list A) i x :
  array_set a i x = Some b -> length b = length a.
Proof. intros [_ ->]%array_set_Some. apply length_insert. Qed.

#[export] Hint Resolve array_get_set_eq array_get_set_ne array_set_length : mach.

(** ** Step relations *)

(** Rule induction for invariants: what one step preserves, every finite run
    preserves. *)
Lemma rtc_preserves {A} (R : relation A) (P : A -> Prop) x y :
  (forall a b, R a b -> P a -> P b) -> rtc R x y -> P x -> P y.
Proof. intros HR Hr. induction Hr; eauto. Qed.

(** ** Lemmas on lists *)

Lemma remove_first_perm {A} `{EqDecision A} (x : A) (l : list A) :
  x ∈ l -> l ≡ₚ x :: remove_first x l.
Proof.
  induction l as [|y l IH]; simpl; [by intros ?%elem_of_nil|].
  case_decide as Hxy; [by subst|]. intros [?|Hin]%elem_of_cons; [done|].
  rewrite (IH Hin) at 1. apply Permutation_swap.
Qed.

Lemma Zsum_app l k : Zsum (l ++ k) = Zsum l + Zsum k.
Proof. induction l as [|x l IH]; simpl; lia. Qed.

#[export] Instance Zsum_Permutation : Proper ((≡ₚ) ==> (=)) Zsum.
Proof. induction 1; simpl; lia. Qed.

Lemma filter_all {A} (P : A -> Prop) `{forall x, Decision (P x)} (l : list A) :
  Forall P l -> filter P l = l.
Proof. induction 1 as [|x l Hx Hl IH]; [done|]. by rewrite filter_cons_True, IH. Qed.

Lemma filter_none {A} (P : A -> Prop) `{forall x, Decision (P x)} (l : list A) :
  Forall (fun x => ~ P x) l -> filter P l = [].
Proof. induction 1 as [|x l Hx Hl IH]; [done|]. by rewrite filter_cons_False, IH. Qed.

#[export] Instance remove_dups_Permutation {A} `{EqDecision A} :
  Proper ((≡ₚ) ==> (≡ₚ)) (@remove_dups A _).
Proof.
  intros l k Hlk. apply NoDup_Permutation; [apply NoDup_remove_dups..|].
  intros x. by rewrite !elem_of_remove_dups, Hlk.
Qed.

Lemma StronglySorted_weaken {A} (R R' : A -> A -> Prop) (l : list A) :
  (forall a b, R a b -> R' a b) -> StronglySorted R l -> StronglySorted R' l.
Proof.
  intros HR. induction 1 as [|a l Hl IH Ha]; constructor; [done|].
  eapply Forall_impl; [exact Ha|]. intros b. apply HR.
Qed.

(** ** Sums over maps *)

Definition map_sum `{Countable K} {V} (f : V -> Z) (m : gmap K V) : Z :=
  Zsum ((fun x => f x.2) <$> map_to_list m).

Lemma map_sum_insert_fresh `{Countable K} {V} (f : V -> Z) (m : gmap K V) k v :
  m !! k = None -> map_sum f (<[k := v]> m) = f v + map_sum f m.
Proof. intros Hk. unfold map_sum. by rewrite map_to_list_insert. Qed.

Lemma map_sum_insert `{Countable K} {V} (f : V -> Z) (m : gmap K V) k v :
  map_sum f (<[k := v]> m) = map_sum f m - default 0 (f <$> m !! k) + f v.
Proof.
  destruct (m !! k) as [w|] eqn:Hk.
  - rewrite <- insert_delete_eq, map_sum_insert_fresh by apply lookup_delete_eq.
    rewrite <- (insert_delete_id m k w Hk) at 2.
    rewrite map_sum_insert_fresh by apply lookup_delete_eq. simpl. lia.
  - rewrite map_sum_insert_fresh by done. simpl. lia.
Qed.

(** A 64-bit accumulator over a list. *)
Lemma fold_left_u64 {A} (f : A -> Z) (l : list A) n :
  fold_left (fun n x => n +₆₄ f x) l (u64 n) = u64 (n + Zsum (f <$> l)).
Proof.
  revert n. induction l as [|x l IH]; intros n.
  - cbn. by rewrite Z.add_0_r.
  - cbn [fold_left]. rewrite u64_add_l, IH, fmap_cons. f_equal. unfold Zsum. cbn [foldr]. lia.
Qed.
