(* ===== verification/SpscRing.v ===== *)
(** * SpscRing: the ring buffer of src/dpdk_sim/spsc_ring.h

    The class template [SpscRing<T, Capacity>] as a record of its two free
    running 64-bit counters and its array, with one function per method; the
    methods are the sequential (one call at a time) semantics, their
    interleavings are in SpscConcurrent.  The abstract specification is a
    bounded FIFO queue ([Fifo]); [repr] relates the two and every method is
    shown to refine its abstract counterpart, across the overflow of the
    counters. *)

From S2P Require Import Prelude.

(** ** The abstract specification: a FIFO queue of bounded length *)

Module Fifo.

Definition enqueue {T} (cap : Z) (x : T) (q : list T) : bool * list T :=
  if Z.of_nat (length q) <? cap then (true, q ++ [x]) else (false, q).

Definition dequeue {T} (q : list T) : option T * list T :=
  match q with
  | [] => (None, [])
  | x :: q' => (Some x, q')
  end.

(** Accepts the longest prefix of the burst that fits. *)
Definition enqueue_burst {T} (cap : Z) (xs : list T) (q : list T) : Z * list T :=
  let cnt := Z.min (Z.of_nat (length xs)) (cap - Z.of_nat (length q)) in
  (cnt, q ++ take (Z.to_nat cnt) xs).

(** Hands out the first [n] elements, or all of them. *)
Definition dequeue_burst {T} (n : Z) (q : list T) : list T * list T :=
  (take (Z.to_nat n) q, drop (Z.to_nat n) q).

End Fifo.

(** The contract of the template parameter: what the [static_assert] checks
    (and that [Capacity] is a positive [size_t]). *)
Class ValidCapacity (c : Z) : Prop := {
  vc_range : 0 < c < 2 ^ 64;
  vc_pow2 : pow2_check c = true
}.

(** ** The class template *)

Module Ring.

Record SpscRing (T : Type) : Type := MkRing {
  head_ : Z;      (** std::atomic<size_t>, written by the producer *)
  tail_ : Z;      (** std::atomic<size_t>, written by the consumer *)
  data_ : list T  (** std::array<T, Capacity> *)
}.
Arguments MkRing {T} _ _ _.
Arguments head_ {T} _.
Arguments tail_ {T} _.
Arguments data_ {T} _.

Section Methods.
Context {T : Type} (Capacity : Z).

Definition MASK : Z := Capacity -₆₄ 1.

(** [SpscRing() = default]: zero counters, value-initialised array. *)
Definition new_ring (dflt : T) : SpscRing T :=
  MkRing 0 0 (replicate (Z.to_nat Capacity) dflt).

Definition enqueue (item : T) (r : SpscRing T) : option (bool * SpscRing T) :=
  let h := head_ r in
  let t := tail_ r in
  if (h -₆₄ t) >=? Capacity then Some (false, r)
  else
    d ← array_set (data_ r) (Z.land h MASK) item;
    Some (true, MkRing (h +₆₄ 1) t d).

(** [item] is the caller's variable, returned as the call leaves it. *)
Definition dequeue (item : T) (r : SpscRing T)
  : option (bool * T * SpscRing T) :=
  let t := tail_ r in
  let h := head_ r in
  if t =? h then Some (false, item, r)
  else
    x ← array_get (data_ r) (Z.land t MASK);
    Some (true, x, MkRing h (t +₆₄ 1) (data_ r)).

(** [for (i = 0; i < cnt; ++i) data_[(h + i) & MASK] = items[i]], with [k]
    iterations left. *)
Fixpoint store_loop (k : nat) (i h : Z) (items : list T) (d : list T)
  : option (list T) :=
  match k with
  | O => Some d
  | S k' =>
      x ← array_get items i;
      d' ← array_set d (Z.land (h +₆₄ i) MASK) x;
      store_loop k' (i + 1) h items d'
  end.

Definition enqueue_burst (items : list T) (n : Z) (r : SpscRing T)
  : option (Z * SpscRing T) :=
  let h := head_ r in
  let t := tail_ r in
  let free := Capacity -₆₄ (h -₆₄ t) in
  let cnt := if n <? free then n else free in
  d ← store_loop (Z.to_nat cnt) 0 h items (data_ r);
  Some (cnt, MkRing (h +₆₄ cnt) t d).

(** [for (i = 0; i < cnt; ++i) items[i] = data_[(t + i) & MASK]]. *)
Fixpoint load_loop (k : nat) (i t : Z) (items : list T) (d : list T)
  : option (list T) :=
  match k with
  | O => Some items
  | S k' =>
      x ← array_get d (Z.land (t +₆₄ i) MASK);
      items' ← array_set items i x;
      load_loop k' (i + 1) t items' d
  end.

(** [items] is the caller's buffer, returned as the call leaves it. *)
Definition dequeue_burst (items : list T) (n : Z) (r : SpscRing T)
  : option (Z * list T * SpscRing T) :=
  let t := tail_ r in
  let h := head_ r in
  let avail := h -₆₄ t in
  let cnt := if n <? avail then n else avail in
  items' ← load_loop (Z.to_nat cnt) 0 t items (data_ r);
  Some (cnt, items', MkRing h (t +₆₄ cnt) (data_ r)).

Definition size (r : SpscRing T) : Z := head_ r -₆₄ tail_ r.
Definition empty (r : SpscRing T) : bool := size r =? 0.
Definition full (r : SpscRing T) : bool := size r >=? Capacity.
Definition capacity : Z := Capacity.

(** ** The representation relation

    The ring [r] holds the queue [q]: the counters are 64-bit values whose
    difference is the length of [q], and the [i]-th element of [q] is in the
    slot of index [tail_ + i]. *)
Record repr (r : SpscRing T) (q : list T) : Prop := {
  repr_head : head_ r = tail_ r +₆₄ Z.of_nat (length q);
  repr_tail : in_width 64 (tail_ r);
  repr_data : Z.of_nat (length (data_ r)) = Capacity;
  repr_fits : Z.of_nat (length q) <= Capacity;
  repr_slot : forall i x, q !! i = Some x ->
    array_get (data_ r) (Z.land (tail_ r +₆₄ Z.of_nat i) MASK) = Some x
}.

End Methods.

(** ** Slots *)

Section Refinement.
Context {T : Type} (Capacity : Z) `{HC : !ValidCapacity Capacity}.
Implicit Types (r : SpscRing T) (q : list T).

(** The slot of a (possibly wrapped) index is the index modulo the capacity. *)
Lemma slot_mod z : Z.land (u64 z) (MASK Capacity) = z mod Capacity.
Proof.
  unfold MASK. rewrite land_mask by apply HC.
  apply u64_mod_divisor, pow2_divides_u64; apply HC.
Qed.

Lemma slot_bound z : 0 <= z mod Capacity < Capacity.
Proof. apply Z.mod_pos_bound. apply vc_range. Qed.

(** In-bounds accesses: the mask keeps every index inside [data_]. *)
Lemma slot_set (d : list T) z x :
  Z.of_nat (length d) = Capacity ->
  array_set d (z mod Capacity) x = Some (<[Z.to_nat (z mod Capacity) := x]> d).
Proof. intros Hd. apply array_set_in. rewrite Hd. apply slot_bound. Qed.

Lemma slot_get (d : list T) z :
  Z.of_nat (length d) = Capacity -> is_Some (array_get d (z mod Capacity)).
Proof. intros Hd. apply array_get_is_Some. rewrite Hd. apply slot_bound. Qed.

Lemma slot_ne a b :
  a < b < a + Capacity -> a mod Capacity <> b mod Capacity.
Proof.
  intros Hab Heq. pose proof (vc_range (c := Capacity)).
  apply mod_window_inj in Heq; lia.
Qed.

Lemma repr_size r q : repr Capacity r q -> head_ r -₆₄ tail_ r = Z.of_nat (length q).
Proof.
  intros [Hh Ht _ Hf _]. pose proof (vc_range (c := Capacity)).
  rewrite Hh, u64_sub_l. replace (_ - _) with (Z.of_nat (length q)) by lia.
  apply u64_small. lia.
Qed.

Lemma repr_head_u64 r q : repr Capacity r q -> u64 (head_ r) = head_ r.
Proof. intros [-> _ _ _ _]. apply u64_u64. Qed.

Lemma repr_tail_u64 r q : repr Capacity r q -> u64 (tail_ r) = tail_ r.
Proof. intros [_ Ht _ _ _]. by apply u64_small. Qed.

(** The slot of the next write, from the tail. *)
Lemma repr_head_slot r q :
  repr Capacity r q ->
  Z.land (head_ r) (MASK Capacity) = (tail_ r + Z.of_nat (length q)) mod Capacity.
Proof. intros Hr. rewrite (repr_head _ _ _ Hr). apply slot_mod. Qed.

Lemma repr_tail_slot r q :
  repr Capacity r q -> Z.land (tail_ r) (MASK Capacity) = tail_ r mod Capacity.
Proof. intros Hr. rewrite <- (repr_tail_u64 _ _ Hr) at 1. apply slot_mod. Qed.

(** ** The loops of the burst methods *)

Lemma store_loop_spec k i h (items d : list T) :
  Z.of_nat (length d) = Capacity ->
  0 <= i -> i + Z.of_nat k <= Z.of_nat (length items) ->
  Z.of_nat k <= Capacity ->
  exists d', store_loop Capacity k i h items d = Some d' /\
    length d' = length d /\
    (forall j, i <= j < i + Z.of_nat k ->
       array_get d' ((h + j) mod Capacity) = items !! Z.to_nat j) /\
    (forall s, (forall j, i <= j < i + Z.of_nat k -> (h + j) mod Capacity <> s) ->
       array_get d' s = array_get d s).
Proof.
  revert i d. induction k as [|k IH]; intros i d Hd Hi Hik Hk; simpl.
  { exists d. repeat split; auto. intros j. lia. }
  destruct (proj2 (array_get_is_Some items i)) as [x Hx]; [lia|].
  rewrite Hx; simpl. rewrite slot_mod, slot_set by done; simpl.
  set (d1 := <[_:=_]> d).
  assert (array_set d ((h + i) mod Capacity) x = Some d1) as Hset by by apply slot_set.
  destruct (IH (i + 1) d1) as (d' & Hl & Hlen & Hin & Hout);
    [unfold d1; by rewrite length_insert|lia..|].
  exists d'. split; [done|]. split; [by rewrite Hlen; unfold d1; rewrite length_insert|].
  assert (forall j, i + 1 <= j < i + 1 + Z.of_nat k ->
            (h + j) mod Capacity <> (h + i) mod Capacity) as Hne.
  { intros j Hj Heq. symmetry in Heq. revert Heq. apply slot_ne. lia. }
  split.
  - intros j Hj. destruct (decide (j = i)) as [->|Hji].
    + rewrite Hout by done. rewrite (array_get_set_eq _ _ _ _ Hset).
      by apply array_get_Some in Hx as [_ ->].
    + apply Hin. lia.
  - intros s Hs. rewrite Hout by (intros j Hj; apply Hs; lia).
    eapply array_get_set_ne; [done|]. apply Hs. lia.
Qed.

Lemma load_loop_spec k i t (items d : list T) :
  Z.of_nat (length d) = Capacity ->
  0 <= i -> i + Z.of_nat k <= Z.of_nat (length items) ->
  exists items', load_loop Capacity k i t items d = Some items' /\
    length items' = length items /\
    (forall j, i <= j < i + Z.of_nat k ->
       items' !! Z.to_nat j = array_get d ((t + j) mod Capacity)) /\
    (forall j, 0 <= j -> j < i \/ i + Z.of_nat k <= j ->
       items' !! Z.to_nat j = items !! Z.to_nat j).
Proof.
  revert i items. induction k as [|k IH]; intros i items Hd Hi Hik; simpl.
  { exists items. repeat split; auto. intros j. lia. }
  rewrite slot_mod. destruct (slot_get d (t + i) Hd) as [x Hx]. rewrite Hx; simpl.
  rewrite array_set_in by lia; simpl.
  destruct (IH (i + 1) (<[Z.to_nat i:=x]> items)) as (r & Hl & Hlen & Hin & Hout);
    [done|lia|rewrite length_insert; lia|].
  exists r. split; [done|]. split; [by rewrite Hlen, length_insert|]. split.
  - intros j Hj. destruct (decide (j = i)) as [->|Hji]; [|apply Hin; lia].
    rewrite Hout by lia. rewrite Hx. apply list_lookup_insert_eq. lia.
  - intros j Hj0 Hj. rewrite Hout by lia. apply list_lookup_insert_ne. lia.
Qed.

(** ** Every method refines the bounded queue *)

Lemma new_ring_repr (dflt : T) : repr Capacity (new_ring Capacity dflt) [].
Proof.
  pose proof (vc_range (c := Capacity)). split; simpl.
  - reflexivity.
  - done.
  - rewrite length_replicate. lia.
  - lia.
  - intros i x Hi. by rewrite lookup_nil in Hi.
Qed.

Lemma enqueue_repr item r q :
  repr Capacity r q ->
  exists r', enqueue Capacity item r = Some ((Fifo.enqueue Capacity item q).1, r') /\
    repr Capacity r' (Fifo.enqueue Capacity item q).2.
Proof.
  intros Hr. unfold enqueue, Fifo.enqueue. rewrite (repr_size _ _ Hr), Z.geb_leb.
  destruct (Z.ltb_spec (Z.of_nat (length q)) Capacity) as [Hlt|Hge]; simpl.
  2:{ rewrite (proj2 (Z.leb_le _ _)) by lia. eauto. }
  rewrite (proj2 (Z.leb_gt _ _)) by lia.
  rewrite (repr_head_slot _ _ Hr).
  destruct Hr as [Hh Ht Hd Hf Hs]. rewrite slot_set by done; simpl.
  set (d := <[_:=item]> (data_ r)).
  assert (array_set (data_ r) ((tail_ r + Z.of_nat (length q)) mod Capacity) item = Some d)
    as Hset by by apply slot_set.
  eexists. split; [done|]. split; simpl.
  - rewrite Hh, length_app, u64_add_l. f_equal. simpl. lia.
  - done.
  - unfold d. by rewrite length_insert.
  - rewrite length_app. simpl. lia.
  - intros i x Hi. rewrite slot_mod. apply lookup_app_Some in Hi as [Hi|[Hle Hi]].
    + rewrite (array_get_set_ne _ _ _ _ _ Hset).
      * rewrite <- slot_mod. by apply Hs.
      * apply lookup_lt_Some in Hi. intros Heq. symmetry in Heq. revert Heq.
        apply slot_ne. lia.
    + apply list_lookup_singleton_Some in Hi as [Hi ->].
      replace (Z.of_nat i) with (Z.of_nat (length q)) by lia.
      by apply array_get_set_eq in Hset.
Qed.

Lemma dequeue_repr item r q :
  repr Capacity r q ->
  exists r', dequeue Capacity item r =
      Some (bool_decide (q <> []), default item (Fifo.dequeue q).1, r') /\
    repr Capacity r' (Fifo.dequeue q).2.
Proof.
  intros Hr. unfold dequeue. pose proof (repr_size _ _ Hr) as Hsz.
  destruct q as [|x q]; simpl in *.
  { assert (tail_ r = head_ r) as Heq.
    { rewrite (repr_head _ _ _ Hr), Z.add_0_r. symmetry. by eapply repr_tail_u64. }
    rewrite (proj2 (Z.eqb_eq _ _)) by done. exists r. by split. }
  destruct (Z.eqb_spec (tail_ r) (head_ r)) as [Heq|_].
  { rewrite Heq, Z.sub_diag in Hsz. done. }
  rewrite (repr_tail_slot _ _ Hr). destruct Hr as [Hh Ht Hd Hf Hs].
  pose proof (Hs 0%nat x eq_refl) as Hx. rewrite Z.add_0_r, slot_mod in Hx.
  rewrite Hx. simpl. eexists. split; [done|]. split; simpl.
  - rewrite Hh, u64_add_l. f_equal. simpl. lia.
  - apply u64_bound.
  - done.
  - simpl in Hf. lia.
  - intros i y Hi. rewrite u64_add_l. rewrite <- (Hs (S i) y Hi). do 3 f_equal. lia.
Qed.

Lemma enqueue_burst_repr (items : list T) n r q :
  repr Capacity r q ->
  0 <= n <= Z.of_nat (length items) ->
  exists r', enqueue_burst Capacity items n r =
      Some ((Fifo.enqueue_burst Capacity (take (Z.to_nat n) items) q).1, r') /\
    repr Capacity r' (Fifo.enqueue_burst Capacity (take (Z.to_nat n) items) q).2.
Proof.
  intros Hr Hn. unfold enqueue_burst, Fifo.enqueue_burst; simpl.
  pose proof (vc_range (c := Capacity)) as HCap.
  rewrite (repr_size _ _ Hr), length_take.
  destruct Hr as [Hh Ht Hd Hf Hs].
  rewrite (u64_small (Capacity - _)) by lia.
  replace (if n <? _ then _ else _) with
    (Z.min (Z.of_nat (Z.to_nat n `min` length items)) (Capacity - Z.of_nat (length q)))
    by (destruct (Z.ltb_spec n (Capacity - Z.of_nat (length q))); lia).
  set (cnt := Z.min _ _).
  destruct (store_loop_spec (Z.to_nat cnt) 0 (head_ r) items (data_ r))
    as (d & Hl & Hlen & Hin & Hout); [done|lia..|].
  rewrite Hl. simpl. eexists. split; [done|].
  rewrite take_take. replace (Z.to_nat cnt `min` _)%nat with (Z.to_nat cnt) by lia.
  split; simpl.
  - rewrite Hh, length_app, length_take, u64_add_l. f_equal. lia.
  - done.
  - by rewrite Hlen.
  - rewrite length_app, length_take. lia.
  - intros i x Hi. rewrite slot_mod.
    assert (forall j, (head_ r + j) mod Capacity =
              (tail_ r + Z.of_nat (length q) + j) mod Capacity) as Hslot.
    { intros j. rewrite <- !slot_mod, Hh. by rewrite u64_add_l. }
    apply lookup_app_Some in Hi as [Hi|[Hle Hi]].
    + rewrite Hout; [by rewrite <- slot_mod; apply Hs|].
      intros j Hj. rewrite Hslot. apply lookup_lt_Some in Hi. intros Heq.
      symmetry in Heq. revert Heq. apply slot_ne. lia.
    + assert (i - length q < Z.to_nat cnt)%nat
        by (apply lookup_lt_Some in Hi; rewrite length_take in Hi; lia).
      rewrite lookup_take in Hi by lia. rewrite decide_True in Hi by lia.
      rewrite <- Hi, <- (Nat2Z.id (i - length q)), <- (Hin (Z.of_nat (i - length q))) by lia.
      rewrite Hslot. do 2 f_equal. lia.
Qed.

Lemma dequeue_burst_repr (items : list T) n r q :
  repr Capacity r q ->
  0 <= n -> Z.min n (Z.of_nat (length q)) <= Z.of_nat (length items) ->
  let (xs, q') := Fifo.dequeue_burst n q in
  exists r', dequeue_burst Capacity items n r =
      Some (Z.of_nat (length xs), xs ++ drop (length xs) items, r') /\
    repr Capacity r' q'.
Proof.
  intros Hr Hn0 Hn. unfold dequeue_burst, Fifo.dequeue_burst.
  rewrite (repr_size _ _ Hr), length_take. destruct Hr as [Hh Ht Hd Hf Hs].
  replace (if n <? _ then _ else _) with (Z.of_nat (Z.to_nat n `min` length q))
    by (destruct (Z.ltb_spec n (Z.of_nat (length q))); lia).
  set (cnt := (Z.to_nat n `min` length q)%nat). rewrite Nat2Z.id.
  destruct (load_loop_spec cnt 0 (tail_ r) items (data_ r))
    as (its & Hl & Hlen & Hin & Hout); [done|lia..|].
  rewrite Hl. simpl.
  assert (its = take (Z.to_nat n) q ++ drop cnt items) as ->.
  { apply list_eq. intros j. destruct (decide (j < cnt)%nat) as [Hj|Hj].
    - rewrite lookup_app_l by (rewrite length_take; lia).
      rewrite lookup_take, decide_True by lia.
      rewrite <- (Nat2Z.id j) at 1. rewrite Hin by lia.
      destruct (lookup_lt_is_Some_2 q j) as [x Hx]; [lia|].
      rewrite Hx, <- slot_mod. by apply Hs.
    - rewrite lookup_app_r by (rewrite length_take; lia).
      rewrite lookup_drop, length_take.
      rewrite <- (Nat2Z.id j) at 1. rewrite Hout by lia. f_equal. lia. }
  eexists. split; [done|]. split; simpl.
  - rewrite Hh, length_drop, u64_add_l. f_equal. lia.
  - apply u64_bound.
  - done.
  - rewrite length_drop. lia.
  - intros i x Hi. rewrite lookup_drop in Hi. rewrite u64_add_l.
    rewrite <- (Hs _ _ Hi). do 3 f_equal.
    apply lookup_lt_Some in Hi. lia.
Qed.

(** The queries report the abstract queue. *)
Lemma queries_repr r q :
  repr Capacity r q ->
  size r = Z.of_nat (length q) /\
  empty r = bool_decide (q = []) /\
  full Capacity r = bool_decide (Z.of_nat (length q) = Capacity).
Proof.
  intros Hr. unfold empty, full, size. rewrite (repr_size _ _ Hr).
  split; [done|]. split.
  - case_bool_decide as Hq; [by subst|]. apply Z.eqb_neq. destruct q; simpl; [done|lia].
  - rewrite Z.geb_leb. pose proof (repr_fits _ _ _ Hr).
    case_bool_decide; [apply Z.leb_le|apply Z.leb_gt]; lia.
Qed.

End Refinement.

(** ** Sequences of calls *)

Inductive op (T : Type) : Type :=
| Enqueue (x : T)
| Dequeue
| EnqueueBurst (xs : list T)
| DequeueBurst (n : nat).
Arguments Enqueue {T} _.
Arguments Dequeue {T}.
Arguments EnqueueBurst {T} _.
Arguments DequeueBurst {T} _.

(** What a call returns to its caller: a success flag, a count, or elements. *)
Inductive res (T : Type) : Type :=
| RFlag (b : bool)
| RItem (x : option T)
| RCount (n : Z)
| RItems (xs : list T).
Arguments RFlag {T} _.
Arguments RItem {T} _.
Arguments RCount {T} _.
Arguments RItems {T} _.

Section Runs.
Context {T : Type} (Capacity : Z).

(** One call on the ring.  The caller passes a variable or a buffer of [n]
    elements initialised with [dflt]. *)
Definition call (dflt : T) (o : op T) (r : SpscRing T) : option (res T * SpscRing T) :=
  match o with
  | Enqueue x => '(b, r') ← enqueue Capacity x r; Some (RFlag b, r')
  | Dequeue =>
      '(b, x, r') ← dequeue Capacity dflt r;
      Some (RItem (if (b : bool) then Some x else None), r')
  | EnqueueBurst xs =>
      '(c, r') ← enqueue_burst Capacity xs (Z.of_nat (length xs)) r;
      Some (RCount c, r')
  | DequeueBurst n =>
      '(c, xs, r') ← dequeue_burst Capacity (replicate n dflt) (Z.of_nat n) r;
      Some (RItems (take (Z.to_nat c) xs), r')
  end.

(** The same call on the abstract queue. *)
Definition call_fifo (o : op T) (q : list T) : res T * list T :=
  match o with
  | Enqueue x => let (b, q') := Fifo.enqueue Capacity x q in (RFlag b, q')
  | Dequeue => let (x, q') := Fifo.dequeue q in (RItem x, q')
  | EnqueueBurst xs => let (c, q') := Fifo.enqueue_burst Capacity xs q in (RCount c, q')
  | DequeueBurst n => let (xs, q') := Fifo.dequeue_burst (Z.of_nat n) q in (RItems xs, q')
  end.

Fixpoint run (dflt : T) (os : list (op T)) (r : SpscRing T)
  : option (list (res T) * SpscRing T) :=
  match os with
  | [] => Some ([], r)
  | o :: os =>
      '(x, r1) ← call dflt o r;
      '(xs, r2) ← run dflt os r1;
      Some (x :: xs, r2)
  end.

Fixpoint run_fifo (os : list (op T)) (q : list T) : list (res T) * list T :=
  match os with
  | [] => ([], q)
  | o :: os =>
      let (x, q1) := call_fifo o q in
      let (xs, q2) := run_fifo os q1 in
      (x :: xs, q2)
  end.

Context `{HC : !ValidCapacity Capacity}.

Lemma call_refines dflt o r q :
  repr Capacity r q ->
  exists r', call dflt o r = Some ((call_fifo o q).1, r') /\
    repr Capacity r' (call_fifo o q).2.
Proof.
  intros Hr. destruct o as [x| |xs|n]; cbn [call call_fifo].
  - destruct (enqueue_repr Capacity x r q Hr) as (r' & -> & Hr').
    destruct (Fifo.enqueue Capacity x q). eauto.
  - destruct (dequeue_repr Capacity dflt r q Hr) as (r' & -> & Hr').
    destruct q; by exists r'.
  - destruct (enqueue_burst_repr Capacity xs (Z.of_nat (length xs)) r q Hr) as (r' & Hb & Hr');
      [lia|].
    rewrite Nat2Z.id, firstn_all in Hb, Hr'. rewrite Hb.
    destruct (Fifo.enqueue_burst Capacity xs q). eauto.
  - pose proof (dequeue_burst_repr Capacity (replicate n dflt) (Z.of_nat n) r q Hr) as Hb.
    destruct (Fifo.dequeue_burst (Z.of_nat n) q) as [xs q'].
    destruct Hb as (r' & -> & Hr'); [lia|rewrite length_replicate; lia|].
    simpl. exists r'. split; [|done]. by rewrite Nat2Z.id, take_app_length.
Qed.

Lemma run_refines dflt os r q :
  repr Capacity r q ->
  exists r', run dflt os r = Some ((run_fifo os q).1, r') /\
    repr Capacity r' (run_fifo os q).2.
Proof.
  revert r q. induction os as [|o os IH]; intros r q Hr; simpl; [eauto|].
  destruct (call_refines dflt o r q Hr) as (r1 & -> & Hr1).
  destruct (call_fifo o q) as [x q1]. simpl in *.
  destruct (IH r1 q1 Hr1) as (r2 & -> & Hr2).
  destruct (run_fifo os q1) as [xs q2]. simpl in *. eauto.
Qed.

End Runs.

(** ** Bursts against one call per element *)

Section Each.
Context {T : Type} (Capacity : Z).

(** The burst without amortisation: call [enqueue] until it fails. *)
Fixpoint enqueue_each (items : list T) (r : SpscRing T) : option (Z * SpscRing T) :=
  match items with
  | [] => Some (0, r)
  | x :: items =>
      '(b, r1) ← enqueue Capacity x r;
      if (b : bool) then '(c, r2) ← enqueue_each items r1; Some (c + 1, r2)
      else Some (0, r1)
  end.

(** Call [dequeue] at most [n] times, until it fails. *)
Fixpoint dequeue_each (dflt : T) (n : nat) (r : SpscRing T)
  : option (list T * SpscRing T) :=
  match n with
  | O => Some ([], r)
  | S n =>
      '(b, x, r1) ← dequeue Capacity dflt r;
      if (b : bool) then '(xs, r2) ← dequeue_each dflt n r1; Some (x :: xs, r2)
      else Some ([], r1)
  end.

Context `{HC : !ValidCapacity Capacity}.

Lemma store_loop_shift k i h x (items d : list T) :
  0 <= i ->
  store_loop Capacity k (i + 1) h (x :: items) d =
  store_loop Capacity k i (h +₆₄ 1) items d.
Proof.
  revert i d. induction k as [|k IH]; intros i d Hi; simpl; [done|].
  assert (array_get (x :: items) (i + 1) = array_get items i) as ->.
  { unfold array_get. rewrite !(proj2 (Z.leb_le 0 _)) by lia.
    by replace (Z.to_nat (i + 1)) with (S (Z.to_nat i)) by lia. }
  destruct (array_get items i); simpl; [|done].
  rewrite u64_add_l. replace (h + (i + 1)) with (h + 1 + i) by lia.
  destruct (array_set d _ _); simpl; [|done]. apply IH. lia.
Qed.

Lemma enqueue_each_burst (items : list T) r q :
  repr Capacity r q ->
  enqueue_each items r = enqueue_burst Capacity items (Z.of_nat (length items)) r.
Proof.
  pose proof (vc_range (c := Capacity)) as HCap.
  revert r q. induction items as [|x items IH]; intros r q Hr.
  { unfold enqueue_burst. simpl. rewrite (repr_size _ _ _ Hr).
    rewrite u64_small by (pose proof (repr_fits _ _ _ Hr); lia).
    pose proof (repr_fits _ _ _ Hr).
    change (Z.of_nat 0) with 0.
    assert ((if 0 <? Capacity - Z.of_nat (length q) then 0 else
               Capacity - Z.of_nat (length q)) = 0) as -> by (split_cond; lia).
    simpl. rewrite Z.add_0_r, (repr_head_u64 _ _ _ Hr). by destruct r. }
  cbn [enqueue_each]. destruct (enqueue_repr Capacity x r q Hr) as (r1 & Henq & Hr1).
  pose proof (repr_fits _ _ _ Hr) as Hfit.
  rewrite Henq. unfold Fifo.enqueue in *. cbn [mbind option_bind].
  unfold enqueue, enqueue_burst in *. rewrite (repr_size _ _ _ Hr) in *.
  rewrite Z.geb_leb in Henq.
  rewrite (u64_small (Capacity - _)) by lia. cbn [length].
  destruct (Z.ltb_spec (Z.of_nat (length q)) Capacity) as [Hlt|Hge]; simpl in *.
  2:{ rewrite (proj2 (Z.leb_le _ _)) in Henq by lia. injection Henq as <-.
      replace (Capacity - _) with 0 by lia.
      rewrite (proj2 (Z.ltb_ge _ _)) by lia. simpl.
      rewrite Z.add_0_r, (repr_head_u64 _ _ _ Hr). by destruct r. }
  rewrite (proj2 (Z.leb_gt _ _)) in Henq by lia.
  rewrite (IH _ _ Hr1). unfold enqueue_burst. rewrite (repr_size _ _ _ Hr1).
  rewrite length_app. simpl length.
  rewrite (u64_small (Capacity - _)) by lia.
  set (c1 := if Z.of_nat (length items) <? _ then _ else _).
  replace (if Z.of_nat (S (length items)) <? Capacity - Z.of_nat (length q)
    then Z.of_nat (S (length items)) else Capacity - Z.of_nat (length q)) with (c1 + 1)
    by (unfold c1; repeat split_cond; lia).
  assert (0 <= c1) by (unfold c1; split_cond; lia).
  replace (Z.to_nat (c1 + 1)) with (S (Z.to_nat c1)) by lia. simpl.
  rewrite Z.add_0_r, (repr_head_u64 _ _ _ Hr).
  destruct (array_set (data_ r) _ x) as [d|]; simpl in *; [|done].
  injection Henq as <-. simpl. rewrite (store_loop_shift _ 0) by lia.
  destruct (store_loop Capacity (Z.to_nat c1) 0 _ items d); simpl; [|done].
  do 3 f_equal. rewrite u64_add_l. f_equal. lia.
Qed.

Lemma dequeue_each_eq (dflt : T) n r q :
  repr Capacity r q ->
  dequeue_each dflt n r =
    Some (take n q, MkRing (head_ r) (tail_ r +₆₄ Z.of_nat (n `min` length q)) (data_ r)).
Proof.
  revert r q. induction n as [|n IH]; intros r q Hr; cbn [dequeue_each].
  { simpl. rewrite Z.add_0_r, (repr_tail_u64 _ _ _ Hr). by destruct r. }
  destruct (dequeue_repr Capacity dflt r q Hr) as (r1 & Hdeq & Hr1). rewrite Hdeq.
  destruct q as [|x q]; simpl in *.
  { unfold dequeue in Hdeq. destruct (tail_ r =? head_ r).
    - injection Hdeq as <-. rewrite Z.add_0_r, (repr_tail_u64 _ _ _ Hr). by destruct r.
    - destruct (array_get _ _); simpl in Hdeq; [|done]. by injection Hdeq. }
  rewrite (IH _ _ Hr1). simpl.
  unfold dequeue in Hdeq. destruct (tail_ r =? head_ r); [by injection Hdeq|].
  destruct (array_get _ _); simpl in Hdeq; [|done]. injection Hdeq as -> <-. simpl.
  do 3 f_equal. rewrite u64_add_l. f_equal. lia.
Qed.

Lemma dequeue_burst_each (dflt : T) n r q :
  repr Capacity r q ->
  dequeue_burst Capacity (replicate n dflt) (Z.of_nat n) r =
    ('(xs, r') ← dequeue_each dflt n r;
     Some (Z.of_nat (length xs), xs ++ replicate (n - length xs) dflt, r')).
Proof.
  intros Hr. rewrite (dequeue_each_eq _ _ _ _ Hr). cbn [mbind option_bind].
  pose proof (dequeue_burst_repr Capacity (replicate n dflt) (Z.of_nat n) r q Hr) as Hb.
  unfold Fifo.dequeue_burst in Hb. rewrite Nat2Z.id in Hb.
  destruct Hb as (r' & Hb & _); [lia|rewrite length_replicate; lia|].
  rewrite Hb, drop_replicate, length_take. do 2 f_equal.
  unfold dequeue_burst in Hb. destruct (load_loop _ _ _ _ _ _); simpl in Hb; [|done].
  injection Hb as Hc _ <-. by rewrite Hc, length_take.
Qed.

End Each.

End Ring.

(** Discharges the contract of a closed capacity. *)
Ltac valid_capacity := split; [lia | reflexivity].

(** ** Properties *)

Section Properties.
Context {T : Type} (Capacity : Z) `{HC : !ValidCapacity Capacity}.

(** C1: for every power-of-two capacity, every ring state holding a queue [q]
    (whatever the values of its 64-bit counters, so also across their
    overflow) and every sequence of the four methods, no call leaves the
    bounds of the array, each returns what the bounded FIFO queue returns, and
    the ring ends up holding the queue's final contents. *)
Theorem ring_refines_fifo (dflt : T) os r q :
  Ring.repr Capacity r q ->
  exists r', Ring.run Capacity dflt os r = Some ((Ring.run_fifo Capacity os q).1, r') /\
    Ring.repr Capacity r' (Ring.run_fifo Capacity os q).2.
Proof. apply Ring.run_refines. exact HC. Qed.

(** C28: [enqueue_burst] is [enqueue] called once per item until the ring is
    full: same count, same counters, same array. *)
Theorem enqueue_burst_equiv (items : list T) r q :
  Ring.repr Capacity r q ->
  Ring.enqueue_burst Capacity items (Z.of_nat (length items)) r =
  Ring.enqueue_each Capacity items r.
Proof. intros Hr. symmetry. by eapply Ring.enqueue_each_burst. Qed.

(** [dequeue_burst] into a buffer of [n] elements is [dequeue] called up
    to [n] times until the ring is empty: same elements in the same order,
    same ring, and the rest of the buffer untouched. *)
Theorem dequeue_burst_equiv (dflt : T) n r q :
  Ring.repr Capacity r q ->
  Ring.dequeue_burst Capacity (replicate n dflt) (Z.of_nat n) r =
    ('(xs, r') ← Ring.dequeue_each Capacity dflt n r;
     Some (Z.of_nat (length xs), xs ++ replicate (n - length xs) dflt, r')).
Proof. apply Ring.dequeue_burst_each. exact HC. Qed.

(** [size], [empty] and [full] report the length of the held queue, also
    when the counters have wrapped around. *)
Theorem ring_queries (r : Ring.SpscRing T) (q : list T) :
  Ring.repr Capacity r q ->
  Ring.size r = Z.of_nat (length q) /\
  Ring.empty r = bool_decide (q = []) /\
  Ring.full Capacity r = bool_decide (Z.of_nat (length q) = Capacity).
Proof. apply Ring.queries_repr. exact HC. Qed.

End Properties.

(** A ring of four slots whose [head_] has just overflowed to 0 while [tail_]
    is still the largest [size_t]; it holds the single element 7. *)
Definition wrapped_ring : Ring.SpscRing Z := Ring.MkRing 0 (2 ^ 64 - 1) [0; 0; 0; 7].

Lemma wrapped_ring_repr : Ring.repr 4 wrapped_ring [7].
Proof.
  split; try done. intros [|i] x Hi; [injection Hi as <-; reflexivity|done].
Qed.

Lemma ring_refines_fifo_witness :
  exists r', Ring.run 4 0 [Ring.EnqueueBurst [8; 9; 10; 11]; Ring.Dequeue; Ring.Enqueue 12;
                           Ring.Enqueue 13; Ring.DequeueBurst 5] wrapped_ring =
    Some ([Ring.RCount 3; Ring.RItem (Some 7); Ring.RFlag true; Ring.RFlag false;
           Ring.RItems [8; 9; 10; 12]], r').
Proof.
  destruct (ring_refines_fifo 4 (HC := ltac:(valid_capacity)) 0
    [Ring.EnqueueBurst [8; 9; 10; 11]; Ring.Dequeue; Ring.Enqueue 12;
     Ring.Enqueue 13; Ring.DequeueBurst 5] wrapped_ring [7] wrapped_ring_repr)
    as (r' & Hrun & _).
  exists r'. exact Hrun.
Defined.

Lemma enqueue_burst_equiv_witness :
  Ring.enqueue_burst 4 [1; 2; 3; 4; 5] 5 wrapped_ring =
  Ring.enqueue_each 4 [1; 2; 3; 4; 5] wrapped_ring.
Proof.
  exact (enqueue_burst_equiv 4 (HC := ltac:(valid_capacity)) [1; 2; 3; 4; 5] wrapped_ring [7]
    wrapped_ring_repr).
Defined.

Lemma dequeue_burst_equiv_witness :
  Ring.dequeue_burst 4 (replicate 3 0) 3 wrapped_ring =
    Some (1, [7; 0; 0], Ring.MkRing 0 0 [0; 0; 0; 7]).
Proof.
  exact (dequeue_burst_equiv 4 (HC := ltac:(valid_capacity)) 0 3 wrapped_ring [7]
    wrapped_ring_repr).
Defined.

Lemma ring_queries_witness :
  Ring.size wrapped_ring = 1 /\ Ring.empty wrapped_ring = false /\
  Ring.full 4 wrapped_ring = false.
Proof.
  exact (ring_queries 4 (HC := ltac:(valid_capacity)) wrapped_ring [7] wrapped_ring_repr).
Defined.
