(* ===== verification/SpscConcurrent.v ===== *)
(** * SpscConcurrent: the ring shared by a producer and a consumer thread

    src/dpdk_sim/spsc_ring.h under its intended use: one thread calls
    [enqueue]/[enqueue_burst], another [dequeue]/[dequeue_burst], and their
    shared-memory accesses interleave in any order.

    The memory model is the fragment of C++ release/acquire the code uses.
    Each atomic has one writing thread, so its modification order is the list
    of its stores ([heads], [tails], oldest first).  A thread's own atomic reads
    its last store; a load of the other thread's atomic may return any store
    not older than the one that thread has already seen (coherence), so stale
    values are covered.  A release store publishes everything the thread did
    before it: an access to a slot of [data_] is logged with the number of
    the store that will publish it, and it happens before an access of the
    other thread exactly when that thread has acquired that store or a later
    one.  A non-atomic access that is not ordered after every earlier
    conflicting access of the other thread is a data race, hence undefined
    behaviour, and so is an access outside the array. *)

From S2P Require Import Prelude SpscRing.
Import Ring.

Module Conc.

Inductive mode := Single | Burst.

(** Where the producer is inside [enqueue] (mode [Single], one item) or
    [enqueue_burst]. *)
Inductive ppc (T : Type) : Type :=
| PIdle
| PHead (m : mode) (ins : list T) (h : Z)           (** [head_] loaded *)
| PWrite (ins : list T) (h cnt i : Z).              (** inside the store loop *)
Arguments PIdle {T}.
Arguments PHead {T} _ _ _.
Arguments PWrite {T} _ _ _ _.

(** Where the consumer is inside [dequeue] or [dequeue_burst]. *)
Inductive cpc (T : Type) : Type :=
| CIdle
| CTail (m : mode) (n t : Z)                        (** [tail_] loaded *)
| CRead (t cnt i : Z) (acc : list T).               (** inside the load loop *)
Arguments CIdle {T}.
Arguments CTail {T} _ _ _.
Arguments CRead {T} _ _ _ _.

Record cstate (T : Type) : Type := MkC {
  heads : list Z;             (** modification order of [head_] *)
  tails : list Z;             (** modification order of [tail_] *)
  slots : list T;             (** [data_] *)
  producer : ppc T;
  consumer : cpc T;
  p_seen : nat;               (** last store of [tail_] the producer acquired *)
  c_seen : nat;               (** last store of [head_] the consumer acquired *)
  wlog : list (Z * nat);      (** slots written, with the store publishing it *)
  rlog : list (Z * nat);      (** slots read, with the store publishing it *)
  sent : list T;              (** items of completed enqueues, in order *)
  recvd : list T              (** items of completed dequeues, in order *)
}.
Arguments MkC {T} _ _ _ _ _ _ _ _ _ _ _.
Arguments heads {T} _.
Arguments tails {T} _.
Arguments slots {T} _.
Arguments producer {T} _.
Arguments consumer {T} _.
Arguments p_seen {T} _.
Arguments c_seen {T} _.
Arguments wlog {T} _.
Arguments rlog {T} _.
Arguments sent {T} _.
Arguments recvd {T} _.

(** One shared-memory access (or the start of a call) of one thread; the index
    of a load is the store it reads from. *)
Inductive label (T : Type) : Type :=
| PStart (m : mode) (ins : list T)
| PLoad (j : nat)
| PStore
| PPublish
| CStart (m : mode) (n : nat)
| CLoad (j : nat)
| CFetch
| CPublish.
Arguments PStart {T} _ _.
Arguments PLoad {T} _.
Arguments PStore {T}.
Arguments PPublish {T}.
Arguments CStart {T} _ _.
Arguments CLoad {T} _.
Arguments CFetch {T}.
Arguments CPublish {T}.

Inductive outcome (T : Type) : Type :=
| Disabled                    (** the thread is not at such an access *)
| Undefined                   (** data race or access outside [data_] *)
| Next (s : cstate T).
Arguments Disabled {T}.
Arguments Undefined {T}.
Arguments Next {T} _.

(** Every logged access to slot [a] is published by a store not later than
    number [seen]. *)
Definition ordered (log : list (Z * nat)) (a : Z) (seen : nat) : bool :=
  forallb (fun e => negb (e.1 =? a) || (e.2 <=? seen)%nat) log.

Section Machine.
Context {T : Type} (Capacity : Z).
Implicit Types (s : cstate T).

Definition with_producer s (p : ppc T) : cstate T :=
  MkC (heads s) (tails s) (slots s) p (consumer s) (p_seen s) (c_seen s)
      (wlog s) (rlog s) (sent s) (recvd s).
Definition with_consumer s (c : cpc T) : cstate T :=
  MkC (heads s) (tails s) (slots s) (producer s) c (p_seen s) (c_seen s)
      (wlog s) (rlog s) (sent s) (recvd s).

(** The check after both loads: [None] is the early return of [enqueue]. *)
Definition enqueue_count (m : mode) (n h t : Z) : option Z :=
  match m with
  | Single => if (h -₆₄ t) >=? Capacity then None else Some 1
  | Burst => let free := Capacity -₆₄ (h -₆₄ t) in Some (if n <? free then n else free)
  end.

Definition dequeue_count (m : mode) (n h t : Z) : option Z :=
  match m with
  | Single => if t =? h then None else Some 1
  | Burst => let avail := h -₆₄ t in Some (if n <? avail then n else avail)
  end.

Definition well_formed_call (m : mode) (n : nat) : bool :=
  match m with Single => (n =? 1)%nat | Burst => true end.

Definition step (l : label T) (s : cstate T) : outcome T :=
  match l with
  | PStart m ins =>
      match producer s, last (heads s) with
      | PIdle, Some h =>
          if well_formed_call m (length ins) then Next (with_producer s (PHead m ins h))
          else Disabled
      | _, _ => Disabled
      end
  | PLoad j =>
      match producer s, tails s !! j with
      | PHead m ins h, Some t =>
          if (p_seen s <=? j)%nat then
            let p := match enqueue_count m (Z.of_nat (length ins)) h t with
                     | None => PIdle
                     | Some cnt => PWrite ins h cnt 0
                     end in
            Next (MkC (heads s) (tails s) (slots s) p (consumer s) j (c_seen s)
                      (wlog s) (rlog s) (sent s) (recvd s))
          else Disabled
      | _, _ => Disabled
      end
  | PStore =>
      match producer s with
      | PWrite ins h cnt i =>
          if i <? cnt then
            let a := Z.land (h +₆₄ i) (MASK Capacity) in
            match array_get ins i with
            | None => Undefined
            | Some x =>
                match array_set (slots s) a x with
                | None => Undefined
                | Some d =>
                    if ordered (rlog s) a (p_seen s) then
                      Next (MkC (heads s) (tails s) d (PWrite ins h cnt (i + 1))
                                (consumer s) (p_seen s) (c_seen s)
                                ((a, length (heads s)) :: wlog s) (rlog s)
                                (sent s) (recvd s))
                    else Undefined
                end
            end
          else Disabled
      | _ => Disabled
      end
  | PPublish =>
      match producer s with
      | PWrite ins h cnt i =>
          if i <? cnt then Disabled
          else Next (MkC (heads s ++ [h +₆₄ cnt]) (tails s) (slots s) PIdle (consumer s)
                         (p_seen s) (c_seen s) (wlog s) (rlog s)
                         (sent s ++ take (Z.to_nat cnt) ins) (recvd s))
      | _ => Disabled
      end
  | CStart m n =>
      match consumer s, last (tails s) with
      | CIdle, Some t =>
          if well_formed_call m n then Next (with_consumer s (CTail m (Z.of_nat n) t))
          else Disabled
      | _, _ => Disabled
      end
  | CLoad j =>
      match consumer s, heads s !! j with
      | CTail m n t, Some h =>
          if (c_seen s <=? j)%nat then
            let c := match dequeue_count m n h t with
                     | None => CIdle
                     | Some cnt => CRead t cnt 0 []
                     end in
            Next (MkC (heads s) (tails s) (slots s) (producer s) c (p_seen s) j
                      (wlog s) (rlog s) (sent s) (recvd s))
          else Disabled
      | _, _ => Disabled
      end
  | CFetch =>
      match consumer s with
      | CRead t cnt i acc =>
          if i <? cnt then
            let a := Z.land (t +₆₄ i) (MASK Capacity) in
            match array_get (slots s) a with
            | None => Undefined
            | Some x =>
                if ordered (wlog s) a (c_seen s) then
                  Next (MkC (heads s) (tails s) (slots s) (producer s)
                            (CRead t cnt (i + 1) (acc ++ [x])) (p_seen s) (c_seen s)
                            (wlog s) ((a, length (tails s)) :: rlog s)
                            (sent s) (recvd s))
                else Undefined
            end
          else Disabled
      | _ => Disabled
      end
  | CPublish =>
      match consumer s with
      | CRead t cnt i acc =>
          if i <? cnt then Disabled
          else Next (MkC (heads s) (tails s ++ [t +₆₄ cnt]) (slots s) (producer s) CIdle
                         (p_seen s) (c_seen s) (wlog s) (rlog s)
                         (sent s) (recvd s ++ acc))
      | _ => Disabled
      end
  end.

(** [size()]: two relaxed loads.  A thread reads its own counter's newest store
    and any store of the other counter it has not seen replaced; a third thread,
    which writes neither, may read any store of each. *)
Definition producer_size (j : nat) (s : cstate T) : option Z :=
  h ← last (heads s); t ← tails s !! j;
  if (p_seen s <=? j)%nat then Some (h -₆₄ t) else None.
Definition consumer_size (i : nat) (s : cstate T) : option Z :=
  h ← heads s !! i; t ← last (tails s);
  if (c_seen s <=? i)%nat then Some (h -₆₄ t) else None.
Definition observer_size (i j : nat) (s : cstate T) : option Z :=
  h ← heads s !! i; t ← tails s !! j; Some (h -₆₄ t).

(** A fresh ring, both threads outside any call. *)
Definition init (dflt : T) : cstate T :=
  let r := new_ring Capacity dflt in
  MkC [head_ r] [tail_ r] (data_ r) PIdle CIdle 0 0 [] [] [] [].

(** Interleavings: any finite sequence of accesses. *)
Definition steps_to (s s' : cstate T) : Prop := exists l, step l s = Next s'.
Definition reachable (dflt : T) (s : cstate T) : Prop := rtc steps_to (init dflt) s.

(** Runs a given schedule. *)
Fixpoint exec (ls : list (label T)) (s : cstate T) : outcome T :=
  match ls with
  | [] => Next s
  | l :: ls => match step l s with Next s' => exec ls s' | o => o end
  end.

End Machine.

(** ** The invariant

    [hs] and [ts] are the modification orders with the counters unbounded;
    [hv], [tv] are the values the consumer and the producer have acquired. *)

Section Invariant.
Context {T : Type} (Capacity : Z).
Implicit Types (s : cstate T).

Definition monotone (l : list Z) : Prop :=
  forall i j x y, (i <= j)%nat -> l !! i = Some x -> l !! j = Some y -> x <= y.

Definition producer_inv s (tv : Z) : Prop :=
  let H := Z.of_nat (length (sent s)) in
  match producer s with
  | PIdle => True
  | PHead m ins h => h = u64 H /\ well_formed_call m (length ins) = true
  | PWrite ins h cnt i =>
      h = u64 H /\ 0 <= i <= cnt /\ cnt <= Z.of_nat (length ins) /\
      H + cnt <= tv + Capacity /\
      (forall j, 0 <= j < i ->
         array_get (slots s) ((H + j) mod Capacity) = ins !! Z.to_nat j)
  end.

Definition consumer_inv s (hv : Z) : Prop :=
  let t0 := Z.of_nat (length (recvd s)) in
  match consumer s with
  | CIdle => True
  | CTail m n t => t = u64 t0 /\ 0 <= n /\ well_formed_call m (Z.to_nat n) = true
  | CRead t cnt i acc =>
      t = u64 t0 /\ 0 <= i <= cnt /\ t0 + cnt <= hv /\
      acc = take (Z.to_nat i) (drop (length (recvd s)) (sent s))
  end.

Record inv_with s (hs ts : list Z) (hv tv : Z) : Prop := {
  i_heads : heads s = u64 <$> hs;
  i_tails : tails s = u64 <$> ts;
  i_hmono : monotone hs;
  i_tmono : monotone ts;
  i_hlast : last hs = Some (Z.of_nat (length (sent s)));
  i_tlast : last ts = Some (Z.of_nat (length (recvd s)));
  i_hv : hs !! c_seen s = Some hv;
  i_tv : ts !! p_seen s = Some tv;
  i_tv0 : 0 <= tv;
  i_prefix : recvd s `prefix_of` sent s;
  i_seen : Z.of_nat (length (recvd s)) <= hv;
  i_room : Z.of_nat (length (sent s)) <= tv + Capacity;
  i_len : Z.of_nat (length (slots s)) = Capacity;
  i_slot : forall i, Z.of_nat (length (recvd s)) <= i < Z.of_nat (length (sent s)) ->
    array_get (slots s) (i mod Capacity) = sent s !! Z.to_nat i;
  i_wlog : forall a k, (a, k) ∈ wlog s -> exists i, a = i mod Capacity /\
    i < tv + Capacity /\ (k <= length hs)%nat /\
    (forall j x, (j < k)%nat -> hs !! j = Some x -> x <= i);
  i_rlog : forall a k, (a, k) ∈ rlog s -> exists i, a = i mod Capacity /\
    i < hv /\ (k <= length ts)%nat /\
    (forall j x, (j < k)%nat -> ts !! j = Some x -> x <= i);
  i_prod : producer_inv s tv;
  i_cons : consumer_inv s hv
}.

Definition inv s : Prop := exists hs ts hv tv, inv_with s hs ts hv tv.

(** One access from a state satisfying the invariant is defined and keeps it. *)
Definition safe (o : outcome T) : Prop :=
  match o with Disabled => True | Undefined => False | Next s' => inv s' end.

(** The same, with the modification orders only growing. *)
Definition safe_with (hs ts : list Z) (o : outcome T) : Prop :=
  match o with
  | Disabled => True
  | Undefined => False
  | Next s' => exists hs' ts' hv tv,
      inv_with s' hs' ts' hv tv /\ hs `prefix_of` hs' /\ ts `prefix_of` ts'
  end.

Context `{HC : !ValidCapacity Capacity}.

Lemma mono_last l z i x :
  monotone l -> last l = Some z -> l !! i = Some x -> x <= z.
Proof.
  intros Hm Hl Hi. rewrite last_lookup in Hl. eapply Hm; [|done..].
  apply lookup_lt_Some in Hi. lia.
Qed.

Lemma mono_snoc l z y :
  monotone l -> last l = Some z -> z <= y -> monotone (l ++ [y]).
Proof.
  intros Hm Hl Hzy i j a b Hij Ha Hb.
  apply lookup_app_Some in Hb as [Hb|[Hj Hb]].
  - rewrite lookup_app_l in Ha by (apply lookup_lt_Some in Hb; lia). by eapply Hm.
  - apply list_lookup_singleton_Some in Hb as [_ <-].
    apply lookup_app_Some in Ha as [Ha|[_ Ha]].
    + pose proof (mono_last _ _ _ _ Hm Hl Ha). lia.
    + apply list_lookup_singleton_Some in Ha as [_ <-]. lia.
Qed.

Lemma lookup_snoc_old {A} (l : list A) i x y : l !! i = Some x -> (l ++ [y]) !! i = Some x.
Proof. intros Hi. rewrite lookup_app_l; [done|]. by apply lookup_lt_Some in Hi. Qed.

(** The counters are ordered: acquired tail, tail, acquired head, head, and
    the head is at most [Capacity] ahead of the acquired tail. *)
Lemma inv_order s hs ts hv tv :
  inv_with s hs ts hv tv ->
  0 <= tv <= Z.of_nat (length (recvd s)) /\
  Z.of_nat (length (recvd s)) <= hv <= Z.of_nat (length (sent s)) /\
  Z.of_nat (length (sent s)) <= tv + Capacity.
Proof.
  intros I. pose proof (mono_last _ _ _ _ (i_hmono _ _ _ _ _ I) (i_hlast _ _ _ _ _ I) (i_hv _ _ _ _ _ I)).
  pose proof (mono_last _ _ _ _ (i_tmono _ _ _ _ _ I) (i_tlast _ _ _ _ _ I) (i_tv _ _ _ _ _ I)).
  pose proof (i_tv0 _ _ _ _ _ I). pose proof (i_seen _ _ _ _ _ I).
  pose proof (i_room _ _ _ _ _ I). lia.
Qed.

Lemma last_u64 (l : list Z) z : last l = Some z -> last (u64 <$> l) = Some (u64 z).
Proof. intros Hl. by rewrite fmap_last, Hl. Qed.

Lemma ordered_spec log a seen :
  (forall k, (a, k) ∈ log -> (k <= seen)%nat) -> ordered log a seen = true.
Proof.
  intros H. unfold ordered. apply forallb_forall. intros [b k] Hin. simpl.
  destruct (Z.eqb_spec b a) as [->|]; [|done]. simpl.
  apply Nat.leb_le, H. by apply list_elem_of_In.
Qed.

Lemma init_inv dflt : inv (init Capacity dflt).
Proof.
  pose proof (vc_range (c := Capacity)).
  exists [0], [0], 0, 0. split; simpl; try done; try lia.
  - intros i j x y _ Hi Hj. apply list_lookup_singleton_Some in Hi, Hj. lia.
  - intros i j x y _ Hi Hj. apply list_lookup_singleton_Some in Hi, Hj. lia.
  - rewrite length_replicate. lia.
  - intros a k Hk. by apply elem_of_nil in Hk.
  - intros a k Hk. by apply elem_of_nil in Hk.
Qed.

Lemma pstart_safe m ins s hs ts hv tv :
  inv_with s hs ts hv tv -> safe_with hs ts (step Capacity (PStart m ins) s).
Proof.
  intros I. simpl.
  destruct (producer s) eqn:Hp; simpl; try done.
  rewrite (i_heads _ _ _ _ _ I), (last_u64 _ _ (i_hlast _ _ _ _ _ I)).
  destruct (well_formed_call m (length ins)) eqn:Hw; simpl; [|done].
  exists hs, ts, hv, tv. split; [|by split]. destruct I. split; try done.
Qed.

Lemma cstart_safe m n s hs ts hv tv :
  inv_with s hs ts hv tv -> safe_with hs ts (step Capacity (CStart m n) s).
Proof.
  intros I. simpl.
  destruct (consumer s) eqn:Hp; simpl; try done.
  rewrite (i_tails _ _ _ _ _ I), (last_u64 _ _ (i_tlast _ _ _ _ _ I)).
  destruct (well_formed_call m n) eqn:Hw; simpl; [|done].
  exists hs, ts, hv, tv. split; [|by split]. destruct I. split; try done.
  unfold consumer_inv; simpl. rewrite Nat2Z.id. repeat split; [lia|done].
Qed.

(** What the producer computes from a (possibly stale) tail: room is measured
    against the acquired value. *)
Lemma enqueue_count_spec m n H t cnt :
  0 <= t <= H -> H <= t + Capacity -> 0 <= n ->
  well_formed_call m (Z.to_nat n) = true ->
  enqueue_count Capacity m n (u64 H) (u64 t) = Some cnt ->
  0 <= cnt <= n /\ H + cnt <= t + Capacity.
Proof.
  intros Ht HH Hn Hw Hc. pose proof (vc_range (c := Capacity)) as HCap.
  unfold enqueue_count in Hc. rewrite (u64_diff_exact H t) in Hc by lia.
  destruct m; simpl in *.
  - destruct (_ >=? _) eqn:Hf; [done|]. break_bool.
    injection Hc as <-. apply Nat.eqb_eq in Hw. lia.
  - rewrite u64_small in Hc by lia. injection Hc as <-. split_cond; lia.
Qed.

Lemma dequeue_count_spec m n h t cnt :
  0 <= t <= h -> h <= t + Capacity -> 0 <= n ->
  well_formed_call m (Z.to_nat n) = true ->
  dequeue_count m n (u64 h) (u64 t) = Some cnt ->
  0 <= cnt <= n /\ t + cnt <= h.
Proof.
  intros Ht Hh Hn Hw Hc. pose proof (vc_range (c := Capacity)) as HCap.
  unfold dequeue_count in Hc. destruct m; simpl in *.
  - destruct (u64 t =? u64 h) eqn:He; [done|]. break_bool. injection Hc as <-.
    apply Nat.eqb_eq in Hw. assert (t <> h) by congruence. lia.
  - rewrite (u64_diff_exact h t) in Hc by lia. injection Hc as <-. split_cond; lia.
Qed.

Lemma pload_safe j s hs ts hv tv :
  inv_with s hs ts hv tv -> safe_with hs ts (step Capacity (PLoad j) s).
Proof.
  intros I. simpl.
  destruct (producer s) as [|m ins h|] eqn:Hp; simpl; try done.
  destruct (tails s !! j) as [t|] eqn:Ht; simpl; [|done].
  destruct (p_seen s <=? j)%nat eqn:Hj; simpl; [|done]. apply Nat.leb_le in Hj.
  rewrite (i_tails _ _ _ _ _ I), list_lookup_fmap in Ht.
  apply fmap_Some in Ht as (tj & Htj & ->).
  pose proof (inv_order _ _ _ _ _ I) as Hord.
  assert (tv <= tj) by (eapply (i_tmono _ _ _ _ _ I); [exact Hj|apply I|done]).
  pose proof (mono_last _ _ _ _ (i_tmono _ _ _ _ _ I) (i_tlast _ _ _ _ _ I) Htj).
  exists hs, ts, hv, tj. split; [|by split]. destruct I as [? ? ? ? ? ? ? ? ? ? ? ? ? ? Hwl ? Hpi ?].
  split; try done; simpl; try lia.
  - intros a k Hin. destruct (Hwl a k Hin) as (i & -> & Hi & Hl & Hk). exists i. repeat split; [lia|done..].
  - unfold producer_inv in *. simpl. rewrite Hp in Hpi. destruct Hpi as [-> Hw].
    destruct (enqueue_count _ _ _ _ _) as [cnt|] eqn:Hc; [|done].
    apply enqueue_count_spec in Hc; [|lia..|by rewrite Nat2Z.id].
    repeat split; lia.
Qed.

Lemma cload_safe j s hs ts hv tv :
  inv_with s hs ts hv tv -> safe_with hs ts (step Capacity (CLoad j) s).
Proof.
  intros I. simpl.
  destruct (consumer s) as [|m n t|] eqn:Hp; simpl; try done.
  destruct (heads s !! j) as [h|] eqn:Hh; simpl; [|done].
  destruct (c_seen s <=? j)%nat eqn:Hj; simpl; [|done]. apply Nat.leb_le in Hj.
  rewrite (i_heads _ _ _ _ _ I), list_lookup_fmap in Hh.
  apply fmap_Some in Hh as (hj & Hhj & ->).
  pose proof (inv_order _ _ _ _ _ I) as Hord.
  assert (hv <= hj) by (eapply (i_hmono _ _ _ _ _ I); [exact Hj|apply I|done]).
  pose proof (mono_last _ _ _ _ (i_hmono _ _ _ _ _ I) (i_hlast _ _ _ _ _ I) Hhj).
  exists hs, ts, hj, tv. split; [|by split]. destruct I as [? ? ? ? ? ? ? ? ? ? ? ? ? ? ? Hrl ? Hci].
  split; try done; simpl; try lia.
  - intros a k Hin. destruct (Hrl a k Hin) as (i & -> & Hi & Hl & Hk). exists i. repeat split; [lia|done..].
  - unfold consumer_inv in *. simpl. rewrite Hp in Hci. destruct Hci as (-> & Hn & Hw).
    destruct (dequeue_count _ _ _ _) as [cnt|] eqn:Hc; [|done].
    apply dequeue_count_spec in Hc; [|lia..|done].
    repeat split; lia.
Qed.

(** A write of the producer is ordered after every read of the slot. *)
Lemma write_ordered s hs ts hv tv i :
  inv_with s hs ts hv tv ->
  Z.of_nat (length (sent s)) <= i < tv + Capacity ->
  ordered (rlog s) (i mod Capacity) (p_seen s) = true.
Proof.
  intros I Hi. pose proof (inv_order _ _ _ _ _ I) as Hord.
  apply ordered_spec. intros k Hin.
  destruct (decide (k <= p_seen s)%nat) as [|Hk]; [done|exfalso].
  destruct (i_rlog _ _ _ _ _ I _ _ Hin) as (i0 & Heq & Hi0 & _ & Hlow).
  specialize (Hlow (p_seen s) tv ltac:(lia) (i_tv _ _ _ _ _ I)).
  symmetry in Heq. revert Heq. apply slot_ne; [done|lia].
Qed.

(** A read of the consumer is ordered after every write of the slot. *)
Lemma read_ordered s hs ts hv tv i :
  inv_with s hs ts hv tv ->
  Z.of_nat (length (recvd s)) <= i < hv ->
  ordered (wlog s) (i mod Capacity) (c_seen s) = true.
Proof.
  intros I Hi. pose proof (inv_order _ _ _ _ _ I) as Hord.
  apply ordered_spec. intros k Hin.
  destruct (decide (k <= c_seen s)%nat) as [|Hk]; [done|exfalso].
  destruct (i_wlog _ _ _ _ _ I _ _ Hin) as (i0 & Heq & Hi0 & _ & Hlow).
  specialize (Hlow (c_seen s) hv ltac:(lia) (i_hv _ _ _ _ _ I)).
  revert Heq. apply slot_ne; [done|lia].
Qed.

Lemma hs_below s hs ts hv tv j x :
  inv_with s hs ts hv tv -> hs !! j = Some x -> x <= Z.of_nat (length (sent s)).
Proof. intros I. apply mono_last; apply I. Qed.

Lemma ts_below s hs ts hv tv j x :
  inv_with s hs ts hv tv -> ts !! j = Some x -> x <= Z.of_nat (length (recvd s)).
Proof. intros I. apply mono_last; apply I. Qed.

Lemma pstore_safe s hs ts hv tv :
  inv_with s hs ts hv tv -> safe_with hs ts (step Capacity PStore s).
Proof.
  intros I. simpl.
  pose proof (i_prod _ _ _ _ _ I) as Hpi. unfold producer_inv in Hpi.
  destruct (producer s) as [| |ins h cnt i] eqn:Hp; simpl; try done.
  destruct (i <? cnt) eqn:Hi; simpl; [|done]. break_bool.
  destruct Hpi as (-> & Hi0 & Hcnt & Hroom & Hdone).
  destruct (proj2 (array_get_is_Some ins i)) as [x Hx]; [lia|]. rewrite Hx.
  pose proof (inv_order _ _ _ _ _ I) as Hord.
  set (H := Z.of_nat (length (sent s))) in *.
  rewrite u64_add_l, slot_mod by done.
  rewrite slot_set by (done || apply I). set (d := <[_:=x]> (slots s)).
  assert (array_set (slots s) ((H + i) mod Capacity) x = Some d) as Hset
    by (apply slot_set; [done|apply I]).
  rewrite (write_ordered s hs ts hv tv (H + i)) by (done || lia). simpl.
  assert (forall j, Z.of_nat (length (recvd s)) <= j < H + i ->
            array_get d (j mod Capacity) = array_get (slots s) (j mod Capacity)) as Hkeep.
  { intros j Hj. eapply array_get_set_ne; [done|]. intros Heq. symmetry in Heq.
    revert Heq. apply slot_ne; [done|lia]. }
  exists hs, ts, hv, tv. split; [|by split].
  destruct I as [Hhs ? ? ? ? ? ? ? ? ? ? ? ? Hsl Hwl ? ? ?]. split; try done; simpl.
  - by rewrite (array_set_length _ _ _ _ Hset).
  - intros j Hj. rewrite Hkeep by lia. by apply Hsl.
  - intros a k [[= -> ->]|Hin]%elem_of_cons; [|by apply Hwl].
    exists (H + i). split; [done|]. split; [lia|].
    split; [by rewrite Hhs, length_fmap|]. intros j y _ Hy.
    pose proof (mono_last hs _ _ _ ltac:(done) ltac:(done) Hy). lia.
  - unfold producer_inv. simpl. repeat split; try lia. intros j Hj. fold H.
    destruct (decide (j = i)) as [->|Hne].
    + rewrite (array_get_set_eq _ _ _ _ Hset). by apply array_get_Some in Hx as [_ ->].
    + rewrite Hkeep by lia. apply Hdone. lia.
Qed.

Lemma cfetch_safe s hs ts hv tv :
  inv_with s hs ts hv tv -> safe_with hs ts (step Capacity CFetch s).
Proof.
  intros I. simpl.
  pose proof (i_cons _ _ _ _ _ I) as Hci. unfold consumer_inv in Hci.
  destruct (consumer s) as [| |t cnt i acc] eqn:Hp; simpl; try done.
  destruct (i <? cnt) eqn:Hi; simpl; [|done]. break_bool.
  destruct Hci as (-> & Hi0 & Hcnt & Hacc).
  pose proof (inv_order _ _ _ _ _ I) as Hord.
  set (t0 := Z.of_nat (length (recvd s))) in *.
  rewrite u64_add_l, slot_mod by done.
  assert (Z.to_nat (t0 + i) < length (sent s))%nat as Hlt by lia.
  apply lookup_lt_is_Some in Hlt as [x Hx].
  rewrite (i_slot _ _ _ _ _ I), Hx by lia.
  rewrite (read_ordered s hs ts hv tv (t0 + i)) by (done || lia). simpl.
  exists hs, ts, hv, tv. split; [|by split].
  destruct I as [? Hts ? ? ? ? ? ? ? ? ? ? ? ? ? Hrl ? ?]. split; try done; simpl.
  - intros a k [[= -> ->]|Hin]%elem_of_cons; [|by apply Hrl].
    exists (t0 + i). split; [done|]. split; [lia|].
    split; [by rewrite Hts, length_fmap|]. intros j y _ Hy.
    pose proof (mono_last ts _ _ _ ltac:(done) ltac:(done) Hy). lia.
  - unfold consumer_inv. simpl. repeat split; try lia.
    replace (Z.to_nat (i + 1)) with (S (Z.to_nat i)) by lia.
    rewrite Hacc. erewrite take_S_r; [done|]. rewrite lookup_drop, <- Hx. f_equal. lia.
Qed.

Lemma ppublish_safe s hs ts hv tv :
  inv_with s hs ts hv tv -> safe_with hs ts (step Capacity PPublish s).
Proof.
  intros I. simpl.
  pose proof (i_prod _ _ _ _ _ I) as Hpi. unfold producer_inv in Hpi.
  destruct (producer s) as [| |ins h cnt i] eqn:Hp; simpl; try done.
  destruct (i <? cnt) eqn:Hi; simpl; [done|]. break_bool.
  destruct Hpi as (-> & Hi0 & Hcnt & Hroom & Hdone).
  pose proof (inv_order _ _ _ _ _ I) as Hord.
  assert (length (sent s ++ take (Z.to_nat cnt) ins) = length (sent s) + Z.to_nat cnt)%nat
    as Hlen by (rewrite length_app, length_take; lia).
  exists (hs ++ [Z.of_nat (length (sent s)) + cnt]), ts, hv, tv.
  split; [|split; [by apply prefix_app_r|done]].
  destruct I as [Hhs ? ? ? Hhl ? Hhv ? ? Hpre ? ? ? Hsl Hwl ? ? Hci].
  split; try done; simpl; try rewrite Hlen; try lia.
  - by rewrite Hhs, fmap_app, u64_add_l.
  - eapply mono_snoc; [done..|lia].
  - rewrite last_snoc. f_equal. lia.
  - by apply lookup_snoc_old.
  - by apply prefix_app_r.
  - intros j Hj. destruct (decide (j < Z.of_nat (length (sent s)))) as [Hlt|Hge].
    + rewrite lookup_app_l by lia. apply Hsl. lia.
    + rewrite lookup_app_r by lia. rewrite lookup_take, decide_True by lia.
      replace j with (Z.of_nat (length (sent s)) + (j - Z.of_nat (length (sent s)))) at 1 by lia.
      rewrite Hdone by lia. f_equal. lia.
  - intros a k Hin. destruct (Hwl a k Hin) as (i0 & -> & Hi1 & Hl & Hk).
    exists i0. repeat split; [done|rewrite length_app; lia|]. intros j x Hj Hx.
    rewrite lookup_app_l in Hx by lia. by eapply Hk.
  - unfold consumer_inv in *. simpl. destruct (consumer s); try done.
    destruct Hci as (-> & ? & ? & ->). repeat split; try lia.
    rewrite drop_app_le by lia. rewrite take_app_le; [done|]. rewrite length_drop. lia.
Qed.

Lemma cpublish_safe s hs ts hv tv :
  inv_with s hs ts hv tv -> safe_with hs ts (step Capacity CPublish s).
Proof.
  intros I. simpl.
  pose proof (i_cons _ _ _ _ _ I) as Hci. unfold consumer_inv in Hci.
  destruct (consumer s) as [| |t cnt i acc] eqn:Hp; simpl; try done.
  destruct (i <? cnt) eqn:Hi; simpl; [done|]. break_bool.
  destruct Hci as (-> & Hi0 & Hcnt & ->).
  pose proof (inv_order _ _ _ _ _ I) as Hord. assert (i = cnt) as -> by lia.
  set (acc := take (Z.to_nat cnt) _).
  assert (length acc = Z.to_nat cnt) as Hacc
    by (unfold acc; rewrite length_take, length_drop; lia).
  assert (length (recvd s ++ acc) = length (recvd s) + Z.to_nat cnt)%nat
    as Hlen by (rewrite length_app; lia).
  exists hs, (ts ++ [Z.of_nat (length (recvd s)) + cnt]), hv, tv.
  split; [|split; [done|by apply prefix_app_r]].
  destruct I as [? Hts ? ? ? ? ? Htv ? Hpre ? ? ? Hsl ? Hrl Hpi ?].
  split; try done; simpl; try rewrite Hlen; try lia.
  - by rewrite Hts, fmap_app, u64_add_l.
  - eapply mono_snoc; [done..|lia].
  - rewrite last_snoc. f_equal. lia.
  - by apply lookup_snoc_old.
  - destruct Hpre as [rest Hrest]. exists (drop (Z.to_nat cnt) rest).
    unfold acc. rewrite Hrest, drop_app_length, <- app_assoc. f_equal.
    symmetry. apply take_drop.
  - intros j Hj. apply Hsl. lia.
  - intros a k Hin. destruct (Hrl a k Hin) as (i0 & -> & Hi1 & Hl & Hk).
    exists i0. repeat split; [done|rewrite length_app; lia|]. intros j x Hj Hx.
    rewrite lookup_app_l in Hx by lia. by eapply Hk.
Qed.

Lemma step_safe_with l s hs ts hv tv :
  inv_with s hs ts hv tv -> safe_with hs ts (step Capacity l s).
Proof.
  destruct l; eauto using pstart_safe, pload_safe, pstore_safe, ppublish_safe,
    cstart_safe, cload_safe, cfetch_safe, cpublish_safe.
Qed.

Lemma step_safe l s : inv s -> safe (step Capacity l s).
Proof.
  intros (hs & ts & hv & tv & I). pose proof (step_safe_with l s hs ts hv tv I) as Hs.
  destruct (step Capacity l s); try done. destruct Hs as (hs' & ts' & hv' & tv' & I' & _).
  by exists hs', ts', hv', tv'.
Qed.

Lemma reachable_inv dflt s : reachable Capacity dflt s -> inv s.
Proof.
  intros Hr. eapply rtc_preserves; [|exact Hr|apply init_inv].
  intros s1 s2 [l Hl] Hi. pose proof (step_safe l s1 Hi) as Hs. by rewrite Hl in Hs.
Qed.

End Invariant.

(** ** Progress *)

Section Progress.
Context {T : Type} (Capacity : Z) `{HC : !ValidCapacity Capacity}.
Implicit Types (s : cstate T).

Definition of_producer (l : label T) : bool :=
  match l with PStart _ _ | PLoad _ | PStore | PPublish => true | _ => false end.

(** Accesses the current call of each thread still has to make, at most. *)
Definition p_work s : nat :=
  match producer s with
  | PIdle => 0
  | PHead _ ins _ => length ins + 2
  | PWrite _ _ cnt i => Z.to_nat (cnt - i) + 1
  end.

Definition c_work s : nat :=
  match consumer s with
  | CIdle => 0
  | CTail _ n _ => Z.to_nat n + 2
  | CRead _ cnt i _ => Z.to_nat (cnt - i) + 1
  end.

Lemma producer_can_step s :
  inv Capacity s -> producer s <> PIdle ->
  exists l s', of_producer l = true /\ step Capacity l s = Next s'.
Proof.
  intros Hi Hp. pose proof Hi as (hs & ts & hv & tv & I).
  destruct (producer s) as [|m ins h|ins h cnt i] eqn:E; [done|..].
  - exists (PLoad (p_seen s)). simpl. rewrite E, (i_tails _ _ _ _ _ _ I), list_lookup_fmap,
      (i_tv _ _ _ _ _ _ I). simpl. rewrite Nat.leb_refl. eauto.
  - destruct (i <? cnt) eqn:Hlt.
    + exists PStore. pose proof (pstore_safe Capacity s _ _ _ _ I) as Hs.
      simpl in *. rewrite E, Hlt in *.
      repeat case_match; simpl in *; try done; eauto.
    + exists PPublish. simpl. rewrite E, Hlt. eauto.
Qed.

Lemma consumer_can_step s :
  inv Capacity s -> consumer s <> CIdle ->
  exists l s', of_producer l = false /\ step Capacity l s = Next s'.
Proof.
  intros Hi Hp. pose proof Hi as (hs & ts & hv & tv & I).
  destruct (consumer s) as [|m n t|t cnt i acc] eqn:E; [done|..].
  - exists (CLoad (c_seen s)). simpl. rewrite E, (i_heads _ _ _ _ _ _ I), list_lookup_fmap,
      (i_hv _ _ _ _ _ _ I). simpl. rewrite Nat.leb_refl. eauto.
  - destruct (i <? cnt) eqn:Hlt.
    + exists CFetch. pose proof (cfetch_safe Capacity s _ _ _ _ I) as Hs.
      simpl in *. rewrite E, Hlt in *.
      repeat case_match; simpl in *; try done; eauto.
    + exists CPublish. simpl. rewrite E, Hlt. eauto.
Qed.

(** Two case analyses of the same thread's position agree. *)
Ltac same_state s :=
  try (match goal with
       | H : producer s = _, H' : producer s = _ |- _ => rewrite H in H'
       | H : consumer s = _, H' : consumer s = _ |- _ => rewrite H in H'
       end; simplify_eq; lia).

Lemma enqueue_count_le m n h t cnt :
  0 <= n -> well_formed_call m (Z.to_nat n) = true ->
  enqueue_count Capacity m n h t = Some cnt -> cnt <= n.
Proof.
  intros Hn Hw Hc. destruct m; simpl in *.
  - apply Nat.eqb_eq in Hw. destruct (_ >=? _); simplify_eq. lia.
  - injection Hc as <-. split_cond; lia.
Qed.

(** Own accesses use up work, the other thread's do not add any. *)
Lemma producer_work s l s' :
  inv Capacity s -> producer s <> PIdle -> step Capacity l s = Next s' ->
  (p_work s' + (if of_producer l then 1 else 0) <= p_work s)%nat.
Proof.
  intros (hs & ts & hv & tv & I) Hp Hs.
  pose proof (i_prod _ _ _ _ _ _ I) as Hpi. unfold producer_inv in Hpi.
  unfold p_work, with_producer, with_consumer in *.
  destruct l; simpl in Hs; repeat case_match; simplify_eq; simpl in *;
    break_bool; try done; try lia;
    repeat case_match; simplify_eq; simpl in *; try lia; same_state s.
  destruct Hpi as (_ & Hw).
  match goal with H : enqueue_count _ _ _ _ _ = Some _ |- _ =>
    apply enqueue_count_le in H; [lia|lia|by rewrite Nat2Z.id] end.
Qed.

Lemma dequeue_count_le m n h t cnt :
  0 <= n -> well_formed_call m (Z.to_nat n) = true ->
  dequeue_count m n h t = Some cnt -> cnt <= n.
Proof.
  intros Hn Hw Hc. destruct m; simpl in *.
  - apply Nat.eqb_eq in Hw. destruct (t =? h); simplify_eq. lia.
  - injection Hc as <-. split_cond; lia.
Qed.

Lemma consumer_work s l s' :
  inv Capacity s -> consumer s <> CIdle -> step Capacity l s = Next s' ->
  (c_work s' + (if of_producer l then 0 else 1) <= c_work s)%nat.
Proof.
  intros (hs & ts & hv & tv & I) Hp Hs.
  pose proof (i_cons _ _ _ _ _ _ I) as Hci. unfold consumer_inv in Hci.
  unfold c_work, with_producer, with_consumer in *.
  destruct l; simpl in Hs; repeat case_match; simplify_eq; simpl in *;
    break_bool; try done; try lia;
    repeat case_match; simplify_eq; simpl in *; try lia; same_state s.
  destruct Hci as (_ & Hn & Hw).
  match goal with H : dequeue_count _ _ _ _ = Some _ |- _ =>
    apply dequeue_count_le in H; [lia|done..] end.
Qed.

End Progress.

(** ** Linearisation *)

Section Linearisation.
Context {T : Type} (Capacity : Z) `{HC : !ValidCapacity Capacity}.
Implicit Types (s : cstate T).

(** The abstract queue: completed enqueues not yet dequeued. *)
Definition contents s : list T := drop (length (recvd s)) (sent s).

(** What one access does to the abstract queue: nothing, or the whole call at
    once when its thread publishes its counter. *)
Inductive commit (s s' : cstate T) : Prop :=
| commit_none :
    sent s' = sent s -> recvd s' = recvd s -> contents s' = contents s -> commit s s'
| commit_enqueue xs :
    sent s' = sent s ++ xs -> recvd s' = recvd s ->
    contents s' = contents s ++ xs -> Z.of_nat (length (contents s')) <= Capacity ->
    commit s s'
| commit_dequeue xs :
    sent s' = sent s -> recvd s' = recvd s ++ xs ->
    contents s = xs ++ contents s' -> commit s s'.

Lemma contents_split s :
  inv Capacity s -> sent s = recvd s ++ contents s /\
    Z.of_nat (length (contents s)) <= Capacity.
Proof.
  intros (hs & ts & hv & tv & I). pose proof (inv_order _ _ _ _ _ _ I).
  destruct (i_prefix _ _ _ _ _ _ I) as [rest Hrest]. unfold contents.
  assert (length (sent s) = length (recvd s) + length rest)%nat
    by (rewrite Hrest; apply length_app).
  rewrite Hrest, drop_app_length. split; [done|]. lia.
Qed.

Lemma step_commit l s s' :
  inv Capacity s -> step Capacity l s = Next s' -> commit s s'.
Proof.
  intros Hi Hs. pose proof (step_safe Capacity l s Hi) as Hi'. rewrite Hs in Hi'.
  simpl in Hi'. destruct (contents_split s Hi) as [Hc _].
  destruct (contents_split s' Hi') as [Hc' Hlen].
  destruct l; simpl in Hs; repeat case_match; simplify_eq;
    try (apply commit_none; done).
  - eapply commit_enqueue; [done|done| |done].
    simpl in Hc'. rewrite Hc in Hc' at 1. rewrite <- app_assoc in Hc'.
    by apply app_inv_head in Hc'.
  - eapply commit_dequeue; [done|done|].
    simpl in Hc'. rewrite Hc in Hc' at 1. rewrite <- app_assoc in Hc'.
    by apply app_inv_head in Hc'.
Qed.

Lemma last_index {A} (l : list A) z : last l = Some z -> l !! (length l - 1)%nat = Some z.
Proof. intros Hl. rewrite last_lookup in Hl. rewrite <- Hl. f_equal. lia. Qed.

(** What [size()] tells the two threads: the producer that there is at least the
    rest of the capacity left, the consumer that there are at least so many
    elements. *)
Lemma producer_size_bounds s j n :
  inv Capacity s -> producer_size j s = Some n ->
  Z.of_nat (length (contents s)) <= n <= Capacity.
Proof.
  intros Hi Hn. destruct (contents_split s Hi) as [Hsp _]. destruct Hi as (hs & ts & hv & tv & I).
  apply (f_equal length) in Hsp. rewrite length_app in Hsp.
  pose proof (inv_order _ _ _ _ _ _ I). pose proof (vc_range (c := Capacity)).
  unfold producer_size in Hn. rewrite (i_heads _ _ _ _ _ _ I), (last_u64 _ _ (i_hlast _ _ _ _ _ _ I)) in Hn.
  rewrite (i_tails _ _ _ _ _ _ I), list_lookup_fmap in Hn. cbn in Hn.
  destruct (ts !! j) as [t|] eqn:Ht; [|done]. cbn in Hn.
  destruct (Nat.leb_spec (p_seen s) j) as [Hj|]; [|done]. injection Hn as <-.
  pose proof (i_tmono _ _ _ _ _ _ I _ _ _ _ Hj (i_tv _ _ _ _ _ _ I) Ht).
  pose proof (ts_below _ _ _ _ _ _ _ _ I Ht). rewrite u64_diff_exact by lia. lia.
Qed.

Lemma consumer_size_bounds s i n :
  inv Capacity s -> consumer_size i s = Some n -> 0 <= n <= Z.of_nat (length (contents s)).
Proof.
  intros Hi Hn. destruct (contents_split s Hi) as [Hsp Hcap]. destruct Hi as (hs & ts & hv & tv & I).
  apply (f_equal length) in Hsp. rewrite length_app in Hsp.
  pose proof (inv_order _ _ _ _ _ _ I). pose proof (vc_range (c := Capacity)).
  unfold consumer_size in Hn. rewrite (i_tails _ _ _ _ _ _ I), (last_u64 _ _ (i_tlast _ _ _ _ _ _ I)) in Hn.
  rewrite (i_heads _ _ _ _ _ _ I), list_lookup_fmap in Hn.
  destruct (hs !! i) as [h|] eqn:Hh; [|done]. cbn in Hn.
  destruct (Nat.leb_spec (c_seen s) i) as [Hj|]; [|done]. injection Hn as <-.
  pose proof (i_hmono _ _ _ _ _ _ I _ _ _ _ Hj (i_hv _ _ _ _ _ _ I) Hh).
  pose proof (hs_below _ _ _ _ _ _ _ _ I Hh). rewrite u64_diff_exact by lia. lia.
Qed.

(** A single-item call that reads the newest value of the other counter
    fails exactly when the queue is full, respectively empty. *)
Lemma fresh_enqueue s s' x h :
  inv Capacity s -> producer s = PHead Single [x] h ->
  step Capacity (PLoad (length (tails s) - 1)) s = Next s' ->
  producer s' = PIdle <-> Z.of_nat (length (contents s)) = Capacity.
Proof.
  intros Hi Hp Hs. pose proof Hi as (hs & ts & hv & tv & I).
  pose proof (inv_order _ _ _ _ _ _ I). pose proof (vc_range (c := Capacity)).
  pose proof (i_prod _ _ _ _ _ _ I) as Hpi. unfold producer_inv in Hpi.
  rewrite Hp in Hpi. destruct Hpi as [-> _]. simpl in Hs. rewrite Hp in Hs.
  pose proof (last_u64 _ _ (i_tlast _ _ _ _ _ _ I)) as Hl.
  rewrite <- (i_tails _ _ _ _ _ _ I) in Hl. rewrite (last_index _ _ Hl) in Hs.
  destruct (_ <=? _)%nat; simplify_eq. simpl. rewrite u64_diff_exact by lia.
  unfold contents. rewrite length_drop. destruct (_ >=? _) eqn:Hf; break_bool;
    (split; first [done|intros; lia]).
Qed.

Lemma fresh_dequeue s s' t :
  inv Capacity s -> consumer s = CTail Single 1 t ->
  step Capacity (CLoad (length (heads s) - 1)) s = Next s' ->
  consumer s' = CIdle <-> contents s = [].
Proof.
  intros Hi Hp Hs. pose proof Hi as (hs & ts & hv & tv & I).
  pose proof (inv_order _ _ _ _ _ _ I). pose proof (vc_range (c := Capacity)).
  pose proof (i_cons _ _ _ _ _ _ I) as Hci. unfold consumer_inv in Hci.
  rewrite Hp in Hci. destruct Hci as [-> _]. simpl in Hs. rewrite Hp in Hs.
  pose proof (last_u64 _ _ (i_hlast _ _ _ _ _ _ I)) as Hl.
  rewrite <- (i_heads _ _ _ _ _ _ I) in Hl. rewrite (last_index _ _ Hl) in Hs.
  destruct (_ <=? _)%nat; simplify_eq. simpl.
  rewrite <- length_zero_iff_nil. unfold contents. rewrite length_drop.
  pose proof (u64_diff_exact (Z.of_nat (length (sent s))) (Z.of_nat (length (recvd s)))
    ltac:(lia)) as Hd.
  destruct (Z.eqb_spec (u64 (Z.of_nat (length (recvd s)))) (u64 (Z.of_nat (length (sent s)))))
    as [He|He]; (split; [try done; intros _|try done; intros Hz]).
  - rewrite He, Z.sub_diag in Hd. change (u64 0) with 0 in Hd. lia.
  - exfalso. apply He. f_equal. lia.
Qed.

End Linearisation.

End Conc.

(** ** Two producers

    The same [enqueue], its four shared accesses one at a time, run by several
    threads on one ring under plain interleaving. *)

Module Producers.

Inductive epc (T : Type) : Type :=
| E0 (item : T)
| E1 (item : T) (h : Z)
| E2 (item : T) (h t : Z)
| E3 (item : T) (h : Z)
| EDone (b : bool).
Arguments E0 {T} _.
Arguments E1 {T} _ _.
Arguments E2 {T} _ _ _.
Arguments E3 {T} _ _.
Arguments EDone {T} _.

Section Machine.
Context {T : Type} (Capacity : Z).

Definition enqueue_step (pc : epc T) (r : SpscRing T) : option (epc T * SpscRing T) :=
  match pc with
  | E0 x => Some (E1 x (head_ r), r)
  | E1 x h => Some (E2 x h (tail_ r), r)
  | E2 x h t =>
      if (h -₆₄ t) >=? Capacity then Some (EDone false, r)
      else d ← array_set (data_ r) (Z.land h (MASK Capacity)) x;
           Some (E3 x h, MkRing (head_ r) (tail_ r) d)
  | E3 x h => Some (EDone true, MkRing (h +₆₄ 1) (tail_ r) (data_ r))
  | EDone b => Some (EDone b, r)
  end.

(** A schedule: [sched] says which thread makes the next access. *)
Fixpoint interleave (sched : list nat) (pcs : list (epc T)) (r : SpscRing T)
  : option (list (epc T) * SpscRing T) :=
  match sched with
  | [] => Some (pcs, r)
  | k :: sched =>
      pc ← pcs !! k;
      '(pc', r') ← enqueue_step pc r;
      interleave sched (<[k := pc']> pcs) r'
  end.

(** Run by a single thread the four accesses are the method. *)
Lemma enqueue_step_alone x r :
  interleave [0; 0; 0; 0]%nat [E0 x] r =
    ('(b, r') ← enqueue Capacity x r; Some ([EDone b], r')).
Proof.
  unfold enqueue. simpl. destruct (_ >=? _); simpl; [done|].
  by destruct (array_set _ _ _).
Qed.

End Machine.

End Producers.

Lemma exec_reaches {T} Capacity ls (s s' : Conc.cstate T) :
  Conc.exec Capacity ls s = Conc.Next s' -> rtc (Conc.steps_to Capacity) s s'.
Proof.
  revert s. induction ls as [|l ls IH]; intros s; simpl; [by intros [= ->]|].
  destruct (Conc.step Capacity l s) as [| |s1] eqn:E; try done.
  intros Hx. eapply rtc_l; [by exists l|]. by apply IH.
Qed.

(** One item goes in and out. *)
Definition one_in_one_out : list (Conc.label Z) :=
  [Conc.PStart Conc.Single [5]; Conc.PLoad 0; Conc.PStore; Conc.PPublish;
   Conc.CStart Conc.Single 1; Conc.CLoad 1; Conc.CFetch; Conc.CPublish].

(** ** Properties *)

Section Properties.
Context {T : Type} (Capacity : Z) `{HC : !ValidCapacity Capacity}.

(** C2: under every interleaving of one producer and one consumer thread, with
    stale loads of the other thread's counter allowed, no access of either thread
    races with an access of the other or leaves the array, and the ring refines
    an atomic bounded FIFO queue: each access either leaves the queue alone or is
    the single point at which a whole [enqueue]/[enqueue_burst] appends its items
    (never beyond the capacity) or a whole [dequeue]/[dequeue_burst] removes its
    items from the front; items are received in the order sent, none lost,
    duplicated or invented. *)
Theorem spsc_linearizable (dflt : T) s l :
  Conc.reachable Capacity dflt s ->
  Conc.step Capacity l s <> Conc.Undefined /\
  Conc.sent s = Conc.recvd s ++ Conc.contents s /\
  (forall s', Conc.step Capacity l s = Conc.Next s' -> Conc.commit Capacity s s').
Proof.
  intros Hr%Conc.reachable_inv; [|done]. split; [|split].
  - intros Hs. pose proof (Conc.step_safe Capacity l s Hr) as H. by rewrite Hs in H.
  - by eapply Conc.contents_split.
  - intros s' Hs. by eapply Conc.step_commit.
Qed.

(** C22: size() under concurrency: what the producer reads is at least the number
    of elements and at most the capacity, what the consumer reads is at most the
    number of elements, so full() and empty() err on the safe side for the thread
    that relies on them; a third thread can read a size of 2^64 - 1. *)
Theorem size_concurrent (dflt : T) s :
  Conc.reachable Capacity dflt s ->
  (forall j n, Conc.producer_size j s = Some n ->
     Z.of_nat (length (Conc.contents s)) <= n <= Capacity) /\
  (forall i n, Conc.consumer_size i s = Some n ->
     0 <= n <= Z.of_nat (length (Conc.contents s))) /\
  (exists s', Conc.reachable 8 0 s' /\ Conc.observer_size 0 1 s' = Some (2 ^ 64 - 1)).
Proof.
  intros Hr%Conc.reachable_inv; [|done]. split; [|split].
  - intros j n. by eapply Conc.producer_size_bounds.
  - intros i n. by eapply Conc.consumer_size_bounds.
  - exists (Conc.MkC [0; 1] [0; 1] (5 :: replicate 7 0) Conc.PIdle Conc.CIdle 0 1 [(0, 1%nat)]
              [(0, 1%nat)] [5] [5]). split; [|reflexivity].
    apply (exec_reaches 8 one_in_one_out). reflexivity.
Qed.

(** C29: both threads are wait-free: a thread inside a call always has an
    enabled access, each of its accesses uses up at least one unit of a work
    bound fixed by the length of the burst, and the other thread's accesses
    never add to it. *)
Theorem spsc_wait_free (dflt : T) s :
  Conc.reachable Capacity dflt s ->
  (Conc.producer s <> Conc.PIdle ->
     (exists l s', Conc.of_producer l = true /\ Conc.step Capacity l s = Conc.Next s') /\
     (forall l s', Conc.step Capacity l s = Conc.Next s' ->
        (Conc.p_work s' + (if Conc.of_producer l then 1 else 0) <= Conc.p_work s)%nat)) /\
  (Conc.consumer s <> Conc.CIdle ->
     (exists l s', Conc.of_producer l = false /\ Conc.step Capacity l s = Conc.Next s') /\
     (forall l s', Conc.step Capacity l s = Conc.Next s' ->
        (Conc.c_work s' + (if Conc.of_producer l then 0 else 1) <= Conc.c_work s)%nat)).
Proof.
  intros Hr%Conc.reachable_inv; [|done].
  split; intros Hb; split; eauto using Conc.producer_can_step, Conc.consumer_can_step,
    Conc.producer_work, Conc.consumer_work.
Qed.

(** [enqueue] that reads the newest [tail_] returns false exactly when
    the queue holds [Capacity] items, and [dequeue] that reads the newest
    [head_] returns false exactly when the queue is empty. *)
Theorem spsc_fresh_checks (dflt : T) s :
  Conc.reachable Capacity dflt s ->
  (forall x h s', Conc.producer s = Conc.PHead Conc.Single [x] h ->
     Conc.step Capacity (Conc.PLoad (length (Conc.tails s) - 1)) s = Conc.Next s' ->
     Conc.producer s' = Conc.PIdle <-> Z.of_nat (length (Conc.contents s)) = Capacity) /\
  (forall t s', Conc.consumer s = Conc.CTail Conc.Single 1 t ->
     Conc.step Capacity (Conc.CLoad (length (Conc.heads s) - 1)) s = Conc.Next s' ->
     Conc.consumer s' = Conc.CIdle <-> Conc.contents s = []).
Proof.
  intros Hr%Conc.reachable_inv; [|done].
  split; intros; eauto using Conc.fresh_enqueue, Conc.fresh_dequeue.
Qed.

End Properties.

(** The single-producer restriction is necessary: two threads can both
    be told that their [enqueue] succeeded while the ring, which had room for
    both, ends up holding only one of the items. *)
Theorem two_producers_lose_item :
  exists sched r,
    Producers.interleave 8 sched [Producers.E0 1; Producers.E0 2] (new_ring 8 0) =
      Some ([Producers.EDone true; Producers.EDone true], r) /\
    repr 8 r [2].
Proof.
  exists [0; 1; 0; 1; 0; 1; 0; 1]%nat, (MkRing 1 0 [2; 0; 0; 0; 0; 0; 0; 0]).
  split; [reflexivity|]. split; try done.
  intros [|i] x Hi; [injection Hi as <-; reflexivity|done].
Qed.

(** A reachable state in which both threads are about to access [data_]: the
    ring of two slots has been filled, emptied by one and is being refilled. *)
Definition demo_schedule : list (Conc.label Z) :=
  [Conc.PStart Conc.Burst [5; 6]; Conc.PLoad 0; Conc.PStore; Conc.PStore; Conc.PPublish;
   Conc.CStart Conc.Burst 1; Conc.CLoad 1; Conc.CFetch; Conc.PStart Conc.Single [7];
   Conc.CPublish; Conc.PLoad 1; Conc.CStart Conc.Single 1; Conc.CLoad 1].

Definition demo_state : Conc.cstate Z :=
  Eval vm_compute in
    match Conc.exec 2 demo_schedule (Conc.init 2 0) with
    | Conc.Next s => s
    | _ => Conc.init 2 0
    end.

Lemma demo_reachable : Conc.reachable 2 0 demo_state.
Proof. apply (exec_reaches 2 demo_schedule). reflexivity. Qed.

Lemma spsc_linearizable_witness :
  Conc.producer demo_state = Conc.PWrite [7] 2 1 0 /\
  Conc.consumer demo_state = Conc.CRead 1 1 0 [] /\
  Conc.step 2 Conc.PStore demo_state <> Conc.Undefined /\
  exists s', Conc.step 2 Conc.CFetch demo_state = Conc.Next s' /\
    Conc.sent demo_state = [5] ++ Conc.contents demo_state /\
    Conc.commit 2 demo_state s'.
Proof.
  do 2 (split; [reflexivity|]).
  split; [exact (proj1 (spsc_linearizable 2 (HC := ltac:(valid_capacity)) 0 demo_state Conc.PStore demo_reachable))|].
  destruct (spsc_linearizable 2 (HC := ltac:(valid_capacity)) 0 demo_state Conc.CFetch demo_reachable)
    as (_ & Hs & Hc).
  eexists. split; [reflexivity|]. split; [exact Hs|]. apply Hc. reflexivity.
Defined.

(** The producer has seen the element that was taken. *)
Lemma size_concurrent_witness :
  Conc.producer_size 1 demo_state = Some 1 /\ length (Conc.contents demo_state) = 1%nat /\
  forall n, Conc.producer_size 1 demo_state = Some n -> 1 <= n <= 2.
Proof.
  do 2 (split; [reflexivity|]). intros n.
  apply (proj1 (size_concurrent 2 (HC := ltac:(valid_capacity)) 0 demo_state demo_reachable)).
Defined.

Lemma spsc_wait_free_witness :
  exists l s', Conc.of_producer l = true /\ Conc.step 2 l demo_state = Conc.Next s'.
Proof.
  apply (proj1 (spsc_wait_free 2 (HC := ltac:(valid_capacity)) 0 demo_state demo_reachable)).
  discriminate.
Defined.

(** The same state before the consumer's last load. *)
Definition demo_state' : Conc.cstate Z :=
  Eval vm_compute in
    match Conc.exec 2 (take 12 demo_schedule) (Conc.init 2 0) with
    | Conc.Next s => s
    | _ => Conc.init 2 0
    end.

Lemma demo_reachable' : Conc.reachable 2 0 demo_state'.
Proof. apply (exec_reaches 2 (take 12 demo_schedule)). reflexivity. Qed.

Lemma spsc_fresh_checks_witness :
  Conc.consumer demo_state = Conc.CIdle <-> Conc.contents demo_state' = [].
Proof.
  apply (proj2 (spsc_fresh_checks 2 (HC := ltac:(valid_capacity)) 0 demo_state'
    demo_reachable') 1); reflexivity.
Defined.
