(* ===== verification/MemoryPool.v ===== *)
(** * MemoryPool: the object pool of src/dpdk_sim/memory_pool.h

    [MemoryPool<T, PoolSize>] keeps [PoolSize] blocks and a free list, an
    [SpscRing] of pointers to them.  A pointer is null or the address of a
    block of [storage_], named by its index; the raw bytes of the blocks play
    no part in the pool's own code.  The theorems are about a client that
    frees only blocks it holds: [step] is that protocol. *)

From S2P Require Import Prelude SpscRing.

Inductive ptr := nullptr | Blk (i : nat).

#[export] Instance ptr_eq_dec : EqDecision ptr.
Proof. solve_decision. Defined.

#[export] Instance Blk_inj : Inj (=) (=) Blk.
Proof. by intros ? ? [= ->]. Qed.

Module Pool.

Record MemoryPool := MkPool {
  free_ring_ : Ring.SpscRing ptr;
  total_allocs_ : Z
}.

Section Methods.
Context (PoolSize : Z).

(** The constructor's loop: enqueue the address of every block. *)
Fixpoint populate (k i : nat) (r : Ring.SpscRing ptr) : option (Ring.SpscRing ptr) :=
  match k with
  | O => Some r
  | S k => '(_, r') ← Ring.enqueue PoolSize (Blk i) r; populate k (S i) r'
  end.

Definition new_pool : option MemoryPool :=
  r ← populate (Z.to_nat PoolSize) 0 (Ring.new_ring PoolSize nullptr);
  Some (MkPool r 0).

Definition alloc (p : MemoryPool) : option (ptr * MemoryPool) :=
  '(ok, obj, r) ← Ring.dequeue PoolSize nullptr (free_ring_ p);
  if (ok : bool) then Some (obj, MkPool r (total_allocs_ p +₆₄ 1))
  else Some (nullptr, MkPool r (total_allocs_ p)).

Definition free (obj : ptr) (p : MemoryPool) : option MemoryPool :=
  '(_, r) ← Ring.enqueue PoolSize obj (free_ring_ p);
  Some (MkPool r (total_allocs_ p)).

(** [while (got < n)], with [k = n - got] iterations left at most. *)
Fixpoint alloc_loop (k : nat) (got : Z) (objs : list ptr) (p : MemoryPool)
  : option (Z * list ptr * MemoryPool) :=
  match k with
  | O => Some (got, objs, p)
  | S k =>
      '(ok, obj, r) ← Ring.dequeue PoolSize nullptr (free_ring_ p);
      if (ok : bool) then
        objs' ← array_set objs got obj;
        alloc_loop k (got + 1) objs' (MkPool r (total_allocs_ p +₆₄ 1))
      else Some (got, objs, MkPool r (total_allocs_ p))
  end.

(** [objs] is the caller's buffer, returned as the call leaves it. *)
Definition alloc_burst (objs : list ptr) (n : Z) (p : MemoryPool)
  : option (Z * list ptr * MemoryPool) :=
  alloc_loop (Z.to_nat n) 0 objs p.

Definition free_burst (objs : list ptr) (n : Z) (p : MemoryPool) : option MemoryPool :=
  '(_, r) ← Ring.enqueue_burst PoolSize objs n (free_ring_ p);
  Some (MkPool r (total_allocs_ p)).

Definition available (p : MemoryPool) : Z := Ring.size (free_ring_ p).
Definition in_use (p : MemoryPool) : Z := PoolSize -₆₄ available p.
Definition total_allocs (p : MemoryPool) : Z := total_allocs_ p.
Definition capacity : Z := PoolSize.

(** ** Ownership *)

(** The addresses [&storage_[0]], [&storage_[1]], ... *)
Definition blocks : list ptr := Blk <$> seq 0 (Z.to_nat PoolSize).

(** Every block is either in the free list [q] or held by the client, once. *)
Record owns (p : MemoryPool) (q held : list ptr) : Prop := {
  o_ring : Ring.repr PoolSize (free_ring_ p) q;
  o_perm : q ++ held ≡ₚ blocks
}.

End Methods.

Section Ownership.
Context (PoolSize : Z) `{HC : !ValidCapacity PoolSize}.
Implicit Types (p : MemoryPool) (q held : list ptr).

Lemma length_blocks : length (blocks PoolSize) = Z.to_nat PoolSize.
Proof. unfold blocks. by rewrite length_fmap, length_seq. Qed.

Lemma NoDup_blocks : NoDup (blocks PoolSize).
Proof. apply NoDup_fmap_2; [apply _|]. apply NoDup_seq. Qed.

Lemma null_not_block : nullptr ∉ blocks PoolSize.
Proof. unfold blocks. rewrite list_elem_of_fmap. by intros (? & ? & _). Qed.

Lemma owns_length p q held :
  owns PoolSize p q held ->
  Z.of_nat (length q) + Z.of_nat (length held) = PoolSize.
Proof.
  intros [_ Hp]. apply Permutation_length in Hp. rewrite length_app, length_blocks in Hp.
  pose proof (vc_range (c := PoolSize)). lia.
Qed.

Lemma owns_NoDup p q held : owns PoolSize p q held -> NoDup (q ++ held).
Proof. intros [_ Hp]. rewrite Hp. apply NoDup_blocks. Qed.

Lemma owns_free_block p q held b :
  owns PoolSize p q held -> b ∈ q -> (b ∉ held) /\ b <> nullptr.
Proof.
  intros Ho Hb. split.
  - apply owns_NoDup, NoDup_app in Ho as (_ & Hd & _). by apply Hd.
  - intros ->. apply null_not_block. rewrite <- (o_perm _ _ _ _ Ho). set_solver.
Qed.

Lemma owns_counts p q held :
  owns PoolSize p q held ->
  available p = Z.of_nat (length q) /\ in_use PoolSize p = Z.of_nat (length held).
Proof.
  intros Ho. pose proof (owns_length _ _ _ Ho). pose proof (vc_range (c := PoolSize)).
  unfold in_use, available.
  destruct (Ring.queries_repr PoolSize _ _ (o_ring _ _ _ _ Ho)) as [-> _].
  split; [done|]. rewrite u64_small; lia.
Qed.

(** The free list never overflows: its ring has a slot for every block. *)
Lemma owns_room p q held :
  owns PoolSize p q held -> held <> [] -> Z.of_nat (length q) < PoolSize.
Proof. intros Ho Hh. apply owns_length in Ho. destruct held; simpl in *; [done|lia]. Qed.

(** ** The methods on owned blocks *)

Lemma populate_spec k i r q :
  Ring.repr PoolSize r q ->
  Z.of_nat (length q) + Z.of_nat k <= PoolSize ->
  exists r', populate PoolSize k i r = Some r' /\
    Ring.repr PoolSize r' (q ++ (Blk <$> seq i k)).
Proof.
  revert i r q. induction k as [|k IH]; intros i r q Hr Hk; simpl.
  { exists r. by rewrite app_nil_r. }
  destruct (Ring.enqueue_repr PoolSize (Blk i) r q Hr) as (r1 & -> & Hr1).
  unfold Fifo.enqueue in Hr1 |- *.
  rewrite (proj2 (Z.ltb_lt _ _)) in Hr1 |- * by lia. simpl in *.
  destruct (IH (S i) r1 (q ++ [Blk i])) as (r2 & -> & Hr2);
    [done|rewrite length_app; simpl; lia|].
  exists r2. by rewrite <- app_assoc in Hr2.
Qed.

Lemma new_pool_owns :
  exists p, new_pool PoolSize = Some p /\ owns PoolSize p (blocks PoolSize) [] /\
    total_allocs p = 0.
Proof.
  pose proof (vc_range (c := PoolSize)). unfold new_pool.
  destruct (populate_spec (Z.to_nat PoolSize) 0 (Ring.new_ring PoolSize nullptr) [])
    as (r & -> & Hr); [by apply Ring.new_ring_repr|simpl; lia|].
  eexists. split; [done|]. split; [|done]. split; [done|]. by rewrite app_nil_r.
Qed.

(** The constructor dequeues nothing. *)
Lemma populate_tail k i r r' :
  populate PoolSize k i r = Some r' -> Ring.tail_ r' = Ring.tail_ r.
Proof.
  revert i r. induction k as [|k IH]; intros i r Hr; [by injection Hr as <-|]. cbn in Hr.
  unfold Ring.enqueue in Hr. destruct (_ >=? _); cbn in Hr; [by apply IH in Hr|].
  destruct (array_set _ _ _); [|done]. by apply IH in Hr.
Qed.

Lemma new_pool_tail p : new_pool PoolSize = Some p -> Ring.tail_ (free_ring_ p) = 0.
Proof.
  unfold new_pool. destruct (populate _ _ _ _) as [r|] eqn:Hr; [|done]. intros [= <-].
  by apply populate_tail in Hr.
Qed.

Lemma alloc_empty p held :
  owns PoolSize p [] held ->
  exists p', alloc PoolSize p = Some (nullptr, p') /\ owns PoolSize p' [] held /\
    total_allocs p' = total_allocs p.
Proof.
  intros [Hr Hp]. unfold alloc.
  destruct (Ring.dequeue_repr PoolSize nullptr _ _ Hr) as (r' & -> & Hr').
  eexists. split; [done|]. split; [by split|done].
Qed.

Lemma alloc_cons p b q held :
  owns PoolSize p (b :: q) held ->
  exists p', alloc PoolSize p = Some (b, p') /\ owns PoolSize p' q (b :: held) /\
    total_allocs p' = total_allocs p +₆₄ 1.
Proof.
  intros [Hr Hp]. unfold alloc.
  destruct (Ring.dequeue_repr PoolSize nullptr _ _ Hr) as (r' & -> & Hr').
  eexists. split; [done|]. split; [|done]. split; [done|].
  rewrite <- Hp. simpl. symmetry. apply Permutation_middle.
Qed.

(** [free] of a held block always finds room on the free list. *)
Lemma free_owns p b q held :
  owns PoolSize p q (b :: held) ->
  exists p', free PoolSize b p = Some p' /\ owns PoolSize p' (q ++ [b]) held /\
    total_allocs p' = total_allocs p.
Proof.
  intros Ho. pose proof (owns_room _ _ _ Ho ltac:(done)) as Hroom.
  destruct Ho as [Hr Hp]. unfold free.
  destruct (Ring.enqueue_repr PoolSize b _ _ Hr) as (r' & -> & Hr').
  unfold Fifo.enqueue in Hr' |- *. rewrite (proj2 (Z.ltb_lt _ _)) in Hr' |- * by done.
  eexists. split; [done|]. split; [|done]. split; [done|].
  by rewrite <- Hp, <- app_assoc.
Qed.

Lemma alloc_loop_owns k got objs p q held :
  owns PoolSize p q held ->
  0 <= got -> got + Z.of_nat k <= Z.of_nat (length objs) ->
  exists p', alloc_loop PoolSize k got objs p =
      Some (got + Z.of_nat (k `min` length q),
            take (Z.to_nat got) objs ++ take k q ++
              drop (Z.to_nat got + k `min` length q) objs, p') /\
    owns PoolSize p' (drop k q) (take k q ++ held) /\
    u64 (total_allocs p') = u64 (total_allocs p + Z.of_nat (k `min` length q)).
Proof.
  revert got objs p q held. induction k as [|k IH]; intros got objs p q held Ho Hg Hk.
  { exists p. simpl. rewrite Z.add_0_r, Nat.add_0_r, take_drop, drop_0. by rewrite Z.add_0_r. }
  cbn [alloc_loop]. destruct q as [|b q].
  { destruct Ho as [Hr Hp].
    destruct (Ring.dequeue_repr PoolSize nullptr _ _ Hr) as (r' & -> & Hr').
    eexists. cbn -[Z.add u64]. split.
    - by rewrite Z.add_0_r, Nat.add_0_r, take_drop.
    - split; [done|]. by rewrite Z.add_0_r. }
  destruct (alloc_cons p b q held Ho) as (p1 & Ha & Ho1 & Ht1). unfold alloc in Ha.
  destruct (Ring.dequeue PoolSize nullptr (free_ring_ p)) as [[[ok obj] r]|]; [|done].
  cbn [mbind option_bind] in *. destruct ok; simplify_eq.
  2:{ exfalso. eapply (proj2 (owns_free_block _ _ _ nullptr Ho ltac:(set_solver))). done. }
  rewrite array_set_in by lia. cbn [mbind option_bind].
  destruct (IH (got + 1) (<[Z.to_nat got:=b]> objs) _ _ _ Ho1) as (p' & Hl & Ho' & Ht');
    [lia|rewrite length_insert; lia|].
  exists p'. rewrite Hl. split; [|split].
  - do 3 f_equal; [simpl; lia|]. simpl.
    replace (Z.to_nat (got + 1)) with (S (Z.to_nat got)) by lia.
    erewrite take_S_r by (apply list_lookup_insert_eq; lia).
    rewrite take_insert_ge, <- app_assoc by lia. simpl. do 3 f_equal.
    rewrite drop_insert_lt by lia. f_equal. lia.
  - simpl. eapply (Build_owns _ _ _ _ (o_ring _ _ _ _ Ho')).
    rewrite <- (o_perm _ _ _ _ Ho'). apply Permutation_app_head.
    apply Permutation_middle.
  - rewrite Ht', Ht1, u64_add_l. f_equal. simpl. lia.
Qed.

Lemma alloc_burst_owns objs n p q held :
  owns PoolSize p q held -> 0 <= n <= Z.of_nat (length objs) ->
  exists p', alloc_burst PoolSize objs n p =
      Some (Z.of_nat (length (take (Z.to_nat n) q)),
            take (Z.to_nat n) q ++ drop (length (take (Z.to_nat n) q)) objs, p') /\
    owns PoolSize p' (drop (Z.to_nat n) q) (take (Z.to_nat n) q ++ held) /\
    u64 (total_allocs p') =
      u64 (total_allocs p + Z.of_nat (length (take (Z.to_nat n) q))).
Proof.
  intros Ho Hn. unfold alloc_burst.
  destruct (alloc_loop_owns (Z.to_nat n) 0 objs p q held Ho) as (p' & -> & Ho' & Ht);
    [lia..|].
  exists p'. rewrite !length_take. by split.
Qed.

Lemma free_burst_owns objs n p q bs held :
  owns PoolSize p q (bs ++ held) -> 0 <= n <= Z.of_nat (length objs) ->
  take (Z.to_nat n) objs = bs ->
  exists p', free_burst PoolSize objs n p = Some p' /\
    owns PoolSize p' (q ++ bs) held /\ total_allocs p' = total_allocs p.
Proof.
  intros Ho Hn Hbs. pose proof (owns_length _ _ _ Ho) as Hlen. rewrite length_app in Hlen.
  destruct Ho as [Hr Hp]. unfold free_burst.
  destruct (Ring.enqueue_burst_repr PoolSize objs n _ _ Hr Hn) as (r' & -> & Hr').
  unfold Fifo.enqueue_burst in Hr' |- *. rewrite Hbs in *. simpl in *.
  rewrite take_ge in Hr' by lia.
  eexists. split; [done|]. split; [|done]. split; [done|]. by rewrite <- Hp, <- app_assoc.
Qed.

End Ownership.

(** ** The client protocol *)

(** The pool together with the blocks its client holds; a client may free what
    it holds, in any order. *)
Inductive step (PoolSize : Z) : relation (MemoryPool * list ptr) :=
| step_alloc p held b p' :
    alloc PoolSize p = Some (b, p') ->
    step PoolSize (p, held) (p', if decide (b = nullptr) then held else b :: held)
| step_free p held b held' p' :
    held ≡ₚ b :: held' -> free PoolSize b p = Some p' ->
    step PoolSize (p, held) (p', held')
| step_alloc_burst p held objs n c objs' p' :
    0 <= n <= Z.of_nat (length objs) -> alloc_burst PoolSize objs n p = Some (c, objs', p') ->
    step PoolSize (p, held) (p', take (Z.to_nat c) objs' ++ held)
| step_free_burst p held objs n held' p' :
    0 <= n <= Z.of_nat (length objs) -> held ≡ₚ take (Z.to_nat n) objs ++ held' ->
    free_burst PoolSize objs n p = Some p' ->
    step PoolSize (p, held) (p', held').

Definition reachable (PoolSize : Z) (p : MemoryPool) (held : list ptr) : Prop :=
  exists p0, new_pool PoolSize = Some p0 /\ rtc (step PoolSize) (p0, []) (p, held).

Section Protocol.
Context (PoolSize : Z) `{HC : !ValidCapacity PoolSize}.

Definition owned (s : MemoryPool * list ptr) : Prop := exists q, owns PoolSize s.1 q s.2.

Lemma owns_perm p q held held' :
  held ≡ₚ held' -> owns PoolSize p q held -> owns PoolSize p q held'.
Proof. intros Hh [Hr Hp]. split; [done|]. by rewrite <- Hh. Qed.

Lemma step_owned s s' : step PoolSize s s' -> owned s -> owned s'.
Proof.
  intros Hs [q Ho]. destruct Hs as [p held b p' Ha|p held b held' p' Hh Hf
    |p held objs n c objs' p' Hn Ha|p held objs n held' p' Hn Hh Hf]; simpl in *.
  - destruct q as [|b0 q].
    + destruct (alloc_empty PoolSize p held Ho) as (p1 & Ha' & Ho' & _).
      rewrite Ha' in Ha. simplify_eq. rewrite decide_True by done. by exists [].
    + destruct (alloc_cons PoolSize p b0 q held Ho) as (p1 & Ha' & Ho' & _).
      rewrite Ha' in Ha. simplify_eq.
      rewrite decide_False by (eapply owns_free_block; [done..|set_solver]). by exists q.
  - apply (owns_perm _ _ _ _ Hh) in Ho.
    destruct (free_owns PoolSize p b q held' Ho) as (p1 & Hf' & Ho' & _).
    rewrite Hf' in Hf. simplify_eq. by eexists.
  - destruct (alloc_burst_owns PoolSize objs n p q held Ho Hn) as (p1 & Ha' & Ho' & _).
    rewrite Ha' in Ha. simplify_eq. rewrite Nat2Z.id, take_app_length. by eexists.
  - apply (owns_perm _ _ _ _ Hh) in Ho.
    destruct (free_burst_owns PoolSize objs n p q _ held' Ho Hn eq_refl)
      as (p1 & Hf' & Ho' & _).
    rewrite Hf' in Hf. simplify_eq. by eexists.
Qed.

Lemma reachable_owned p held : reachable PoolSize p held -> owned (p, held).
Proof.
  intros (p0 & Hp0 & Hr). eapply rtc_preserves; [apply step_owned|exact Hr|].
  destruct (new_pool_owns PoolSize) as (p1 & Hp1 & Ho & _).
  rewrite Hp1 in Hp0. simplify_eq. by eexists.
Qed.

End Protocol.

End Pool.

(** ** Properties *)

Section Properties.
Context (PoolSize : Z) `{HC : !ValidCapacity PoolSize}.

(** C13: under the client protocol the pool never hands out a block twice: the
    held blocks are pairwise distinct blocks of the storage, [in_use] is their
    number and [available] the rest. *)
Theorem pool_exclusive p held :
  Pool.reachable PoolSize p held ->
  NoDup held /\ (forall b, b ∈ held -> b ∈ Pool.blocks PoolSize) /\
  Pool.in_use PoolSize p = Z.of_nat (length held) /\
  Pool.available p + Pool.in_use PoolSize p = PoolSize.
Proof.
  intros [q Ho]%Pool.reachable_owned; [|done]. simpl in Ho.
  pose proof (Pool.owns_NoDup _ _ _ _ Ho) as Hnd. apply NoDup_app in Hnd as (_ & _ & Hnd).
  destruct (Pool.owns_counts _ _ _ _ Ho) as [-> ->].
  split; [done|]. split; [|split; [done|by eapply Pool.owns_length]].
  intros b Hb. rewrite <- (Pool.o_perm _ _ _ _ Ho). set_solver.
Qed.

(** [alloc] is total: it returns null exactly when the client holds every
    block, and otherwise a block of the storage the client does not hold. *)
Theorem pool_alloc_fresh p held :
  Pool.reachable PoolSize p held ->
  exists b p', Pool.alloc PoolSize p = Some (b, p') /\
    (b = nullptr <-> Z.of_nat (length held) = PoolSize) /\
    (b <> nullptr -> (b ∉ held) /\ b ∈ Pool.blocks PoolSize /\
       Pool.total_allocs p' = Pool.total_allocs p +₆₄ 1).
Proof.
  intros [q Ho]%Pool.reachable_owned; [|done]. simpl in Ho.
  pose proof (Pool.owns_length _ _ _ _ Ho) as Hl. destruct q as [|b q]; simpl in Hl.
  - destruct (Pool.alloc_empty PoolSize p held Ho) as (p' & Ha & _ & _).
    exists nullptr, p'. split; [done|]. split; [split; [lia|done]|done].
  - destruct (Pool.alloc_cons PoolSize p b q held Ho) as (p' & Ha & _ & Ht).
    destruct (Pool.owns_free_block PoolSize p (b :: q) held b Ho ltac:(set_solver)).
    exists b, p'. split; [done|]. split; [split; [done|lia]|].
    intros _. repeat split; [done| |done]. rewrite <- (Pool.o_perm _ _ _ _ Ho). set_solver.
Qed.

(** [alloc_burst] into a buffer of at least [n] entries writes
    [min n available] new blocks, pairwise distinct and not held, at the start
    of the buffer and returns their number. *)
Theorem pool_alloc_burst_fresh p held objs n :
  Pool.reachable PoolSize p held -> 0 <= n <= Z.of_nat (length objs) ->
  exists bs p', Pool.alloc_burst PoolSize objs n p =
      Some (Z.of_nat (length bs), bs ++ drop (length bs) objs, p') /\
    Z.of_nat (length bs) = Z.min n (Pool.available p) /\
    NoDup (bs ++ held) /\ (nullptr ∉ bs) /\
    Pool.available p' = Pool.available p - Z.of_nat (length bs).
Proof.
  intros [q Ho]%Pool.reachable_owned Hn; [|done]. simpl in Ho.
  destruct (Pool.alloc_burst_owns PoolSize objs n p q held Ho Hn) as (p' & Ha & Ho' & _).
  exists (take (Z.to_nat n) q), p'. split; [done|].
  rewrite (proj1 (Pool.owns_counts _ _ _ _ Ho)), (proj1 (Pool.owns_counts _ _ _ _ Ho')).
  rewrite length_take, length_drop. split; [lia|]. split; [|split; [|lia]].
  - apply Pool.owns_NoDup in Ho' as (_ & _ & ?)%NoDup_app; done.
  - intros Hin. eapply (Pool.owns_free_block _ _ _ _ nullptr Ho); [|done].
    apply elem_of_take in Hin as (j & Hj & _). by eapply list_elem_of_lookup_2.
Qed.

(** Returning held blocks never loses one: [free_burst] (and [free]) find
    room for all of them although the code ignores the count the ring
    reports. *)
Theorem pool_free_lossless p held bs held' :
  Pool.reachable PoolSize p held -> held ≡ₚ bs ++ held' ->
  exists p', Pool.free_burst PoolSize bs (Z.of_nat (length bs)) p = Some p' /\
    Pool.available p' = Pool.available p + Z.of_nat (length bs) /\
    Pool.in_use PoolSize p' = Z.of_nat (length held').
Proof.
  intros [q Ho]%Pool.reachable_owned Hh; [|done]. simpl in Ho.
  apply (Pool.owns_perm PoolSize _ _ _ _ Hh) in Ho.
  destruct (Pool.free_burst_owns PoolSize bs (Z.of_nat (length bs)) p q bs held' Ho)
    as (p' & Hf & Ho' & _); [lia|by rewrite Nat2Z.id, firstn_all|].
  exists p'. split; [done|].
  destruct (Pool.owns_counts _ _ _ _ Ho) as [-> _].
  destruct (Pool.owns_counts _ _ _ _ Ho') as [-> ->]. rewrite length_app. lia.
Qed.

End Properties.

(** A pool of four blocks after two allocations and the return of the first. *)
Definition demo_pool : Pool.MemoryPool :=
  Pool.MkPool (Ring.MkRing 5 2 [Blk 0; Blk 1; Blk 2; Blk 3]) 2.

Lemma demo_pool_reachable : Pool.reachable 4 demo_pool [Blk 1].
Proof.
  eexists. split; [reflexivity|].
  eapply rtc_l; [eapply Pool.step_alloc; reflexivity|].
  eapply rtc_l; [eapply Pool.step_alloc; reflexivity|].
  eapply rtc_l; [|apply rtc_refl].
  eapply (Pool.step_free _ _ _ (Blk 0)); [|reflexivity].
  apply Permutation_swap.
Qed.

Lemma pool_exclusive_witness :
  NoDup [Blk 1] /\ Pool.in_use 4 demo_pool = 1 /\ Pool.available demo_pool = 3.
Proof.
  destruct (pool_exclusive 4 (HC := ltac:(valid_capacity)) demo_pool [Blk 1]
    demo_pool_reachable) as (Hn & _ & Hu & _).
  split; [exact Hn|]. split; [exact Hu|reflexivity].
Defined.

Lemma pool_alloc_fresh_witness :
  exists b p', Pool.alloc 4 demo_pool = Some (b, p') /\
    (b = nullptr <-> Z.of_nat (length [Blk 1]) = 4).
Proof.
  destruct (pool_alloc_fresh 4 (HC := ltac:(valid_capacity)) demo_pool [Blk 1]
    demo_pool_reachable) as (b & p' & Ha & Hb & _).
  exists b, p'. split; [exact Ha|exact Hb].
Defined.

Lemma pool_alloc_burst_fresh_witness :
  exists bs p', Pool.alloc_burst 4 (replicate 8 nullptr) 8 demo_pool =
      Some (Z.of_nat (length bs), bs ++ drop (length bs) (replicate 8 nullptr), p') /\
    Z.of_nat (length bs) = 3.
Proof.
  destruct (pool_alloc_burst_fresh 4 (HC := ltac:(valid_capacity)) demo_pool [Blk 1]
    (replicate 8 nullptr) 8 demo_pool_reachable ltac:(simpl; lia)) as (bs & p' & Ha & Hl & _).
  exists bs, p'. split; [exact Ha|exact Hl].
Defined.

Lemma pool_free_lossless_witness :
  exists p', Pool.free_burst 4 [Blk 1] 1 demo_pool = Some p' /\ Pool.available p' = 4.
Proof.
  destruct (pool_free_lossless 4 (HC := ltac:(valid_capacity)) demo_pool [Blk 1] [Blk 1] []
    demo_pool_reachable ltac:(reflexivity)) as (p' & Hf & Ha & _).
  exists p'. split; [exact Hf|exact Ha].
Defined.
