(* ===== verification/PacketProcessor.v ===== *)
(** * PacketProcessor: src/dpdk_sim/packet_processor.h

    [BatchProcessor<RingSize, PoolSize>]: packets are blocks of a
    [MemoryPool], travel by pointer through an [SpscRing] and go back to the
    pool after the handler has seen them.  The contents of the pool's storage
    ([mem], one [Packet] per block) and the state the user's handler captures
    are explicit, so a handler may rewrite packets; [process_burst] reads
    [burst[i]->len] after it.  A null or foreign pointer that is dereferenced
    is undefined behaviour ([None]). *)

From S2P Require Import Prelude SpscRing MemoryPool.

Record Packet := MkPacket {
  src_ip : Z;
  dst_ip : Z;
  src_port : Z;
  dst_port : Z;
  proto : Z;
  _pad : list Z;
  len : Z;
  timestamp_ns : Z;
  data : list Z
}.

(** [Packet{}]. *)
Definition zero_packet : Packet :=
  MkPacket 0 0 0 0 0 (replicate 3 0) 0 0 (replicate 64 0).

Definition BURST_SIZE : Z := 32.

Record ProcessorStats := MkStats {
  pkts_processed : Z;
  pkts_dropped : Z;
  bytes_processed : Z;
  bursts : Z
}.

(** [burst[i]->]: the packet a pointer refers to. *)
Definition deref (mem : list Packet) (b : ptr) : option Packet :=
  match b with nullptr => None | Blk i => mem !! i end.

Module Processor.

Section Methods.
Context {S : Type} (RingSize PoolSize : Z).

(** What the handler can see and change: its captured state and the packets. *)
Definition world : Type := S * list Packet.

(** A [std::function] on packet pointers; [None] is an empty function object. *)
Definition PacketHandler : Type := ptr -> world -> world.

Record BatchProcessor := MkProc {
  ring_ : Ring.SpscRing ptr;
  pool_ : Pool.MemoryPool;
  handler_ : option PacketHandler;
  stats_ : ProcessorStats
}.

(** The exception of the constructor. *)
Inductive error := InvalidArgument (what : string).

Definition new_processor (handler : option PacketHandler)
  : option (error + BatchProcessor) :=
  pool ← Pool.new_pool PoolSize;
  match handler with
  | None => Some (inl (InvalidArgument "BatchProcessor: handler must not be null"))
  | Some _ =>
      Some (inr (MkProc (Ring.new_ring RingSize nullptr) pool handler (MkStats 0 0 0 0)))
  end.

Definition send (pkt : ptr) (bp : BatchProcessor) : option (bool * BatchProcessor) :=
  '(ok, r) ← Ring.enqueue RingSize pkt (ring_ bp);
  if (ok : bool) then Some (true, MkProc r (pool_ bp) (handler_ bp) (stats_ bp))
  else
    let st := stats_ bp in
    let st' := MkStats (pkts_processed st) (pkts_dropped st +₆₄ 1)
                       (bytes_processed st) (bursts st) in
    pool ← Pool.free PoolSize pkt (pool_ bp);
    Some (false, MkProc r pool (handler_ bp) st').

Definition alloc_packet (bp : BatchProcessor) : option (ptr * BatchProcessor) :=
  '(b, pool) ← Pool.alloc PoolSize (pool_ bp);
  Some (b, MkProc (ring_ bp) pool (handler_ bp) (stats_ bp)).

(** [for (i = 0; i < n; ++i)], with [k = n - i] iterations left; [bytes] is
    [stats_.bytes_processed]. *)
Fixpoint process_loop (k : nat) (i : Z) (h : option PacketHandler) (burst : list ptr)
  (bytes : Z) (w : world) : option (Z * world) :=
  match k with
  | O => Some (bytes, w)
  | Datatypes.S k =>
      b ← array_get burst i;
      let w' := match h with Some f => f b w | None => w end in
      pkt ← deref w'.2 b;
      process_loop k (i + 1) h burst (bytes +₆₄ len pkt) w'
  end.

Definition process_burst (bp : BatchProcessor) (w : world)
  : option (Z * BatchProcessor * world) :=
  let burst := replicate (Z.to_nat BURST_SIZE) nullptr in
  '(n, burst, r) ← Ring.dequeue_burst RingSize burst BURST_SIZE (ring_ bp);
  if n =? 0 then Some (0, MkProc r (pool_ bp) (handler_ bp) (stats_ bp), w)
  else
    let st := stats_ bp in
    '(bytes, w') ← process_loop (Z.to_nat n) 0 (handler_ bp) burst (bytes_processed st) w;
    let st' := MkStats (pkts_processed st +₆₄ n) (pkts_dropped st) bytes
                       (bursts st +₆₄ 1) in
    pool ← Pool.free_burst PoolSize burst n (pool_ bp);
    Some (n, MkProc r pool (handler_ bp) st', w').

Definition stats (bp : BatchProcessor) : ProcessorStats := stats_ bp.
Definition pool (bp : BatchProcessor) : Pool.MemoryPool := pool_ bp.
Definition ring_empty (bp : BatchProcessor) : bool := Ring.empty (ring_ bp).

(** ** Reference semantics of one burst *)

(** The handler on each packet in order, and the bytes it leaves in them. *)
Fixpoint handle_all (f : PacketHandler) (bs : list ptr) (w : world) : Z * world :=
  match bs with
  | [] => (0, w)
  | b :: bs =>
      let w1 := f b w in
      let l := from_option len 0 (deref w1.2 b) in
      let '(n, w2) := handle_all f bs w1 in
      (l + n, w2)
  end.

(** ** Ownership

    [rq] are the packets queued for processing, [held] those the client has
    allocated and not sent yet, [q] the pool's free list. *)
Record owns (bp : BatchProcessor) (q rq held : list ptr) : Prop := {
  o_ring : Ring.repr RingSize (ring_ bp) rq;
  o_pool : Pool.owns PoolSize (pool_ bp) q (rq ++ held);
  o_handler : is_Some (handler_ bp);
  o_bytes : in_width 64 (bytes_processed (stats_ bp))
}.

End Methods.
Arguments BatchProcessor : clear implicits.
Arguments PacketHandler : clear implicits.
Arguments world : clear implicits.

(** A handler works in the fixed storage: it never changes its size. *)
Definition in_place {S} (f : PacketHandler S) : Prop :=
  forall b w, length (f b w).2 = length w.2.

Section Ownership.
Context {S : Type} (RingSize PoolSize : Z).
Context `{HR : !ValidCapacity RingSize, HP : !ValidCapacity PoolSize}.
Implicit Types (bp : BatchProcessor S) (w : world S).

Lemma new_processor_owns (f : PacketHandler S) :
  exists bp, new_processor RingSize PoolSize (Some f) = Some (inr bp) /\
    owns RingSize PoolSize bp (Pool.blocks PoolSize) [] [] /\
    handler_ bp = Some f /\ stats bp = MkStats 0 0 0 0 /\
    Pool.total_allocs (pool bp) = 0.
Proof.
  unfold new_processor. destruct (Pool.new_pool_owns PoolSize) as (p & -> & Ho & Ht).
  eexists. split; [done|]. split; [|done]. split; simpl; try done.
  by apply Ring.new_ring_repr.
Qed.

Lemma new_processor_null :
  new_processor (S := S) RingSize PoolSize None =
    Some (inl (InvalidArgument "BatchProcessor: handler must not be null")).
Proof.
  unfold new_processor. by destruct (Pool.new_pool_owns PoolSize) as (p & -> & _).
Qed.

Lemma alloc_packet_owns bp q rq held :
  owns RingSize PoolSize bp q rq held ->
  exists b bp', alloc_packet PoolSize bp = Some (b, bp') /\
    stats bp' = stats bp /\ handler_ bp' = handler_ bp /\
    match q with
    | [] => b = nullptr /\ owns RingSize PoolSize bp' [] rq held /\
        Pool.total_allocs (pool bp') = Pool.total_allocs (pool bp)
    | b0 :: q' => b = b0 /\ owns RingSize PoolSize bp' q' rq (b :: held) /\
        Pool.total_allocs (pool bp') = Pool.total_allocs (pool bp) +₆₄ 1
    end.
Proof.
  intros [Hr Hp Hh Hb]. unfold alloc_packet. destruct q as [|b q].
  - destruct (Pool.alloc_empty PoolSize _ _ Hp) as (p' & -> & Ho & Ht).
    do 2 eexists. split; [done|]. do 3 (split; [done|]). split; [by split|done].
  - destruct (Pool.alloc_cons PoolSize _ _ _ _ Hp) as (p' & -> & Ho & Ht).
    do 2 eexists. split; [done|]. do 3 (split; [done|]). split; [|done].
    split; simpl; try done. eapply Pool.owns_perm; [|exact Ho]. apply Permutation_middle.
Qed.

(** [send] of a held packet: queued, or counted and returned to the pool. *)
Lemma send_owns bp b q rq held :
  owns RingSize PoolSize bp q rq (b :: held) ->
  exists bp', send RingSize PoolSize b bp =
      Some (Z.of_nat (length rq) <? RingSize, bp') /\
    handler_ bp' = handler_ bp /\
    Pool.total_allocs (pool bp') = Pool.total_allocs (pool bp) /\
    if Z.of_nat (length rq) <? RingSize
    then owns RingSize PoolSize bp' q (rq ++ [b]) held /\ stats bp' = stats bp
    else owns RingSize PoolSize bp' (q ++ [b]) rq held /\
      stats bp' = MkStats (pkts_processed (stats bp)) (pkts_dropped (stats bp) +₆₄ 1)
                          (bytes_processed (stats bp)) (bursts (stats bp)).
Proof.
  intros [Hr Hp Hh Hb]. unfold send.
  destruct (Ring.enqueue_repr RingSize b _ _ Hr) as (r' & -> & Hr').
  unfold Fifo.enqueue in *. destruct (_ <? RingSize); simpl in *.
  - eexists. split; [done|]. do 2 (split; [done|]). split; [|done]. split; simpl; try done.
    by rewrite <- app_assoc.
  - eapply Pool.owns_perm in Hp; [|symmetry; apply Permutation_middle].
    destruct (Pool.free_owns PoolSize _ _ _ _ Hp) as (p' & -> & Ho & Ht).
    eexists. split; [done|]. do 2 (split; [done|]). split; [by split|done].
Qed.

Lemma process_loop_spec (f : PacketHandler S) bs rest done bytes w :
  in_place f -> in_width 64 bytes ->
  (forall b, b ∈ bs -> exists i, b = Blk i /\ (i < length w.2)%nat) ->
  process_loop (length bs) (Z.of_nat (length done)) (Some f) (done ++ bs ++ rest) bytes w =
    Some (u64 (bytes + (handle_all f bs w).1), (handle_all f bs w).2).
Proof.
  intros Hf. revert done bytes w. induction bs as [|b bs IH]; intros done bytes w Hw Hb; simpl.
  { by rewrite Z.add_0_r, u64_small. }
  assert (array_get (done ++ b :: bs ++ rest) (Z.of_nat (length done)) = Some b) as ->.
  { apply array_get_Some. split; [lia|]. rewrite Nat2Z.id. by apply list_lookup_middle. }
  simpl. destruct (Hb b) as (i & -> & Hi); [set_solver|]. simpl.
  destruct (lookup_lt_is_Some_2 (f (Blk i) w).2 i) as [pkt Hpkt]; [by rewrite Hf|].
  rewrite Hpkt. simpl.
  specialize (IH (done ++ [Blk i]) (bytes +₆₄ len pkt) (f (Blk i) w)).
  rewrite <- app_assoc, length_app in IH. simpl in IH.
  replace (Z.of_nat (length done) + 1) with (Z.of_nat (length done + 1)) by lia.
  rewrite IH.
  - destruct (handle_all f bs (f (Blk i) w)) as [n w2]. simpl.
    by rewrite u64_add_l, Z.add_assoc.
  - apply u64_bound.
  - rewrite Hf. intros b' Hb'. apply Hb. set_solver.
Qed.

Lemma queued_valid bp q rq held w b :
  owns RingSize PoolSize bp q rq held -> Z.of_nat (length w.2) = PoolSize -> b ∈ rq ->
  exists i, b = Blk i /\ (i < length w.2)%nat.
Proof.
  intros Ho Hm Hb.
  assert (b ∈ Pool.blocks PoolSize) as Hin.
  { rewrite <- (Pool.o_perm _ _ _ _ (o_pool _ _ _ _ _ _ Ho)). set_solver. }
  apply list_elem_of_fmap in Hin as (i & -> & Hi). apply elem_of_seq in Hi.
  exists i. split; [done|]. lia.
Qed.

(** One burst: the first [BURST_SIZE] queued packets, handled in order and
    returned to the pool. *)
Lemma process_burst_owns bp q rq held w f :
  owns RingSize PoolSize bp q rq held -> handler_ bp = Some f -> in_place f ->
  Z.of_nat (length w.2) = PoolSize ->
  let bs := take (Z.to_nat BURST_SIZE) rq in
  let n := Z.of_nat (length bs) in
  exists bp', process_burst RingSize PoolSize bp w = Some (n, bp', (handle_all f bs w).2) /\
    owns RingSize PoolSize bp' (q ++ bs) (drop (Z.to_nat BURST_SIZE) rq) held /\
    handler_ bp' = handler_ bp /\
    Pool.total_allocs (pool bp') = Pool.total_allocs (pool bp) /\
    stats bp' = if n =? 0 then stats bp else
      MkStats (pkts_processed (stats bp) +₆₄ n) (pkts_dropped (stats bp))
              (u64 (bytes_processed (stats bp) + (handle_all f bs w).1))
              (bursts (stats bp) +₆₄ 1).
Proof.
  intros Ho Hf Hin Hm. simpl. unfold process_burst.
  set (bs := take (Z.to_nat BURST_SIZE) rq).
  assert (length bs <= 32)%nat as Hbs by (unfold bs, BURST_SIZE; rewrite length_take; lia).
  pose proof (Ring.dequeue_burst_repr RingSize (replicate (Z.to_nat BURST_SIZE) nullptr)
    BURST_SIZE (ring_ bp) rq (o_ring _ _ _ _ _ _ Ho)) as Hd.
  unfold Fifo.dequeue_burst in Hd. fold bs in Hd.
  destruct Hd as (r' & -> & Hr'); [done|rewrite length_replicate; unfold BURST_SIZE; lia|].
  cbn [mbind option_bind].
  assert (rq ++ held ≡ₚ bs ++ drop (Z.to_nat BURST_SIZE) rq ++ held) as Hperm
    by (unfold bs; by rewrite app_assoc, take_drop).
  destruct (Z.eqb_spec (Z.of_nat (length bs)) 0) as [Hz|Hnz].
  { assert (bs = []) as Hnil by (destruct bs; [done|simpl in *; lia]).
    eexists. rewrite Hz, Hnil. split; [done|]. split; [|done].
    rewrite app_nil_r. destruct Ho as [_ Hp ? ?]. split; simpl; try done.
    eapply Pool.owns_perm; [|exact Hp]. by rewrite Hperm, Hnil. }
  pose proof (process_loop_spec f bs (drop (length bs) (replicate (Z.to_nat BURST_SIZE) nullptr))
    [] (bytes_processed (stats_ bp)) w Hin (o_bytes _ _ _ _ _ _ Ho)) as Hloop.
  rewrite Hf, Nat2Z.id. rewrite app_nil_l in Hloop. change (Z.of_nat (length [])) with 0 in Hloop.
  rewrite Hloop; clear Hloop.
  2:{ intros b Hb. eapply queued_valid; [done..|]. apply elem_of_take in Hb as (j & Hj & _).
      by eapply list_elem_of_lookup_2. }
  cbn [mbind option_bind]. destruct Ho as [_ Hp ? Hby].
  eapply Pool.owns_perm in Hp; [|exact Hperm].
  destruct (Pool.free_burst_owns PoolSize
    (bs ++ drop (length bs) (replicate (Z.to_nat BURST_SIZE) nullptr)) (Z.of_nat (length bs))
    _ _ _ _ Hp) as (p' & -> & Ho' & Ht).
  { rewrite length_app. lia. }
  { by rewrite Nat2Z.id, take_app_length. }
  simpl. eexists. split; [done|]. split; [|done].
  split; simpl; try done. apply u64_bound.
Qed.

End Ownership.

(** ** The client protocol

    A client allocates packets, fills in the ones it holds, sends them, and
    the processing side runs bursts, in any order. *)

Section Protocol.
Context {S : Type} (RingSize PoolSize : Z).

Inductive step : relation (BatchProcessor S * list ptr * world S) :=
| step_alloc bp held w b bp' :
    alloc_packet PoolSize bp = Some (b, bp') ->
    step (bp, held, w) (bp', if decide (b = nullptr) then held else b :: held, w)
| step_fill bp held w w' :
    length w'.2 = length w.2 -> step (bp, held, w) (bp, held, w')
| step_send bp held w b held' ok bp' :
    held ≡ₚ b :: held' -> send RingSize PoolSize b bp = Some (ok, bp') ->
    step (bp, held, w) (bp', held', w)
| step_process bp held w n bp' w' :
    process_burst RingSize PoolSize bp w = Some (n, bp', w') ->
    step (bp, held, w) (bp', held, w').

Definition reachable (f : PacketHandler S) bp held w : Prop :=
  exists bp0 w0, new_processor RingSize PoolSize (Some f) = Some (inr bp0) /\
    Z.of_nat (length w0.2) = PoolSize /\ rtc step (bp0, [], w0) (bp, held, w).

(** Every allocation is accounted for: processed, dropped, queued or held. *)
Record accounted (f : PacketHandler S) bp (q rq held : list ptr) (w : world S) : Prop := {
  a_owns : owns RingSize PoolSize bp q rq held;
  a_handler : handler_ bp = Some f;
  a_mem : Z.of_nat (length w.2) = PoolSize;
  a_total : u64 (Pool.total_allocs (pool bp)) =
    u64 (pkts_processed (stats bp) + pkts_dropped (stats bp) +
         Z.of_nat (length rq) + Z.of_nat (length held));
  a_dropped : PoolSize <= RingSize -> pkts_dropped (stats bp) = 0
}.

Definition inv (f : PacketHandler S) (s : BatchProcessor S * list ptr * world S) : Prop :=
  exists q rq, accounted f s.1.1 q rq s.1.2 s.2.

Context `{HR : !ValidCapacity RingSize, HP : !ValidCapacity PoolSize}.

Lemma proc_owns_perm (bp : BatchProcessor S) q rq held held' :
  held ≡ₚ held' -> owns RingSize PoolSize bp q rq held -> owns RingSize PoolSize bp q rq held'.
Proof.
  intros Hh [Hr Hp ? ?]. split; try done. eapply Pool.owns_perm; [|exact Hp]. by rewrite Hh.
Qed.

Lemma handle_all_length (f : PacketHandler S) bs w :
  in_place f -> length (handle_all f bs w).2.2 = length w.2.
Proof.
  intros Hf. revert w. induction bs as [|b bs IH]; intros w; simpl; [done|].
  specialize (IH (f b w)). destruct (handle_all f bs (f b w)). simpl in *.
  by rewrite IH, Hf.
Qed.

Lemma u64_total a b c : u64 a = u64 b -> u64 (a + c) = u64 (b + c).
Proof. intros H. by rewrite <- u64_add_l, H, u64_add_l. Qed.

Lemma alloc_accounted f bp held w b bp' :
  inv f (bp, held, w) -> alloc_packet PoolSize bp = Some (b, bp') ->
  inv f (bp', if decide (b = nullptr) then held else b :: held, w).
Proof.
  intros (q & rq & [Ho Hf Hm Ht Hd]) Ha. simpl in *.
  destruct (alloc_packet_owns RingSize PoolSize bp q rq held Ho)
    as (b1 & bp1 & Ha' & Hst & Hh & Hq). rewrite Ha' in Ha. simplify_eq.
  destruct q as [|b0 q]; [destruct Hq as (-> & Ho' & Ht')|destruct Hq as (-> & Ho' & Ht')].
  - exists [], rq. simpl. split; simpl; try done; rewrite ?Hst, ?Ht', ?Hh; done.
  - destruct (Pool.owns_free_block PoolSize _ _ _ b0 (o_pool _ _ _ _ _ _ Ho)) as [_ Hnn];
      [set_solver|].
    exists q, rq. simpl. rewrite decide_False by done.
    split; simpl; try done; rewrite ?Hst, ?Ht', ?Hh; try done.
    rewrite u64_u64, (u64_total _ _ _ Ht). f_equal. lia.
Qed.

Lemma send_accounted f bp held w b held' ok bp' :
  inv f (bp, held, w) -> held ≡ₚ b :: held' ->
  send RingSize PoolSize b bp = Some (ok, bp') -> inv f (bp', held', w).
Proof.
  intros (q & rq & [Ho Hf Hm Ht Hd]) Hh Hs. simpl in *.
  pose proof (Permutation_length Hh) as Hlen. simpl in Hlen.
  pose proof (proc_owns_perm _ _ _ _ _ Hh Ho) as Ho1.
  destruct (send_owns RingSize PoolSize bp b q rq held' Ho1) as (bp1 & Hs' & Hh' & Ht' & Hc).
  rewrite Hs' in Hs. simplify_eq.
  pose proof (Pool.owns_length PoolSize _ _ _ (o_pool _ _ _ _ _ _ Ho1)) as Hl.
  rewrite length_app in Hl. simpl in Hl.
  destruct (Z.ltb_spec (Z.of_nat (length rq)) RingSize); destruct Hc as [Ho' Hst].
  - exists q, (rq ++ [b]). split; simpl; rewrite ?Hst, ?Ht', ?Hh'; try done.
    rewrite Ht, length_app, Hlen. simpl. f_equal. lia.
  - exists (q ++ [b]), rq. split; simpl; rewrite ?Hst, ?Ht', ?Hh'; simpl; try done; [|lia].
    rewrite Ht, Hlen. clear. u64_congr.
Qed.

Lemma process_accounted f bp held w n bp' w' :
  in_place f -> inv f (bp, held, w) ->
  process_burst RingSize PoolSize bp w = Some (n, bp', w') -> inv f (bp', held, w').
Proof.
  intros Hin (q & rq & [Ho Hf Hm Ht Hd]) Hs. simpl in *.
  destruct (process_burst_owns RingSize PoolSize bp q rq held w f Ho Hf Hin Hm)
    as (bp1 & Hs' & Ho' & Hh' & Ht' & Hst). rewrite Hs' in Hs. simplify_eq.
  exists (q ++ take (Z.to_nat BURST_SIZE) rq), (drop (Z.to_nat BURST_SIZE) rq).
  assert (length rq = length (take (Z.to_nat BURST_SIZE) rq) +
            length (drop (Z.to_nat BURST_SIZE) rq))%nat as Hlen
    by (by rewrite <- length_app, take_drop).
  split; simpl; rewrite ?Hst, ?Ht', ?Hh', ?handle_all_length; try done;
    destruct (Z.eqb_spec (Z.of_nat (length (take (Z.to_nat BURST_SIZE) rq))) 0); try done.
  - rewrite Ht. f_equal. lia.
  - simpl. rewrite Ht, Hlen. clear. u64_congr.
Qed.

Lemma reachable_accounted f bp held w :
  in_place f -> reachable f bp held w -> inv f (bp, held, w).
Proof.
  intros Hin (bp0 & w0 & Hn & Hw & Hr). eapply rtc_preserves; [|exact Hr|].
  - intros s s' Hs Hi. destruct Hs.
    + by eapply alloc_accounted.
    + destruct Hi as (q & rq & []). exists q, rq. split; simpl in *; try done. by rewrite H.
    + by eapply send_accounted.
    + by eapply process_accounted.
  - destruct (new_processor_owns RingSize PoolSize f) as (bp1 & Hn' & Ho & Hf & Hst & Ht).
    rewrite Hn' in Hn. simplify_eq. exists (Pool.blocks PoolSize), [].
    split; simpl; rewrite ?Hst, ?Ht; done.
Qed.

(** The processing side alone: [k] bursts in a row. *)
Fixpoint bursts_run (k : nat) (bp : BatchProcessor S) (w : world S)
  : option (BatchProcessor S * world S) :=
  match k with
  | O => Some (bp, w)
  | Datatypes.S k =>
      '(_, bp', w') ← process_burst RingSize PoolSize bp w;
      bursts_run k bp' w'
  end.

Lemma bursts_run_owns k f bp q rq held w :
  in_place f -> owns RingSize PoolSize bp q rq held -> handler_ bp = Some f ->
  Z.of_nat (length w.2) = PoolSize -> (length rq <= k * 32)%nat ->
  exists bp' w', bursts_run k bp w = Some (bp', w') /\
    owns RingSize PoolSize bp' (q ++ rq) [] held.
Proof.
  intros Hin. revert bp q rq w. induction k as [|k IH]; intros bp q rq w Ho Hf Hm Hk; simpl.
  { destruct rq; [|simpl in *; lia]. exists bp, w. by rewrite app_nil_r. }
  destruct (process_burst_owns RingSize PoolSize bp q rq held w f Ho Hf Hin Hm)
    as (bp1 & -> & Ho1 & Hh1 & _ & _). cbn [mbind option_bind].
  destruct (IH bp1 _ _ (handle_all f (take (Z.to_nat BURST_SIZE) rq) w).2 Ho1
    ltac:(by rewrite Hh1)) as (bp' & w' & Hr & Ho').
  - by rewrite handle_all_length.
  - rewrite length_drop. unfold BURST_SIZE. lia.
  - exists bp', w'. split; [exact Hr|]. by rewrite <- app_assoc, take_drop in Ho'.
Qed.

(** A client as a list of calls, run in order. *)
Inductive call := Alloc | Send (b : ptr) | Process.

Definition client_step (c : call) (s : BatchProcessor S * list ptr * world S)
  : option (BatchProcessor S * list ptr * world S) :=
  let '(bp, held, w) := s in
  match c with
  | Alloc =>
      '(b, bp') ← alloc_packet PoolSize bp;
      Some (bp', if decide (b = nullptr) then held else b :: held, w)
  | Send b =>
      if decide (b ∈ held) then
        '(_, bp') ← send RingSize PoolSize b bp;
        Some (bp', remove_first b held, w)
      else None
  | Process =>
      '(_, bp', w') ← process_burst RingSize PoolSize bp w;
      Some (bp', held, w')
  end.

Fixpoint client_run (cs : list call) s :=
  match cs with
  | [] => Some s
  | c :: cs => s' ← client_step c s; client_run cs s'
  end.

Lemma client_run_steps cs s s' : client_run cs s = Some s' -> rtc step s s'.
Proof.
  revert s. induction cs as [|c cs IH]; intros s; simpl; [by intros [= ->]|].
  destruct (client_step c s) as [s1|] eqn:E; simpl; [|done]. intros Hr%IH.
  eapply rtc_l; [|exact Hr]. destruct s as [[bp held] w].
  destruct c as [|b|]; simpl in E.
  - destruct (alloc_packet PoolSize bp) as [[b bp']|] eqn:Ha; simplify_eq/=.
    by apply step_alloc.
  - case_decide; [|done].
    destruct (send RingSize PoolSize b bp) as [[ok bp']|] eqn:Hs; simplify_eq/=.
    eapply step_send; [|exact Hs]. by apply remove_first_perm.
  - destruct (process_burst RingSize PoolSize bp w) as [[[n bp'] w']|] eqn:Hp; simplify_eq/=.
    by eapply step_process.
Qed.

End Protocol.

End Processor.

(** ** Properties *)

Section Properties.
Context {S : Type} (RingSize PoolSize : Z).
Context `{HR : !ValidCapacity RingSize, HP : !ValidCapacity PoolSize}.
Context (f : Processor.PacketHandler S).

(** One [process_burst] takes the first [min 32 n] of the [n] queued
    packets, calls the handler on them in the order they were sent, adds the
    lengths it finds after each call to [bytes_processed] (modulo 2^64),
    counts packets and the burst (an empty burst counts nothing), and returns
    exactly these packets to the pool. *)
Theorem process_burst_correct bp held w :
  Processor.in_place f -> Processor.reachable RingSize PoolSize f bp held w ->
  exists rq bp', Ring.repr RingSize (Processor.ring_ bp) rq /\
    let bs := take 32 rq in
    let n := Z.of_nat (length bs) in
    let st := Processor.stats bp in
    Processor.process_burst RingSize PoolSize bp w =
      Some (n, bp', (Processor.handle_all f bs w).2) /\
    Ring.repr RingSize (Processor.ring_ bp') (drop 32 rq) /\
    Pool.available (Processor.pool bp') = Pool.available (Processor.pool bp) + n /\
    Processor.stats bp' = if n =? 0 then st else
      MkStats (pkts_processed st +₆₄ n) (pkts_dropped st)
              (bytes_processed st +₆₄ (Processor.handle_all f bs w).1) (bursts st +₆₄ 1).
Proof.
  intros Hin Hr. destruct (Processor.reachable_accounted _ _ _ _ _ _ Hin Hr)
    as (q & rq & [Ho Hf Hm _ _]). simpl in *.
  destruct (Processor.process_burst_owns RingSize PoolSize bp q rq held w f Ho Hf Hin Hm)
    as (bp' & Hp & Ho' & _ & _ & Hst). change (Z.to_nat BURST_SIZE) with 32%nat in *.
  exists rq, bp'. split; [apply Ho|]. split; [exact Hp|]. split; [apply Ho'|].
  split; [|exact Hst].
  unfold Processor.pool.
  destruct (Pool.owns_counts PoolSize _ _ _ (Processor.o_pool _ _ _ _ _ _ Ho)) as [-> _].
  destruct (Pool.owns_counts PoolSize _ _ _ (Processor.o_pool _ _ _ _ _ _ Ho')) as [-> _].
  rewrite length_app. lia.
Qed.

(** [send] of a packet the client holds appends it to the queue and
    returns true when the ring has room; when the ring is full it returns
    false, counts one drop and gives the packet back to the pool. *)
Theorem send_correct bp held w b held' :
  Processor.in_place f -> Processor.reachable RingSize PoolSize f bp held w ->
  held ≡ₚ b :: held' ->
  exists rq bp', Ring.repr RingSize (Processor.ring_ bp) rq /\
    let room := Z.of_nat (length rq) <? RingSize in
    let st := Processor.stats bp in
    Processor.send RingSize PoolSize b bp = Some (room, bp') /\
    Ring.repr RingSize (Processor.ring_ bp') (if room then rq ++ [b] else rq) /\
    Pool.available (Processor.pool bp') =
      Pool.available (Processor.pool bp) + (if room then 0 else 1) /\
    Processor.stats bp' = if room then st else
      MkStats (pkts_processed st) (pkts_dropped st +₆₄ 1) (bytes_processed st) (bursts st).
Proof.
  intros Hin Hr Hh. destruct (Processor.reachable_accounted _ _ _ _ _ _ Hin Hr)
    as (q & rq & [Ho _ _ _ _]). simpl in *.
  apply (Processor.proc_owns_perm RingSize PoolSize _ _ _ _ _ Hh) in Ho.
  destruct (Processor.send_owns RingSize PoolSize bp b q rq held' Ho)
    as (bp' & Hs & _ & _ & Hc).
  exists rq, bp'. split; [apply Ho|]. split; [exact Hs|].
  unfold Processor.pool.
  destruct (Pool.owns_counts PoolSize _ _ _ (Processor.o_pool _ _ _ _ _ _ Ho)) as [-> _].
  destruct (_ <? RingSize); destruct Hc as [Ho' Hst];
    (split; [apply Ho'|split; [|exact Hst]]);
    destruct (Pool.owns_counts PoolSize _ _ _ (Processor.o_pool _ _ _ _ _ _ Ho')) as [-> _];
    rewrite ?length_app; simpl; lia.
Qed.

(** C8: conservation of packets: at any point every allocation so far is
    processed, dropped, queued or held by the client (the 64-bit counters
    agree modulo 2^64), and the pool's free blocks are what is neither queued
    nor held. *)
Theorem packets_conserved bp held w :
  Processor.in_place f -> Processor.reachable RingSize PoolSize f bp held w ->
  let st := Processor.stats bp in
  let queued := Ring.size (Processor.ring_ bp) in
  u64 (Pool.total_allocs (Processor.pool bp)) =
    u64 (pkts_processed st + pkts_dropped st + queued + Z.of_nat (length held)) /\
  Pool.available (Processor.pool bp) + queued + Z.of_nat (length held) = PoolSize.
Proof.
  intros Hin Hr. destruct (Processor.reachable_accounted _ _ _ _ _ _ Hin Hr)
    as (q & rq & [Ho _ _ Ht _]). simpl in *.
  destruct (Ring.queries_repr RingSize _ _ (Processor.o_ring _ _ _ _ _ _ Ho)) as [-> _].
  split; [exact Ht|].
  unfold Processor.pool.
  destruct (Pool.owns_counts PoolSize _ _ _ (Processor.o_pool _ _ _ _ _ _ Ho)) as [-> _].
  pose proof (Pool.owns_length PoolSize _ _ _ (Processor.o_pool _ _ _ _ _ _ Ho)) as Hl.
  rewrite length_app in Hl. lia.
Qed.

(** When the ring is at least as large as the pool (as in the default
    template arguments, 1024 and 512) no packet is ever dropped. *)
Theorem no_packet_dropped bp held w :
  Processor.in_place f -> Processor.reachable RingSize PoolSize f bp held w ->
  PoolSize <= RingSize -> pkts_dropped (Processor.stats bp) = 0.
Proof.
  intros Hin Hr Hle. destruct (Processor.reachable_accounted _ _ _ _ _ _ Hin Hr)
    as (q & rq & [_ _ _ _ Hd]). by apply Hd.
Qed.

(** Whatever was sent gets processed: running
    [ceil (queued / 32)] bursts, without undefined behaviour, empties the ring
    and brings every packet the client does not hold back to the pool. *)
Theorem bursts_drain_ring bp held w k :
  Processor.in_place f -> Processor.reachable RingSize PoolSize f bp held w ->
  Ring.size (Processor.ring_ bp) <= Z.of_nat k * 32 ->
  exists bp' w', Processor.bursts_run RingSize PoolSize k bp w = Some (bp', w') /\
    Processor.ring_empty bp' = true /\
    Pool.available (Processor.pool bp') = PoolSize - Z.of_nat (length held).
Proof.
  intros Hin Hr Hk. destruct (Processor.reachable_accounted _ _ _ _ _ _ Hin Hr)
    as (q & rq & [Ho Hf Hm _ _]). simpl in *.
  destruct (Ring.queries_repr RingSize _ _ (Processor.o_ring _ _ _ _ _ _ Ho)) as [Hsz _].
  destruct (Processor.bursts_run_owns RingSize PoolSize k f bp q rq held w Hin Ho Hf Hm)
    as (bp' & w' & Hrun & Ho'); [lia|].
  exists bp', w'. split; [exact Hrun|].
  destruct (Ring.queries_repr RingSize _ _ (Processor.o_ring _ _ _ _ _ _ Ho')) as (_ & He & _).
  split; [exact He|]. unfold Processor.pool.
  destruct (Pool.owns_counts PoolSize _ _ _ (Processor.o_pool _ _ _ _ _ _ Ho')) as [-> _].
  pose proof (Pool.owns_length PoolSize _ _ _ (Processor.o_pool _ _ _ _ _ _ Ho')). simpl in *.
  lia.
Qed.

End Properties.

(** ** A concrete run

    A ring of two slots over a pool of four packets; the handler logs the
    pointer it gets and truncates the packet to 60 bytes. *)

Definition truncate (pkt : Packet) : Packet :=
  MkPacket (src_ip pkt) (dst_ip pkt) (src_port pkt) (dst_port pkt) (proto pkt) (_pad pkt)
           60 (timestamp_ns pkt) (data pkt).

Definition demo_handler : Processor.PacketHandler (list ptr) := fun b w =>
  (w.1 ++ [b], match b with Blk i => alter truncate i w.2 | nullptr => w.2 end).

Lemma demo_handler_in_place : Processor.in_place demo_handler.
Proof. intros [|i] w; simpl; [done|]. apply length_alter. Qed.

Definition demo_packet (l : Z) : Packet :=
  MkPacket 0 0 0 0 6 (replicate 3 0) l 0 (replicate 64 0).

Definition demo_world : Processor.world (list ptr) :=
  ([], [demo_packet 100; demo_packet 200; zero_packet; zero_packet]).

(** Three packets allocated and sent; the third was dropped. *)
Definition demo_proc : Processor.BatchProcessor (list ptr) :=
  Processor.MkProc (Ring.MkRing 2 0 [Blk 0; Blk 1])
    (Pool.MkPool (Ring.MkRing 5 3 [Blk 2; Blk 1; Blk 2; Blk 3]) 3)
    (Some demo_handler) (MkStats 0 1 0 0).

(** The same before the third [send]. *)
Definition demo_proc' : Processor.BatchProcessor (list ptr) :=
  Processor.MkProc (Ring.MkRing 2 0 [Blk 0; Blk 1])
    (Pool.MkPool (Ring.MkRing 4 3 [Blk 0; Blk 1; Blk 2; Blk 3]) 3)
    (Some demo_handler) (MkStats 0 0 0 0).

Lemma demo_reaches RingSize PoolSize f cs bp held w w0 :
  Z.of_nat (length w0.2) = PoolSize ->
  (x ← Processor.new_processor (S := list ptr) RingSize PoolSize (Some f);
   match x with
   | inl _ => None
   | inr bp0 => Processor.client_run RingSize PoolSize cs (bp0, [], w0)
   end) = Some (bp, held, w) ->
  Processor.reachable RingSize PoolSize f bp held w.
Proof.
  intros Hw. destruct (Processor.new_processor RingSize PoolSize (Some f)) as [[?|bp0]|] eqn:E;
    simpl; [done| |done].
  intros Hr%Processor.client_run_steps. by exists bp0, w0.
Qed.

Lemma proc_reachable' : Processor.reachable 2 4 demo_handler demo_proc' [Blk 2] demo_world.
Proof.
  apply (demo_reaches _ _ _ [Processor.Alloc; Processor.Send (Blk 0); Processor.Alloc;
    Processor.Send (Blk 1); Processor.Alloc] _ _ _ demo_world); vm_compute; reflexivity.
Qed.

Lemma proc_reachable : Processor.reachable 2 4 demo_handler demo_proc [] demo_world.
Proof.
  apply (demo_reaches _ _ _ [Processor.Alloc; Processor.Send (Blk 0); Processor.Alloc;
    Processor.Send (Blk 1); Processor.Alloc; Processor.Send (Blk 2)] _ _ _ demo_world); vm_compute; reflexivity.
Qed.

(** The burst evaluated: both packets handled in order, their new lengths
    counted, both back in the pool. *)
Example demo_burst :
  (fun '(n, bp, w) => (n, w, Processor.stats bp, Pool.available (Processor.pool bp))) <$>
    Processor.process_burst 2 4 demo_proc demo_world =
  Some (2, ([Blk 0; Blk 1], [demo_packet 60; demo_packet 60; zero_packet; zero_packet]),
        MkStats 2 1 120 1, 4).
Proof. vm_compute. reflexivity. Qed.

Lemma process_burst_correct_witness :
  exists rq bp', Ring.repr 2 (Processor.ring_ demo_proc) rq /\
    Processor.process_burst 2 4 demo_proc demo_world =
      Some (Z.of_nat (length (take 32 rq)), bp',
            (Processor.handle_all demo_handler (take 32 rq) demo_world).2).
Proof.
  destruct (process_burst_correct 2 4 (HR := ltac:(valid_capacity)) (HP := ltac:(valid_capacity))
    demo_handler demo_proc [] demo_world demo_handler_in_place proc_reachable)
    as (rq & bp' & Hrq & Hp & _).
  exists rq, bp'. split; [exact Hrq|exact Hp].
Defined.

Lemma send_correct_witness :
  exists rq bp', Ring.repr 2 (Processor.ring_ demo_proc') rq /\
    Processor.send 2 4 (Blk 2) demo_proc' = Some (Z.of_nat (length rq) <? 2, bp').
Proof.
  destruct (send_correct 2 4 (HR := ltac:(valid_capacity)) (HP := ltac:(valid_capacity))
    demo_handler demo_proc' [Blk 2] demo_world (Blk 2) [] demo_handler_in_place proc_reachable'
    ltac:(reflexivity)) as (rq & bp' & Hrq & Hs & _).
  exists rq, bp'. split; [exact Hrq|exact Hs].
Defined.

Lemma packets_conserved_witness :
  u64 (Pool.total_allocs (Processor.pool demo_proc)) = u64 (0 + 1 + 2 + 0) /\
  Pool.available (Processor.pool demo_proc) + 2 + 0 = 4.
Proof.
  exact (packets_conserved 2 4 (HR := ltac:(valid_capacity)) (HP := ltac:(valid_capacity))
    demo_handler demo_proc [] demo_world demo_handler_in_place proc_reachable).
Defined.

(** A larger ring with one packet sent. *)
Definition demo_proc8 : Processor.BatchProcessor (list ptr) :=
  Processor.MkProc (Ring.MkRing 1 0 (Blk 0 :: replicate 7 nullptr))
    (Pool.MkPool (Ring.MkRing 4 1 [Blk 0; Blk 1; Blk 2; Blk 3]) 1)
    (Some demo_handler) (MkStats 0 0 0 0).

Lemma proc_reachable8 : Processor.reachable 8 4 demo_handler demo_proc8 [] demo_world.
Proof.
  apply (demo_reaches _ _ _ [Processor.Alloc; Processor.Send (Blk 0)] _ _ _ demo_world); vm_compute; reflexivity.
Qed.

Lemma no_packet_dropped_witness : pkts_dropped (Processor.stats demo_proc8) = 0.
Proof.
  exact (no_packet_dropped 8 4 (HR := ltac:(valid_capacity)) (HP := ltac:(valid_capacity))
    demo_handler demo_proc8 [] demo_world demo_handler_in_place proc_reachable8 ltac:(lia)).
Defined.

Lemma bursts_drain_ring_witness :
  exists bp' w', Processor.bursts_run 2 4 1 demo_proc demo_world = Some (bp', w') /\
    Processor.ring_empty bp' = true /\ Pool.available (Processor.pool bp') = 4.
Proof.
  exact (bursts_drain_ring 2 4 (HR := ltac:(valid_capacity)) (HP := ltac:(valid_capacity))
    demo_handler demo_proc [] demo_world 1 demo_handler_in_place proc_reachable
    ltac:(vm_compute; discriminate)).
Defined.
