(* ===== verification/ProcessorConcurrent.v ===== *)
(** * ProcessorConcurrent: the batch processor between two threads

    src/dpdk_sim/packet_processor.h and memory_pool.h under their intended use:
    one thread allocates, fills and sends packets, another runs process_burst.
    Two rings connect them: [ring_] carries packets from the first to the
    second, the pool's [free_ring_] carries them back.  Both threads are taken
    access by access, each ring by the release/acquire machine of
    [SpscConcurrent], and the two machines are coupled as C++ requires: a
    release store publishes all earlier stores of its thread, those on the
    other ring included, so it carries the number of the thread's last store
    there, and the thread that acquires it has seen that store too.  Every
    access to a packet is logged with the store that will publish it; an access
    that is not ordered after the other thread's accesses to the packet is a
    data race. *)

From S2P Require Import Prelude SpscRing SpscConcurrent MemoryPool PacketProcessor.

(** ** Rings with a history, and acquired views *)

Module Views.
Import Ring Conc.

Section Views.
Context {T : Type} (Capacity : Z).
Implicit Types (s : cstate T).

(** The ring as threads started after its construction find it: [q] queued,
    nothing older to be read. *)
Definition shared (r : SpscRing T) (q : list T) : cstate T :=
  MkC [head_ r] [tail_ r] (data_ r) PIdle CIdle 0 0 [] [] q [].

(** The producer, respectively the consumer, has seen the other thread's
    [n]-th store through another atomic. *)
Definition see_tail (n : nat) s : cstate T :=
  MkC (heads s) (tails s) (slots s) (producer s) (consumer s) (p_seen s `max` n) (c_seen s)
      (wlog s) (rlog s) (sent s) (recvd s).
Definition see_head (n : nat) s : cstate T :=
  MkC (heads s) (tails s) (slots s) (producer s) (consumer s) (p_seen s) (c_seen s `max` n)
      (wlog s) (rlog s) (sent s) (recvd s).

(** The consumer's view, set back. *)
Definition set_c_seen (n : nat) s : cstate T :=
  MkC (heads s) (tails s) (slots s) (producer s) (consumer s) (p_seen s) n
      (wlog s) (rlog s) (sent s) (recvd s).

Context `{HC : !ValidCapacity Capacity}.

Lemma shared_inv (r : SpscRing T) q :
  repr Capacity r q -> tail_ r = 0 ->
  inv_with Capacity (shared r q) [Z.of_nat (length q)] [0] (Z.of_nat (length q)) 0.
Proof.
  intros [Hh Ht Hd Hf Hs] H0. rewrite H0 in *. pose proof (vc_range (c := Capacity)).
  assert (forall z, monotone [z]) as Hm.
  { intros z i j x y _ Hi Hj. apply list_lookup_singleton_Some in Hi, Hj. lia. }
  split; cbn [shared heads tails slots producer consumer p_seen c_seen wlog rlog sent recvd length];
    try done; try lia.
  - cbn. by rewrite Hh, Z.add_0_l.
  - cbn. by rewrite H0.
  - apply prefix_nil.
  - intros i Hi. destruct (lookup_lt_is_Some_2 q (Z.to_nat i)) as [x Hx]; [lia|].
    specialize (Hs _ _ Hx). rewrite Z.add_0_l, (slot_mod Capacity) in Hs.
    rewrite Z2Nat.id in Hs by lia. by rewrite Hs, Hx.
  - intros a k Hk. by apply elem_of_nil in Hk.
  - intros a k Hk. by apply elem_of_nil in Hk.
Qed.

(** The value at the newer of two seen stores. *)
Lemma seen_max (l : list Z) a n x y :
  monotone l -> l !! a = Some x -> l !! n = Some y -> l !! (a `max` n)%nat = Some (x `max` y).
Proof.
  intros Hm Ha Hn. destruct (Nat.max_spec a n) as [[Hlt ->]|[Hle ->]].
  - rewrite Hn. f_equal. specialize (Hm a n x y ltac:(lia) Ha Hn). lia.
  - rewrite Ha. f_equal. specialize (Hm n a y x Hle Hn Ha). lia.
Qed.

Lemma see_tail_inv s hs ts hv tv n y :
  inv_with Capacity s hs ts hv tv -> ts !! n = Some y ->
  inv_with Capacity (see_tail n s) hs ts hv (tv `max` y).
Proof.
  intros I Hn. pose proof (i_tmono _ _ _ _ _ _ I) as Hm.
  pose proof (seen_max _ _ _ _ _ Hm (i_tv _ _ _ _ _ _ I) Hn) as Hseen.
  destruct I as [? ? ? ? ? ? ? ? ? ? ? ? ? ? Hwl ? Hpi ?]. split; try done; cbn; try lia.
  - intros a k Hin. destruct (Hwl a k Hin) as (i & -> & Hi & Hl & Hk).
    exists i. repeat split; [lia|done..].
  - unfold producer_inv in *. cbn. destruct (producer s); try done.
    destruct Hpi as (-> & ? & ? & ? & ?). repeat split; try lia. done.
Qed.

Lemma see_head_inv s hs ts hv tv n y :
  inv_with Capacity s hs ts hv tv -> hs !! n = Some y ->
  inv_with Capacity (see_head n s) hs ts (hv `max` y) tv.
Proof.
  intros I Hn. pose proof (i_hmono _ _ _ _ _ _ I) as Hm.
  pose proof (seen_max _ _ _ _ _ Hm (i_hv _ _ _ _ _ _ I) Hn) as Hseen.
  destruct I as [? ? ? ? ? ? ? ? ? ? ? ? ? ? ? Hrl ? Hci]. split; try done; cbn; try lia.
  - intros a k Hin. destruct (Hrl a k Hin) as (i & -> & Hi & Hl & Hk).
    exists i. repeat split; [lia|done..].
  - unfold consumer_inv in *. cbn. destruct (consumer s); try done.
    destruct Hci as (-> & ? & ? & ?). repeat split; try lia. done.
Qed.

(** *** The shape of the state after an access *)

Ltac invert_access H := cbn in H; repeat case_match; simplify_eq; break_bool; eauto 10.

Lemma cstart_next m n s s' :
  Conc.step Capacity (CStart m n) s = Next s' ->
  consumer s = CIdle /\ exists t, s' = with_consumer s (CTail m (Z.of_nat n) t).
Proof. intros H. invert_access H. Qed.

Lemma pstart_next m ins s s' :
  Conc.step Capacity (PStart m ins) s = Next s' ->
  producer s = PIdle /\ exists h, s' = with_producer s (PHead m ins h).
Proof. intros H. invert_access H. Qed.

Lemma pstart_last m ins s s' :
  Conc.step Capacity (PStart m ins) s = Next s' ->
  producer s = PIdle /\ exists h, last (heads s) = Some h /\ s' = with_producer s (PHead m ins h).
Proof. intros H. invert_access H. Qed.

Lemma cload_next j s s' :
  Conc.step Capacity (CLoad j) s = Next s' ->
  exists m n t h, consumer s = CTail m n t /\ heads s !! j = Some h /\ (c_seen s <= j)%nat /\
    s' = MkC (heads s) (tails s) (slots s) (producer s)
           (match dequeue_count m n h t with None => CIdle | Some cnt => CRead t cnt 0 [] end)
           (p_seen s) j (wlog s) (rlog s) (sent s) (recvd s).
Proof.
  intros H. cbn in H. destruct (consumer s) as [|m n t|] eqn:Hc; try done.
  destruct (heads s !! j) as [h|] eqn:Hh; [|done].
  destruct (Nat.leb_spec (c_seen s) j); [|done]. injection H as <-.
  exists m, n, t, h. by split_and!.
Qed.

Lemma pload_next j s s' :
  Conc.step Capacity (PLoad j) s = Next s' ->
  exists m ins h t, producer s = PHead m ins h /\ tails s !! j = Some t /\ (p_seen s <= j)%nat /\
    s' = MkC (heads s) (tails s) (slots s)
           (match enqueue_count Capacity m (Z.of_nat (length ins)) h t with
            | None => PIdle | Some cnt => PWrite ins h cnt 0 end)
           (consumer s) j (c_seen s) (wlog s) (rlog s) (sent s) (recvd s).
Proof.
  intros H. cbn in H. destruct (producer s) as [|m ins h|] eqn:Hc; try done.
  destruct (tails s !! j) as [t|] eqn:Hh; [|done].
  destruct (Nat.leb_spec (p_seen s) j); [|done]. injection H as <-.
  exists m, ins, h, t. by split_and!.
Qed.

Lemma cfetch_next s s' :
  Conc.step Capacity CFetch s = Next s' ->
  exists t cnt i acc x log, consumer s = CRead t cnt i acc /\
    s' = MkC (heads s) (tails s) (slots s) (producer s) (CRead t cnt (i + 1) (acc ++ [x]))
           (p_seen s) (c_seen s) (wlog s) log (sent s) (recvd s).
Proof. intros H. cbn in H. repeat case_match; simplify_eq. do 6 eexists. by split. Qed.

Lemma pstore_next s s' :
  Conc.step Capacity PStore s = Next s' ->
  exists ins h cnt i d log, producer s = PWrite ins h cnt i /\
    s' = MkC (heads s) (tails s) d (PWrite ins h cnt (i + 1)) (consumer s)
           (p_seen s) (c_seen s) log (rlog s) (sent s) (recvd s).
Proof. intros H. cbn in H. repeat case_match; simplify_eq. do 6 eexists. by split. Qed.

Lemma cpublish_next s s' :
  Conc.step Capacity CPublish s = Next s' ->
  exists t cnt i acc, consumer s = CRead t cnt i acc /\ cnt <= i /\
    s' = MkC (heads s) (tails s ++ [t +₆₄ cnt]) (slots s) (producer s) CIdle
           (p_seen s) (c_seen s) (wlog s) (rlog s) (sent s) (recvd s ++ acc).
Proof.
  intros H. cbn in H. repeat case_match; simplify_eq; break_bool.
  do 4 eexists. by split_and!.
Qed.

Lemma ppublish_next s s' :
  Conc.step Capacity PPublish s = Next s' ->
  exists ins h cnt i, producer s = PWrite ins h cnt i /\ cnt <= i /\
    s' = MkC (heads s ++ [h +₆₄ cnt]) (tails s) (slots s) PIdle (consumer s)
           (p_seen s) (c_seen s) (wlog s) (rlog s) (sent s ++ take (Z.to_nat cnt) ins) (recvd s).
Proof.
  intros H. cbn in H. repeat case_match; simplify_eq; break_bool.
  do 4 eexists. by split_and!.
Qed.

(** *** The invariant, with the modification orders explicit *)

Definition rinv s (hs ts : list Z) : Prop := exists hv tv, inv_with Capacity s hs ts hv tv.

Lemma rinv_defined s hs ts l : rinv s hs ts -> Conc.step Capacity l s <> Undefined.
Proof.
  intros (hv & tv & I) Hu. pose proof (step_safe_with Capacity l s hs ts hv tv I) as Hs.
  by rewrite Hu in Hs.
Qed.

(** The lists of counters follow the lists of stores. *)
Lemma prefix_same (l l' : list Z) (m m' : list Z) :
  l `prefix_of` l' -> m = u64 <$> l -> m' = u64 <$> l' -> length m' = length m -> l' = l.
Proof.
  intros [k ->] -> -> Hlen. rewrite !length_fmap, length_app in Hlen.
  destruct k; [by rewrite app_nil_r|cbn in Hlen; lia].
Qed.

Lemma prefix_snoc (l l' : list Z) (m m' : list Z) z x :
  l `prefix_of` l' -> m = u64 <$> l -> m' = u64 <$> l' -> m' = m ++ [z] -> last l' = Some x ->
  l' = l ++ [x].
Proof.
  intros [k ->] -> -> Heq Hl. apply (f_equal length) in Heq.
  rewrite !length_app, !length_fmap, length_app in Heq. cbn in Heq.
  destruct k as [|y [|]]; cbn in Heq; try lia. rewrite last_snoc in Hl. by injection Hl as ->.
Qed.

Lemma rinv_quiet s s' l hs ts :
  rinv s hs ts -> Conc.step Capacity l s = Next s' -> heads s' = heads s -> tails s' = tails s ->
  rinv s' hs ts.
Proof.
  intros (hv & tv & I) Hs Hh Ht. pose proof (step_safe_with Capacity l s hs ts hv tv I) as Hn.
  rewrite Hs in Hn. destruct Hn as (hs' & ts' & hv' & tv' & I' & Hph & Hpt).
  apply (prefix_same _ _ (heads s) (heads s')) in Hph; [|apply I|apply I'|by rewrite Hh].
  apply (prefix_same _ _ (tails s) (tails s')) in Hpt; [|apply I|apply I'|by rewrite Ht].
  subst. by exists hv', tv'.
Qed.

Lemma rinv_head s s' l hs ts z :
  rinv s hs ts -> Conc.step Capacity l s = Next s' -> heads s' = heads s ++ [z] ->
  tails s' = tails s -> rinv s' (hs ++ [Z.of_nat (length (sent s'))]) ts.
Proof.
  intros (hv & tv & I) Hs Hh Ht. pose proof (step_safe_with Capacity l s hs ts hv tv I) as Hn.
  rewrite Hs in Hn. destruct Hn as (hs' & ts' & hv' & tv' & I' & Hph & Hpt).
  eapply (prefix_snoc _ _ (heads s) (heads s')) in Hph; [|apply I|apply I'|exact Hh|apply I'].
  apply (prefix_same _ _ (tails s) (tails s')) in Hpt; [|apply I|apply I'|by rewrite Ht].
  subst. by exists hv', tv'.
Qed.

Lemma rinv_tail s s' l hs ts z :
  rinv s hs ts -> Conc.step Capacity l s = Next s' -> heads s' = heads s ->
  tails s' = tails s ++ [z] -> rinv s' hs (ts ++ [Z.of_nat (length (recvd s'))]).
Proof.
  intros (hv & tv & I) Hs Hh Ht. pose proof (step_safe_with Capacity l s hs ts hv tv I) as Hn.
  rewrite Hs in Hn. destruct Hn as (hs' & ts' & hv' & tv' & I' & Hph & Hpt).
  apply (prefix_same _ _ (heads s) (heads s')) in Hph; [|apply I|apply I'|by rewrite Hh].
  eapply (prefix_snoc _ _ (tails s) (tails s')) in Hpt; [|apply I|apply I'|exact Ht|apply I'].
  subst. by exists hv', tv'.
Qed.

Lemma rinv_see_tail s hs ts n : rinv s hs ts -> (n < length ts)%nat -> rinv (see_tail n s) hs ts.
Proof.
  intros (hv & tv & I) Hn. apply lookup_lt_is_Some in Hn as [y Hy].
  do 2 eexists. by apply see_tail_inv.
Qed.

Lemma rinv_see_head s hs ts n : rinv s hs ts -> (n < length hs)%nat -> rinv (see_head n s) hs ts.
Proof.
  intros (hv & tv & I) Hn. apply lookup_lt_is_Some in Hn as [y Hy].
  do 2 eexists. by apply see_head_inv.
Qed.

(** What the rest needs of it. *)
Lemma rinv_facts s hs ts :
  rinv s hs ts ->
  monotone hs /\ monotone ts /\ length (heads s) = length hs /\ length (tails s) = length ts /\
  last hs = Some (Z.of_nat (length (sent s))) /\ last ts = Some (Z.of_nat (length (recvd s))) /\
  sent s = recvd s ++ contents s /\
  exists hv, hs !! c_seen s = Some hv /\ Z.of_nat (length (recvd s)) <= hv.
Proof.
  intros (hv & tv & I). destruct (contents_split Capacity s) as [Hc _]; [by do 4 eexists|].
  destruct I as [Hh Ht Hmh Hmt Hlh Hlt Hhv _ _ _ Hseen _ _ _ _ _ _ _].
  split_and!; try done; [by rewrite Hh, length_fmap|by rewrite Ht, length_fmap|by exists hv].
Qed.

End Views.
End Views.

(** ** The two threads *)

Module Threads.
Import Conc Views.

(** Where the sending thread is: between calls, inside [alloc_packet], inside
    [send], or on the drop path of [send], which enqueues on the free ring from
    this thread: before [free], with [head_] loaded (from store [j]), with room
    found, with the packet stored. *)
Inductive ppoint :=
| PReady
| PAlloc
| PSend (b : ptr)
| PDrop (b : ptr)
| PDropHead (b : ptr) (h : Z) (j : nat)
| PDropRoom (b : ptr) (h : Z)
| PDropStored (b : ptr) (h : Z).

Definition dropping (pc : ppoint) : bool :=
  match pc with PReady | PAlloc | PSend _ => false | _ => true end.

(** What the drop path leaves behind, as it makes the sending thread a second
    writer of the free ring's array and [head_]: the slots it wrote, each with
    the next store of ring_.head_ and of free_ring_.tail_, either of which
    publishes the write to the other thread; the numbers of its own stores of
    [head_]; and the newest store of [head_] it has written or read, older ones
    than which it can no longer read. *)
Record drop_state := MkD {
  dlog : list (Z * nat * nat);
  own : list nat;
  floor : nat
}.
Definition no_drops : drop_state := MkD [] [] 0.

(** Where the processing thread is in [process_burst]: before the call, in
    [dequeue_burst], in the loop at packet [i], in [free_burst]. *)
Inductive cpoint := CReady | CDequeue | CHandle (burst : list ptr) (i : nat) | CFree (burst : list ptr).

(** What the sending thread owns: its packets, [total_allocs_],
    [stats_.pkts_dropped], the views its stores carry and its packet accesses. *)
Record pthread := MkP {
  ppt : ppoint;
  held : list ptr;
  total_allocs : Z;
  dropped : Z;
  rh_views : list nat;        (** per store of ring_.head_: its last store of free_ring_.tail_ *)
  ft_views : list nat;        (** per store of free_ring_.tail_: its last store of ring_.head_ *)
  plog : list (ptr * nat);    (** packets accessed, with the store of ring_.head_ publishing it *)
  drops : drop_state
}.

(** A dropped packet has been stored into the free ring's array. *)
Definition put_back (p : pthread) : bool :=
  match dlog (drops p) with [] => false | _ => true end.

(** What the processing thread owns: the rest of the statistics. *)
Record cthread (S : Type) := MkT {
  cpt : cpoint;
  processed : Z;
  bytes : Z;
  bursts : Z;
  captured : S;               (** the state the handler captures *)
  rt_views : list nat;        (** per store of ring_.tail_: its last store of free_ring_.head_ *)
  fh_views : list nat;        (** per store of free_ring_.head_: its last store of ring_.tail_ *)
  clog : list (ptr * nat);    (** packets accessed, with the store of free_ring_.head_ publishing it *)
  handled : list ptr          (** packets the handler has seen, in order *)
}.
Arguments MkT {S} _ _ _ _ _ _ _ _ _.
Arguments cpt {S} _.
Arguments processed {S} _.
Arguments bytes {S} _.
Arguments bursts {S} _.
Arguments captured {S} _.
Arguments rt_views {S} _.
Arguments fh_views {S} _.
Arguments clog {S} _.
Arguments handled {S} _.

Record sys (S : Type) := MkSys {
  ring : cstate ptr;          (** ring_ *)
  free : cstate ptr;          (** pool_.free_ring_ *)
  mem : list Packet;          (** pool_.storage_ *)
  snd_ : pthread;
  prc : cthread S;
  payloads : list Packet      (** the packets as they were sent, in order *)
}.
Arguments MkSys {S} _ _ _ _ _ _.
Arguments ring {S} _.
Arguments free {S} _.
Arguments mem {S} _.
Arguments snd_ {S} _.
Arguments prc {S} _.
Arguments payloads {S} _.

Inductive result (S : Type) :=
| Disabled                    (** the thread is not at such an access *)
| Undefined                   (** data race, bad access, or a violated contract *)
| Next (s : sys S).
Arguments Disabled {S}.
Arguments Undefined {S}.
Arguments Next {S} _.

(** The accesses; the ones inside a ring call are the ring's. *)
Inductive action :=
| AStart                      (** the sending thread calls alloc_packet *)
| AAlloc (l : label ptr)
| AFill (b : ptr) (pkt : Packet)
| ASend (b : ptr)             (** it calls send *)
| APut (l : label ptr)
| ADropHead (j : nat)         (** pool_.free on the drop path: load of head_ *)
| ADropTail                   (** load of tail_, check *)
| ADropStore                  (** store into the array *)
| ADropPublish                (** store of head_; send returns *)
| BStart                      (** the processing thread calls process_burst *)
| BTake (l : label ptr)
| BHandle                     (** one turn of its loop *)
| BFree (j : nat)             (** the end of the loop; free_burst loads head_ *)
| BPut (l : label ptr).

(** Every logged access to [b] is published by a store seen. *)
Definition seen_accesses (log : list (ptr * nat)) (b : ptr) (seen : nat) : bool :=
  forallb (fun e => negb (bool_decide (e.1 = b)) || (e.2 <=? seen)%nat) log.

Definition is_idle_p (p : ppc ptr) : bool := match p with PIdle => true | _ => false end.
Definition is_idle_c (c : cpc ptr) : bool := match c with CIdle => true | _ => false end.

Section Machine.
Context {S : Type} (RingSize PoolSize : Z).
(** A handler that works on its packet and on the state it captures. *)
Context (handle : S -> Packet -> S * Packet).
Implicit Types (s : sys S).

Definition at_p (p : pthread) (pc : ppoint) : pthread :=
  MkP pc (held p) (total_allocs p) (dropped p) (rh_views p) (ft_views p) (plog p) (drops p).
Definition at_c (c : cthread S) (pc : cpoint) : cthread S :=
  MkT pc (processed c) (bytes c) (bursts c) (captured c) (rt_views c) (fh_views c) (clog c)
      (handled c).

(** An access on a ring, then the rest. *)
Definition access (o : outcome ptr) (k : cstate ptr -> result S) : result S :=
  match o with Conc.Disabled => Disabled | Conc.Undefined => Undefined | Conc.Next r => k r end.

Definition view_of (views : list nat) (j : nat) (k : nat -> result S) : result S :=
  match views !! j with Some v => k v | None => Disabled end.

(** *** The sending thread *)

(** [pool_.alloc()]: [free_ring_.dequeue].  A load of [head_] from a store of
    the other thread acquires what that thread did before it; one from a store
    this thread made on a drop path acquires nothing. *)
Definition alloc_access (l : label ptr) s : result S :=
  let p := snd_ s in
  access (Conc.step PoolSize l (free s)) (fun f =>
  match l with
  | CLoad j =>
      let p' := at_p p (if is_idle_c (consumer f) then PReady else PAlloc) in
      if (floor (drops p) <=? j)%nat then
        if bool_decide (j ∈ own (drops p)) then
          Next (MkSys (ring s) (set_c_seen (c_seen (free s)) f) (mem s) p' (prc s) (payloads s))
        else view_of (fh_views (prc s)) j (fun v =>
          Next (MkSys (see_tail v (ring s)) f (mem s) p' (prc s) (payloads s)))
      else Disabled
  | CFetch => Next (MkSys (ring s) f (mem s) p (prc s) (payloads s))
  | CPublish =>
      match consumer (free s) with
      | CRead _ _ _ [b] =>
          Next (MkSys (ring s) f (mem s)
            (MkP PReady (b :: held p) (total_allocs p +₆₄ 1) (dropped p) (rh_views p)
                 (ft_views p ++ [length (heads (ring s)) - 1]%nat) (plog p) (drops p)) (prc s) (payloads s))
      | _ => Undefined
      end
  | _ => Disabled
  end).

(** The client writes a packet it holds. *)
Definition fill (b : ptr) (pkt : Packet) s : result S :=
  let p := snd_ s in
  if decide (b ∈ held p) then
    match b with
    | nullptr => Undefined
    | Blk i =>
        if decide (i < length (mem s))%nat then
          if seen_accesses (clog (prc s)) b (c_seen (free s)) then
            Next (MkSys (ring s) (free s) (<[i := pkt]> (mem s))
              (MkP PReady (held p) (total_allocs p) (dropped p) (rh_views p) (ft_views p)
                   ((b, length (heads (ring s))) :: plog p) (drops p)) (prc s) (payloads s))
          else Undefined
        else Undefined
    end
  else Disabled.

(** [send(b)]: [ring_.enqueue]; when it is full the drop path. *)
Definition send_access (b : ptr) (l : label ptr) s : result S :=
  let p := snd_ s in
  access (Conc.step RingSize l (ring s)) (fun r =>
  match l with
  | PLoad j => view_of (rt_views (prc s)) j (fun v =>
      Next (MkSys r (see_head v (free s)) (mem s)
        (if is_idle_p (producer r)
         then MkP (PDrop b) (held p) (total_allocs p) (dropped p +₆₄ 1) (rh_views p) (ft_views p) (plog p)
                (drops p)
         else p) (prc s) (payloads s)))
  | PStore => Next (MkSys r (free s) (mem s) p (prc s) (payloads s))
  | PPublish =>
      match deref (mem s) b with
      | Some pkt =>
          Next (MkSys r (free s) (mem s)
            (MkP PReady (filter (fun x => x <> b) (held p)) (total_allocs p) (dropped p)
                 (rh_views p ++ [length (tails (free s)) - 1]%nat) (ft_views p) (plog p) (drops p))
            (prc s) (payloads s ++ [pkt]))
      | None => Undefined
      end
  | _ => Disabled
  end).

(** [pool_.free(b)] on the drop path: [free_ring_.enqueue] by the thread that is
    the consumer of that ring.  [head_] is loaded relaxed, any store not older
    than the newest one seen; [tail_] is this thread's own; the store into the
    array must be ordered after the other thread's; then [head_] is stored, from
    a second thread, and [send] returns. *)
Definition drop_head (b : ptr) (j : nat) s : result S :=
  match heads (free s) !! j with
  | Some h =>
      if (c_seen (free s) <=? j)%nat && (floor (drops (snd_ s)) <=? j)%nat then
        Next (MkSys (ring s) (free s) (mem s) (at_p (snd_ s) (PDropHead b h j)) (prc s) (payloads s))
      else Disabled
  | None => Disabled
  end.

Definition without (b : ptr) (p : pthread) (d : drop_state) : pthread :=
  MkP PReady (filter (fun x => x <> b) (held p)) (total_allocs p) (dropped p)
      (rh_views p) (ft_views p) (plog p) d.

Definition drop_tail (b : ptr) (h : Z) (j : nat) s : result S :=
  let p := snd_ s in
  match last (tails (free s)) with
  | Some t =>
      Next (MkSys (ring s) (free s) (mem s)
        (if (h -₆₄ t) >=? PoolSize
         then without b p (MkD (dlog (drops p)) (own (drops p)) j)
         else at_p p (PDropRoom b h)) (prc s) (payloads s))
  | None => Disabled
  end.

Definition drop_slot (h : Z) : Z := Z.land h (Ring.MASK PoolSize).

Definition drop_store (b : ptr) (h : Z) s : result S :=
  let f := free s in
  let p := snd_ s in
  match array_set (slots f) (drop_slot h) b with
  | None => Undefined
  | Some d =>
      if ordered (wlog f) (drop_slot h) (c_seen f) then
        Next (MkSys (ring s)
          (MkC (heads f) (tails f) d (producer f) (consumer f) (p_seen f) (c_seen f)
               (wlog f) (rlog f) (sent f) (recvd f)) (mem s)
          (MkP (PDropStored b h) (held p) (total_allocs p) (dropped p) (rh_views p) (ft_views p)
               (plog p)
               (MkD ((drop_slot h, length (heads (ring s)), length (tails f)) :: dlog (drops p))
                    (own (drops p)) (floor (drops p)))) (prc s) (payloads s))
      else Undefined
  end.

Definition drop_publish (b : ptr) (h : Z) s : result S :=
  let f := free s in
  let p := snd_ s in
  let c := prc s in
  let k := length (heads f) in
  Next (MkSys (ring s)
    (MkC (heads f ++ [h +₆₄ 1]) (tails f) (slots f) (producer f) (consumer f) (p_seen f) (c_seen f)
         (wlog f) (rlog f) (sent f ++ [b]) (recvd f)) (mem s)
    (without b p (MkD (dlog (drops p)) (own (drops p) ++ [k]) k))
    (MkT (cpt c) (processed c) (bytes c) (bursts c) (captured c) (rt_views c) (fh_views c ++ [0%nat])
         (clog c) (handled c)) (payloads s)).

(** The next store of the processing thread into the free ring's array is
    ordered after those of the drop paths. *)
Definition drop_ordered s : bool :=
  match producer (free s) with
  | PWrite _ h _ i =>
      forallb (fun '(a, kr, kt) =>
        negb (a =? drop_slot (h +₆₄ i)) || (kr <=? c_seen (ring s))%nat || (kt <=? p_seen (free s))%nat)
        (dlog (drops (snd_ s)))
  | _ => true
  end.

(** The newest store of [head_] but for stores of the drop paths: the processing
    thread's relaxed load may miss those. *)
Definition newest_free (j : nat) s : bool :=
  forallb (fun k => bool_decide (k ∈ own (drops (snd_ s)))) (seq (j + 1) (length (heads (free s)) - (j + 1))).

(** *** The processing thread *)

(** [ring_.dequeue_burst(burst, BURST_SIZE)]; an empty burst ends the call. *)
Definition take_access (l : label ptr) s : result S :=
  let c := prc s in
  access (Conc.step RingSize l (ring s)) (fun r =>
  match l with
  | CLoad j => view_of (rh_views (snd_ s)) j (fun v =>
      Next (MkSys r (see_tail v (free s)) (mem s) (snd_ s) c (payloads s)))
  | CFetch => Next (MkSys r (free s) (mem s) (snd_ s) c (payloads s))
  | CPublish =>
      match consumer (ring s) with
      | CRead _ _ _ burst =>
          Next (MkSys r (free s) (mem s) (snd_ s)
            (MkT (match burst with [] => CReady | _ => CHandle burst 0 end)
                 (processed c) (bytes c) (bursts c) (captured c)
                 (rt_views c ++ [length (heads (free s)) - 1]%nat) (fh_views c) (clog c) (handled c))
            (payloads s))
      | _ => Undefined
      end
  | _ => Disabled
  end).

(** [handler_(burst[i]); stats_.bytes_processed += burst[i]->len]. *)
Definition handle_one (burst : list ptr) (i : nat) s : result S :=
  let c := prc s in
  match burst !! i with
  | None => Disabled
  | Some b =>
      match b, deref (mem s) b with
      | Blk k, Some pkt =>
          if seen_accesses (plog (snd_ s)) b (c_seen (ring s)) then
            let '(st, pkt') := handle (captured c) pkt in
            Next (MkSys (ring s) (free s) (<[k := pkt']> (mem s)) (snd_ s)
              (MkT (CHandle burst (i + 1)) (processed c) (bytes c +₆₄ len pkt') (bursts c) st
                   (rt_views c) (fh_views c) ((b, length (heads (free s))) :: clog c)
                   (handled c ++ [b])) (payloads s))
          else Undefined
      | _, _ => Undefined
      end
  end.

(** [stats_.pkts_processed += n; ++stats_.bursts; pool_.free_burst(burst, n)]. *)
Definition free_start (burst : list ptr) (i j : nat) s : result S :=
  let c := prc s in
  match heads (free s) !! j with
  | Some h =>
      if decide (i = length burst) then
        if newest_free j s then
          access (Conc.step PoolSize (PStart Burst burst) (free s)) (fun f =>
            Next (MkSys (ring s) (with_producer f (PHead Burst burst h)) (mem s) (snd_ s)
              (MkT (CFree burst) (processed c +₆₄ Z.of_nat (length burst)) (bytes c) (bursts c +₆₄ 1)
                   (captured c) (rt_views c) (fh_views c) (clog c) (handled c)) (payloads s)))
        else Disabled
      else Disabled
  | None => Disabled
  end.

Definition free_access (l : label ptr) s : result S :=
  let c := prc s in
  access (Conc.step PoolSize l (free s)) (fun f =>
  match l with
  | PLoad j => view_of (ft_views (snd_ s)) j (fun v =>
      Next (MkSys (see_head v (ring s)) f (mem s) (snd_ s) c (payloads s)))
  | PStore =>
      if drop_ordered s then Next (MkSys (ring s) f (mem s) (snd_ s) c (payloads s)) else Undefined
  | PPublish =>
      Next (MkSys (ring s) f (mem s) (snd_ s)
        (MkT CReady (processed c) (bytes c) (bursts c) (captured c) (rt_views c)
             (fh_views c ++ [length (tails (ring s)) - 1]%nat) (clog c) (handled c)) (payloads s))
  | _ => Disabled
  end).

Definition step (a : action) s : result S :=
  let p := snd_ s in
  let c := prc s in
  match a with
  | AStart =>
      match ppt p with
      | PReady => access (Conc.step PoolSize (CStart Single 1) (free s)) (fun f =>
          Next (MkSys (ring s) f (mem s) (at_p p PAlloc) c (payloads s)))
      | _ => Disabled
      end
  | AAlloc l => match ppt p with PAlloc => alloc_access l s | _ => Disabled end
  | AFill b pkt => match ppt p with PReady => fill b pkt s | _ => Disabled end
  | ASend b =>
      match ppt p with
      | PReady =>
          if decide (b ∈ held p) then
            access (Conc.step RingSize (PStart Single [b]) (ring s)) (fun r =>
              Next (MkSys r (free s) (mem s) (at_p p (PSend b)) c (payloads s)))
          else Disabled
      | _ => Disabled
      end
  | APut l => match ppt p with PSend b => send_access b l s | _ => Disabled end
  | ADropHead j => match ppt p with PDrop b => drop_head b j s | _ => Disabled end
  | ADropTail => match ppt p with PDropHead b h j => drop_tail b h j s | _ => Disabled end
  | ADropStore => match ppt p with PDropRoom b h => drop_store b h s | _ => Disabled end
  | ADropPublish => match ppt p with PDropStored b h => drop_publish b h s | _ => Disabled end
  | BStart =>
      match cpt c with
      | CReady =>
          access (Conc.step RingSize (CStart Burst (Z.to_nat BURST_SIZE)) (ring s)) (fun r =>
            Next (MkSys r (free s) (mem s) p (at_c c CDequeue) (payloads s)))
      | _ => Disabled
      end
  | BTake l => match cpt c with CDequeue => take_access l s | _ => Disabled end
  | BHandle => match cpt c with CHandle burst i => handle_one burst i s | _ => Disabled end
  | BFree j => match cpt c with CHandle burst i => free_start burst i j s | _ => Disabled end
  | BPut l => match cpt c with CFree _ => free_access l s | _ => Disabled end
  end.

(** The processor as the threads find it after its construction. *)
Definition start (st0 : S) (mem0 : list Packet) : option (sys S) :=
  pool ← Pool.new_pool PoolSize;
  Some (MkSys (shared (Ring.new_ring RingSize nullptr) [])
              (shared (Pool.free_ring_ pool) (Pool.blocks PoolSize)) mem0
              (MkP PReady [] 0 0 [0%nat] [0%nat] [] no_drops)
              (MkT CReady 0 0 0 st0 [0%nat] [0%nat] [] []) []).

Definition steps_to s s' : Prop := exists a, step a s = Next s'.

Definition reachable (st0 : S) (s : sys S) : Prop :=
  exists mem0 s0, Z.of_nat (length mem0) = PoolSize /\ start st0 mem0 = Some s0 /\
    rtc steps_to s0 s.

(** *** Reference: the handler over the packets in the order they were sent *)

Fixpoint run_handler (ps : list Packet) (st : S) (n : Z) : S * Z :=
  match ps with
  | [] => (st, n)
  | pkt :: ps => let '(st', pkt') := handle st pkt in run_handler ps st' (n +₆₄ len pkt')
  end.

(** The packets the processing thread has in its burst, and those of them it
    has still to handle. *)
Definition hand s : list ptr :=
  match cpt (prc s) with CHandle b _ | CFree b => b | _ => [] end.
Definition todo s : list ptr :=
  match cpt (prc s) with CHandle b i => drop i b | _ => [] end.

End Machine.

(** ** Coupling of the rings

    A thread stores to the head of one ring and to the tail of the other; [d]
    packets more may have gone out than came in. *)

Section Coupling.

(** Store [k] of the heads counts at most [d] more than store [v] of the tails. *)
Definition vrel (d : Z) (hs ts : list Z) (k v : nat) : Prop :=
  exists x y, hs !! k = Some x /\ ts !! v = Some y /\ x <= d + y.

Record linked (d : Z) (hs ts : list Z) (hviews tviews : list nat) : Prop := {
  l_hlen : length hviews = length hs;
  l_tlen : length tviews = length ts;
  l_h : forall k v, hviews !! k = Some v -> vrel d hs ts k v;
  l_t : forall k v, tviews !! k = Some v -> vrel d hs ts v k
}.

Lemma vrel_grow d hs ts hs' ts' k v :
  vrel d hs ts k v -> vrel d (hs ++ hs') (ts ++ ts') k v.
Proof.
  intros (x & y & Hx & Hy & Hle). exists x, y.
  split_and!; [by apply lookup_app_l_Some|by apply lookup_app_l_Some|done].
Qed.

Lemma vrel_last d hs ts x y :
  last hs = Some x -> last ts = Some y -> x <= d + y ->
  vrel d hs ts (length hs - 1) (length ts - 1).
Proof. intros Hx Hy Hle. exists x, y. split_and!; [by apply last_index..|done]. Qed.

Lemma linked_head d hs ts hviews tviews x y :
  linked d hs ts hviews tviews -> last ts = Some y -> x <= d + y ->
  linked d (hs ++ [x]) ts (hviews ++ [length ts - 1]%nat) tviews.
Proof.
  intros [Hhl Htl Hh Ht] Hy Hle. split; try done; [by rewrite !length_app, Hhl| |].
  - intros k v [Hk|[Hk Hv]]%lookup_app_Some.
    + rewrite <- (app_nil_r ts). apply vrel_grow. auto.
    + apply list_lookup_singleton_Some in Hv as [Hk0 <-].
      replace k with (length (hs ++ [x]) - 1)%nat by (rewrite length_app; cbn; lia).
      by eapply vrel_last; [apply last_snoc|..].
  - intros k v Hk. rewrite <- (app_nil_r ts). apply vrel_grow. auto.
Qed.

Lemma linked_tail d hs ts hviews tviews x y :
  linked d hs ts hviews tviews -> last hs = Some x -> x <= d + y ->
  linked d hs (ts ++ [y]) hviews (tviews ++ [length hs - 1]%nat).
Proof.
  intros [Hhl Htl Hh Ht] Hx Hle. split; try done; [by rewrite !length_app, Htl| |].
  - intros k v Hk. rewrite <- (app_nil_r hs). apply vrel_grow. auto.
  - intros k v [Hk|[Hk Hv]]%lookup_app_Some.
    + rewrite <- (app_nil_r hs). apply vrel_grow. auto.
    + apply list_lookup_singleton_Some in Hv as [Hk0 <-].
      replace k with (length (ts ++ [y]) - 1)%nat by (rewrite length_app; cbn; lia).
      by eapply vrel_last; [|apply last_snoc|].
Qed.

(** What a thread has seen stays related when it joins another view. *)
Lemma vrel_join d hs ts a b a' b' :
  monotone hs -> monotone ts -> vrel d hs ts a b -> vrel d hs ts a' b' ->
  vrel d hs ts (a `max` a') (b `max` b').
Proof.
  intros Hh Ht (x & y & Hx & Hy & Hle) (x' & y' & Hx' & Hy' & Hle').
  exists (x `max` x'), (y `max` y').
  split_and!; [by apply seen_max|by apply seen_max|lia].
Qed.

(** Accesses to packets: made on a packet of one's own, still [mine] or sent
    afterwards by the store that publishes the access. *)
Definition log_ok (log : list (ptr * nat)) (hs : list Z) (sent mine : list ptr) : Prop :=
  forall b k, (b, k) ∈ log -> (k <= length hs)%nat /\
    (b ∈ mine \/ exists p, sent !! p = Some b /\
       forall j x, (j < k)%nat -> hs !! j = Some x -> x <= Z.of_nat p).

Lemma log_access log hs sent mine b :
  log_ok log hs sent mine -> b ∈ mine -> log_ok ((b, length hs) :: log) hs sent mine.
Proof. intros Hl Hb c k [[= -> ->]|Hin]%elem_of_cons; [split; [done|by left]|by apply Hl]. Qed.

Lemma log_mine log hs sent mine mine' :
  log_ok log hs sent mine -> (forall b, b ∈ mine -> b ∈ mine') -> log_ok log hs sent mine'.
Proof. intros Hl Hm b k [Hk [Hb|Hb]]%Hl; (split; [done|]); [left; auto|by right]. Qed.

(** A store that publishes [xs]. *)
Lemma log_publish log hs sent mine mine' xs z :
  log_ok log hs sent mine -> monotone hs -> last hs = Some (Z.of_nat (length sent)) ->
  (forall b, b ∈ mine -> b ∈ mine' \/ b ∈ xs) -> log_ok log (hs ++ [z]) (sent ++ xs) mine'.
Proof.
  intros Hl Hm Hlast Hmine b k [Hk Hb]%Hl. split; [rewrite length_app; lia|].
  assert (forall p, (forall j x, (j < k)%nat -> hs !! j = Some x -> x <= Z.of_nat p) ->
    forall j x, (j < k)%nat -> (hs ++ [z]) !! j = Some x -> x <= Z.of_nat p) as Hgrow.
  { intros p Hp j x Hj Hx. rewrite lookup_app_l in Hx by lia. by eapply Hp. }
  destruct Hb as [Hb|(p & Hp & Hlow)].
  - destruct (Hmine b Hb) as [Hin|Hin]; [by left|right].
    apply list_elem_of_lookup in Hin as [i Hi]. exists (length sent + i)%nat.
    split; [by rewrite lookup_app_r, Nat.add_comm, Nat.add_sub by lia|]. apply Hgrow.
    intros j x _ Hx. pose proof (mono_last _ _ _ _ Hm Hlast Hx). lia.
  - right. exists p. split; [by apply lookup_app_l_Some|]. by apply Hgrow.
Qed.

(** A packet that is neither the other thread's nor on its way is one whose
    accesses have been seen. *)
Lemma log_seen log hs sent (recvd : list ptr) mine b seen hv :
  log_ok log hs sent mine -> hs !! seen = Some hv -> Z.of_nat (length recvd) <= hv ->
  (b ∉ mine) -> (b ∉ drop (length recvd) sent) -> seen_accesses log b seen = true.
Proof.
  intros Hl Hs Hr Hm Hd. apply forallb_forall. intros [c k] Hin%list_elem_of_In. cbn [fst snd].
  case_bool_decide as Hc; [subst c|done]. cbn. apply Nat.leb_le.
  destruct (Hl b k Hin) as [_ [?|(p & Hp & Hlow)]]; [done|].
  destruct (decide (k <= seen)%nat) as [|Hk]; [done|].
  specialize (Hlow seen hv ltac:(lia) Hs). exfalso. apply Hd.
  apply (list_elem_of_lookup_2 _ (p - length recvd)). rewrite lookup_drop, <- Hp. f_equal. lia.
Qed.

End Coupling.

(** ** The invariant *)

Section Invariant.
Context {S : Type} (RingSize PoolSize : Z) (handle : S -> Packet -> S * Packet) (st0 : S).
Implicit Types (s : sys S).

(** Where each thread is inside the ring it uses. *)
Definition p_control s : Prop :=
  match ppt (snd_ s) with
  | PReady => producer (ring s) = PIdle /\ consumer (free s) = CIdle
  | PAlloc => producer (ring s) = PIdle /\
      ((exists t, consumer (free s) = CTail Single 1 t) \/
       exists t i acc, consumer (free s) = CRead t 1 i acc)
  | PSend b => consumer (free s) = CIdle /\ b ∈ held (snd_ s) /\
      ((exists h, producer (ring s) = PHead Single [b] h) \/
       exists h i, producer (ring s) = PWrite [b] h 1 i)
  | PDrop b | PDropRoom b _ =>
      producer (ring s) = PIdle /\ consumer (free s) = CIdle /\ b ∈ held (snd_ s)
  | PDropHead b h _ =>
      producer (ring s) = PIdle /\ consumer (free s) = CIdle /\ b ∈ held (snd_ s) /\
      h -₆₄ u64 (Z.of_nat (length (recvd (free s)))) < PoolSize
  | PDropStored _ _ => False
  end.

Definition c_control s : Prop :=
  match cpt (prc s) with
  | CReady => consumer (ring s) = CIdle /\ producer (free s) = PIdle
  | CDequeue => producer (free s) = PIdle /\
      ((exists n t, consumer (ring s) = CTail Burst n t) \/
       exists t cnt i acc, consumer (ring s) = CRead t cnt i acc)
  | CHandle burst i => consumer (ring s) = CIdle /\ producer (free s) = PIdle /\
      (i <= length burst)%nat
  | CFree burst => consumer (ring s) = CIdle /\
      ((exists h, producer (free s) = PHead Burst burst h) \/
       exists h i, producer (free s) = PWrite burst h (Z.of_nat (length burst)) i)
  end.

(** The bursts that pkts_processed counts: all that were freed or are being
    freed. *)
Definition counted s (freed : list ptr) : list ptr :=
  freed ++ match cpt (prc s) with CFree burst => burst | _ => [] end.

Record sinv s (hsR tsR hsF tsF : list Z) (freed : list ptr) : Prop := {
  v_ring : rinv RingSize (ring s) hsR tsR;
  v_free : rinv PoolSize (free s) hsF tsF;
  v_p : p_control s;
  v_c : c_control s;
  v_sent : sent (free s) = Pool.blocks PoolSize ++ freed;
  v_recvd : recvd (ring s) = freed ++ hand s;
  v_alloc : recvd (free s) ≡ₚ sent (ring s) ++ held (snd_ s);
  v_handled : recvd (ring s) = handled (prc s) ++ todo s;
  v_linkP : linked 0 hsR tsF (rh_views (snd_ s)) (ft_views (snd_ s));
  v_linkC : linked PoolSize hsF tsR (fh_views (prc s)) (rt_views (prc s));
  v_seenP : vrel PoolSize hsF tsR (c_seen (free s)) (p_seen (ring s));
  v_seenC : vrel 0 hsR tsF (c_seen (ring s)) (p_seen (free s));
  v_plog : log_ok (plog (snd_ s)) hsR (sent (ring s)) (held (snd_ s));
  v_clog : log_ok (clog (prc s)) hsF (sent (free s)) (hand s);
  v_mem : Z.of_nat (length (mem s)) = PoolSize;
  v_paid : length (payloads s) = length (sent (ring s));
  v_pay : forall q b, (length (handled (prc s)) <= q)%nat -> sent (ring s) !! q = Some b ->
    deref (mem s) b = payloads s !! q;
  v_run : run_handler handle (take (length (handled (prc s))) (payloads s)) st0 0 =
    (captured (prc s), bytes (prc s));
  v_dropped : dropped (snd_ s) = if dropping (ppt (snd_ s)) then 1 else 0;
  v_drops : drops (snd_ s) = no_drops;
  v_allocs : total_allocs (snd_ s) = u64 (Z.of_nat (length (recvd (free s))));
  v_processed : processed (prc s) = u64 (Z.of_nat (length (counted s freed)))
}.

Definition system_inv s : Prop := exists hsR tsR hsF tsF freed, sinv s hsR tsR hsF tsF freed.

Context `{HR : !ValidCapacity RingSize, HP : !ValidCapacity PoolSize}.

(** Every block of the pool is in one place. *)
Lemma places s hsR tsR hsF tsF freed :
  sinv s hsR tsR hsF tsF freed ->
  hand s ++ contents (ring s) ++ held (snd_ s) ++ contents (free s) ≡ₚ Pool.blocks PoolSize.
Proof.
  intros I. destruct (rinv_facts _ _ _ _ (v_ring _ _ _ _ _ _ I)) as (_ & _ & _ & _ & _ & _ & HR' & _).
  destruct (rinv_facts _ _ _ _ (v_free _ _ _ _ _ _ I)) as (_ & _ & _ & _ & _ & _ & HF & _).
  pose proof (v_sent _ _ _ _ _ _ I) as Hs. pose proof (v_recvd _ _ _ _ _ _ I) as Hr.
  pose proof (v_alloc _ _ _ _ _ _ I) as Ha.
  rewrite HR', Hr in Ha. apply (Permutation_app_inv_l freed).
  rewrite (Permutation_app_comm freed (Pool.blocks PoolSize)), <- Hs, HF, Ha.
  by rewrite <- !app_assoc.
Qed.

Lemma places_NoDup s hsR tsR hsF tsF freed :
  sinv s hsR tsR hsF tsF freed ->
  NoDup (hand s ++ contents (ring s) ++ held (snd_ s) ++ contents (free s)).
Proof. intros I. rewrite (places _ _ _ _ _ _ I). apply Pool.NoDup_blocks. Qed.

Definition ok (r : result S) : Prop :=
  match r with Disabled => True | Undefined => False | Next s' => system_inv s' end.

(** An access on a ring in its invariant is defined: go on with the state after it. *)
Lemma access_ok Cap `{!ValidCapacity Cap} l (r : cstate ptr) hs ts k :
  rinv Cap r hs ts -> (forall r', Conc.step Cap l r = Conc.Next r' -> ok (k r')) ->
  ok (access (Conc.step Cap l r) k).
Proof.
  intros Hr Hk. pose proof (rinv_defined Cap r hs ts l Hr) as Hd. unfold access.
  destruct (Conc.step Cap l r) eqn:Hs; [done|done|by apply Hk].
Qed.

#[local] Ltac keep :=
  split; cbn; try done;
  try match goal with
  | Hd : dropped (snd_ ?s) = _, Hp : ppt (snd_ ?s) = _ |- dropped (snd_ ?s) = _ =>
      rewrite Hp in Hd; by rewrite ?Hp
  end.

Lemma alloc_start_ok s : system_inv s -> ok (step RingSize PoolSize handle AStart s).
Proof.
  intros (hsR & tsR & hsF & tsF & freed & I). unfold step.
  destruct (ppt (snd_ s)) eqn:Hp; try done.
  eapply access_ok; [apply HP|apply I|]. intros f Hf.
  pose proof (rinv_quiet PoolSize _ _ _ hsF tsF (v_free _ _ _ _ _ _ I) Hf) as HF.
  apply cstart_next in Hf as (Hc & t & ->). specialize (HF eq_refl eq_refl).
  pose proof (v_p _ _ _ _ _ _ I) as Hctl. unfold p_control in Hctl. rewrite Hp in Hctl.
  exists hsR, tsR, hsF, tsF, freed. destruct I. keep.
  unfold p_control. cbn. split; [apply Hctl|]. left. by eexists.
Qed.

(** The view of an acquired store. *)
Lemma view_ok (views : list nat) j k (P : nat -> Prop) :
  (forall v, views !! j = Some v -> P v) -> (forall v, P v -> ok (k v)) -> ok (view_of views j k).
Proof. intros Hv Hk. unfold view_of. destruct (views !! j) as [v|] eqn:E; [auto|done]. Qed.

Lemma vrel_bound d hs ts k v : vrel d hs ts k v -> (k < length hs)%nat /\ (v < length ts)%nat.
Proof. intros (x & y & Hx%lookup_lt_Some & Hy%lookup_lt_Some & _). done. Qed.

Lemma alloc_load_ok s j :
  system_inv s -> ppt (snd_ s) = PAlloc -> ok (alloc_access PoolSize (CLoad j) s).
Proof.
  intros (hsR & tsR & hsF & tsF & freed & I) Hp. unfold alloc_access.
  eapply access_ok; [apply HP|apply I|]. intros f Hf. cbn beta iota zeta.
  rewrite (v_drops _ _ _ _ _ _ I). cbn [no_drops floor own Nat.leb].
  rewrite bool_decide_eq_false_2 by apply not_elem_of_nil.
  eapply view_ok; [intros v Hv; exact (l_h _ _ _ _ _ (v_linkC _ _ _ _ _ _ I) _ _ Hv)|].
  intros v Hv. pose proof (rinv_quiet PoolSize _ _ _ hsF tsF (v_free _ _ _ _ _ _ I) Hf) as HF.
  apply cload_next in Hf as (m & n & t & h & Hc & Hh & Hj & ->). specialize (HF eq_refl eq_refl).
  destruct (vrel_bound _ _ _ _ _ Hv) as [_ Hvb].
  pose proof (rinv_see_tail RingSize _ _ _ v (v_ring _ _ _ _ _ _ I) Hvb) as HRg.
  destruct (rinv_facts _ _ _ _ HF) as (HmF & _). destruct (rinv_facts _ _ _ _ HRg) as (_ & HmR & _).
  pose proof (vrel_join _ _ _ _ _ _ _ HmF HmR (v_seenP _ _ _ _ _ _ I) Hv) as Hjoin.
  rewrite Nat.max_r in Hjoin by done.
  pose proof (v_p _ _ _ _ _ _ I) as Hctl. unfold p_control in Hctl. rewrite Hp, Hc in Hctl.
  destruct Hctl as [Hpr [[t' [= -> -> ->]]|(? & ? & ? & [=])]].
  exists hsR, tsR, hsF, tsF, freed. destruct I. keep.
  - unfold p_control. cbn. destruct (t' =? h); cbn; [done|].
    split; [done|]. right. by do 3 eexists.
  - rewrite Hp in v_dropped0. by destruct (t' =? h).
Qed.

Lemma alloc_fetch_ok s :
  system_inv s -> ppt (snd_ s) = PAlloc -> ok (alloc_access PoolSize CFetch s).
Proof.
  intros (hsR & tsR & hsF & tsF & freed & I) Hp. unfold alloc_access.
  eapply access_ok; [apply HP|apply I|]. intros f Hf. cbn beta iota.
  pose proof (rinv_quiet PoolSize _ _ _ hsF tsF (v_free _ _ _ _ _ _ I) Hf) as HF.
  apply cfetch_next in Hf as (t & cnt & i & acc & x & log & Hc & ->). specialize (HF eq_refl eq_refl).
  pose proof (v_p _ _ _ _ _ _ I) as Hctl. unfold p_control in Hctl. rewrite Hp, Hc in Hctl.
  destruct Hctl as [Hpr [[t' [=]]|(? & ? & ? & [= -> -> -> ->])]].
  exists hsR, tsR, hsF, tsF, freed. destruct I. keep.
  unfold p_control. cbn. rewrite Hp. split; [done|]. right. by do 3 eexists.
Qed.

(** What a finished single dequeue returns. *)
Lemma dequeued_one (f : cstate ptr) hs ts t i acc :
  rinv PoolSize f hs ts -> consumer f = CRead t 1 i acc -> 1 <= i -> exists b, acc = [b].
Proof.
  intros (hv & tv & I) Hc Hi. pose proof (inv_order _ _ _ _ _ _ I) as Hord.
  pose proof (i_cons _ _ _ _ _ _ I) as Hci. unfold consumer_inv in Hci. rewrite Hc in Hci.
  destruct Hci as (_ & Hi1 & Hcnt & Hacc).
  assert (length acc = 1)%nat as Hlen by (rewrite Hacc, length_take, length_drop; lia).
  destruct acc as [|b [|]]; try done. by exists b.
Qed.

Lemma alloc_publish_ok s :
  system_inv s -> ppt (snd_ s) = PAlloc -> ok (alloc_access PoolSize CPublish s).
Proof.
  intros (hsR & tsR & hsF & tsF & freed & I) Hp. unfold alloc_access.
  eapply access_ok; [apply HP|apply I|]. intros f Hf. cbn beta iota.
  pose proof (fun z => rinv_tail PoolSize _ _ _ hsF tsF z (v_free _ _ _ _ _ _ I) Hf) as HF.
  apply cpublish_next in Hf as (t & cnt & i & acc & Hc & Hi & ->). specialize (HF _ eq_refl eq_refl).
  pose proof (v_p _ _ _ _ _ _ I) as Hctl. unfold p_control in Hctl. rewrite Hp, Hc in Hctl.
  destruct Hctl as [Hpr [[t' [=]]|(? & ? & ? & [= -> -> -> ->])]].
  destruct (dequeued_one _ _ _ _ _ _ (v_free _ _ _ _ _ _ I) Hc Hi) as [b ->].
  rewrite Hc. destruct (rinv_facts _ _ _ _ (v_ring _ _ _ _ _ _ I)) as (_ & _ & Hlh & _ & Hlast & _).
  cbn in HF. rewrite length_app in HF. cbn in HF.
  pose proof (Permutation_length (v_alloc _ _ _ _ _ _ I)) as Hcnt. rewrite length_app in Hcnt.
  pose proof (linked_tail _ _ _ _ _ _ (Z.of_nat (length (recvd (free s)) + 1))
    (v_linkP _ _ _ _ _ _ I) Hlast ltac:(lia)) as Hlink.
  exists hsR, tsR, hsF, (tsF ++ [Z.of_nat (length (recvd (free s)) + 1)]), freed. destruct I. keep.
  - rewrite v_alloc0. rewrite <- app_assoc. f_equiv. apply Permutation_app_comm.
  - by rewrite Hlh.
  - rewrite <- (app_nil_r hsR). by apply vrel_grow.
  - eapply log_mine; [done|]. set_solver.
  - rewrite v_allocs0, length_app, u64_add_l. f_equal. cbn. lia.
Qed.

(** A packet of the sending thread is nobody else's, and a block of the pool. *)
Lemma held_alone s hsR tsR hsF tsF freed b :
  sinv s hsR tsR hsF tsF freed -> b ∈ held (snd_ s) ->
  b ∉ hand s /\ b ∉ contents (ring s) /\ b ∉ contents (free s) /\
  exists i, b = Blk i /\ (i < length (mem s))%nat.
Proof.
  intros I Hb. pose proof (places_NoDup _ _ _ _ _ _ I) as Hnd.
  rewrite !NoDup_app in Hnd. destruct Hnd as (_ & H1 & _ & H2 & _ & H3 & _).
  split_and!.
  - intros Hh. apply (H1 _ Hh). set_solver.
  - intros Hh. apply (H2 _ Hh). set_solver.
  - by apply H3.
  - assert (b ∈ Pool.blocks PoolSize) as Hin by (rewrite <- (places _ _ _ _ _ _ I); set_solver).
    apply list_elem_of_fmap in Hin as (i & -> & Hi%elem_of_seq). exists i. split; [done|].
    pose proof (v_mem _ _ _ _ _ _ I). lia.
Qed.

Lemma deref_other (m : list Packet) i pkt b :
  b <> Blk i -> deref (<[i := pkt]> m) b = deref m b.
Proof. intros Hne. destruct b as [|j]; [done|]. cbn. apply list_lookup_insert_ne. congruence. Qed.

(** The packets from position [handled] on are the burst's and the queued ones. *)
Lemma unhandled s hsR tsR hsF tsF freed q b :
  sinv s hsR tsR hsF tsF freed -> (length (handled (prc s)) <= q)%nat ->
  sent (ring s) !! q = Some b -> (todo s ++ contents (ring s)) !! (q - length (handled (prc s)))%nat = Some b.
Proof.
  intros I Hq Hb. destruct (rinv_facts _ _ _ _ (v_ring _ _ _ _ _ _ I)) as (_ & _ & _ & _ & _ & _ & HR' & _).
  rewrite HR', (v_handled _ _ _ _ _ _ I), <- app_assoc in Hb. by rewrite lookup_app_r in Hb.
Qed.

Lemma todo_hand s b : b ∈ todo s -> b ∈ hand s.
Proof.
  unfold todo, hand. destruct (cpt (prc s)); try (by intros ?%elem_of_nil).
  intros [j Hj]%list_elem_of_lookup. rewrite lookup_drop in Hj. by eapply list_elem_of_lookup_2.
Qed.

Lemma fill_ok s b pkt : system_inv s -> ppt (snd_ s) = PReady -> ok (fill b pkt s).
Proof.
  intros (hsR & tsR & hsF & tsF & freed & I) Hp. unfold fill.
  destruct (decide (b ∈ held (snd_ s))) as [Hb|]; [|done].
  destruct (held_alone _ _ _ _ _ _ _ I Hb) as (Hh & Hcr & Hcf & i & -> & Hi).
  rewrite decide_True by done.
  destruct (rinv_facts _ _ _ _ (v_free _ _ _ _ _ _ I)) as (_ & _ & _ & _ & _ & _ & _ & hv & Hhv & Hrv).
  rewrite (log_seen _ hsF (sent (free s)) (recvd (free s)) (hand s) (Blk i) _ hv); try done; [|apply I].
  destruct (rinv_facts _ _ _ _ (v_ring _ _ _ _ _ _ I)) as (_ & _ & Hlh & _).
  assert (forall q c, (length (handled (prc s)) <= q)%nat -> sent (ring s) !! q = Some c -> c <> Blk i) as Hne.
  { intros q c Hq Hc ->. eapply unhandled, list_elem_of_lookup_2 in Hc; [|exact I|exact Hq].
    apply elem_of_app in Hc as [Hc|Hc]; [by apply Hh, todo_hand|done]. }
  exists hsR, tsR, hsF, tsF, freed. destruct I. keep.
  - unfold p_control in *. cbn. by rewrite Hp in v_p0.
  - rewrite Hlh. by apply log_access.
  - by rewrite length_insert.
  - intros q c Hq Hc. rewrite deref_other by by eapply Hne. by apply v_pay0.
Qed.

Lemma send_start_ok s b :
  system_inv s -> ok (step RingSize PoolSize handle (ASend b) s).
Proof.
  intros (hsR & tsR & hsF & tsF & freed & I). unfold step.
  destruct (ppt (snd_ s)) eqn:Hp; try done. destruct (decide (b ∈ held (snd_ s))) as [Hb|]; [|done].
  eapply access_ok; [apply HR|apply I|]. intros r Hr.
  pose proof (rinv_quiet RingSize _ _ _ hsR tsR (v_ring _ _ _ _ _ _ I) Hr) as HRg.
  apply pstart_next in Hr as (Hc & h & ->). specialize (HRg eq_refl eq_refl).
  pose proof (v_p _ _ _ _ _ _ I) as Hctl. unfold p_control in Hctl. rewrite Hp in Hctl.
  exists hsR, tsR, hsF, tsF, freed. destruct I. keep.
  unfold p_control. cbn. split; [apply Hctl|]. split; [done|]. left. by eexists.
Qed.

(** What a load of the other thread's tail in [enqueue] finds. *)
Lemma loaded_tail Cap `{!ValidCapacity Cap} (r : cstate ptr) hs ts j m ins h t d hs' k :
  rinv Cap r hs ts -> producer r = PHead m ins h -> tails r !! j = Some t -> (p_seen r <= j)%nat ->
  vrel d hs' ts k (p_seen r) ->
  exists tj, t = u64 tj /\ h = u64 (Z.of_nat (length (sent r))) /\
    0 <= tj <= Z.of_nat (length (sent r)) /\ Z.of_nat (length (sent r)) <= tj + Cap /\
    exists x, hs' !! k = Some x /\ x <= d + tj.
Proof.
  intros (hv & tv & I) Hp Ht Hj (x & y & Hx & Hy & Hxy).
  pose proof (inv_order _ _ _ _ _ _ I) as Hord.
  pose proof (i_prod _ _ _ _ _ _ I) as Hpi. unfold producer_inv in Hpi. rewrite Hp in Hpi.
  rewrite (i_tails _ _ _ _ _ _ I), list_lookup_fmap in Ht. apply fmap_Some in Ht as (tj & Htj & ->).
  assert (tv <= tj) by (eapply (i_tmono _ _ _ _ _ _ I); [exact Hj|apply I|done]).
  rewrite (i_tv _ _ _ _ _ _ I) in Hy. injection Hy as ->.
  pose proof (ts_below _ _ _ _ _ _ _ _ I Htj) as Hb.
  exists tj. split; [done|]. split; [apply Hpi|]. split; [lia|]. split; [lia|].
  exists x. split; [done|lia].
Qed.

(** With at least as many ring slots as packets [send] never finds the ring
    full: what the thread has seen of the free ring tells it that enough packets
    have left the ring. *)
Lemma never_full s hsR tsR hsF tsF freed m ins b h j t :
  sinv s hsR tsR hsF tsF freed -> PoolSize <= RingSize -> b ∈ held (snd_ s) ->
  producer (ring s) = PHead m ins h -> tails (ring s) !! j = Some t -> (p_seen (ring s) <= j)%nat ->
  enqueue_count RingSize Single 1 h t = Some 1.
Proof.
  intros I Hfits Hb Hc Ht Hj.
  destruct (loaded_tail RingSize _ _ _ _ _ _ _ _ _ _ _ (v_ring _ _ _ _ _ _ I) Hc Ht Hj
    (v_seenP _ _ _ _ _ _ I)) as (tj & -> & -> & Htj & Hroom & x & Hx & Hxt).
  destruct (rinv_facts _ _ _ _ (v_free _ _ _ _ _ _ I)) as (HmF & _ & _ & _ & _ & _ & _ & hv & Hhv & Hrv).
  rewrite Hx in Hhv. injection Hhv as <-.
  pose proof (Permutation_length (v_alloc _ _ _ _ _ _ I)) as Hcnt. rewrite length_app in Hcnt.
  assert (0 < length (held (snd_ s)))%nat as Hpos
    by (destruct (held (snd_ s)); [by apply elem_of_nil in Hb|cbn; lia]).
  pose proof (vc_range (c := RingSize)).
  unfold enqueue_count. rewrite u64_diff_exact by lia.
  destruct (_ >=? _) eqn:E; [|done]. break_bool. lia.
Qed.

Lemma send_load_ok s b j :
  system_inv s -> ppt (snd_ s) = PSend b -> ok (send_access RingSize b (PLoad j) s).
Proof.
  intros (hsR & tsR & hsF & tsF & freed & I) Hp. unfold send_access.
  eapply access_ok; [apply HR|apply I|]. intros r Hr. cbn beta iota.
  eapply view_ok; [intros v Hv; exact (l_t _ _ _ _ _ (v_linkC _ _ _ _ _ _ I) _ _ Hv)|].
  intros v Hv. pose proof (rinv_quiet RingSize _ _ _ hsR tsR (v_ring _ _ _ _ _ _ I) Hr) as HRg.
  apply pload_next in Hr as (m & ins & h & t & Hc & Ht & Hj & ->). specialize (HRg eq_refl eq_refl).
  pose proof (v_p _ _ _ _ _ _ I) as Hctl. unfold p_control in Hctl. rewrite Hp, Hc in Hctl.
  destruct Hctl as (Hcf & Hb & [[h' [= -> -> ->]]|(? & ? & [=])]).
  destruct (rinv_facts _ _ _ _ (v_free _ _ _ _ _ _ I)) as (HmF & _).
  destruct (vrel_bound _ _ _ _ _ Hv) as [Hvb _].
  pose proof (rinv_see_head PoolSize _ _ _ v (v_free _ _ _ _ _ _ I) Hvb) as HF.
  destruct (rinv_facts _ _ _ _ HRg) as (_ & HmR & _).
  pose proof (vrel_join _ _ _ _ _ _ _ HmF HmR (v_seenP _ _ _ _ _ _ I) Hv) as Hjoin.
  rewrite (Nat.max_r (p_seen (ring s)) j) in Hjoin by done.
  exists hsR, tsR, hsF, tsF, freed. destruct I. rewrite Hp in v_dropped0.
  unfold enqueue_count in *. destruct (_ >=? _); cbn [is_idle_p producer] in *; keep.
  - by rewrite v_dropped0.
  - unfold p_control. cbn. rewrite Hp. split; [done|]. split; [done|]. right. by do 2 eexists.
  - by rewrite Hp.
Qed.

Lemma send_store_ok s b :
  system_inv s -> ppt (snd_ s) = PSend b -> ok (send_access RingSize b PStore s).
Proof.
  intros (hsR & tsR & hsF & tsF & freed & I) Hp. unfold send_access.
  eapply access_ok; [apply HR|apply I|]. intros r Hr. cbn beta iota.
  pose proof (rinv_quiet RingSize _ _ _ hsR tsR (v_ring _ _ _ _ _ _ I) Hr) as HRg.
  apply pstore_next in Hr as (ins & h & cnt & i & d & log & Hc & ->). specialize (HRg eq_refl eq_refl).
  pose proof (v_p _ _ _ _ _ _ I) as Hctl. unfold p_control in Hctl. rewrite Hp, Hc in Hctl.
  destruct Hctl as (Hcf & Hb & [[h' [=]]|(? & ? & [= -> -> -> ->])]).
  exists hsR, tsR, hsF, tsF, freed. destruct I. keep.
  unfold p_control. cbn. rewrite Hp. split; [done|]. split; [done|]. right. by do 2 eexists.
Qed.

Lemma held_without s hsR tsR hsF tsF freed b :
  sinv s hsR tsR hsF tsF freed -> b ∈ held (snd_ s) ->
  held (snd_ s) ≡ₚ b :: filter (fun x => x <> b) (held (snd_ s)).
Proof.
  intros I Hb. assert (NoDup (held (snd_ s))) as Hnd.
  { pose proof (places_NoDup _ _ _ _ _ _ I) as Hn. rewrite !NoDup_app in Hn. tauto. }
  apply NoDup_Permutation; [done| |].
  - apply NoDup_cons. split; [|by apply NoDup_filter].
    rewrite list_elem_of_filter. tauto.
  - intros x. rewrite elem_of_cons, list_elem_of_filter. destruct (decide (x = b)); naive_solver.
Qed.

Lemma send_publish_ok s b :
  system_inv s -> ppt (snd_ s) = PSend b -> ok (send_access RingSize b PPublish s).
Proof.
  intros (hsR & tsR & hsF & tsF & freed & I) Hp. unfold send_access.
  eapply access_ok; [apply HR|apply I|]. intros r Hr. cbn beta iota.
  pose proof (fun z => rinv_head RingSize _ _ _ hsR tsR z (v_ring _ _ _ _ _ _ I) Hr) as HRg.
  apply ppublish_next in Hr as (ins & h & cnt & i & Hc & Hi & ->). specialize (HRg _ eq_refl eq_refl).
  pose proof (v_p _ _ _ _ _ _ I) as Hctl. unfold p_control in Hctl. rewrite Hp, Hc in Hctl.
  destruct Hctl as (Hcf & Hb & [[h' [=]]|(? & ? & [= -> -> -> ->])]).
  destruct (held_alone _ _ _ _ _ _ _ I Hb) as (Hh & Hcr & Hcf' & k & -> & Hk).
  destruct (lookup_lt_is_Some_2 _ _ Hk) as [pkt Hpkt]. cbn [deref]. rewrite Hpkt.
  pose proof (held_without _ _ _ _ _ _ _ I Hb) as Hperm.
  destruct (rinv_facts _ _ _ _ (v_free _ _ _ _ _ _ I)) as (_ & _ & _ & Hlt & _ & Hlast & _).
  destruct (rinv_facts _ _ _ _ (v_ring _ _ _ _ _ _ I)) as (HmR & _ & _ & _ & HlastR & _ & Hsplit & _).
  cbn in HRg. rewrite length_app in HRg. cbn in HRg.
  pose proof (Permutation_length (v_alloc _ _ _ _ _ _ I)) as Hcnt. rewrite length_app in Hcnt.
  pose proof (Permutation_length Hperm) as Hlen. cbn in Hlen.
  pose proof (linked_head _ _ _ _ _ (Z.of_nat (length (sent (ring s)) + 1)) _
    (v_linkP _ _ _ _ _ _ I) Hlast ltac:(lia)) as Hlink.
  assert (length (handled (prc s)) <= length (sent (ring s)))%nat as Hhl.
  { pose proof (v_handled _ _ _ _ _ _ I) as Hd. apply (f_equal length) in Hd, Hsplit.
    rewrite length_app in Hd, Hsplit. lia. }
  exists (hsR ++ [Z.of_nat (length (sent (ring s)) + 1)]), tsR, hsF, tsF, freed. destruct I. keep.
  - rewrite v_alloc0, <- app_assoc. f_equiv. exact Hperm.
  - by rewrite Hlt.
  - rewrite <- (app_nil_r tsF). by apply vrel_grow.
  - eapply log_publish; try done. intros c Hc'. rewrite Hperm in Hc'. set_solver.
  - by rewrite !length_app, v_paid0.
  - intros q c Hq [Hc'|[Hq' Hc']]%lookup_app_Some.
    + rewrite lookup_app_l; [by apply v_pay0|]. apply lookup_lt_Some in Hc'. lia.
    + apply list_lookup_singleton_Some in Hc' as [Hq0 <-]. rewrite lookup_app_r by lia.
      replace (q - length (payloads s))%nat with 0%nat by lia. done.
  - by rewrite take_app_le by lia.
Qed.

(** *** The processing thread *)

(** Bursts in hand: the facts that do not depend on where the thread is. *)
Lemma idle_hand s : cpt (prc s) = CReady \/ cpt (prc s) = CDequeue -> hand s = [] /\ todo s = [].
Proof. unfold hand, todo. by intros [-> | ->]. Qed.

Lemma take_start_ok s : system_inv s -> ok (step RingSize PoolSize handle BStart s).
Proof.
  intros (hsR & tsR & hsF & tsF & freed & I). unfold step.
  destruct (cpt (prc s)) eqn:Hp; try done.
  eapply access_ok; [apply HR|apply I|]. intros r Hr.
  pose proof (rinv_quiet RingSize _ _ _ hsR tsR (v_ring _ _ _ _ _ _ I) Hr) as HRg.
  apply cstart_next in Hr as (Hc & t & ->). specialize (HRg eq_refl eq_refl).
  destruct (idle_hand s ltac:(by left)) as [Hh Ht].
  pose proof (v_c _ _ _ _ _ _ I) as Hctl. unfold c_control in Hctl. rewrite Hp in Hctl.
  exists hsR, tsR, hsF, tsF, freed. destruct I. unfold counted in *. rewrite Hp in *.
  rewrite Hh, Ht in *. keep. unfold c_control. cbn. split; [by destruct Hctl|]. left. by do 2 eexists.
Qed.

Lemma take_load_ok s j :
  system_inv s -> cpt (prc s) = CDequeue -> ok (take_access RingSize (CLoad j) s).
Proof.
  intros (hsR & tsR & hsF & tsF & freed & I) Hp. unfold take_access.
  eapply access_ok; [apply HR|apply I|]. intros r Hr. cbn beta iota.
  eapply view_ok; [intros v Hv; exact (l_h _ _ _ _ _ (v_linkP _ _ _ _ _ _ I) _ _ Hv)|].
  intros v Hv. pose proof (rinv_quiet RingSize _ _ _ hsR tsR (v_ring _ _ _ _ _ _ I) Hr) as HRg.
  apply cload_next in Hr as (m & n & t & h & Hc & Hh & Hj & ->). specialize (HRg eq_refl eq_refl).
  destruct (vrel_bound _ _ _ _ _ Hv) as [_ Hvb].
  pose proof (rinv_see_tail PoolSize _ _ _ v (v_free _ _ _ _ _ _ I) Hvb) as HF.
  destruct (rinv_facts _ _ _ _ HF) as (_ & HmF & _). destruct (rinv_facts _ _ _ _ HRg) as (HmR & _).
  pose proof (vrel_join _ _ _ _ _ _ _ HmR HmF (v_seenC _ _ _ _ _ _ I) Hv) as Hjoin.
  rewrite Nat.max_r in Hjoin by done.
  pose proof (v_c _ _ _ _ _ _ I) as Hctl. unfold c_control in Hctl. rewrite Hp, Hc in Hctl.
  destruct Hctl as [Hpr [(n' & t' & [= -> -> ->])|(? & ? & ? & ? & [=])]].
  exists hsR, tsR, hsF, tsF, freed. destruct I. keep.
  unfold c_control. cbn. rewrite Hp. split; [done|]. right. by do 4 eexists.
Qed.

Lemma take_fetch_ok s :
  system_inv s -> cpt (prc s) = CDequeue -> ok (take_access RingSize CFetch s).
Proof.
  intros (hsR & tsR & hsF & tsF & freed & I) Hp. unfold take_access.
  eapply access_ok; [apply HR|apply I|]. intros r Hr. cbn beta iota.
  pose proof (rinv_quiet RingSize _ _ _ hsR tsR (v_ring _ _ _ _ _ _ I) Hr) as HRg.
  apply cfetch_next in Hr as (t & cnt & i & acc & x & log & Hc & ->). specialize (HRg eq_refl eq_refl).
  pose proof (v_c _ _ _ _ _ _ I) as Hctl. unfold c_control in Hctl. rewrite Hp, Hc in Hctl.
  exists hsR, tsR, hsF, tsF, freed. destruct I. keep.
  unfold c_control. cbn. rewrite Hp. split; [apply Hctl|]. right. by do 4 eexists.
Qed.

Lemma take_publish_ok s :
  system_inv s -> cpt (prc s) = CDequeue -> ok (take_access RingSize CPublish s).
Proof.
  intros (hsR & tsR & hsF & tsF & freed & I) Hp. unfold take_access.
  eapply access_ok; [apply HR|apply I|]. intros r Hr. cbn beta iota.
  pose proof (fun z => rinv_tail RingSize _ _ _ hsR tsR z (v_ring _ _ _ _ _ _ I) Hr) as HRg.
  apply cpublish_next in Hr as (t & cnt & i & acc & Hc & Hi & ->). specialize (HRg _ eq_refl eq_refl).
  rewrite Hc. pose proof (v_c _ _ _ _ _ _ I) as Hctl. unfold c_control in Hctl. rewrite Hp, Hc in Hctl.
  destruct (idle_hand s ltac:(by right)) as [Hh Ht].
  destruct (rinv_facts _ _ _ _ (v_free _ _ _ _ _ _ I)) as (_ & _ & Hlh & _ & Hlast & _).
  pose proof (v_sent _ _ _ _ _ _ I) as Hs. pose proof (v_recvd _ _ _ _ _ _ I) as Hrc.
  rewrite Hh, app_nil_r in Hrc. apply (f_equal length) in Hs.
  rewrite length_app, (Pool.length_blocks PoolSize) in Hs. pose proof (vc_range (c := PoolSize)).
  cbn in HRg. pose proof (linked_tail _ _ _ _ _ _ (Z.of_nat (length (recvd (ring s) ++ acc)))
    (v_linkC _ _ _ _ _ _ I) Hlast ltac:(rewrite Hs, length_app, Hrc; lia)) as Hlink.
  set (ts' := tsR ++ _) in *.
  assert (forall pc, (pc = CReady /\ acc = [] \/ pc = CHandle acc 0) ->
    system_inv (MkSys (MkC (heads (ring s)) (tails (ring s) ++ [t +₆₄ cnt]) (slots (ring s))
      (producer (ring s)) CIdle (p_seen (ring s)) (c_seen (ring s)) (wlog (ring s)) (rlog (ring s))
      (sent (ring s)) (recvd (ring s) ++ acc)) (free s) (mem s) (snd_ s)
      (MkT pc (processed (prc s)) (bytes (prc s)) (bursts (prc s)) (captured (prc s))
        (rt_views (prc s) ++ [length (heads (free s)) - 1]%nat) (fh_views (prc s)) (clog (prc s))
        (handled (prc s))) (payloads s))) as Hgoal.
  { intros pc Hpc. exists hsR, ts', hsF, tsF, freed. destruct I. unfold counted in *. rewrite Hp in *.
    rewrite Hh, Ht in *. rewrite app_nil_r in v_handled0, v_processed0.
    destruct Hpc as [[-> ->]| ->]; keep; unfold c_control, counted, hand, todo; cbn;
      rewrite ?app_nil_r in *; try done;
      try (by rewrite Hrc); try (by rewrite v_handled0); try (by rewrite Hlh);
      try (by destruct Hctl); try (rewrite <- (app_nil_r hsF); by apply vrel_grow).
    - split; [done|]. split; [by destruct Hctl|lia].
    - eapply log_mine; [done|]. set_solver. }
  destruct acc as [|b acc]; apply Hgoal; [by left|by right].
Qed.

(** A packet in the burst is nobody else's, and a block of the pool. *)
Lemma hand_alone s hsR tsR hsF tsF freed b :
  sinv s hsR tsR hsF tsF freed -> b ∈ hand s ->
  b ∉ held (snd_ s) /\ b ∉ contents (ring s) /\
  exists i, b = Blk i /\ (i < length (mem s))%nat.
Proof.
  intros I Hb. pose proof (places_NoDup _ _ _ _ _ _ I) as Hnd.
  apply NoDup_app in Hnd as (_ & H1 & _). specialize (H1 _ Hb).
  split; [set_solver|]. split; [set_solver|].
  assert (b ∈ Pool.blocks PoolSize) as Hin by (rewrite <- (places _ _ _ _ _ _ I); set_solver).
  apply list_elem_of_fmap in Hin as (i & -> & Hi%elem_of_seq). exists i. split; [done|].
  pose proof (v_mem _ _ _ _ _ _ I). lia.
Qed.

Lemma unhandled_NoDup s hsR tsR hsF tsF freed :
  sinv s hsR tsR hsF tsF freed -> NoDup (todo s ++ contents (ring s)).
Proof.
  intros I. pose proof (places_NoDup _ _ _ _ _ _ I) as Hnd. rewrite app_assoc in Hnd.
  apply NoDup_app in Hnd as (Hnd & _). apply NoDup_app in Hnd as (H1 & H2 & H3).
  apply NoDup_app. split; [|split; [|done]].
  - unfold todo, hand in *. destruct (cpt (prc s)) as [| |bs i|]; try apply NoDup_nil_2.
    rewrite <- (take_drop i bs) in H1. by apply NoDup_app in H1 as (_ & _ & ?).
  - intros x Hx. by apply H2, todo_hand.
Qed.

Lemma run_handler_snoc ps pkt st n :
  run_handler handle (ps ++ [pkt]) st n =
  let '(st1, n1) := run_handler handle ps st n in
  let '(st2, pkt') := handle st1 pkt in (st2, n1 +₆₄ len pkt').
Proof.
  revert st n. induction ps as [|q ps IH]; intros st n; cbn; [by destruct (handle st pkt)|].
  destruct (handle st q). apply IH.
Qed.

Lemma handle_ok s burst i :
  system_inv s -> cpt (prc s) = CHandle burst i -> ok (handle_one handle burst i s).
Proof.
  intros (hsR & tsR & hsF & tsF & freed & I) Hp. unfold handle_one.
  destruct (burst !! i) as [b|] eqn:Hb; [|done].
  assert (hand s = burst /\ todo s = drop i burst) as [Hh Ht] by (unfold hand, todo; by rewrite Hp).
  assert (b ∈ hand s) as Hbh by (rewrite Hh; by eapply list_elem_of_lookup_2).
  destruct (hand_alone _ _ _ _ _ _ _ I Hbh) as (Hnh & Hnc & k & -> & Hk).
  destruct (lookup_lt_is_Some_2 _ _ Hk) as [pkt Hpkt]. cbn [deref]. rewrite Hpkt.
  destruct (rinv_facts _ _ _ _ (v_ring _ _ _ _ _ _ I)) as (_ & _ & _ & _ & _ & _ & Hsplit & hv & Hhv & Hrv).
  rewrite (log_seen _ hsR (sent (ring s)) (recvd (ring s)) (held (snd_ s)) _ _ hv); try done; [|apply I].
  destruct (handle (captured (prc s)) pkt) as [st pkt'] eqn:Hst.
  destruct (rinv_facts _ _ _ _ (v_free _ _ _ _ _ _ I)) as (_ & _ & Hlh & _).
  pose proof (unhandled_NoDup _ _ _ _ _ _ I) as Hnd.
  assert (drop i burst = Blk k :: drop (i + 1) burst) as Hdrop
    by (rewrite (drop_S _ _ _ Hb); by rewrite Nat.add_1_r).
  set (n := length (handled (prc s))) in *.
  assert (sent (ring s) !! n = Some (Blk k)) as Hat.
  { rewrite Hsplit, (v_handled _ _ _ _ _ _ I), Ht, Hdrop, <- app_assoc.
    unfold n. by rewrite lookup_app_r, Nat.sub_diag by lia. }
  assert (payloads s !! n = Some pkt) as Hpay
    by (rewrite <- (v_pay _ _ _ _ _ _ I n (Blk k)); done).
  pose proof (v_c _ _ _ _ _ _ I) as Hctl. unfold c_control in Hctl. rewrite Hp in Hctl.
  assert (forall q c, (n + 1 <= q)%nat -> sent (ring s) !! q = Some c -> c <> Blk k) as Hne.
  { intros q c Hq Hc ->. eapply unhandled in Hc, Hat; [|exact I|lia|exact I|unfold n; lia].
    pose proof (NoDup_lookup _ _ _ _ Hnd Hc Hat). lia. }
  exists hsR, tsR, hsF, tsF, freed. destruct I. unfold counted in *. rewrite Hp in *. keep.
  - unfold c_control. cbn. destruct Hctl as (? & ? & _). split_and!; try done.
    apply lookup_lt_Some in Hb. lia.
  - rewrite v_recvd0. unfold hand. cbn. by rewrite Hp.
  - unfold todo. cbn. by rewrite <- app_assoc, v_handled0, Ht, Hdrop.
  - unfold hand. cbn. rewrite <- Hh, Hlh. by apply log_access.
  - by rewrite length_insert.
  - rewrite length_app. intros q c Hq Hc. rewrite deref_other by by eapply Hne.
    apply v_pay0; [|done]. lia.
  - unfold n in Hpay. rewrite length_app, Nat.add_1_r, (take_S_r _ _ _ Hpay), run_handler_snoc, v_run0.
    by rewrite Hst.
Qed.

(** Without drops a thread reads its own newest store. *)
Lemma newest_last s j h :
  drops (snd_ s) = no_drops -> heads (free s) !! j = Some h -> newest_free j s = true ->
  last (heads (free s)) = Some h.
Proof.
  intros Hd Hh Hn. unfold newest_free in Hn. rewrite Hd in Hn. cbn [own no_drops] in Hn.
  pose proof (lookup_lt_Some _ _ _ Hh). rewrite last_lookup.
  destruct (length (heads (free s)) - (j + 1))%nat as [|n] eqn:E; [|cbn [seq forallb] in Hn; by rewrite bool_decide_eq_false_2 in Hn by apply not_elem_of_nil].
  by replace (pred (length (heads (free s)))) with j by lia.
Qed.

Lemma newest_at_last s : newest_free (length (heads (free s)) - 1) s = true.
Proof.
  unfold newest_free.
  by replace (length (heads (free s)) - (length (heads (free s)) - 1 + 1))%nat with 0%nat by lia.
Qed.

Lemma free_start_ok s burst i j :
  system_inv s -> cpt (prc s) = CHandle burst i -> ok (free_start PoolSize burst i j s).
Proof.
  intros (hsR & tsR & hsF & tsF & freed & I) Hp. unfold free_start.
  destruct (heads (free s) !! j) as [h|] eqn:Hj; [|done].
  destruct (decide (i = length burst)) as [->|]; [|done].
  destruct (newest_free j s) eqn:Hnew; [|done].
  pose proof (newest_last _ _ _ (v_drops _ _ _ _ _ _ I) Hj Hnew) as Hlast.
  eapply access_ok; [apply HP|apply I|]. intros f Hf.
  pose proof (rinv_quiet PoolSize _ _ _ hsF tsF (v_free _ _ _ _ _ _ I) Hf) as HF.
  apply pstart_last in Hf as (Hc & h' & Hh' & ->). rewrite Hlast in Hh'. injection Hh' as <-.
  specialize (HF eq_refl eq_refl).
  assert (hand s = burst /\ todo s = []) as [Hh Ht]
    by (unfold hand, todo; by rewrite Hp, drop_all).
  pose proof (v_c _ _ _ _ _ _ I) as Hctl. unfold c_control in Hctl. rewrite Hp in Hctl.
  exists hsR, tsR, hsF, tsF, freed. destruct I. unfold counted in *. rewrite Hp in *.
  rewrite Hh, Ht in *. keep.
  - unfold c_control. cbn. split; [by destruct Hctl|]. left. by eexists.
  - rewrite v_processed0, app_nil_r, u64_add_l. unfold counted. cbn. rewrite length_app. f_equal. lia.
Qed.

Lemma free_load_ok s burst j :
  system_inv s -> cpt (prc s) = CFree burst -> ok (free_access PoolSize (PLoad j) s).
Proof.
  intros (hsR & tsR & hsF & tsF & freed & I) Hp. unfold free_access.
  eapply access_ok; [apply HP|apply I|]. intros f Hf. cbn beta iota.
  eapply view_ok; [intros v Hv; exact (l_t _ _ _ _ _ (v_linkP _ _ _ _ _ _ I) _ _ Hv)|].
  intros v Hv. pose proof (rinv_quiet PoolSize _ _ _ hsF tsF (v_free _ _ _ _ _ _ I) Hf) as HF.
  apply pload_next in Hf as (m & ins & h & t & Hc & Ht & Hj & ->). specialize (HF eq_refl eq_refl).
  pose proof (v_c _ _ _ _ _ _ I) as Hctl. unfold c_control in Hctl. rewrite Hp, Hc in Hctl.
  destruct Hctl as (Hcf & [[h' [= -> -> ->]]|(? & ? & [=])]).
  destruct (loaded_tail PoolSize _ _ _ _ _ _ _ _ _ _ _ (v_free _ _ _ _ _ _ I) Hc Ht Hj
    (v_seenC _ _ _ _ _ _ I)) as (tj & -> & -> & Htj & Hroom & x & Hx & Hxt).
  destruct (rinv_facts _ _ _ _ (v_ring _ _ _ _ _ _ I)) as (HmR & _ & _ & _ & _ & _ & _ & hv & Hhv & Hrv).
  rewrite Hx in Hhv. injection Hhv as <-.
  pose proof (v_sent _ _ _ _ _ _ I) as Hs. pose proof (v_recvd _ _ _ _ _ _ I) as Hrc.
  apply (f_equal length) in Hs, Hrc. rewrite length_app, (Pool.length_blocks PoolSize) in Hs.
  rewrite length_app in Hrc. unfold hand in Hrc. rewrite Hp in Hrc. pose proof (vc_range (c := PoolSize)).
  assert (enqueue_count PoolSize Burst (Z.of_nat (length burst)) (u64 (Z.of_nat (length (sent (free s)))))
    (u64 tj) = Some (Z.of_nat (length burst))) as Hec.
  { unfold enqueue_count. rewrite u64_diff_exact, u64_small by lia. f_equal. split_cond; lia. }
  rewrite Hec in *.
  destruct (vrel_bound _ _ _ _ _ Hv) as [Hvb _].
  pose proof (rinv_see_head RingSize _ _ _ v (v_ring _ _ _ _ _ _ I) Hvb) as HRg.
  destruct (rinv_facts _ _ _ _ HF) as (_ & HmF & _).
  pose proof (vrel_join _ _ _ _ _ _ _ HmR HmF (v_seenC _ _ _ _ _ _ I) Hv) as Hjoin.
  rewrite (Nat.max_r (p_seen (free s)) j) in Hjoin by done.
  exists hsR, tsR, hsF, tsF, freed. destruct I. keep.
  unfold c_control. cbn. rewrite Hp. split; [done|]. right. by do 2 eexists.
Qed.

Lemma no_conflict s hsR tsR hsF tsF freed :
  sinv s hsR tsR hsF tsF freed -> drop_ordered PoolSize s = true.
Proof.
  intros I. unfold drop_ordered. rewrite (v_drops _ _ _ _ _ _ I). by destruct (producer (free s)).
Qed.

Lemma free_store_ok s burst :
  system_inv s -> cpt (prc s) = CFree burst -> ok (free_access PoolSize PStore s).
Proof.
  intros (hsR & tsR & hsF & tsF & freed & I) Hp. unfold free_access.
  eapply access_ok; [apply HP|apply I|]. intros f Hf. cbn beta iota.
  rewrite (no_conflict _ _ _ _ _ _ I).
  pose proof (rinv_quiet PoolSize _ _ _ hsF tsF (v_free _ _ _ _ _ _ I) Hf) as HF.
  apply pstore_next in Hf as (ins & h & cnt & i & d & log & Hc & ->). specialize (HF eq_refl eq_refl).
  pose proof (v_c _ _ _ _ _ _ I) as Hctl. unfold c_control in Hctl. rewrite Hp, Hc in Hctl.
  destruct Hctl as (Hcf & [[h' [=]]|(? & ? & [= -> -> -> ->])]).
  exists hsR, tsR, hsF, tsF, freed. destruct I. keep.
  unfold c_control. cbn. rewrite Hp. split; [done|]. right. by do 2 eexists.
Qed.

Lemma free_publish_ok s burst :
  system_inv s -> cpt (prc s) = CFree burst -> ok (free_access PoolSize PPublish s).
Proof.
  intros (hsR & tsR & hsF & tsF & freed & I) Hp. unfold free_access.
  eapply access_ok; [apply HP|apply I|]. intros f Hf. cbn beta iota.
  pose proof (fun z => rinv_head PoolSize _ _ _ hsF tsF z (v_free _ _ _ _ _ _ I) Hf) as HF.
  apply ppublish_next in Hf as (ins & h & cnt & i & Hc & Hi & ->). specialize (HF _ eq_refl eq_refl).
  pose proof (v_c _ _ _ _ _ _ I) as Hctl. unfold c_control in Hctl. rewrite Hp, Hc in Hctl.
  destruct Hctl as (Hcf & [[h' [=]]|(? & ? & [= -> -> -> ->])]).
  rewrite Nat2Z.id, take_ge in * by done.
  assert (hand s = burst /\ todo s = []) as [Hh Ht] by (unfold hand, todo; by rewrite Hp).
  destruct (rinv_facts _ _ _ _ (v_free _ _ _ _ _ _ I)) as (HmF & _ & _ & _ & HlastF & _).
  destruct (rinv_facts _ _ _ _ (v_ring _ _ _ _ _ _ I)) as (_ & _ & _ & Hlt & _ & Hlast & _).
  pose proof (v_sent _ _ _ _ _ _ I) as Hs. pose proof (v_recvd _ _ _ _ _ _ I) as Hrc.
  apply (f_equal length) in Hs, Hrc. rewrite length_app, (Pool.length_blocks PoolSize) in Hs.
  rewrite length_app, Hh in Hrc. pose proof (vc_range (c := PoolSize)). cbn in HF.
  pose proof (linked_head _ _ _ _ _ (Z.of_nat (length (sent (free s) ++ burst))) _
    (v_linkC _ _ _ _ _ _ I) Hlast ltac:(rewrite length_app; lia)) as Hlink.
  set (hs' := hsF ++ _) in *.
  exists hsR, tsR, hs', tsF, (freed ++ burst). destruct I. unfold counted in *. rewrite Hp in *.
  rewrite Hh, Ht in *. keep.
  - by rewrite v_sent0, <- app_assoc.
  - unfold hand. cbn. by rewrite app_nil_r.
  - by rewrite Hlt.
  - rewrite <- (app_nil_r tsR). by apply vrel_grow.
  - eapply log_publish; try done. set_solver.
  - unfold counted. cbn. by rewrite app_nil_r.
Qed.

(** *** Every access *)

(** Accesses a thread does not make at its point are no steps. *)
#[local] Ltac no_access HC :=
  match goal with H : system_inv _ |- _ =>
    let HI := fresh in destruct H as (? & ? & ? & ? & ? & HI);
    eapply access_ok; [apply HC|apply HI|done]
  end.

Lemma alloc_ok l s : system_inv s -> ppt (snd_ s) = PAlloc -> ok (alloc_access PoolSize l s).
Proof.
  intros Hi Hp.
  destruct l; eauto using alloc_load_ok, alloc_fetch_ok, alloc_publish_ok; no_access HP.
Qed.

Lemma send_ok l b s : system_inv s -> ppt (snd_ s) = PSend b -> ok (send_access RingSize b l s).
Proof.
  intros Hi Hp. destruct l; eauto using send_load_ok, send_store_ok, send_publish_ok; no_access HR.
Qed.

Lemma take_ok l s : system_inv s -> cpt (prc s) = CDequeue -> ok (take_access RingSize l s).
Proof.
  intros Hi Hp. destruct l; eauto using take_load_ok, take_fetch_ok, take_publish_ok; no_access HR.
Qed.

Lemma free_ok l burst s : system_inv s -> cpt (prc s) = CFree burst -> ok (free_access PoolSize l s).
Proof.
  intros Hi Hp. destruct l; eauto using free_load_ok, free_store_ok, free_publish_ok; no_access HP.
Qed.

(** *** The drop path *)

(** The free ring is not full for a thread that holds a packet. *)
Lemma drop_room s hsR tsR hsF tsF freed b j h :
  sinv s hsR tsR hsF tsF freed -> b ∈ held (snd_ s) -> heads (free s) !! j = Some h ->
  (c_seen (free s) <= j)%nat -> h -₆₄ u64 (Z.of_nat (length (recvd (free s)))) < PoolSize.
Proof.
  intros I Hb Hh Hj. pose proof (Permutation_length (places _ _ _ _ _ _ I)) as Hlen.
  rewrite !length_app, (Pool.length_blocks PoolSize) in Hlen.
  assert (0 < length (held (snd_ s)))%nat as Hpos
    by (destruct (held (snd_ s)); [by apply elem_of_nil in Hb|cbn; lia]).
  destruct (rinv_facts _ _ _ _ (v_free _ _ _ _ _ _ I)) as (Hm & _ & _ & _ & Hlast & _ & Hsp & hv & Hhv & Hrv).
  destruct (v_free _ _ _ _ _ _ I) as (hv' & tv & IF).
  rewrite (i_heads _ _ _ _ _ _ IF), list_lookup_fmap in Hh. apply fmap_Some in Hh as (x & Hx & ->).
  pose proof (Hm _ _ _ _ Hj Hhv Hx). pose proof (mono_last _ _ _ _ Hm Hlast Hx).
  apply (f_equal length) in Hsp. rewrite length_app in Hsp. pose proof (vc_range (c := PoolSize)).
  rewrite u64_diff_exact by lia. lia.
Qed.

Lemma drop_head_ok s b j :
  system_inv s -> ppt (snd_ s) = PDrop b -> ok (drop_head b j s).
Proof.
  intros (hsR & tsR & hsF & tsF & freed & I) Hp. unfold drop_head.
  destruct (heads (free s) !! j) as [h|] eqn:Hh; [|done].
  rewrite (v_drops _ _ _ _ _ _ I). cbn [no_drops floor Nat.leb]. rewrite andb_true_r.
  destruct (Nat.leb_spec (c_seen (free s)) j) as [Hj|]; [|done].
  pose proof (v_p _ _ _ _ _ _ I) as Hctl. unfold p_control in Hctl. rewrite Hp in Hctl.
  destruct Hctl as (Hpr & Hcf & Hb). pose proof (drop_room _ _ _ _ _ _ _ _ _ I Hb Hh Hj) as Hroom.
  exists hsR, tsR, hsF, tsF, freed. destruct I. by keep.
Qed.

Lemma drop_tail_ok s b h j :
  system_inv s -> ppt (snd_ s) = PDropHead b h j -> ok (drop_tail PoolSize b h j s).
Proof.
  intros (hsR & tsR & hsF & tsF & freed & I) Hp. unfold drop_tail.
  destruct (v_free _ _ _ _ _ _ I) as (hv & tv & IF).
  rewrite (i_tails _ _ _ _ _ _ IF), (last_u64 _ _ (i_tlast _ _ _ _ _ _ IF)).
  pose proof (v_p _ _ _ _ _ _ I) as Hctl. unfold p_control in Hctl. rewrite Hp in Hctl.
  destruct Hctl as (Hpr & Hcf & Hb & Hroom).
  destruct (_ >=? _) eqn:E; [break_bool; lia|].
  exists hsR, tsR, hsF, tsF, freed. destruct I. by keep.
Qed.

(** The store of a dropped packet. *)
Definition is_drop_store (a : action) : bool := match a with ADropStore => true | _ => false end.

(** Every other access. *)
Lemma step_ok a s :
  system_inv s -> is_drop_store a = false -> ok (step RingSize PoolSize handle a s).
Proof.
  intros I Hne. destruct a; eauto using alloc_start_ok, send_start_ok, take_start_ok; unfold step;
    match goal with
    | |- context [ppt] => destruct (ppt (snd_ s)) eqn:Hp; try done
    | |- context [cpt] => destruct (cpt (prc s)) eqn:Hp; try done
    end;
    eauto using alloc_ok, fill_ok, send_ok, take_ok, handle_ok, free_start_ok, free_ok,
      drop_head_ok, drop_tail_ok.
  destruct I as (? & ? & ? & ? & ? & I). pose proof (v_p _ _ _ _ _ _ I) as Hctl.
  unfold p_control in Hctl. by rewrite Hp in Hctl.
Qed.

(** *** The start *)

Lemma start_inv mem0 s0 :
  Z.of_nat (length mem0) = PoolSize -> start RingSize PoolSize st0 mem0 = Some s0 -> system_inv s0.
Proof.
  intros Hm Hs. unfold start in Hs.
  destruct (Pool.new_pool_owns PoolSize) as (pool & Hpool & [Hr _] & _). rewrite Hpool in Hs.
  injection Hs as <-. pose proof (vc_range (c := PoolSize)).
  pose proof (shared_inv RingSize (Ring.new_ring RingSize nullptr) [] (Ring.new_ring_repr _ _) eq_refl) as IR.
  pose proof (shared_inv PoolSize _ _ Hr (Pool.new_pool_tail _ _ Hpool)) as IF.
  exists [0], [0], [Z.of_nat (length (Pool.blocks PoolSize))], [0], [].
  assert (vrel PoolSize [Z.of_nat (length (Pool.blocks PoolSize))] [0] 0 0) as HvC.
  { eexists _, _. split_and!; [done..|]. rewrite Pool.length_blocks. lia. }
  assert (vrel 0 [0] [0] 0 0) as HvP by (eexists _, _; by split_and!).
  assert (forall d (hs ts : list Z), length hs = 1%nat -> length ts = 1%nat ->
    vrel d hs ts 0 0 -> linked d hs ts [0%nat] [0%nat]) as Hlink.
  { intros d hs ts Hh Ht Hv. split; try done;
      intros k v Hk; apply list_lookup_singleton_Some in Hk as [-> <-]; done. }
  split; cbn; try done.
  - by do 2 eexists.
  - by do 2 eexists.
  - by rewrite app_nil_r.
  - by apply Hlink.
  - by apply Hlink.
  - intros b k Hk. by apply elem_of_nil in Hk.
  - intros b k Hk. by apply elem_of_nil in Hk.
Qed.

Definition of_sender (a : action) : bool :=
  match a with AStart | AAlloc _ | AFill _ _ | ASend _ | APut _
  | ADropHead _ | ADropTail | ADropStore | ADropPublish => true | _ => false end.

(** The processing thread leaves the sender's share alone. *)
Lemma processor_frame a s s' :
  of_sender a = false -> step RingSize PoolSize handle a s = Next s' -> snd_ s' = snd_ s.
Proof.
  intros Ha Hs. destruct a; try done; unfold step, take_access, handle_one, free_start, free_access,
    access, view_of in Hs; repeat case_match; by simplify_eq.
Qed.

Lemma put_back_stays a s s' :
  put_back (snd_ s) = true -> step RingSize PoolSize handle a s = Next s' ->
  put_back (snd_ s') = true.
Proof.
  intros Hb Hs. destruct (of_sender a) eqn:Ha; [|by rewrite (processor_frame _ _ _ Ha Hs)].
  destruct a; try done; unfold step, alloc_access, fill, send_access, drop_head, drop_tail, drop_store,
    drop_publish, access, view_of in Hs; repeat case_match; simplify_eq; done.
Qed.

(** Up to the store of a dropped packet the invariant holds, whatever the sizes. *)
Lemma reachable_system_inv s :
  reachable RingSize PoolSize handle st0 s -> put_back (snd_ s) = true \/ system_inv s.
Proof.
  intros (mem0 & s0 & Hm & Hs & Hr).
  apply (rtc_preserves (steps_to RingSize PoolSize handle) (fun s => put_back (snd_ s) = true \/ system_inv s) s0 s);
    [|done|right; by eapply start_inv].
  clear - HR HP. intros s1 s2 [a Ha] [Hb|Hi]; [left; by eapply put_back_stays|].
  destruct (is_drop_store a) eqn:Hda; [destruct a; try done|].
  - left. unfold step, drop_store in Ha. repeat case_match; by simplify_eq.
  - right. pose proof (step_ok a s1 Hi Hda) as Hok. by rewrite Ha in Hok.
Qed.

(** With at least as many ring slots as packets the drop path is not taken. *)
Lemma step_keeps a s s' :
  PoolSize <= RingSize -> system_inv s -> dropping (ppt (snd_ s)) = false ->
  step RingSize PoolSize handle a s = Next s' -> dropping (ppt (snd_ s')) = false.
Proof.
  intros Hfits (hsR & tsR & hsF & tsF & freed & I) Hd Hs.
  destruct (of_sender a) eqn:Ha; [|by rewrite (processor_frame _ _ _ Ha Hs)].
  pose proof (v_p _ _ _ _ _ _ I) as Hctl. unfold p_control in Hctl.
  destruct a; try done; unfold step, alloc_access, fill, send_access, access, view_of in Hs;
    destruct (ppt (snd_ s)) as [| |b'| | | |] eqn:Hp; try done; repeat case_match; simplify_eq;
    cbn; rewrite ?Hp; try done.
  match goal with H : Conc.step _ (PLoad _) _ = _ |- _ =>
    apply pload_next in H as (m & ins & h & t & Hc & Ht & Hj & ->) end.
  destruct Hctl as (_ & Hb & [[h' Hc']|(? & ? & Hc')]); rewrite Hc in Hc'; simplify_eq.
  pose proof (never_full _ _ _ _ _ _ _ _ _ _ _ _ I Hfits Hb Hc Ht Hj) as Hec.
  cbn in *. by rewrite Hec in *.
Qed.

Lemma reachable_fits s :
  PoolSize <= RingSize -> reachable RingSize PoolSize handle st0 s ->
  system_inv s /\ dropping (ppt (snd_ s)) = false.
Proof.
  intros Hfits (mem0 & s0 & Hm & Hs & Hr).
  apply (rtc_preserves (steps_to RingSize PoolSize handle) (fun s => system_inv s /\ dropping (ppt (snd_ s)) = false) s0 s); [|done|].
  - clear - Hfits HR HP. intros s1 s2 [a Ha] [Hi Hd]. split; [|by eapply step_keeps].
    destruct (is_drop_store a) eqn:Hda.
    + destruct a; try done. unfold step in Ha. by destruct (ppt (snd_ s1)).
    + pose proof (step_ok a s1 Hi Hda) as Hok. by rewrite Ha in Hok.
  - split; [by eapply start_inv|]. unfold start in Hs. destruct (Pool.new_pool PoolSize); [|done].
    by injection Hs as <-.
Qed.

(** The only undefined access is the store of a drop path, or one after such a
    store. *)
Lemma undefined_drops a s :
  reachable RingSize PoolSize handle st0 s -> step RingSize PoolSize handle a s = Undefined ->
  a = ADropStore /\ dropping (ppt (snd_ s)) = true \/ put_back (snd_ s) = true.
Proof.
  intros [Hb|Hi]%reachable_system_inv Hu; [by right|left].
  destruct (is_drop_store a) eqn:Hda.
  - destruct a; try done. unfold step in Hu. by destruct (ppt (snd_ s)).
  - pose proof (step_ok a s Hi Hda) as Hok. by rewrite Hu in Hok.
Qed.

(** With as many ring slots as packets there is none. *)
Lemma fits_defined a s :
  PoolSize <= RingSize -> reachable RingSize PoolSize handle st0 s ->
  step RingSize PoolSize handle a s <> Undefined.
Proof.
  intros Hle Hr Hu. destruct (reachable_fits s Hle Hr) as [(? & ? & ? & ? & ? & I) Hd].
  destruct (undefined_drops a s Hr Hu) as [[_ Hd']|Hb]; [by rewrite Hd' in Hd|].
  unfold put_back in Hb. by rewrite (v_drops _ _ _ _ _ _ I) in Hb.
Qed.

(** *** Progress *)

Lemma enabled r : ok r -> r <> Disabled -> exists s', r = Next s'.
Proof. destruct r; [done|done|by eexists]. Qed.

(** A load of a store there is finds the view of that store. *)
Lemma view_enabled views j (stores : list Z) z (k : nat -> result S) :
  length views = length stores -> stores !! j = Some z -> (forall v, k v <> Disabled) ->
  view_of views j k <> Disabled.
Proof.
  intros Hl Hz%lookup_lt_Some Hk. unfold view_of.
  destruct (lookup_lt_is_Some_2 views j) as [v ->]; [lia|apply Hk].
Qed.

(** The sender is never blocked by the processor. *)
Lemma sender_can_step s :
  system_inv s -> dropping (ppt (snd_ s)) = false ->
  exists a s', of_sender a = true /\ step RingSize PoolSize handle a s = Next s'.
Proof.
  intros Hi Hd. pose proof Hi as (hsR & tsR & hsF & tsF & freed & I).
  pose proof (v_p _ _ _ _ _ _ I) as Hctl. unfold p_control in Hctl.
  destruct (v_free _ _ _ _ _ _ I) as (hv & tv & IF). destruct (v_ring _ _ _ _ _ _ I) as (hv' & tv' & IR).
  destruct (ppt (snd_ s)) eqn:Hp; [| | |done..].
  - exists AStart. destruct (enabled _ (alloc_start_ok s Hi)) as [s' Hs']; [|by exists s'].
    unfold step. rewrite Hp. cbn. destruct Hctl as [_ ->].
    by rewrite (i_tails _ _ _ _ _ _ IF), (last_u64 _ _ (i_tlast _ _ _ _ _ _ IF)).
  - assert (consumer (free s) <> CIdle) as Hc
      by (destruct Hctl as [_ [[t ->]|(? & ? & ? & ->)]]; done).
    destruct (consumer_can_step PoolSize (free s)) as (l & f & Hl & Hf); [by do 4 eexists|done|].
    exists (AAlloc l). destruct (enabled _ (alloc_ok l s Hi Hp)) as [s' Hs'];
      [|exists s'; unfold step; by rewrite Hp].
    unfold alloc_access. rewrite Hf. destruct l; try done; cbn [access].
    + by apply cstart_next in Hf as [? _].
    + rewrite (v_drops _ _ _ _ _ _ I). cbn [no_drops floor own Nat.leb].
      rewrite bool_decide_eq_false_2 by apply not_elem_of_nil.
      apply cload_next in Hf as (? & ? & ? & h & _ & Hh & _). eapply view_enabled; [|exact Hh|done].
      rewrite (l_hlen _ _ _ _ _ (v_linkC _ _ _ _ _ _ I)), (i_heads _ _ _ _ _ _ IF). by rewrite length_fmap.
    + by destruct (consumer (free s)) as [| |? ? ? [|? []]].
  - assert (producer (ring s) <> PIdle) as Hc
      by (destruct Hctl as [_ [_ [[t ->]|(? & ? & ->)]]]; done).
    destruct (producer_can_step RingSize (ring s)) as (l & r & Hl & Hr); [by do 4 eexists|done|].
    exists (APut l). destruct (enabled _ (send_ok l b s Hi Hp)) as [s' Hs'];
      [|exists s'; unfold step; by rewrite Hp].
    unfold send_access. rewrite Hr. destruct l; try done; cbn [access].
    + by apply pstart_next in Hr as [? _].
    + apply pload_next in Hr as (? & ? & ? & h & _ & Hh & _). eapply view_enabled; [|exact Hh|done].
      rewrite (l_tlen _ _ _ _ _ (v_linkC _ _ _ _ _ _ I)), (i_tails _ _ _ _ _ _ IR). by rewrite length_fmap.
    + by destruct (deref (mem s) b).
Qed.

(** The processor is never blocked by the sender. *)
Lemma processor_can_step s :
  system_inv s -> exists a s', of_sender a = false /\ step RingSize PoolSize handle a s = Next s'.
Proof.
  intros Hi. pose proof Hi as (hsR & tsR & hsF & tsF & freed & I).
  pose proof (v_c _ _ _ _ _ _ I) as Hctl. unfold c_control in Hctl.
  destruct (v_free _ _ _ _ _ _ I) as (hv & tv & IF). destruct (v_ring _ _ _ _ _ _ I) as (hv' & tv' & IR).
  destruct (cpt (prc s)) as [| |burst i|burst] eqn:Hp.
  - exists BStart. destruct (enabled _ (take_start_ok s Hi)) as [s' Hs']; [|by exists s'].
    unfold step. rewrite Hp. cbn. destruct Hctl as [-> _].
    by rewrite (i_tails _ _ _ _ _ _ IR), (last_u64 _ _ (i_tlast _ _ _ _ _ _ IR)).
  - assert (consumer (ring s) <> CIdle) as Hc
      by (destruct Hctl as [_ [(n & t & ->)|(? & ? & ? & ? & ->)]]; done).
    destruct (consumer_can_step RingSize (ring s)) as (l & r & Hl & Hr); [by do 4 eexists|done|].
    exists (BTake l). destruct (enabled _ (take_ok l s Hi Hp)) as [s' Hs'];
      [|exists s'; unfold step; by rewrite Hp].
    unfold take_access. rewrite Hr. destruct l; try done; cbn [access].
    + by apply cstart_next in Hr as [? _].
    + apply cload_next in Hr as (? & ? & ? & h & _ & Hh & _). eapply view_enabled; [|exact Hh|done].
      rewrite (l_hlen _ _ _ _ _ (v_linkP _ _ _ _ _ _ I)), (i_heads _ _ _ _ _ _ IR). by rewrite length_fmap.
    + by destruct (consumer (ring s)).
  - destruct Hctl as (_ & Hpf & Hle). destruct (decide (i = length burst)) as [->|Hne].
    + set (j := (length (heads (free s)) - 1)%nat).
      exists (BFree j). destruct (enabled _ (free_start_ok s burst _ j Hi Hp)) as [s' Hs'];
        [|exists s'; unfold step; by rewrite Hp].
      pose proof (last_u64 _ _ (i_hlast _ _ _ _ _ _ IF)) as Hlast. rewrite <- (i_heads _ _ _ _ _ _ IF) in Hlast.
      unfold free_start. unfold j. rewrite (last_index _ _ Hlast), decide_True, newest_at_last by done.
      cbn. by rewrite Hpf, Hlast.
    + exists BHandle. destruct (enabled _ (handle_ok s burst _ Hi Hp)) as [s' Hs'];
        [|exists s'; unfold step; by rewrite Hp].
      unfold handle_one. destruct (lookup_lt_is_Some_2 burst i) as [b ->]; [lia|].
      destruct b; [done|]. destruct (deref _ _); [|done]. destruct (seen_accesses _ _ _); [|done].
      by destruct (handle _ _).
  - assert (producer (free s) <> PIdle) as Hc
      by (destruct Hctl as [_ [[t ->]|(? & ? & ->)]]; done).
    destruct (producer_can_step PoolSize (free s)) as (l & f & Hl & Hf); [by do 4 eexists|done|].
    exists (BPut l). destruct (enabled _ (free_ok l burst s Hi Hp)) as [s' Hs'];
      [|exists s'; unfold step; by rewrite Hp].
    unfold free_access. rewrite Hf. destruct l; try done; cbn [access].
    + by apply pstart_next in Hf as [? _].
    + apply pload_next in Hf as (? & ? & ? & h & _ & Hh & _). eapply view_enabled; [|exact Hh|done].
      rewrite (l_tlen _ _ _ _ _ (v_linkP _ _ _ _ _ _ I)), (i_tails _ _ _ _ _ _ IF). by rewrite length_fmap.
    + by rewrite (no_conflict _ _ _ _ _ _ I).
Qed.

End Invariant.
End Threads.

(** ** Properties *)

Section Properties.
Import Conc Threads.
Context {S : Type} (RingSize PoolSize : Z) `{HR : !ValidCapacity RingSize, HP : !ValidCapacity PoolSize}.
Context (handle : S -> Packet -> S * Packet) (st0 : S).

(** C3: a processor with at least as many ring slots as packets (1024 and 512
    by default), shared by a sending and a processing thread whose accesses
    interleave in any way and may read stale counters: no access is a data
    race, on a ring or on a packet, or out of bounds; [send] never takes the
    drop path; and neither thread can block the other. *)
Theorem processor_threads_safe s :
  PoolSize <= RingSize -> reachable RingSize PoolSize handle st0 s ->
  (forall a, step RingSize PoolSize handle a s <> Undefined) /\
  dropping (ppt (snd_ s)) = false /\ dropped (snd_ s) = 0 /\
  (exists a s', of_sender a = true /\ step RingSize PoolSize handle a s = Next s') /\
  (exists a s', of_sender a = false /\ step RingSize PoolSize handle a s = Next s').
Proof.
  intros Hle Hr. destruct (reachable_fits RingSize PoolSize handle st0 s Hle Hr) as [Hi Hd].
  split; [|split; [done|split; [|split]]].
  - intros a. by apply (fits_defined RingSize PoolSize handle st0).
  - destruct Hi as (? & ? & ? & ? & ? & I). by rewrite (v_dropped _ _ _ _ _ _ _ _ _ _ I), Hd.
  - by eapply sender_can_step.
  - by eapply processor_can_step.
Qed.

(** C4: what the two threads compute, for any sizes, in every state up to the
    point where a dropped packet is stored back: the packets handled, those of
    the burst still to handle and those queued are the packets sent, in order,
    each once; the handler's state and the byte count are those of a sequential
    run over the packets as they were sent; every block of the pool is in the
    burst, queued, with the sender or free, once. *)
Theorem processor_threads_in_order s :
  reachable RingSize PoolSize handle st0 s -> put_back (snd_ s) = false ->
  handled (prc s) ++ todo s ++ contents (ring s) = sent (ring s) /\
  length (payloads s) = length (sent (ring s)) /\
  run_handler handle (take (length (handled (prc s))) (payloads s)) st0 0 =
    (captured (prc s), bytes (prc s)) /\
  hand s ++ contents (ring s) ++ held (snd_ s) ++ contents (free s) ≡ₚ Pool.blocks PoolSize /\
  total_allocs (snd_ s) = u64 (Z.of_nat (length (sent (ring s)) + length (held (snd_ s)))).
Proof.
  intros Hr Hnb. destruct (reachable_system_inv RingSize PoolSize handle st0 s Hr)
    as [Hb|(hsR & tsR & hsF & tsF & freed & I)]; [by rewrite Hb in Hnb|].
  destruct (Views.rinv_facts _ _ _ _ (v_ring _ _ _ _ _ _ _ _ _ _ I)) as (_ & _ & _ & _ & _ & _ & Hc & _).
  split; [|split; [apply I|split; [apply I|split]]].
  - by rewrite Hc, (v_handled _ _ _ _ _ _ _ _ _ _ I), <- app_assoc.
  - by eapply places.
  - rewrite (v_allocs _ _ _ _ _ _ _ _ _ _ I), (Permutation_length (v_alloc _ _ _ _ _ _ _ _ _ _ I)).
    by rewrite length_app.
Qed.

End Properties.

(** ** Witnesses: two packets through a processor *)

Module ThreadsWitness.
Import Conc Threads.

(** The handler adds up the lengths. *)
Definition add_len (n : Z) (p : Packet) : Z * Packet := (n + len p, p).

Definition packet (l : Z) : Packet :=
  MkPacket 1 2 3 4 6 (replicate 3 0) l 0 (replicate 64 0).

(** Runs a schedule. *)
Fixpoint exec (RingSize PoolSize : Z) (acts : list action) (s : sys Z) : result Z :=
  match acts with
  | [] => Next s
  | a :: acts =>
      match step RingSize PoolSize add_len a s with
      | Next s' => exec RingSize PoolSize acts s'
      | r => r
      end
  end.

Definition alloc_and_send (b : ptr) (l : Z) (jf jr : nat) : list action :=
  [AStart; AAlloc (CLoad jf); AAlloc CFetch; AAlloc CPublish; AFill b (packet l);
   ASend b; APut (PLoad jr); APut PStore; APut PPublish].

(** Both packets are sent while the first is being handled. *)
Definition schedule : list action :=
  alloc_and_send (Blk 0) 100 0 0 ++ [BStart; BTake (CLoad 1)] ++
  [AStart; AAlloc (CLoad 0)] ++ [BTake CFetch; BTake CPublish; BHandle] ++
  [AAlloc CFetch; AAlloc CPublish; AFill (Blk 1) (packet 50); ASend (Blk 1); APut (PLoad 0)] ++
  [BFree 0; BPut (PLoad 1); BPut PStore].

Definition initial (RingSize PoolSize : Z) : option (sys Z) :=
  start RingSize PoolSize 0 (replicate (Z.to_nat PoolSize) zero_packet).

Definition run_from (RingSize PoolSize : Z) (acts : list action) : result Z :=
  match initial RingSize PoolSize with Some s => exec RingSize PoolSize acts s | None => Undefined end.

Lemma run_from_reaches RingSize PoolSize acts s :
  0 <= PoolSize -> run_from RingSize PoolSize acts = Next s ->
  reachable RingSize PoolSize add_len 0 s.
Proof.
  unfold run_from. destruct (initial RingSize PoolSize) as [s0|] eqn:Hs0; [|done].
  intros Hp Hx. exists (replicate (Z.to_nat PoolSize) zero_packet), s0.
  split; [rewrite length_replicate; lia|]. split; [exact Hs0|]. clear Hs0 Hp. revert s0 Hx.
  induction acts as [|a acts IH]; intros s0 Hx; cbn in Hx; [by injection Hx as <-|].
  destruct (step RingSize PoolSize add_len a s0) as [| |s1] eqn:Hs; try done.
  eapply rtc_l; [by exists a|]. by apply IH.
Qed.

Definition demo : sys Z :=
  Eval vm_compute in
    match run_from 2 2 schedule with
    | Next s => s
    | _ => MkSys (Conc.init 2 nullptr) (Conc.init 2 nullptr) [] (MkP PReady [] 0 0 [] [] [] no_drops)
             (MkT CReady 0 0 0 0 [] [] [] []) []
    end.

Lemma demo_reached : reachable 2 2 add_len 0 demo.
Proof. apply (run_from_reaches 2 2 schedule); [done|]. vm_compute. reflexivity. Qed.

#[export] Instance valid_two : ValidCapacity 2.
Proof. by split. Qed.

(** With fewer ring slots than packets the drop path is reached: the second
    packet finds the ring of one slot full. *)
Example drop_path_reached :
  exists s, reachable 1 2 add_len 0 s /\ ppt (snd_ s) = PDrop (Blk 1) /\ dropped (snd_ s) = 1.
Proof.
  eexists. split; [|split].
  - apply (run_from_reaches 1 2 (alloc_and_send (Blk 0) 100 0 0 ++
      [AStart; AAlloc (CLoad 0); AAlloc CFetch; AAlloc CPublish; ASend (Blk 1); APut (PLoad 0)])); [done|].
    vm_compute. reflexivity.
  - reflexivity.
  - reflexivity.
Qed.

End ThreadsWitness.

Section Witnesses.
Import Conc Threads ThreadsWitness.

Lemma processor_threads_safe_witness :
  (forall a, step 2 2 add_len a demo <> Undefined) /\ ppt (snd_ demo) = PSend (Blk 1) /\
  dropped (snd_ demo) = 0.
Proof.
  destruct (processor_threads_safe 2 2 add_len 0 demo ltac:(lia) demo_reached) as (Hu & _ & Hd & _).
  split; [exact Hu|]. split; [reflexivity|exact Hd].
Defined.

Lemma processor_threads_in_order_witness :
  handled (prc demo) = [Blk 0] /\
  run_handler add_len (take 1 (payloads demo)) 0 0 = (100, 100) /\
  total_allocs (snd_ demo) = 2.
Proof.
  destruct (processor_threads_in_order 2 2 add_len 0 demo demo_reached eq_refl)
    as (_ & _ & Hrun & _ & Ht).
  split; [reflexivity|]. split; [exact Hrun|exact Ht].
Defined.

End Witnesses.
