(* ===== verification/ProcessorRace.v ===== *)
(** * ProcessorRace: when the batch processor is safe between two threads

    [ProcessorConcurrent] shows that a sending and a processing thread make no
    undefined access when the ring has at least as many slots as the pool has
    packets.  Here is the converse: with fewer slots [send] can find the ring
    full and put the packet back into the pool from the sending thread, while
    the processing thread returns a burst to the same slot of the free list.
    The race is constructed for all sizes: the first packet is sent, handled and
    about to be returned; the sender fills the ring, which it still believes to
    hold the first packet, and drops the next one.  Whichever of the two stores
    comes second is the race: that of the drop path, or that of the processing
    thread after [send] has returned. *)

From S2P Require Import Prelude SpscRing SpscConcurrent MemoryPool PacketProcessor ProcessorConcurrent.
Import Conc Views.

(** ** Accesses that are made *)

Section Accesses.
Context {T : Type} (Capacity : Z) `{HC : !ValidCapacity Capacity}.
Implicit Types (s : cstate T).

Lemma cstart_at m n s t :
  consumer s = CIdle -> last (tails s) = Some t -> well_formed_call m n = true ->
  Conc.step Capacity (CStart m n) s = Next (with_consumer s (CTail m (Z.of_nat n) t)).
Proof. intros Hc Ht Hw. cbn. by rewrite Hc, Ht, Hw. Qed.

Lemma pstart_at m ins s h :
  producer s = PIdle -> last (heads s) = Some h -> well_formed_call m (length ins) = true ->
  Conc.step Capacity (PStart m ins) s = Next (with_producer s (PHead m ins h)).
Proof. intros Hc Ht Hw. cbn. by rewrite Hc, Ht, Hw. Qed.

Lemma cload_at j s m n t h :
  consumer s = CTail m n t -> heads s !! j = Some h -> (c_seen s <= j)%nat ->
  Conc.step Capacity (CLoad j) s =
  Next (MkC (heads s) (tails s) (slots s) (producer s)
          (match dequeue_count m n h t with None => CIdle | Some cnt => CRead t cnt 0 [] end)
          (p_seen s) j (wlog s) (rlog s) (sent s) (recvd s)).
Proof. intros Hc Hh Hj. cbn. rewrite Hc, Hh. by rewrite (proj2 (Nat.leb_le _ _) Hj). Qed.

Lemma pload_at j s m ins h t :
  producer s = PHead m ins h -> tails s !! j = Some t -> (p_seen s <= j)%nat ->
  Conc.step Capacity (PLoad j) s =
  Next (MkC (heads s) (tails s) (slots s)
          (match enqueue_count Capacity m (Z.of_nat (length ins)) h t with
           | None => PIdle | Some cnt => PWrite ins h cnt 0 end)
          (consumer s) j (c_seen s) (wlog s) (rlog s) (sent s) (recvd s)).
Proof. intros Hc Hh Hj. cbn. rewrite Hc, Hh. by rewrite (proj2 (Nat.leb_le _ _) Hj). Qed.

(** Inside the loops the invariant says that the access is defined. *)
Lemma cfetch_at s hs ts t cnt i acc :
  rinv Capacity s hs ts -> consumer s = CRead t cnt i acc -> i < cnt ->
  exists x log, Conc.step Capacity CFetch s =
    Next (MkC (heads s) (tails s) (slots s) (producer s) (CRead t cnt (i + 1) (acc ++ [x]))
            (p_seen s) (c_seen s) (wlog s) log (sent s) (recvd s)).
Proof.
  intros Hr Hc Hi. pose proof (rinv_defined Capacity s hs ts CFetch Hr) as Hd.
  cbn in *. rewrite Hc in *. destruct (Z.ltb_spec i cnt); [|lia].
  destruct (array_get _ _) as [x|]; [|done]. destruct (ordered _ _ _); [|done]. by do 2 eexists.
Qed.

Lemma pstore_at s hs ts ins h cnt i :
  rinv Capacity s hs ts -> producer s = PWrite ins h cnt i -> i < cnt ->
  exists d, Conc.step Capacity PStore s =
    Next (MkC (heads s) (tails s) d (PWrite ins h cnt (i + 1)) (consumer s)
            (p_seen s) (c_seen s) ((Z.land (h +₆₄ i) (Ring.MASK Capacity), length (heads s)) :: wlog s)
            (rlog s) (sent s) (recvd s)).
Proof.
  intros Hr Hc Hi. pose proof (rinv_defined Capacity s hs ts PStore Hr) as Hd.
  cbn in *. rewrite Hc in *. destruct (Z.ltb_spec i cnt); [|lia].
  destruct (array_get _ _) as [x|]; [|done]. destruct (array_set _ _ _) as [d|]; [|done].
  destruct (ordered _ _ _); [|done]. by eexists.
Qed.

Lemma cpublish_at s t cnt i acc :
  consumer s = CRead t cnt i acc -> cnt <= i ->
  Conc.step Capacity CPublish s =
  Next (MkC (heads s) (tails s ++ [t +₆₄ cnt]) (slots s) (producer s) CIdle
          (p_seen s) (c_seen s) (wlog s) (rlog s) (sent s) (recvd s ++ acc)).
Proof. intros Hc Hi. cbn. rewrite Hc. by destruct (Z.ltb_spec i cnt); [lia|]. Qed.

Lemma ppublish_at s ins h cnt i :
  producer s = PWrite ins h cnt i -> cnt <= i ->
  Conc.step Capacity PPublish s =
  Next (MkC (heads s ++ [h +₆₄ cnt]) (tails s) (slots s) PIdle (consumer s)
          (p_seen s) (c_seen s) (wlog s) (rlog s) (sent s ++ take (Z.to_nat cnt) ins) (recvd s)).
Proof. intros Hc Hi. cbn. rewrite Hc. by destruct (Z.ltb_spec i cnt); [lia|]. Qed.

(** A full ring from which one element was taken has one place. *)
Lemma one_free : enqueue_count Capacity Burst 1 (u64 Capacity) 1 = Some 1.
Proof.
  pose proof (vc_range (c := Capacity)). unfold enqueue_count.
  rewrite (u64_small Capacity), (u64_small (Capacity - 1)) by lia.
  by replace (Capacity - (Capacity - 1)) with 1 by lia.
Qed.

(** The newest stores. *)
Lemma rinv_last s hs ts :
  rinv Capacity s hs ts ->
  last (heads s) = Some (u64 (Z.of_nat (length (sent s)))) /\
  last (tails s) = Some (u64 (Z.of_nat (length (recvd s)))).
Proof.
  intros (hv & tv & I). rewrite (i_heads _ _ _ _ _ _ I), (i_tails _ _ _ _ _ _ I).
  split; apply last_u64; apply I.
Qed.

End Accesses.

(** ** The schedule *)

Module Race.
Import Threads.

Section Race.
Context {S : Type} (RingSize PoolSize : Z) `{HR : !ValidCapacity RingSize, HP : !ValidCapacity PoolSize}.
Context (handle : S -> Packet -> S * Packet) (st0 : S).
#[local] Abbreviation reach := (reachable RingSize PoolSize handle st0).
#[local] Abbreviation go := (step RingSize PoolSize handle).
#[local] Abbreviation Sinv := (sinv RingSize PoolSize handle st0).
Implicit Types (s : sys S).

Lemma reach_step a s s' : reach s -> go a s = Next s' -> reach s'.
Proof.
  intros (m & s0 & Hm & H0 & Hr) Ha. exists m, s0. split; [done|]. split; [done|].
  eapply rtc_r; [exact Hr|by exists a].
Qed.

Lemma reach_inv s :
  reach s -> put_back (snd_ s) = false ->
  exists hsR tsR hsF tsF freed, Sinv s hsR tsR hsF tsF freed.
Proof.
  intros Hr Hp. destruct (reachable_system_inv RingSize PoolSize handle st0 s Hr) as [Hb|Hi]; [|done].
  by rewrite Hb in Hp.
Qed.

(** A sender that has seen nothing of the other thread: it can still read the
    stores its threads were started with. *)
Record blind s : Prop := {
  b_reach : reach s;
  b_heads : heads (free s) = [u64 PoolSize];
  b_cseen : c_seen (free s) = 0%nat;
  b_tail : tails (ring s) !! 0%nat = Some 0;
  b_pseen : p_seen (ring s) = 0%nat;
  b_fh : fh_views (prc s) !! 0%nat = Some 0%nat;
  b_rt : rt_views (prc s) !! 0%nat = Some 0%nat;
  b_drops : drops (snd_ s) = no_drops
}.

Lemma blind_kept s : blind s -> put_back (snd_ s) = false.
Proof. intros B. unfold put_back. by rewrite (b_drops _ B). Qed.

Lemma blind_inv s : blind s -> exists hsR tsR hsF tsF freed, Sinv s hsR tsR hsF tsF freed.
Proof. intros B. apply reach_inv; [apply B|by apply blind_kept]. Qed.

(** The processing thread is where it was. *)
Record same_proc s s' : Prop := {
  q_prc : prc s' = prc s;
  q_producer : producer (free s') = producer (free s);
  q_wlog : wlog (free s') = wlog (free s);
  q_consumer : consumer (ring s') = consumer (ring s);
  q_recvd : recvd (ring s') = recvd (ring s)
}.

Lemma same_proc_trans s s1 s2 : same_proc s s1 -> same_proc s1 s2 -> same_proc s s2.
Proof. intros [] []. split; congruence. Qed.

(** The sender calls [alloc_packet] and reads the [head_] it was started with. *)
Lemma alloc_load_blind s :
  blind s -> ppt (snd_ s) = PReady ->
  let n := (length (sent (ring s)) + length (held (snd_ s)))%nat in
  Z.of_nat n < PoolSize ->
  exists s', blind s' /\ ppt (snd_ s') = PAlloc /\ held (snd_ s') = held (snd_ s) /\
    sent (ring s') = sent (ring s) /\ same_proc s s' /\
    consumer (free s') = CRead (u64 (Z.of_nat n)) 1 0 [].
Proof.
  intros B Hp n Hlt. destruct (blind_inv s B) as (hsR & tsR & hsF & tsF & freed & I).
  pose proof (v_p _ _ _ _ _ _ _ _ _ _ I) as Hctl. unfold p_control in Hctl. rewrite Hp in Hctl.
  destruct Hctl as [Hpr Hcf]. destruct (rinv_last _ _ _ _ (v_free _ _ _ _ _ _ _ _ _ _ I)) as [_ Ht].
  rewrite (Permutation_length (v_alloc _ _ _ _ _ _ _ _ _ _ I)), length_app in Ht. fold n in Ht.
  pose proof (vc_range (c := PoolSize)) as HPr.
  pose (s1 := MkSys (ring s) (with_consumer (free s) (CTail Single 1 (u64 (Z.of_nat n)))) (mem s)
                (at_p (snd_ s) PAlloc) (prc s) (payloads s)).
  assert (go AStart s = Next s1) as H1.
  { unfold step. rewrite Hp. by rewrite (cstart_at _ _ _ _ _ Hcf Ht). }
  pose (s2 := MkSys (see_tail 0 (ring s1))
                (MkC (heads (free s1)) (tails (free s1)) (slots (free s1)) (producer (free s1))
                   (CRead (u64 (Z.of_nat n)) 1 0 []) (p_seen (free s1)) 0 (wlog (free s1))
                   (rlog (free s1)) (sent (free s1)) (recvd (free s1)))
                (mem s1) (at_p (snd_ s1) PAlloc) (prc s1) (payloads s1)).
  assert (go (AAlloc (CLoad 0)) s1 = Next s2) as H2.
  { unfold step, alloc_access. cbn [s1 snd_ ppt at_p free].
    rewrite (cload_at _ 0 _ Single 1 (u64 (Z.of_nat n)) (u64 PoolSize));
      [|done|cbn; by rewrite (b_heads _ B)|cbn; by rewrite (b_cseen _ B)].
    unfold dequeue_count. destruct (Z.eqb_spec (u64 (Z.of_nat n)) (u64 PoolSize)) as [E|_].
    { rewrite !u64_small in E by lia. lia. }
    cbn [access s1 snd_ at_p drops]. rewrite (b_drops _ B). cbn [no_drops floor own Nat.leb].
    rewrite bool_decide_eq_false_2 by apply not_elem_of_nil.
    unfold view_of. cbn [prc s1]. by rewrite (b_fh _ B). }
  assert (reach s2) as R2 by (eapply reach_step, H2; eapply reach_step, H1; apply B).
  exists s2. split; [|done]. destruct B. split; cbn; try done. lia.
Qed.

(** It gets a packet. *)
Lemma alloc_blind s :
  blind s -> ppt (snd_ s) = PReady ->
  Z.of_nat (length (sent (ring s)) + length (held (snd_ s))) < PoolSize ->
  exists s' b, blind s' /\ ppt (snd_ s') = PReady /\ held (snd_ s') = b :: held (snd_ s) /\
    sent (ring s') = sent (ring s) /\ same_proc s s'.
Proof.
  intros B Hp Hlt. destruct (alloc_load_blind s B Hp Hlt) as (s2 & B2 & Hp2 & Hh2 & Hs2 & Q2 & Hc2).
  set (t := u64 _) in Hc2.
  destruct (blind_inv s2 B2) as (hsR & tsR & hsF & tsF & freed & I2).
  destruct (cfetch_at PoolSize (free s2) _ _ _ 1 0 [] (v_free _ _ _ _ _ _ _ _ _ _ I2) Hc2)
    as (b & log & Hf); [lia|].
  pose (f3 := MkC (heads (free s2)) (tails (free s2)) (slots (free s2)) (producer (free s2))
                (CRead t 1 (0 + 1) ([] ++ [b])) (p_seen (free s2)) (c_seen (free s2))
                (wlog (free s2)) log (sent (free s2)) (recvd (free s2))).
  pose (s3 := MkSys (ring s2) f3 (mem s2) (snd_ s2) (prc s2) (payloads s2)).
  assert (go (AAlloc CFetch) s2 = Next s3) as H3.
  { unfold step, alloc_access. rewrite Hp2. by rewrite Hf. }
  assert (exists s4, go (AAlloc CPublish) s3 = Next s4 /\ ring s4 = ring s2 /\ prc s4 = prc s2 /\
            ppt (snd_ s4) = PReady /\ held (snd_ s4) = b :: held (snd_ s2) /\
            heads (free s4) = heads (free s2) /\ c_seen (free s4) = c_seen (free s2) /\
            producer (free s4) = producer (free s2) /\ wlog (free s4) = wlog (free s2) /\
            drops (snd_ s4) = drops (snd_ s2))
    as (s4 & H4 & E1 & E2 & E3 & E4 & E5 & E6 & E7 & E8 & E9).
  { unfold step, alloc_access. cbn [s3 snd_ free]. rewrite Hp2.
    rewrite (cpublish_at PoolSize f3 t 1 (0 + 1) ([] ++ [b])) by done.
    eexists. split; [done|by repeat split]. }
  exists s4, b. assert (reach s4) as R4 by (eapply reach_step, H4; eapply reach_step, H3; apply B2).
  split; [|split_and!; try done; [by rewrite E4, Hh2|by rewrite E1|]].
  - destruct B2. split; rewrite ?E1, ?E2, ?E5, ?E6, ?E9; done.
  - eapply same_proc_trans; [exact Q2|]. split; rewrite ?E1, ?E2, ?E7, ?E8; done.
Qed.

(** The sender calls [send] and reads the [tail_] it was started with. *)
Lemma send_load_blind s b :
  blind s -> ppt (snd_ s) = PReady -> b ∈ held (snd_ s) ->
  let k := length (sent (ring s)) in
  Z.of_nat k <= RingSize ->
  exists s', blind s' /\ held (snd_ s') = held (snd_ s) /\ sent (ring s') = sent (ring s) /\
    same_proc s s' /\
    if Z.of_nat k <? RingSize
    then ppt (snd_ s') = PSend b /\ producer (ring s') = PWrite [b] (u64 (Z.of_nat k)) 1 0
    else ppt (snd_ s') = PDrop b.
Proof.
  intros B Hp Hb k Hk. destruct (blind_inv s B) as (hsR & tsR & hsF & tsF & freed & I).
  pose proof (v_p _ _ _ _ _ _ _ _ _ _ I) as Hctl. unfold p_control in Hctl. rewrite Hp in Hctl.
  destruct Hctl as [Hpr Hcf]. destruct (rinv_last _ _ _ _ (v_ring _ _ _ _ _ _ _ _ _ _ I)) as [Hh _].
  pose proof (vc_range (c := RingSize)) as HRr.
  pose (s1 := MkSys (with_producer (ring s) (PHead Single [b] (u64 (Z.of_nat k)))) (free s) (mem s)
                (at_p (snd_ s) (PSend b)) (prc s) (payloads s)).
  assert (go (ASend b) s = Next s1) as H1.
  { unfold step. rewrite Hp, decide_True by done. by rewrite (pstart_at _ _ _ _ _ Hpr Hh). }
  assert (exists s2, go (APut (PLoad 0)) s1 = Next s2 /\ free s2 = see_head 0 (free s) /\
            heads (ring s2) = heads (ring s) /\ tails (ring s2) = tails (ring s) /\
            p_seen (ring s2) = 0%nat /\ consumer (ring s2) = consumer (ring s) /\
            prc s2 = prc s /\ held (snd_ s2) = held (snd_ s) /\ sent (ring s2) = sent (ring s) /\
            recvd (ring s2) = recvd (ring s) /\ drops (snd_ s2) = drops (snd_ s) /\
            if Z.of_nat k <? RingSize
            then ppt (snd_ s2) = PSend b /\ producer (ring s2) = PWrite [b] (u64 (Z.of_nat k)) 1 0
            else ppt (snd_ s2) = PDrop b)
    as (s2 & H2 & E1 & E2 & E3 & E4 & E5 & E6 & E7 & E8 & E9 & E11 & E10).
  { unfold step, send_access. cbn [s1 snd_ ppt at_p ring].
    rewrite (pload_at _ 0 _ Single [b] (u64 (Z.of_nat k)) 0);
      [|done|cbn; apply B|cbn; by rewrite (b_pseen _ B)].
    cbn [access]. unfold view_of. cbn [prc s1]. rewrite (b_rt _ B).
    unfold enqueue_count. rewrite Z.sub_0_r, u64_u64, u64_small by lia.
    destruct (Z.ltb_spec (Z.of_nat k) RingSize), (_ >=? _) eqn:E; break_bool; try lia;
      (eexists; split; [done|by repeat split]). }
  exists s2. assert (reach s2) as R2 by (eapply reach_step, H2; eapply reach_step, H1; apply B).
  split; [|split_and!; try done].
  - destruct B. split; rewrite ?E1, ?E3, ?E4, ?E6, ?E11; cbn; try done. lia.
  - split; rewrite ?E1, ?E5, ?E6, ?E9; done.
Qed.

(** With room in the ring the packet is sent. *)
Lemma send_blind s b :
  blind s -> ppt (snd_ s) = PReady -> held (snd_ s) = [b] ->
  Z.of_nat (length (sent (ring s))) < RingSize ->
  exists s', blind s' /\ ppt (snd_ s') = PReady /\ held (snd_ s') = [] /\
    sent (ring s') = sent (ring s) ++ [b] /\ same_proc s s'.
Proof.
  intros B Hp Hh Hk.
  destruct (send_load_blind s b B Hp) as (s2 & B2 & Hh2 & Hs2 & Q2 & Hpt); [rewrite Hh; by left|lia|].
  rewrite (proj2 (Z.ltb_lt _ _) Hk) in Hpt. destruct Hpt as [Hp2 Hw].
  rewrite Hh in Hh2. set (k := Z.of_nat (length (sent (ring s)))) in *.
  destruct (blind_inv s2 B2) as (? & ? & ? & ? & ? & I2).
  destruct (pstore_at RingSize (ring s2) _ _ [b] (u64 k) 1 0 (v_ring _ _ _ _ _ _ _ _ _ _ I2) Hw)
    as (d & Hd); [lia|].
  pose (r3 := MkC (heads (ring s2)) (tails (ring s2)) d (PWrite [b] (u64 k) 1 (0 + 1)) (consumer (ring s2))
                (p_seen (ring s2)) (c_seen (ring s2))
                ((Z.land (u64 k +₆₄ 0) (Ring.MASK RingSize), length (heads (ring s2))) :: wlog (ring s2))
                (rlog (ring s2)) (sent (ring s2)) (recvd (ring s2))).
  pose (s3 := MkSys r3 (free s2) (mem s2) (snd_ s2) (prc s2) (payloads s2)).
  assert (go (APut PStore) s2 = Next s3) as H3.
  { unfold step, send_access. rewrite Hp2. by rewrite Hd. }
  destruct (held_alone RingSize PoolSize handle st0 s2 _ _ _ _ _ b I2) as (_ & _ & _ & i & -> & Hi);
    [rewrite Hh2; by left|]. destruct (lookup_lt_is_Some_2 _ _ Hi) as [pkt Hpkt].
  assert (exists s4, go (APut PPublish) s3 = Next s4 /\ free s4 = free s2 /\ tails (ring s4) = tails (ring s2) /\
            p_seen (ring s4) = p_seen (ring s2) /\ consumer (ring s4) = consumer (ring s2) /\
            prc s4 = prc s2 /\ ppt (snd_ s4) = PReady /\
            held (snd_ s4) = filter (fun x => x <> Blk i) (held (snd_ s2)) /\
            sent (ring s4) = sent (ring s2) ++ [Blk i] /\ recvd (ring s4) = recvd (ring s2) /\
            drops (snd_ s4) = drops (snd_ s2))
    as (s4 & H4 & E1 & E2 & E3 & E4 & E5 & E6 & E7 & E8 & E9 & E10).
  { unfold step, send_access. cbn [s3 snd_ ring mem deref]. rewrite Hp2.
    rewrite (ppublish_at RingSize r3 [Blk i] (u64 k) 1 (0 + 1)) by done.
    cbn [access deref]. change (mem s3) with (mem s2). rewrite Hpkt. eexists. split; [done|by repeat split]. }
  exists s4. assert (reach s4) as R4 by (eapply reach_step, H4; eapply reach_step, H3; apply B2).
  split; [|split_and!; try done].
  - destruct B2. split; rewrite ?E1, ?E2, ?E3, ?E5, ?E10; done.
  - rewrite E7, Hh2. by rewrite filter_cons_False by tauto.
  - by rewrite E8, Hs2.
  - eapply same_proc_trans; [exact Q2|]. split; rewrite ?E1, ?E4, ?E5, ?E9; done.
Qed.

(** Rounds of the sender. *)
Lemma rounds_blind n s :
  RingSize < PoolSize -> blind s -> ppt (snd_ s) = PReady -> held (snd_ s) = [] ->
  Z.of_nat (length (sent (ring s)) + n) <= RingSize ->
  exists s', blind s' /\ ppt (snd_ s') = PReady /\ held (snd_ s') = [] /\
    length (sent (ring s')) = (length (sent (ring s)) + n)%nat /\ same_proc s s'.
Proof.
  intros Hlt. revert s. induction n as [|n IH]; intros s B Hp Hh Hn.
  { exists s. rewrite Nat.add_0_r. by repeat split; try apply B. }
  destruct (alloc_blind s B Hp) as (s1 & b & B1 & Hp1 & Hh1 & Hs1 & Q1); [rewrite Hh; cbn; lia|].
  rewrite Hh in Hh1.
  destruct (send_blind s1 b B1 Hp1 Hh1) as (s2 & B2 & Hp2 & Hh2 & Hs2 & Q2); [rewrite Hs1; lia|].
  assert (length (sent (ring s2)) = length (sent (ring s)) + 1)%nat as Hl
    by (by rewrite Hs2, Hs1, length_app).
  destruct (IH s2 B2 Hp2 Hh2) as (s3 & B3 & Hp3 & Hh3 & Hs3 & Q3); [rewrite Hl; lia|].
  exists s3. split_and!; try done; [lia|]. eapply same_proc_trans, Q3. by eapply same_proc_trans.
Qed.

(** *** The processing thread *)

(** The sender is where it was, and reads what it could read. *)
Record same_snd s s' : Prop := {
  w_snd : snd_ s' = snd_ s;
  w_heads : heads (free s') = heads (free s);
  w_cseen : c_seen (free s') = c_seen (free s);
  w_recvd : recvd (free s') = recvd (free s);
  w_pseen : p_seen (ring s') = p_seen (ring s);
  w_sent : sent (ring s') = sent (ring s);
  w_tails : tails (ring s) `prefix_of` tails (ring s');
  w_fh : fh_views (prc s') = fh_views (prc s);
  w_rt : rt_views (prc s) `prefix_of` rt_views (prc s')
}.

Lemma same_snd_trans s s1 s2 : same_snd s s1 -> same_snd s1 s2 -> same_snd s s2.
Proof. intros [] []. split; try congruence; by etrans. Qed.

Lemma blind_same s s' : blind s -> same_snd s s' -> reach s' -> blind s'.
Proof.
  intros [] [] Hr. split; try congruence; by eapply prefix_lookup_Some.
Qed.

(** It calls process_burst and reads the newest [head_] of the ring, which holds
    one packet. *)
Lemma take_load s :
  reach s -> put_back (snd_ s) = false -> cpt (prc s) = CReady ->
  length (sent (ring s)) = 1%nat -> recvd (ring s) = [] ->
  exists s', reach s' /\ same_snd s s' /\ cpt (prc s') = CDequeue /\ consumer (ring s') = CRead 0 1 0 [] /\
    wlog (free s') = wlog (free s).
Proof.
  intros R Hnb Hc Hs Hrc. destruct (reach_inv s R Hnb) as (hsR & tsR & hsF & tsF & freed & I).
  pose proof (v_c _ _ _ _ _ _ _ _ _ _ I) as Hctl. unfold c_control in Hctl. rewrite Hc in Hctl.
  destruct Hctl as [Hcr Hpf]. pose proof (v_ring _ _ _ _ _ _ _ _ _ _ I) as IR.
  destruct (rinv_last _ _ _ _ IR) as [Hh Ht]. rewrite Hs, Hrc in *.
  pose (s1 := MkSys (with_consumer (ring s) (CTail Burst (Z.of_nat (Z.to_nat BURST_SIZE)) 0)) (free s) (mem s)
                (snd_ s) (at_c (prc s) CDequeue) (payloads s)).
  assert (go BStart s = Next s1) as H1.
  { unfold step. rewrite Hc. by rewrite (cstart_at _ _ _ _ _ Hcr Ht). }
  set (j := (length (heads (ring s)) - 1)%nat).
  assert (heads (ring s) !! j = Some 1) as Hj by (by apply last_index).
  destruct (rinv_facts _ _ _ _ IR) as (_ & _ & Hlen & _ & _ & _ & _ & hv & Hhv%lookup_lt_Some & _).
  destruct (lookup_lt_is_Some_2 (rh_views (snd_ s)) j) as [v Hv].
  { rewrite (l_hlen _ _ _ _ _ (v_linkP _ _ _ _ _ _ _ _ _ _ I)), <- Hlen. lia. }
  pose (r2 := MkC (heads (ring s)) (tails (ring s)) (slots (ring s)) (producer (ring s)) (CRead 0 1 0 [])
                (p_seen (ring s)) j (wlog (ring s)) (rlog (ring s)) (sent (ring s)) (recvd (ring s))).
  pose (s2 := MkSys r2 (see_tail v (free s)) (mem s) (snd_ s) (prc s1) (payloads s)).
  assert (go (BTake (CLoad j)) s1 = Next s2) as H2.
  { unfold step, take_access. cbn [s1 prc cpt at_c ring].
    rewrite (cload_at _ j _ Burst (Z.of_nat (Z.to_nat BURST_SIZE)) 0 1); [|done|done|cbn; lia].
    cbn [access]. unfold view_of. cbn [snd_ s1]. by rewrite Hv. }
  exists s2. split; [eapply reach_step, H2; by eapply reach_step, H1|]. by repeat split.
Qed.

(** It takes that packet. *)
Lemma take_one s :
  reach s -> put_back (snd_ s) = false -> cpt (prc s) = CReady ->
  length (sent (ring s)) = 1%nat -> recvd (ring s) = [] ->
  exists s' b, reach s' /\ same_snd s s' /\ cpt (prc s') = CHandle [b] 0 /\ wlog (free s') = wlog (free s).
Proof.
  intros R Hnb Hc Hs Hrc. destruct (take_load s R Hnb Hc Hs Hrc) as (s2 & R2 & W2 & Hc2 & Hr2 & Hl2).
  rewrite <- (w_snd _ _ W2) in Hnb.
  destruct (reach_inv s2 R2 Hnb) as (hsR2 & tsR2 & hsF2 & tsF2 & freed2 & I2).
  destruct (cfetch_at RingSize (ring s2) _ _ 0 1 0 [] (v_ring _ _ _ _ _ _ _ _ _ _ I2) Hr2)
    as (b & log & Hf); [lia|].
  pose (r3 := MkC (heads (ring s2)) (tails (ring s2)) (slots (ring s2)) (producer (ring s2))
                (CRead 0 1 (0 + 1) ([] ++ [b])) (p_seen (ring s2)) (c_seen (ring s2)) (wlog (ring s2)) log
                (sent (ring s2)) (recvd (ring s2))).
  pose (s3 := MkSys r3 (free s2) (mem s2) (snd_ s2) (prc s2) (payloads s2)).
  assert (go (BTake CFetch) s2 = Next s3) as H3.
  { unfold step, take_access. rewrite Hc2. by rewrite Hf. }
  assert (exists s4, go (BTake CPublish) s3 = Next s4 /\ same_snd s2 s4 /\ cpt (prc s4) = CHandle [b] 0 /\
            wlog (free s4) = wlog (free s2)) as (s4 & H4 & W4 & Hc4 & Hl4).
  { unfold step, take_access. cbn [s3 prc ring]. rewrite Hc2.
    rewrite (cpublish_at RingSize r3 0 1 (0 + 1) ([] ++ [b])) by done.
    eexists. split; [done|]. split; [|done]. split; cbn; try done; by apply prefix_app_r. }
  exists s4, b. split; [eapply reach_step, H4; by eapply reach_step, H3|].
  split; [by eapply same_snd_trans|]. split; [done|congruence].
Qed.

(** It handles it. *)
Lemma handle_taken s x :
  reach s -> put_back (snd_ s) = false -> cpt (prc s) = CHandle [x] 0 ->
  exists s', reach s' /\ same_snd s s' /\ cpt (prc s') = CHandle [x] 1 /\ wlog (free s') = wlog (free s).
Proof.
  intros R Hnb Hc. pose proof (reach_inv s R Hnb) as Hi.
  pose proof (step_ok RingSize PoolSize handle st0 BHandle s Hi eq_refl) as Hok.
  destruct (go BHandle s) as [| |s'] eqn:Hs; [|done|].
  - exfalso. unfold step, handle_one in Hs. rewrite Hc in Hs. cbn in Hs.
    repeat case_match; done.
  - exists s'. split; [by eapply reach_step|]. unfold step, handle_one in Hs. rewrite Hc in Hs. cbn in Hs.
    destruct x as [|i]; [done|]. destruct (mem s !! i); [|done]. destruct (seen_accesses _ _ _); [|done].
    destruct (handle _ _). injection Hs as <-. by repeat split.
Qed.

(** It begins to return it, and finds room for it. *)
Definition returning (b : ptr) s : Prop :=
  cpt (prc s) = CFree [b] /\ producer (free s) = PWrite [b] (u64 PoolSize) 1 0.

Lemma return_load s b :
  reach s -> put_back (snd_ s) = false -> cpt (prc s) = CHandle [b] 1 ->
  heads (free s) = [u64 PoolSize] -> length (recvd (free s)) = 1%nat ->
  exists s', reach s' /\ same_snd s s' /\ returning b s' /\ wlog (free s') = wlog (free s).
Proof.
  intros R Hnb Hc Hh Hrc. destruct (reach_inv s R Hnb) as (hsR & tsR & hsF & tsF & freed & I).
  pose proof (v_c _ _ _ _ _ _ _ _ _ _ I) as Hctl. unfold c_control in Hctl. rewrite Hc in Hctl.
  destruct Hctl as (Hcr & Hpf & _). pose proof (v_free _ _ _ _ _ _ _ _ _ _ I) as IF.
  destruct (rinv_last _ _ _ _ IF) as [_ Ht]. rewrite Hrc in Ht.
  pose (c1 := MkT (CFree [b]) (processed (prc s) +₆₄ 1) (bytes (prc s)) (bursts (prc s) +₆₄ 1)
                (captured (prc s)) (rt_views (prc s)) (fh_views (prc s)) (clog (prc s)) (handled (prc s))).
  pose (f1 := with_producer (free s) (PHead Burst [b] (u64 PoolSize))).
  pose (s1 := MkSys (ring s) f1 (mem s) (snd_ s) c1 (payloads s)).
  assert (go (BFree 0) s = Next s1) as H1.
  { unfold step, free_start, newest_free. rewrite Hc, Hh. cbn [lookup list_lookup length Nat.sub seq forallb Nat.add].
    rewrite decide_True by done.
    rewrite (pstart_at _ Burst [b] (free s) (u64 PoolSize)); [done|done|by rewrite Hh|done]. }
  set (j := (length (tails (free s)) - 1)%nat).
  assert (tails (free s) !! j = Some 1) as Hj by (by apply last_index).
  destruct IF as (hv & tv & IF). pose proof (i_tv _ _ _ _ _ _ IF) as Htv%lookup_lt_Some.
  assert (length (tails (free s)) = length tsF) as Hlen
    by (rewrite (i_tails _ _ _ _ _ _ IF); apply length_fmap).
  destruct (lookup_lt_is_Some_2 (ft_views (snd_ s)) j) as [v Hv].
  { rewrite (l_tlen _ _ _ _ _ (v_linkP _ _ _ _ _ _ _ _ _ _ I)), <- Hlen. lia. }
  pose (f2 := MkC (heads f1) (tails f1) (slots f1) (PWrite [b] (u64 PoolSize) 1 0) (consumer f1)
                j (c_seen f1) (wlog f1) (rlog f1) (sent f1) (recvd f1)).
  pose (s2 := MkSys (see_head v (ring s)) f2 (mem s) (snd_ s) c1 (payloads s)).
  assert (go (BPut (PLoad j)) s1 = Next s2) as H2.
  { unfold step, free_access. cbn [s1 prc cpt c1 free].
    rewrite (pload_at _ j f1 Burst [b] (u64 PoolSize) 1); [|done|done|cbn; lia].
    cbn [access]. unfold view_of. cbn [snd_ s1]. rewrite Hv.
    change (Z.of_nat (length [b])) with 1. by rewrite one_free. }
  exists s2. split; [eapply reach_step, H2; by eapply reach_step, H1|]. by repeat split.
Qed.

(** It stores the packet into the free list, and is about to publish that. *)
Lemma return_stored s2 b :
  blind s2 -> returning b s2 ->
  exists s', blind s' /\ same_snd s2 s' /\ (drop_slot PoolSize (u64 PoolSize), 1%nat) ∈ wlog (free s').
Proof.
  intros B [Hc2 Hp2]. pose proof (b_heads _ B) as Hh.
  destruct (blind_inv s2 B) as (hsR2 & tsR2 & hsF2 & tsF2 & freed2 & I2).
  destruct (pstore_at PoolSize (free s2) _ _ [b] (u64 PoolSize) 1 0 (v_free _ _ _ _ _ _ _ _ _ _ I2) Hp2)
    as (d & Hd); [lia|].
  assert (exists s3, go (BPut PStore) s2 = Next s3 /\ same_snd s2 s3 /\
            (drop_slot PoolSize (u64 PoolSize), 1%nat) ∈ wlog (free s3)) as (s3 & H3 & W3 & Hlog).
  { unfold step, free_access. rewrite Hc2, Hd. cbn [access].
    rewrite (no_conflict _ _ _ _ _ _ _ _ _ _ I2).
    eexists. split; [done|]. split; [by repeat split|]. cbn. rewrite Hh, Z.add_0_r, u64_u64. by left. }
  exists s3. split; [|done]. eapply blind_same; [done|done|]. eapply reach_step, H3. apply B.
Qed.

(** *** The race *)

Lemma start_blind mem0 s0 :
  Z.of_nat (length mem0) = PoolSize -> start RingSize PoolSize st0 mem0 = Some s0 ->
  blind s0 /\ ppt (snd_ s0) = PReady /\ held (snd_ s0) = [] /\ sent (ring s0) = [] /\
  recvd (ring s0) = [] /\ cpt (prc s0) = CReady /\ wlog (free s0) = [].
Proof.
  intros Hm H0. assert (reach s0) as R by (by exists mem0, s0).
  unfold start in H0. destruct (Pool.new_pool_owns PoolSize) as (pool & Hpool & [Hr _] & _).
  rewrite Hpool in H0. injection H0 as <-. split_and!; try done. split; try done.
  cbn. pose proof (vc_range (c := PoolSize)).
  rewrite (Ring.repr_head _ _ _ Hr), (Pool.new_pool_tail _ _ Hpool), Pool.length_blocks.
  by rewrite Z2Nat.id by lia.
Qed.

(** The first packet is on its way back while the sender looks elsewhere. *)
Lemma first_returning s :
  blind s -> held (snd_ s) = [] -> length (sent (ring s)) = 1%nat ->
  recvd (ring s) = [] -> cpt (prc s) = CReady ->
  exists s' b, blind s' /\ same_snd s s' /\ returning b s' /\ wlog (free s') = wlog (free s).
Proof.
  intros B Hh Hs Hr Hc. pose proof (blind_kept s B) as Hnb.
  destruct (blind_inv s B) as (? & ? & ? & ? & ? & I).
  assert (length (recvd (free s)) = 1%nat) as Hrf.
  { rewrite (Permutation_length (v_alloc _ _ _ _ _ _ _ _ _ _ I)), length_app, Hs, Hh. done. }
  destruct (take_one s (b_reach _ B) Hnb Hc Hs Hr) as (s1 & b & R1 & W1 & C1 & L1).
  rewrite <- (w_snd _ _ W1) in Hnb.
  destruct (handle_taken s1 b R1 Hnb C1) as (s2 & R2 & W2 & C2 & L2).
  rewrite <- (w_snd _ _ W2) in Hnb. pose proof (same_snd_trans _ _ _ W1 W2) as W.
  destruct (return_load s2 b R2 Hnb C2) as (s3 & R3 & W3 & C3 & L3);
    [rewrite (w_heads _ _ W); apply B|by rewrite (w_recvd _ _ W)|].
  pose proof (same_snd_trans _ _ _ W W3) as W'. exists s3, b.
  split; [by eapply blind_same|]. split; [done|]. split; [done|congruence].
Qed.

(** The sender drops a packet, and is about to store it into the slot of the
    returning one. *)
Lemma drop_room_blind s b :
  blind s -> ppt (snd_ s) = PDrop b ->
  exists s', blind s' /\ ppt (snd_ s') = PDropRoom b (u64 PoolSize) /\ same_proc s s'.
Proof.
  intros B Hp. destruct (blind_inv s B) as (hsR & tsR & hsF & tsF & freed & I).
  pose proof (v_p _ _ _ _ _ _ _ _ _ _ I) as Hctl. unfold p_control in Hctl. rewrite Hp in Hctl.
  destruct Hctl as (_ & _ & Hb).
  destruct (rinv_last _ _ _ _ (v_free _ _ _ _ _ _ _ _ _ _ I)) as [_ Ht].
  assert (heads (free s) !! 0%nat = Some (u64 PoolSize)) as H0 by (by rewrite (b_heads _ B)).
  pose proof (drop_room _ _ _ _ _ _ _ _ _ _ _ _ _ I Hb H0 ltac:(by rewrite (b_cseen _ B))) as Hroom.
  pose (s1 := MkSys (ring s) (free s) (mem s) (at_p (snd_ s) (PDropHead b (u64 PoolSize) 0)) (prc s) (payloads s)).
  assert (go (ADropHead 0) s = Next s1) as G1.
  { unfold step, drop_head. by rewrite Hp, H0, (b_cseen _ B), (b_drops _ B). }
  pose (s2 := MkSys (ring s) (free s) (mem s) (at_p (snd_ s) (PDropRoom b (u64 PoolSize))) (prc s) (payloads s)).
  assert (go ADropTail s1 = Next s2) as G2.
  { unfold step, drop_tail. cbn [s1 snd_ ppt at_p free]. rewrite Ht.
    by destruct (_ >=? _) eqn:E; [break_bool; lia|]. }
  assert (reach s2) as R2 by (eapply reach_step, G2; eapply reach_step, G1; apply B).
  exists s2. split; [|by repeat split]. destruct B. by split.
Qed.

(** When the returning packet is stored already, the sender's store races. *)
Lemma drop_store_races s b :
  blind s -> ppt (snd_ s) = PDropRoom b (u64 PoolSize) ->
  (drop_slot PoolSize (u64 PoolSize), 1%nat) ∈ wlog (free s) -> go ADropStore s = Undefined.
Proof.
  intros B Hp Hlog. unfold step, drop_store. rewrite Hp, (b_cseen _ B).
  destruct (array_set _ _ _); [|done]. destruct (ordered _ _ _) eqn:Ho; [|done].
  unfold ordered in Ho. rewrite forallb_forall in Ho. apply list_elem_of_In in Hlog.
  specialize (Ho _ Hlog). cbn [fst snd] in Ho. by rewrite Z.eqb_refl in Ho.
Qed.

(** When it is not, the sender stores its packet, [send] returns, and the store
    of the processing thread races. *)
Lemma later_store_races s b b' :
  blind s -> ppt (snd_ s) = PDropRoom b (u64 PoolSize) -> returning b' s -> wlog (free s) = [] ->
  exists s', reach s' /\ ppt (snd_ s') = PReady /\ go (BPut PStore) s' = Undefined.
Proof.
  intros B Hp [Hc Hw] Hlog. destruct (blind_inv s B) as (hsR & tsR & hsF & tsF & freed & I).
  destruct (rinv_facts _ _ _ _ (v_ring _ _ _ _ _ _ _ _ _ _ I)) as (_ & _ & HlR & _ & _ & _ & _ & hv & Hhv & _).
  apply lookup_lt_Some in Hhv. rewrite <- HlR in Hhv.
  destruct (v_free _ _ _ _ _ _ _ _ _ _ I) as (hv' & tv & IF).
  pose proof (i_tv _ _ _ _ _ _ IF) as Htv%lookup_lt_Some.
  assert (length tsF = length (tails (free s))) as HlF by (by rewrite (i_tails _ _ _ _ _ _ IF), length_fmap).
  assert (exists d, array_set (slots (free s)) (drop_slot PoolSize (u64 PoolSize)) b = Some d) as [d Hd].
  { unfold array_set, drop_slot. rewrite (Ring.slot_mod PoolSize).
    pose proof (vc_range (c := PoolSize)). pose proof (Z.mod_pos_bound PoolSize PoolSize ltac:(lia)).
    rewrite (i_len _ _ _ _ _ _ IF), (proj2 (Z.leb_le _ _)), (proj2 (Z.ltb_lt _ _)) by lia. by eexists. }
  assert (exists s1, go ADropStore s = Next s1 /\ ppt (snd_ s1) = PDropStored b (u64 PoolSize) /\
    ring s1 = ring s /\ prc s1 = prc s /\ producer (free s1) = producer (free s) /\
    p_seen (free s1) = p_seen (free s) /\ slots (free s1) = d /\
    dlog (drops (snd_ s1)) =
      [(drop_slot PoolSize (u64 PoolSize), length (heads (ring s)), length (tails (free s)))])
    as (s1 & G1 & E1 & E2 & E3 & E4 & E5 & E6 & E7).
  { unfold step, drop_store. rewrite Hp, Hd, Hlog. cbn [ordered forallb].
    eexists. split; [done|]. rewrite (b_drops _ B). by repeat split. }
  assert (exists s2, go ADropPublish s1 = Next s2 /\ ppt (snd_ s2) = PReady /\
    ring s2 = ring s1 /\ cpt (prc s2) = cpt (prc s1) /\ producer (free s2) = producer (free s1) /\
    p_seen (free s2) = p_seen (free s1) /\ dlog (drops (snd_ s2)) = dlog (drops (snd_ s1)))
    as (s2 & G2 & F1 & F2 & F3 & F4 & F5 & F6).
  { unfold step, drop_publish. rewrite E1. eexists. by repeat split. }
  exists s2. split; [eapply reach_step, G2; eapply reach_step, G1; apply B|]. split; [done|].
  unfold step, free_access. rewrite F3, E3, Hc. rewrite E4, Hw in F4.
  assert (drop_ordered PoolSize s2 = false) as Ho.
  { unfold drop_ordered. rewrite F4, F6, E7, F2, E2, F5, E5. cbn [forallb]. rewrite andb_true_r.
    rewrite Z.add_0_r, u64_u64, Z.eqb_refl. cbn [negb orb].
    apply orb_false_iff. split; apply Nat.leb_gt; lia. }
  cbn [Conc.step]. rewrite F4. cbn [Z.ltb Z.compare array_get Z.leb]. change ([b'] !! Z.to_nat 0) with (Some b'). cbn beta iota.
  destruct (array_set (slots (free s2)) _ _); [|done]. destruct (ordered _ _ _); [|done]. cbn [access]. by rewrite Ho.
Qed.

(** Up to the packet that is dropped: the first one was sent and is being
    returned, either before or after its store into the free list. *)
Lemma full_ring :
  RingSize < PoolSize -> exists s, blind s /\ ppt (snd_ s) = PReady /\ held (snd_ s) = [] /\
    length (sent (ring s)) = 1%nat /\ wlog (free s) = [] /\ exists b, returning b s.
Proof.
  intros Hlt. pose proof (vc_range (c := PoolSize)) as HPr. pose proof (vc_range (c := RingSize)) as HRr.
  destruct (Pool.new_pool_owns PoolSize) as (pool & Hpool & _).
  set (mem0 := replicate (Z.to_nat PoolSize) zero_packet).
  assert (exists s0, start RingSize PoolSize st0 mem0 = Some s0) as [s0 H0]
    by (unfold start; rewrite Hpool; by eexists).
  destruct (start_blind mem0 s0) as (B0 & Hp0 & Hh0 & Hs0 & Hr0 & Hc0 & Hw0);
    [unfold mem0; rewrite length_replicate; lia|done|].
  destruct (rounds_blind 1 s0 Hlt B0 Hp0 Hh0) as (s1 & B1 & Hp1 & Hh1 & Hs1 & Q1);
    [rewrite Hs0; cbn; lia|]. rewrite Hs0 in Hs1.
  destruct (first_returning s1) as (s2 & b & B2 & W2 & Hb & Hlog); try done;
    [by rewrite (q_recvd _ _ Q1)|by rewrite (q_prc _ _ Q1)|].
  exists s2. rewrite (w_snd _ _ W2), (w_sent _ _ W2), Hlog, (q_wlog _ _ Q1). split_and!; try done. by exists b.
Qed.

Lemma dropping_next s :
  RingSize < PoolSize -> blind s -> ppt (snd_ s) = PReady -> held (snd_ s) = [] ->
  length (sent (ring s)) = 1%nat ->
  exists s' b, blind s' /\ ppt (snd_ s') = PDropRoom b (u64 PoolSize) /\ same_proc s s'.
Proof.
  intros Hlt B2 Hp1 Hh1 Hs1. pose proof (vc_range (c := RingSize)) as HRr.
  destruct (rounds_blind (Z.to_nat RingSize - 1) s Hlt B2 Hp1 Hh1) as (s3 & B3 & Hp3 & Hh3 & Hs3 & Q3);
    [rewrite Hs1; cbn; lia|]. rewrite Hs1 in Hs3. cbn in Hs3.
  destruct (alloc_blind s3 B3 Hp3) as (s4 & b & B4 & Hp4 & Hh4 & Hs4 & Q4); [rewrite Hh3; cbn; lia|].
  destruct (send_load_blind s4 b B4 Hp4) as (s5 & B5 & _ & _ & Q5 & Hp5);
    [rewrite Hh4; by left|rewrite Hs4; lia|].
  rewrite Hs4, (proj2 (Z.ltb_ge _ _)) in Hp5 by lia.
  destruct (drop_room_blind s5 b B5 Hp5) as (s6 & B6 & Hp6 & Q6).
  exists s6, b. split; [done|]. split; [done|].
  eapply same_proc_trans, Q6. eapply same_proc_trans, Q5. by eapply same_proc_trans.
Qed.

(** Two threads, a ring with too few slots: the store of the drop path is
    undefined in one schedule, a store after [send] has returned in another. *)
Lemma race_reachable :
  RingSize < PoolSize ->
  (exists s, reach s /\ go ADropStore s = Undefined) /\
  (exists s, reach s /\ ppt (snd_ s) = PReady /\ go (BPut PStore) s = Undefined).
Proof.
  intros Hlt. destruct (full_ring Hlt) as (s & B & Hp & Hh & Hs & Hw & b & Hb). split.
  - destruct (return_stored s b B Hb) as (s1 & B1 & W1 & Hlog).
    destruct (dropping_next s1 Hlt B1) as (s2 & b2 & B2 & Hp2 & Q2);
      [by rewrite (w_snd _ _ W1)|by rewrite (w_snd _ _ W1)|by rewrite (w_sent _ _ W1)|].
    exists s2. split; [apply B2|]. apply (drop_store_races s2 b2 B2 Hp2). by rewrite (q_wlog _ _ Q2).
  - destruct (dropping_next s Hlt B Hp Hh Hs) as (s2 & b2 & B2 & Hp2 & Q2).
    apply (later_store_races s2 b2 b B2 Hp2); [|by rewrite (q_wlog _ _ Q2)].
    destruct Hb as [Hc Hpr]. split; [by rewrite (q_prc _ _ Q2)|by rewrite (q_producer _ _ Q2)].
Qed.

End Race.
End Race.

(** ** Properties *)

Section Properties.
Import Threads.
Context {S : Type} (RingSize PoolSize : Z) `{HR : !ValidCapacity RingSize, HP : !ValidCapacity PoolSize}.
Context (handle : S -> Packet -> S * Packet) (st0 : S).


End Properties.

(** ** Witness: a ring of one slot, a pool of two packets *)

Section Witnesses.
Import Threads ThreadsWitness.

#[local] Instance valid_one : ValidCapacity 1.
Proof. by split. Qed.


End Witnesses.
