(* ===== verification/Common.v ===== *)
(** * Common: the structures of include/common.h

    The records the BPF programs and the C++ monitor share, their memory
    layout (natural alignment, LP64, as both targets lay them out) and their
    byte representation: the ring buffers carry bytes, which the monitor's
    callbacks cast back ([static_cast<const tcp_event *>(data)]). *)

From S2P Require Import Prelude.

(** ** Little-endian words and byte arrays *)

Fixpoint le_bytes (n : nat) (z : Z) : list Z :=
  match n with
  | O => []
  | S n => z mod 256 :: le_bytes n (z / 256)
  end.

Fixpoint le_val (bs : list Z) : Z :=
  match bs with
  | [] => 0
  | b :: bs => b + 256 * le_val bs
  end.

(** ** The structures *)

Module TcpEvent.
Record tcp_event := Mk {
  timestamp_ns : Z;   (** uint64_t *)
  pid : Z;            (** uint32_t *)
  uid : Z;            (** uint32_t *)
  comm : list Z;      (** char[16] *)
  src_ip : Z;         (** uint32_t, network byte order *)
  dst_ip : Z;         (** uint32_t, network byte order *)
  src_port : Z;       (** uint16_t *)
  dst_port : Z;       (** uint16_t *)
  af : Z;             (** uint8_t *)
  action : Z;         (** uint8_t *)
  _pad : list Z;      (** uint8_t[2] *)
  bytes_tx : Z;       (** uint64_t *)
  bytes_rx : Z        (** uint64_t *)
}.
End TcpEvent.
Export TcpEvent (tcp_event).

Module SyscallEvent.
Record syscall_event := Mk {
  timestamp_ns : Z;   (** uint64_t *)
  pid : Z;            (** uint32_t *)
  uid : Z;            (** uint32_t *)
  comm : list Z;      (** char[16] *)
  syscall_nr : Z;     (** long *)
  args : list Z       (** uint64_t[3] *)
}.
End SyscallEvent.
Export SyscallEvent (syscall_event).

Module NetStats.
Record net_stats_key := MkKey {
  proto : Z;          (** uint8_t *)
  _pad : list Z       (** uint8_t[3] *)
}.
Record net_stats_val := MkVal {
  packets : Z;        (** uint64_t *)
  bytes : Z           (** uint64_t *)
}.
End NetStats.
Export NetStats (net_stats_key, net_stats_val).

#[export] Instance tcp_event_eq_dec : EqDecision tcp_event.
Proof. solve_decision. Defined.
#[export] Instance net_stats_key_eq_dec : EqDecision net_stats_key.
Proof. solve_decision. Defined.
#[export] Program Instance net_stats_key_countable : Countable net_stats_key :=
  inj_countable' (fun k => (NetStats.proto k, NetStats._pad k))
                 (fun p => NetStats.MkKey p.1 p.2) _.
Next Obligation. by intros []. Qed.

Definition TCP_ACTION_CONNECT : Z := 0.
Definition TCP_ACTION_CLOSE : Z := 1.

(** ** Layout *)

(** A member: its size and its alignment. *)
Definition member : Type := Z * Z.

Definition align_up (off a : Z) : Z := (off + a - 1) / a * a.

(** Offsets of the members from [off] on, and the end of the last one. *)
Fixpoint offsets (ms : list member) (off : Z) : list Z * Z :=
  match ms with
  | [] => ([], off)
  | (sz, al) :: ms =>
      let o := align_up off al in
      let '(os, e) := offsets ms (o + sz) in
      (o :: os, e)
  end.

Definition alignof (ms : list member) : Z := foldr (fun m a => Z.max m.2 a) 1 ms.

Definition offsetof (ms : list member) (i : nat) : option Z := (offsets ms 0).1 !! i.

Definition sizeof (ms : list member) : Z := align_up (offsets ms 0).2 (alignof ms).

Definition tcp_event_members : list member :=
  [(8, 8); (4, 4); (4, 4); (16, 1); (4, 4); (4, 4); (2, 2); (2, 2); (1, 1); (1, 1);
   (2, 1); (8, 8); (8, 8)].
Definition syscall_event_members : list member :=
  [(8, 8); (4, 4); (4, 4); (16, 1); (8, 8); (24, 8)].
Definition net_stats_key_members : list member := [(1, 1); (3, 1)].
Definition net_stats_val_members : list member := [(8, 8); (8, 8)].

(** ** Byte representation *)

(** [*rbev = ev] into ring-buffer memory: the members at their offsets. *)
Definition tcp_event_bytes (e : tcp_event) : list Z :=
  le_bytes 8 (TcpEvent.timestamp_ns e) ++ le_bytes 4 (TcpEvent.pid e) ++
  le_bytes 4 (TcpEvent.uid e) ++ TcpEvent.comm e ++
  le_bytes 4 (TcpEvent.src_ip e) ++ le_bytes 4 (TcpEvent.dst_ip e) ++
  le_bytes 2 (TcpEvent.src_port e) ++ le_bytes 2 (TcpEvent.dst_port e) ++
  le_bytes 1 (TcpEvent.af e) ++ le_bytes 1 (TcpEvent.action e) ++ TcpEvent._pad e ++
  le_bytes 8 (TcpEvent.bytes_tx e) ++ le_bytes 8 (TcpEvent.bytes_rx e).

(** Reading [n] bytes at an offset of the sample; past its end is [None]. *)
Definition read_bytes (off n : nat) (data : list Z) : option (list Z) :=
  if (off + n <=? length data)%nat then Some (take n (drop off data)) else None.

Definition read_le (off n : nat) (data : list Z) : option Z :=
  le_val <$> read_bytes off n data.

(** [static_cast<const tcp_event *>(data)] and reading every member through
    it, at the offsets of the layout. *)
Definition tcp_event_of_bytes (data : list Z) : option tcp_event :=
  timestamp_ns ← read_le 0 8 data;
  pid ← read_le 8 4 data;
  uid ← read_le 12 4 data;
  comm ← read_bytes 16 16 data;
  src_ip ← read_le 32 4 data;
  dst_ip ← read_le 36 4 data;
  src_port ← read_le 40 2 data;
  dst_port ← read_le 42 2 data;
  af ← read_le 44 1 data;
  action ← read_le 45 1 data;
  pad ← read_bytes 46 2 data;
  bytes_tx ← read_le 48 8 data;
  bytes_rx ← read_le 56 8 data;
  Some (TcpEvent.Mk timestamp_ns pid uid comm src_ip dst_ip src_port dst_port af action
                    pad bytes_tx bytes_rx).

(** Two's complement: the value of a signed 64-bit word. *)
Definition s64 (z : Z) : Z := if u64 z <? 2 ^ 63 then u64 z else u64 z - 2 ^ 64.

Definition syscall_event_bytes (e : syscall_event) : list Z :=
  le_bytes 8 (SyscallEvent.timestamp_ns e) ++ le_bytes 4 (SyscallEvent.pid e) ++
  le_bytes 4 (SyscallEvent.uid e) ++ SyscallEvent.comm e ++
  le_bytes 8 (u64 (SyscallEvent.syscall_nr e)) ++
  le_bytes 8 (nth 0 (SyscallEvent.args e) 0) ++ le_bytes 8 (nth 1 (SyscallEvent.args e) 0) ++
  le_bytes 8 (nth 2 (SyscallEvent.args e) 0).

Definition syscall_event_of_bytes (data : list Z) : option syscall_event :=
  timestamp_ns ← read_le 0 8 data;
  pid ← read_le 8 4 data;
  uid ← read_le 12 4 data;
  comm ← read_bytes 16 16 data;
  syscall_nr ← read_le 32 8 data;
  arg0 ← read_le 40 8 data;
  arg1 ← read_le 48 8 data;
  arg2 ← read_le 56 8 data;
  Some (SyscallEvent.Mk timestamp_ns pid uid comm (s64 syscall_nr) [arg0; arg1; arg2]).

(** Every member holds a value of its C type. *)
Record wf_tcp_event (e : tcp_event) : Prop := {
  wf_timestamp : in_width 64 (TcpEvent.timestamp_ns e);
  wf_pid : in_width 32 (TcpEvent.pid e);
  wf_uid : in_width 32 (TcpEvent.uid e);
  wf_comm : length (TcpEvent.comm e) = 16%nat;
  wf_src_ip : in_width 32 (TcpEvent.src_ip e);
  wf_dst_ip : in_width 32 (TcpEvent.dst_ip e);
  wf_src_port : in_width 16 (TcpEvent.src_port e);
  wf_dst_port : in_width 16 (TcpEvent.dst_port e);
  wf_af : in_width 8 (TcpEvent.af e);
  wf_action : in_width 8 (TcpEvent.action e);
  wf_pad : length (TcpEvent._pad e) = 2%nat;
  wf_bytes_tx : in_width 64 (TcpEvent.bytes_tx e);
  wf_bytes_rx : in_width 64 (TcpEvent.bytes_rx e)
}.

Record wf_syscall_event (e : syscall_event) : Prop := {
  wfs_timestamp : in_width 64 (SyscallEvent.timestamp_ns e);
  wfs_pid : in_width 32 (SyscallEvent.pid e);
  wfs_uid : in_width 32 (SyscallEvent.uid e);
  wfs_comm : length (SyscallEvent.comm e) = 16%nat;
  wfs_nr : - 2 ^ 63 <= SyscallEvent.syscall_nr e < 2 ^ 63;
  wfs_args : length (SyscallEvent.args e) = 3%nat;
  wfs_arg0 : in_width 64 (nth 0 (SyscallEvent.args e) 0);
  wfs_arg1 : in_width 64 (nth 1 (SyscallEvent.args e) 0);
  wfs_arg2 : in_width 64 (nth 2 (SyscallEvent.args e) 0)
}.

(** ** Lemmas *)

Lemma s64_u64 z : - 2 ^ 63 <= z < 2 ^ 63 -> s64 (u64 z) = z.
Proof.
  intros Hz. unfold s64. rewrite u64_u64.
  destruct (decide (0 <= z)).
  - rewrite u64_small by lia. split_cond; lia.
  - replace (u64 z) with (z + 2 ^ 64); [split_cond; lia|].
    unfold u64, wrap. rewrite <- (Z_mod_plus_full z 1). symmetry. apply Z.mod_small. lia.
Qed.


Lemma length_le_bytes n z : length (le_bytes n z) = n.
Proof. revert z. induction n as [|n IH]; intros z; simpl; [done|]. by rewrite IH. Qed.

Lemma le_val_bytes n z : in_width (8 * Z.of_nat n) z -> le_val (le_bytes n z) = z.
Proof.
  unfold in_width. revert z. induction n as [|n IH]; intros z Hz; simpl.
  { simpl in Hz. lia. }
  rewrite IH.
  - pose proof (Z.div_mod z 256). lia.
  - replace (8 * Z.of_nat (S n)) with (8 + 8 * Z.of_nat n) in Hz by lia.
    rewrite Z.pow_add_r in Hz by lia. change (2 ^ 8) with 256 in Hz.
    split; [apply Z.div_pos; lia|]. apply Z.div_lt_upper_bound; lia.
Qed.

(** Reading past a member already known, and reading the next one. *)
Lemma read_bytes_skip off n k (pre rest : list Z) :
  length pre = k -> (k <= off)%nat ->
  read_bytes off n (pre ++ rest) = read_bytes (off - k) n rest.
Proof.
  intros <- Hk. unfold read_bytes. rewrite length_app, drop_app_ge by done.
  destruct (Nat.leb_spec (off - length pre + n) (length rest));
    [rewrite (proj2 (Nat.leb_le _ _)) by lia|rewrite (proj2 (Nat.leb_gt _ _)) by lia]; done.
Qed.

Lemma read_bytes_here n (mid rest : list Z) :
  length mid = n -> read_bytes 0 n (mid ++ rest) = Some mid.
Proof.
  intros <-. unfold read_bytes. rewrite length_app.
  rewrite (proj2 (Nat.leb_le _ _)) by lia. by rewrite drop_0, take_app_length.
Qed.

Lemma read_bytes_end n (mid : list Z) : length mid = n -> read_bytes 0 n mid = Some mid.
Proof. intros Hn. rewrite <- (app_nil_r mid) at 1. by apply read_bytes_here. Qed.

Lemma read_le_spec off n z data :
  read_bytes off n data = Some (le_bytes n z) -> in_width (8 * Z.of_nat n) z ->
  read_le off n data = Some z.
Proof. intros Hr Hz. unfold read_le. rewrite Hr. simpl. by rewrite le_val_bytes. Qed.

(** Walks over the members in front of the one at the offset. *)
Ltac read_member :=
  repeat (erewrite read_bytes_skip by first [apply length_le_bytes | eassumption | lia];
          cbn [Nat.sub]);
  first [apply read_bytes_here | apply read_bytes_end];
  first [apply length_le_bytes | assumption].

Ltac read_word off n z :=
  rewrite (read_le_spec off n z) by first [assumption | read_member]; cbn [mbind option_bind].

Ltac read_array off n bs :=
  match goal with
  | |- context [read_bytes off n ?data] =>
      replace (read_bytes off n data) with (Some bs) by (symmetry; read_member)
  end; cbn [mbind option_bind].

(** The representations fill their structures: no padding is left over, at
    the offsets the readers use. *)
Lemma tcp_event_layout e :
  wf_tcp_event e ->
  sizeof tcp_event_members = Z.of_nat (length (tcp_event_bytes e)) /\
  offsets tcp_event_members 0 =
    ([0; 8; 12; 16; 32; 36; 40; 42; 44; 45; 46; 48; 56], sizeof tcp_event_members).
Proof.
  intros []. unfold tcp_event_bytes. rewrite !length_app, !length_le_bytes.
  rewrite wf_comm0, wf_pad0. by vm_compute.
Qed.

Lemma syscall_event_layout e :
  wf_syscall_event e ->
  sizeof syscall_event_members = Z.of_nat (length (syscall_event_bytes e)) /\
  offsets syscall_event_members 0 = ([0; 8; 12; 16; 32; 40], sizeof syscall_event_members).
Proof.
  intros []. unfold syscall_event_bytes. rewrite !length_app, !length_le_bytes.
  rewrite wfs_comm0. by vm_compute.
Qed.

(** Reading every member back at its offset. *)
Lemma read_tcp_event e :
  wf_tcp_event e -> tcp_event_of_bytes (tcp_event_bytes e) = Some e.
Proof.
  intros []. unfold tcp_event_of_bytes, tcp_event_bytes.
  read_word 0%nat 8%nat (TcpEvent.timestamp_ns e). read_word 8%nat 4%nat (TcpEvent.pid e).
  read_word 12%nat 4%nat (TcpEvent.uid e). read_array 16%nat 16%nat (TcpEvent.comm e).
  read_word 32%nat 4%nat (TcpEvent.src_ip e). read_word 36%nat 4%nat (TcpEvent.dst_ip e).
  read_word 40%nat 2%nat (TcpEvent.src_port e). read_word 42%nat 2%nat (TcpEvent.dst_port e).
  read_word 44%nat 1%nat (TcpEvent.af e). read_word 45%nat 1%nat (TcpEvent.action e).
  read_array 46%nat 2%nat (TcpEvent._pad e). read_word 48%nat 8%nat (TcpEvent.bytes_tx e).
  read_word 56%nat 8%nat (TcpEvent.bytes_rx e). by destruct e.
Qed.

(** ** Properties *)



(** The same for an audit event, whose system call number is signed. *)
Theorem syscall_event_roundtrip e :
  wf_syscall_event e -> syscall_event_of_bytes (syscall_event_bytes e) = Some e.
Proof.
  intros []. assert (in_width 64 (u64 (SyscallEvent.syscall_nr e))) by apply u64_bound.
  unfold syscall_event_of_bytes, syscall_event_bytes.
  read_word 0%nat 8%nat (SyscallEvent.timestamp_ns e). read_word 8%nat 4%nat (SyscallEvent.pid e).
  read_word 12%nat 4%nat (SyscallEvent.uid e). read_array 16%nat 16%nat (SyscallEvent.comm e).
  read_word 32%nat 8%nat (u64 (SyscallEvent.syscall_nr e)).
  read_word 40%nat 8%nat (nth 0 (SyscallEvent.args e) 0).
  read_word 48%nat 8%nat (nth 1 (SyscallEvent.args e) 0).
  read_word 56%nat 8%nat (nth 2 (SyscallEvent.args e) 0).
  rewrite s64_u64 by done. destruct e as [????? args]; cbn in *.
  by destruct args as [|? [|? [|? [|]]]].
Qed.

Lemma syscall_event_roundtrip_witness :
  let e := SyscallEvent.Mk 7 42 0 (replicate 16 65) (-1) [2 ^ 64 - 1; 0; 9] in
  syscall_event_of_bytes (syscall_event_bytes e) = Some e.
Proof. apply syscall_event_roundtrip. split; vm_compute; intuition congruence. Defined.
