(* ===== verification/BpfMaps.v ===== *)
(** * BpfMaps: what the BPF programs rely on of the kernel

    The map helpers ([bpf_map_lookup_elem], [bpf_map_update_elem] with
    [BPF_ANY], [bpf_map_delete_elem]) are kernel code: each kind of map the
    programs declare is a class of operations on an abstract state, with a
    second class for the documented laws.  [bpf_map_lookup_elem] returns a
    pointer into the map; the programs only load or store through it, so the
    pointer is the pair of the key and the right to use the [*_modify]
    operation, which stores through it.

    A per-CPU map holds one value per CPU behind each key; the helpers called
    from a program see the slot of the CPU that runs it.

    The finite-map instances at the end satisfy the laws. *)

From S2P Require Import Prelude Common.

(** ** Hash maps: [BPF_MAP_TYPE_HASH] *)

Class HashMapOps (K V M : Type) := {
  hm_lookup : M -> K -> option V;          (** bpf_map_lookup_elem *)
  hm_update : M -> K -> V -> Z * M;        (** bpf_map_update_elem, BPF_ANY: 0 or -errno *)
  hm_delete : M -> K -> Z * M;             (** bpf_map_delete_elem: 0 or -errno *)
  hm_keys : M -> list K                    (** the keys present *)
}.

Class HashMap (K V M : Type) `{HashMapOps K V M} (max_entries : Z) : Prop := {
  hm_keys_lookup m k : k ∈ hm_keys m <-> is_Some (hm_lookup m k);
  hm_keys_nodup m : NoDup (hm_keys m);
  (** A key that is present is replaced; a new one enters while there is room. *)
  hm_update_succeeds m k v :
    (hm_update m k v).1 = 0 <-> k ∈ hm_keys m \/ Z.of_nat (length (hm_keys m)) < max_entries;
  hm_lookup_update_eq m k v :
    (hm_update m k v).1 = 0 -> hm_lookup (hm_update m k v).2 k = Some v;
  hm_lookup_update_ne m k v k' :
    k <> k' -> hm_lookup (hm_update m k v).2 k' = hm_lookup m k';
  hm_update_fails m k v : (hm_update m k v).1 <> 0 -> (hm_update m k v).2 = m;
  hm_lookup_delete_eq m k : hm_lookup (hm_delete m k).2 k = None;
  hm_lookup_delete_ne m k k' :
    k <> k' -> hm_lookup (hm_delete m k).2 k' = hm_lookup m k'
}.

(** There is room for a value of the key. *)
Definition hm_room {K V M} `{HashMapOps K V M} (max_entries : Z) (m : M) (k : K) : Prop :=
  k ∈ hm_keys m \/ Z.of_nat (length (hm_keys m)) < max_entries.

#[export] Instance hm_room_dec {K V M} `{EqDecision K} `{HashMapOps K V M} (max : Z) (m : M) (k : K) :
  Decision (hm_room max m k).
Proof. unfold hm_room. apply _. Defined.

(** An update, seen from any key, its failure included. *)
Lemma hm_lookup_update {K V M} `{EqDecision K} {max : Z} `{HM : HashMap K V M max} (m : M) k v k' :
  hm_lookup (hm_update m k v).2 k' =
  if decide (k' = k /\ hm_room max m k) then Some v else hm_lookup m k'.
Proof.
  case_decide as Hk.
  - destruct Hk as [-> Hroom]. by apply hm_lookup_update_eq, hm_update_succeeds.
  - destruct (decide (k' = k)) as [->|Hne].
    + rewrite hm_update_fails; [done|]. intros Hrc%hm_update_succeeds. by apply Hk.
    + by apply hm_lookup_update_ne.
Qed.

(** ** Arrays: [BPF_MAP_TYPE_ARRAY] with [u32] keys *)

Class ArrayMapOps (V M : Type) := {
  am_lookup : M -> Z -> option V;
  am_update : M -> Z -> V -> Z * M
}.

Class ArrayMap (V M : Type) `{ArrayMapOps V M} (max_entries : Z) : Prop := {
  (** Every index below [max_entries] exists from the start, no other does. *)
  am_lookup_in m i : is_Some (am_lookup m i) <-> 0 <= i < max_entries;
  am_update_succeeds m i v : (am_update m i v).1 = 0 <-> 0 <= i < max_entries;
  am_lookup_update m i v j :
    0 <= i < max_entries ->
    am_lookup (am_update m i v).2 j = if i =? j then Some v else am_lookup m j;
  am_update_fails m i v : (am_update m i v).1 <> 0 -> (am_update m i v).2 = m
}.

(** ** Per-CPU arrays: [BPF_MAP_TYPE_PERCPU_ARRAY] *)

Class PerCpuArrayOps (V M : Type) := {
  pa_lookup : M -> Z -> Z -> option V;              (** map, CPU, index *)
  pa_modify : M -> Z -> Z -> (V -> V) -> M
}.

Class PerCpuArray (V M : Type) `{PerCpuArrayOps V M} (max_entries : Z) : Prop := {
  pa_lookup_in m cpu i : is_Some (pa_lookup m cpu i) <-> 0 <= i < max_entries;
  pa_lookup_modify m cpu i f cpu' j :
    pa_lookup (pa_modify m cpu i f) cpu' j =
    if (cpu =? cpu') && (i =? j) then f <$> pa_lookup m cpu' j else pa_lookup m cpu' j
}.

(** ** Per-CPU hash maps: [BPF_MAP_TYPE_PERCPU_HASH] *)

Class PerCpuHashOps (K V M : Type) := {
  pc_lookup : M -> Z -> K -> option V;              (** map, CPU, key *)
  pc_modify : M -> Z -> K -> (V -> V) -> M;
  pc_update : M -> Z -> K -> V -> Z * M;
  pc_keys : M -> list K
}.

Class PerCpuHash (K V M : Type) `{PerCpuHashOps K V M} (zero : V) (max_entries : nat) : Prop := {
  (** A key has a slot on every CPU or on none. *)
  pc_keys_lookup m cpu k : k ∈ pc_keys m <-> is_Some (pc_lookup m cpu k);
  pc_keys_nodup m : NoDup (pc_keys m);
  (** A store reaches the slot of the CPU at hand and no other. *)
  pc_lookup_modify_eq m cpu k f :
    pc_lookup (pc_modify m cpu k f) cpu k = f <$> pc_lookup m cpu k;
  pc_lookup_modify_ne m cpu k f cpu' k' :
    (cpu, k) <> (cpu', k') ->
    pc_lookup (pc_modify m cpu k f) cpu' k' = pc_lookup m cpu' k';
  pc_update_succeeds m cpu k v :
    (pc_update m cpu k v).1 = 0 <-> k ∈ pc_keys m \/ (length (pc_keys m) < max_entries)%nat;
  pc_update_fails m cpu k v :
    (pc_update m cpu k v).1 <> 0 -> (pc_update m cpu k v).2 = m;
  pc_lookup_update_eq m cpu k v :
    (pc_update m cpu k v).1 = 0 -> pc_lookup (pc_update m cpu k v).2 cpu k = Some v;
  (** The other CPUs keep their value of an old key and get zeroes for a new
      one. *)
  pc_lookup_update_cpu m cpu k v cpu' :
    (pc_update m cpu k v).1 = 0 -> cpu <> cpu' ->
    pc_lookup (pc_update m cpu k v).2 cpu' k = Some (default zero (pc_lookup m cpu' k));
  pc_lookup_update_ne m cpu k v cpu' k' :
    k <> k' -> pc_lookup (pc_update m cpu k v).2 cpu' k' = pc_lookup m cpu' k'
}.

(** ** Ring buffers: [BPF_MAP_TYPE_RINGBUF]

    [bpf_ringbuf_reserve] returns memory for one record or NULL; the record
    reaches the consumer, in the order of the reservations, once
    [bpf_ringbuf_submit] is called.  The memory handed out is not cleared. *)
Class RingBufOps (E RB : Type) := {
  rb_reserve : RB -> option (E * RB);   (** bpf_ringbuf_reserve: the bytes found there *)
  rb_submit : RB -> E -> RB;            (** bpf_ringbuf_submit of the reservation *)
  rb_records : RB -> list E             (** the submitted records, oldest first *)
}.

Class RingBuf (E RB : Type) `{RingBufOps E RB} : Prop := {
  rb_records_reserve b g b' : rb_reserve b = Some (g, b') -> rb_records b' = rb_records b;
  rb_records_submit b g b' e :
    rb_reserve b = Some (g, b') -> rb_records (rb_submit b' e) = rb_records b ++ [e]
}.

(** ** The current task and the clock *)

(** What the helpers return during one run of a program. *)
Record Task := MkTask {
  pid_tgid : Z;          (** bpf_get_current_pid_tgid(), u64 *)
  uid_gid : Z;           (** bpf_get_current_uid_gid(), u64 *)
  ktime_ns : Z;          (** bpf_ktime_get_ns(), u64 *)
  current_comm : list Z  (** bpf_get_current_comm(), 16 bytes *)
}.

(** The process id and the user id the programs extract. *)
Definition pid_of (t : Task) : Z := u32 (Z.shiftr (pid_tgid t) 32).
Definition uid_of (t : Task) : Z := u32 (uid_gid t).

(** [bpf_get_current_comm] fills the array and terminates the name. *)
Record wf_task (t : Task) : Prop := {
  wft_time : in_width 64 (ktime_ns t);
  wft_comm : length (current_comm t) = 16%nat;
  wft_terminated : 0 ∈ current_comm t
}.

Lemma land_u32 z : Z.land z 0xFFFFFFFF = u32 z.
Proof. change 0xFFFFFFFF with (Z.ones 32). by apply Z.land_ones. Qed.

(** ** Finite-map instances *)

Definition in_range (max i : Z) : bool := (0 <=? i) && (i <? max).

Lemma in_range_spec max i : reflect (0 <= i < max) (in_range max i).
Proof. apply iff_reflect. unfold in_range. rewrite andb_true_iff. lia. Qed.

Module GmapHash.
Section instances.
Context {K V : Type} `{Countable K} (max : Z).

(** The limit is part of the type, as it is part of the map's definition. *)
#[local] Abbreviation t := (gmap K V).

#[export] Instance ops : HashMapOps K V t := {|
  hm_lookup m k := m !! k;
  hm_update m k v :=
    if decide (is_Some (m !! k) \/ Z.of_nat (size m) < max) then (0, <[k := v]> m) else (-7, m);
  hm_delete m k := (match m !! k with Some _ => 0 | None => -2 end, delete k m);
  hm_keys m := (map_to_list m).*1
|}.

Lemma keys_spec (m : gmap K V) k : k ∈ (map_to_list m).*1 <-> is_Some (m !! k).
Proof.
  rewrite list_elem_of_fmap. split.
  - intros ([k' v] & -> & Hin%elem_of_map_to_list). by exists v.
  - intros [v Hv]. exists (k, v). by rewrite elem_of_map_to_list.
Qed.

Lemma length_keys (m : gmap K V) : length (map_to_list m).*1 = size m.
Proof. by rewrite length_fmap, length_map_to_list. Qed.

#[export] Instance laws : HashMap K V t max.
Proof.
  split; cbn; intros.
  - apply keys_spec.
  - apply NoDup_fst_map_to_list.
  - rewrite keys_spec, length_keys. by case_decide.
  - case_decide; [|done]. simpl. apply lookup_insert_eq.
  - case_decide; [|done]. simpl. by rewrite lookup_insert_ne.
  - by case_decide.
  - apply lookup_delete_eq.
  - by apply lookup_delete_ne.
Qed.
End instances.
End GmapHash.

Module ListArray.
Section instances.
Context {V : Type} (zero : V) (max : Z).

(** Total functions on the indices, cut off at [max]. *)
#[local] Abbreviation t := (gmap Z V).

#[export] Instance array_ops : ArrayMapOps V t := {|
  am_lookup m i := if in_range max i then Some (default zero (m !! i)) else None;
  am_update m i v := if in_range max i then (0, <[i := v]> m) else (-7, m)
|}.

#[export] Instance array_laws : ArrayMap V t max.
Proof.
  split; cbn; intros.
  - destruct (in_range_spec max i); split; try done; by intros [].
  - destruct (in_range_spec max i); split; done.
  - destruct (in_range_spec max i); [|done]. simpl.
    destruct (Z.eqb_spec i j) as [->|]; [|by rewrite lookup_insert_ne].
    rewrite lookup_insert_eq. by destruct (in_range_spec max j).
  - by destruct (in_range max i).
Qed.
End instances.
End ListArray.

Module GmapPerCpuArray.
Section instances.
Context {V : Type} (zero : V) (max : Z).

#[local] Abbreviation t := (gmap (Z * Z) V).

#[export] Instance pcarray_ops : PerCpuArrayOps V t := {|
  pa_lookup m cpu i :=
    if in_range max i then Some (default zero (m !! (cpu, i))) else None;
  pa_modify m cpu i f := <[(cpu, i) := f (default zero (m !! (cpu, i)))]> m
|}.

#[export] Instance pcarray_laws : PerCpuArray V t max.
Proof.
  split; cbn; intros.
  - destruct (in_range_spec max i); split; try done; by intros [].
  - destruct (in_range max j); [|by destruct (_ && _)].
    destruct (Z.eqb_spec cpu cpu') as [->|], (Z.eqb_spec i j) as [->|]; simpl;
      rewrite ?lookup_insert_eq, ?lookup_insert_ne by congruence; done.
Qed.
End instances.
End GmapPerCpuArray.

Module GmapPerCpuHash.
Section instances.
Context {K V : Type} `{Countable K} (zero : V) (max : nat).

(** Each key has the values of the CPUs that stored one; the others read
    [zero]. *)
#[local] Abbreviation t := (gmap K (gmap Z V)).

#[export] Instance pchash_ops : PerCpuHashOps K V t := {|
  pc_lookup m cpu k := (fun s : gmap Z V => default zero (s !! cpu)) <$> m !! k;
  pc_modify m cpu k f :=
    match m !! k with
    | Some s => <[k := <[cpu := f (default zero (s !! cpu))]> s]> m
    | None => m
    end;
  pc_update m cpu k v :=
    if decide (is_Some (m !! k) \/ (size m < max)%nat)
    then (0, <[k := <[cpu := v]> (default ∅ (m !! k))]> m) else (-7, m);
  pc_keys m := (map_to_list m).*1
|}.

#[export] Instance pchash_laws : PerCpuHash K V t zero max.
Proof.
  split; cbn; intros.
  - rewrite (GmapHash.keys_spec m), fmap_is_Some. done.
  - apply NoDup_fst_map_to_list.
  - destruct (m !! k) as [s|] eqn:E; [|by rewrite E].
    by rewrite lookup_insert_eq; simpl; rewrite lookup_insert_eq.
  - destruct (m !! k) as [s|] eqn:E; [|done].
    destruct (decide (k = k')) as [->|]; [|by rewrite lookup_insert_ne].
    rewrite lookup_insert_eq, E. simpl. by rewrite lookup_insert_ne by congruence.
  - rewrite (GmapHash.keys_spec m), (GmapHash.length_keys m). by case_decide.
  - by case_decide.
  - case_decide; [|done]. simpl. rewrite lookup_insert_eq. simpl.
    by rewrite lookup_insert_eq.
  - case_decide; [|done]. simpl. rewrite lookup_insert_eq. simpl.
    rewrite lookup_insert_ne by done. by destruct (m !! k).
  - case_decide; [|done]. simpl. by rewrite lookup_insert_ne.
Qed.
End instances.
End GmapPerCpuHash.

(** A buffer that has room for [max] records and hands out the bytes [junk]. *)
Module ListRing.
Section instances.
Context {E : Type} (junk : E) (max : nat).

#[local] Abbreviation t := (list E).

#[export] Instance ring_ops : RingBufOps E t := {|
  rb_reserve b := if (length b <? max)%nat then Some (junk, b) else None;
  rb_submit b e := b ++ [e];
  rb_records b := b
|}.

#[export] Instance ring_laws : RingBuf E t.
Proof. split; cbn; intros; case_match; by simplify_eq. Qed.
End instances.
End ListRing.

(** A buffer whose consumer always keeps up. *)
Module UnboundedRing.
Section instances.
Context {E : Type} (junk : E).

#[export] Instance unbounded_ops : RingBufOps E (list E) := {|
  rb_reserve b := Some (junk, b);
  rb_submit b e := b ++ [e];
  rb_records b := b
|}.

#[export] Instance unbounded_laws : RingBuf E (list E).
Proof. split; cbn; intros; by simplify_eq. Qed.
End instances.
End UnboundedRing.
