(* ===== verification/XdpNetStats.v ===== *)
(** * XdpNetStats: bpf/net_stats.bpf.c

    The XDP program that counts packets and bytes per IP protocol in a
    per-CPU hash map and all packets in a per-CPU array.  A packet is the list
    of its bytes; pointers into it are offsets from [ctx->data].

    [Xdp] translates the program.  [XdpRun] runs it on several CPUs at once:
    the handlers interleave between the lookup that finds no entry and the
    update that inserts one, which is where two CPUs can meet on one key (the
    other stores go to the CPU's own slot). *)

From S2P Require Import Prelude Common BpfMaps.

(** ** Headers and constants of vmlinux.h, bpf_endian.h *)

Class XdpEnv := {
  ethhdr_size : Z;        (** sizeof(struct ethhdr) *)
  ethhdr_h_proto : Z;     (** offsetof(struct ethhdr, h_proto), __be16 *)
  iphdr_size : Z;
  iphdr_protocol : Z;     (** __u8 *)
  ipv6hdr_size : Z;
  ipv6hdr_nexthdr : Z;    (** __u8 *)
  bpf_ntohs : Z -> Z;
  XDP_PASS : Z
}.

(** The wire formats of Ethernet, IPv4 and IPv6, and network byte order. *)
Class XdpEnvLaws (E : XdpEnv) : Prop := {
  ethhdr_layout : ethhdr_size = 14 /\ ethhdr_h_proto = 12;
  iphdr_layout : iphdr_size = 20 /\ iphdr_protocol = 9;
  ipv6hdr_layout : ipv6hdr_size = 40 /\ ipv6hdr_nexthdr = 6;
  bpf_ntohs_spec hi lo : in_width 8 hi -> in_width 8 lo -> bpf_ntohs (hi + 256 * lo) = 256 * hi + lo
}.

Module Xdp.

Definition ETH_P_IP : Z := 0x0800.
Definition ETH_P_IPV6 : Z := 0x86DD.
Definition max_entries : nat := 16.

Section Program.
Context `{XdpEnv}.
Context {PM TM : Type}
  `{!PerCpuHashOps net_stats_key net_stats_val PM} `{!PerCpuArrayOps Z TM}.

Record State := MkState { proto_stats : PM; total_packets : TM }.

(** [struct net_stats_key key = { .proto = proto }]: the rest is zero. *)
Definition stats_key (proto : Z) : net_stats_key := NetStats.MkKey proto [0; 0; 0].

(** The two stores through the pointer [val]. *)
Definition count_hit (cpu : Z) (key : net_stats_key) (pkt_len : Z) (m : PM) : PM :=
  let m := pc_modify m cpu key (fun val =>
             NetStats.MkVal (NetStats.packets val +₆₄ 1) (NetStats.bytes val)) in
  pc_modify m cpu key (fun val =>
    NetStats.MkVal (NetStats.packets val) (NetStats.bytes val +₆₄ pkt_len)).

(** The insertion; its return value is ignored by the program. *)
Definition count_miss (cpu : Z) (key : net_stats_key) (pkt_len : Z) (m : PM) : Z * PM :=
  pc_update m cpu key (NetStats.MkVal 1 pkt_len).

Definition count_packet (cpu proto pkt_len : Z) (m : PM) : PM :=
  let key := stats_key proto in
  match pc_lookup m cpu key with
  | Some _ => count_hit cpu key pkt_len m
  | None => (count_miss cpu key pkt_len m).2
  end.

Definition count_total (cpu : Z) (m : TM) : TM :=
  match pa_lookup m cpu 0 with
  | Some _ => pa_modify m cpu 0 (fun total => total +₆₄ 1)
  | None => m
  end.

(** Loads from the packet; [None] is a load outside [data, data_end). *)
Definition load8 (pkt : list Z) (p : Z) : option Z := array_get pkt p.
Definition load16 (pkt : list Z) (p : Z) : option Z :=
  b0 ← array_get pkt p; b1 ← array_get pkt (p + 1); Some (b0 + 256 * b1).

Definition xdp_net_stats (cpu : Z) (pkt : list Z) (s : State) : option (Z * State) :=
  let data := 0 in
  let data_end := Z.of_nat (length pkt) in
  let s := MkState (proto_stats s) (count_total cpu (total_packets s)) in
  let eth := data in
  if eth + ethhdr_size >? data_end then Some (XDP_PASS, s) else
  h_proto ← load16 pkt (eth + ethhdr_h_proto);
  let eth_type := bpf_ntohs h_proto in
  let pkt_len := u32 (data_end - data) in
  if eth_type =? ETH_P_IP then
    let ip := eth + ethhdr_size in
    if ip + iphdr_size >? data_end then Some (XDP_PASS, s) else
    protocol ← load8 pkt (ip + iphdr_protocol);
    Some (XDP_PASS,
          MkState (count_packet cpu protocol pkt_len (proto_stats s)) (total_packets s))
  else if eth_type =? ETH_P_IPV6 then
    let ip6 := eth + ethhdr_size in
    if ip6 + ipv6hdr_size >? data_end then Some (XDP_PASS, s) else
    nexthdr ← load8 pkt (ip6 + ipv6hdr_nexthdr);
    Some (XDP_PASS,
          MkState (count_packet cpu nexthdr pkt_len (proto_stats s)) (total_packets s))
  else Some (XDP_PASS, s).

End Program.
Arguments State : clear implicits.

(** *** Reference: the protocol of a packet, by the wire formats *)

Definition l3_proto (pkt : list Z) : option Z :=
  match drop 12 pkt with
  | hi :: lo :: l3 =>
      if decide (hi = 8 /\ lo = 0) then
        if decide (20 <= length l3)%nat then l3 !! 9%nat else None
      else if decide (hi = 134 /\ lo = 221) then
        if decide (40 <= length l3)%nat then l3 !! 6%nat else None
      else None
  | _ => None
  end.

Definition pkt_len (pkt : list Z) : Z := u32 (Z.of_nat (length pkt)).

(** *** The program against the reference *)

Section Spec.
Context `{EL : XdpEnvLaws}.
Context {PM TM : Type}
  `{!PerCpuHashOps net_stats_key net_stats_val PM} `{!PerCpuArrayOps Z TM}.

Lemma array_get_app_r {A} (l k : list A) i :
  Z.of_nat (length l) <= i -> array_get (l ++ k) i = array_get k (i - Z.of_nat (length l)).
Proof.
  intros Hi. unfold array_get. rewrite !(proj2 (Z.leb_le 0 _)) by lia.
  rewrite lookup_app_r by lia. f_equal. lia.
Qed.

(** A packet with a whole Ethernet header, taken apart. *)
Lemma split_eth (pkt : list Z) :
  (14 <= length pkt)%nat ->
  exists macs hi lo l3, pkt = macs ++ hi :: lo :: l3 /\ length macs = 12%nat.
Proof.
  intros Hl. exists (take 12 pkt).
  assert (length (drop 12 pkt) = length pkt - 12)%nat as Hd by apply length_drop.
  destruct (drop 12 pkt) as [|hi [|lo l3]] eqn:Hdrop; simpl in Hd; try lia.
  exists hi, lo, l3. rewrite <- Hdrop, take_drop. split; [done|]. rewrite length_take. lia.
Qed.

Lemma l3_proto_short pkt : (length pkt < 14)%nat -> l3_proto pkt = None.
Proof.
  intros Hl. unfold l3_proto.
  assert (length (drop 12 pkt) = length pkt - 12)%nat as Hd by apply length_drop.
  destruct (drop 12 pkt) as [|hi [|lo l3]]; simpl in Hd; done || lia.
Qed.

Lemma eth_type_eqb hi lo t :
  in_width 8 hi -> in_width 8 lo -> in_width 16 t ->
  (bpf_ntohs (hi + 256 * lo) =? t) = bool_decide (hi = t / 256 /\ lo = t mod 256).
Proof.
  unfold in_width. intros Hhi Hlo Ht. rewrite bpf_ntohs_spec by done.
  assert (256 * hi + lo = t <-> hi = t / 256 /\ lo = t mod 256) as Hiff
    by (Z.to_euclidean_division_equations; lia).
  destruct (Z.eqb_spec (256 * hi + lo) t); symmetry;
    [apply bool_decide_eq_true|apply bool_decide_eq_false]; tauto.
Qed.

(** The header of a packet, read by the program's loads. *)
Lemma load_eth_type macs hi lo l3 :
  length macs = 12%nat -> load16 (macs ++ hi :: lo :: l3) (0 + ethhdr_h_proto) = Some (hi + 256 * lo).
Proof.
  intros Hm. destruct ethhdr_layout as [_ ->]. unfold load16.
  by rewrite !array_get_app_r, Hm by lia.
Qed.

Lemma load_l3 macs hi lo (l3 : list Z) i :
  length macs = 12%nat -> 0 <= i ->
  load8 (macs ++ hi :: lo :: l3) (0 + ethhdr_size + i) = l3 !! Z.to_nat i.
Proof.
  intros Hm Hi. destruct ethhdr_layout as [-> _]. unfold load8.
  change (hi :: lo :: l3) with ([hi; lo] ++ l3). rewrite app_assoc, array_get_app_r;
    rewrite length_app, Hm; simpl; [|lia].
  unfold array_get. rewrite (proj2 (Z.leb_le 0 _)) by lia. f_equal. lia.
Qed.

(** One bounds check and load of a network header. *)
Lemma l3_branch {B} macs hi lo (l3 : list Z) size off (short : B) (f : Z -> option B) :
  length macs = 12%nat -> 0 <= off < size ->
  (if 0 + ethhdr_size + size >? Z.of_nat (length (macs ++ hi :: lo :: l3)) then Some short
   else load8 (macs ++ hi :: lo :: l3) (0 + ethhdr_size + off) ≫= f) =
  match (if decide (Z.to_nat size <= length l3)%nat then l3 !! Z.to_nat off else None) with
  | Some p => f p
  | None => Some short
  end.
Proof.
  intros Hm Hoff. rewrite load_l3, Z.gtb_ltb by (done || lia).
  destruct ethhdr_layout as [-> _]. rewrite length_app, Hm. cbn [length].
  case_decide as Hl.
  - rewrite (proj2 (Z.ltb_ge _ _)) by lia.
    by destruct (lookup_lt_is_Some_2 l3 (Z.to_nat off)) as [p ->]; [lia|].
  - by rewrite (proj2 (Z.ltb_lt _ _)) by lia.
Qed.

Lemma xdp_net_stats_spec cpu pkt (s : State PM TM) :
  Forall (in_width 8) pkt ->
  xdp_net_stats cpu pkt s =
  Some (XDP_PASS,
        MkState (match l3_proto pkt with
                 | Some p => count_packet cpu p (pkt_len pkt) (proto_stats s)
                 | None => proto_stats s
                 end) (count_total cpu (total_packets s))).
Proof.
  intros Hb. unfold xdp_net_stats, pkt_len. rewrite Z.sub_0_r.
  destruct (decide (14 <= length pkt)%nat) as [Hl|Hl].
  2: { rewrite l3_proto_short by lia. destruct ethhdr_layout as [-> _].
       rewrite Z.gtb_ltb, (proj2 (Z.ltb_lt _ _)) by lia. done. }
  destruct (split_eth pkt Hl) as (macs & hi & lo & l3 & -> & Hm).
  apply Forall_app in Hb as [_ Hb]. inversion_clear Hb as [|?? Hhi Hb'].
  inversion_clear Hb' as [|?? Hlo _].
  rewrite load_eth_type by done. cbn [mbind option_bind].
  rewrite !eth_type_eqb by (done || vm_compute; intuition congruence).
  unfold l3_proto. rewrite drop_app_length' by done.
  destruct iphdr_layout as [Hi4 ->], ipv6hdr_layout as [Hi6 ->].
  rewrite !l3_branch, Hi4, Hi6 by lia. destruct ethhdr_layout as [-> _].
  rewrite Z.gtb_ltb, (proj2 (Z.ltb_ge _ _)) by (rewrite length_app, Hm; simpl; lia).
  change (ETH_P_IP `div` 256) with 8. change (ETH_P_IP `mod` 256) with 0.
  change (ETH_P_IPV6 `div` 256) with 134. change (ETH_P_IPV6 `mod` 256) with 221.
  change (Z.to_nat 9) with 9%nat. change (Z.to_nat 6) with 6%nat.
  change (Z.to_nat 20) with 20%nat. change (Z.to_nat 40) with 40%nat.
  rewrite !bool_decide_decide. repeat case_decide; try done; case_match; done.
Qed.

End Spec.

End Xdp.

Module XdpRun.
Import Xdp.

(** One counted packet: CPU, protocol, length. *)
Definition entry : Type := Z * Z * Z.

Section Run.
Context `{XdpEnv}.
Context {PM TM : Type}
  `{!PerCpuHashOps net_stats_key net_stats_val PM} `{!PerCpuArrayOps Z TM}.

(** [pending]: the CPUs between the lookup of [count_packet] that returned
    NULL and the update, with the protocol and length at hand.  [rx] records
    the packets received, [done_] the finished [count_packet] calls and whether
    the packet was counted (an update that fails loses it). *)
Record conf := MkConf {
  st : State PM TM;
  pending : gmap Z (Z * Z);
  rx : list (Z * list Z);
  done_ : list (entry * bool)
}.

Inductive step : conf -> conf -> Prop :=
(** A packet the program only counts in the total. *)
| step_other c cpu pkt :
    pending c !! cpu = None ->
    Forall (in_width 8) pkt ->
    l3_proto pkt = None ->
    step c (MkConf (MkState (proto_stats (st c)) (count_total cpu (total_packets (st c))))
                   (pending c) (rx c ++ [(cpu, pkt)]) (done_ c))
(** A packet of a protocol that has an entry. *)
| step_hit c cpu pkt p v :
    pending c !! cpu = None ->
    Forall (in_width 8) pkt ->
    l3_proto pkt = Some p ->
    pc_lookup (proto_stats (st c)) cpu (stats_key p) = Some v ->
    step c (MkConf (MkState (count_hit cpu (stats_key p) (pkt_len pkt) (proto_stats (st c)))
                            (count_total cpu (total_packets (st c))))
                   (pending c) (rx c ++ [(cpu, pkt)]) (done_ c ++ [(cpu, p, pkt_len pkt, true)]))
(** A packet of a protocol without an entry: up to the lookup. *)
| step_miss c cpu pkt p :
    pending c !! cpu = None ->
    Forall (in_width 8) pkt ->
    l3_proto pkt = Some p ->
    pc_lookup (proto_stats (st c)) cpu (stats_key p) = None ->
    step c (MkConf (MkState (proto_stats (st c)) (count_total cpu (total_packets (st c))))
                   (<[cpu := (p, pkt_len pkt)]> (pending c)) (rx c ++ [(cpu, pkt)]) (done_ c))
(** The update. *)
| step_insert c cpu p len :
    pending c !! cpu = Some (p, len) ->
    step c (MkConf (MkState (count_miss cpu (stats_key p) len (proto_stats (st c))).2
                            (total_packets (st c)))
                   (delete cpu (pending c)) (rx c)
                   (done_ c ++ [(cpu, p, len,
                      (count_miss cpu (stats_key p) len (proto_stats (st c))).1 =? 0)])).

(** The step relation, executable: a CPU takes a packet up to its end or up to
    the update, or does the update. *)
Inductive event := Rx (cpu : Z) (pkt : list Z) | Insert (cpu : Z).

Definition exec_event (c : conf) (e : event) : option conf :=
  let s := st c in
  match e with
  | Rx cpu pkt =>
      if decide (pending c !! cpu = None /\ Forall (in_width 8) pkt) then
        let total := count_total cpu (total_packets s) in
        let rx' := rx c ++ [(cpu, pkt)] in
        Some match l3_proto pkt with
        | None => MkConf (MkState (proto_stats s) total) (pending c) rx' (done_ c)
        | Some p =>
            match pc_lookup (proto_stats s) cpu (stats_key p) with
            | Some _ =>
                MkConf (MkState (count_hit cpu (stats_key p) (pkt_len pkt) (proto_stats s)) total)
                       (pending c) rx' (done_ c ++ [(cpu, p, pkt_len pkt, true)])
            | None => MkConf (MkState (proto_stats s) total)
                             (<[cpu := (p, pkt_len pkt)]> (pending c)) rx' (done_ c)
            end
        end
      else None
  | Insert cpu =>
      '(p, len) ← pending c !! cpu;
      let r := count_miss cpu (stats_key p) len (proto_stats s) in
      Some (MkConf (MkState r.2 (total_packets s)) (delete cpu (pending c)) (rx c)
                   (done_ c ++ [(cpu, p, len, r.1 =? 0)]))
  end.

Fixpoint exec_events (c : conf) (es : list event) : option conf :=
  match es with
  | [] => Some c
  | e :: es => c' ← exec_event c e; exec_events c' es
  end.

Lemma exec_event_sound c e c' : exec_event c e = Some c' -> step c c'.
Proof.
  destruct e as [cpu pkt|cpu]; cbn.
  - case_decide as Hok; [|done]. destruct Hok. intros [= <-].
    destruct (l3_proto pkt) as [p|] eqn:Hl3; [|by apply step_other].
    destruct (pc_lookup _ _ _) as [v|] eqn:Hv; [by eapply step_hit|by apply step_miss].
  - destruct (pending c !! cpu) as [[p len]|] eqn:Hp; cbn; [|done].
    intros [= <-]. by apply step_insert.
Qed.

Lemma exec_events_sound c es c' : exec_events c es = Some c' -> rtc step c c'.
Proof.
  revert c. induction es as [|e es IH]; cbn; intros c.
  - intros [= ->]. done.
  - destruct (exec_event c e) as [c1|] eqn:He; cbn; [|done]. intros Hes.
    eapply rtc_l; [by eapply exec_event_sound|by apply IH].
Qed.

(** The packets received that call [count_packet]. *)
Definition rx_entries (l : list (Z * list Z)) : list entry :=
  omap (fun '(cpu, pkt) => (fun p => (cpu, p, pkt_len pkt)) <$> l3_proto pkt) l.

Definition counted (l : list (entry * bool)) : list entry := (filter (fun x => x.2 = true) l).*1.

(** What the slot of a CPU should hold for a protocol. *)
Definition on (cpu p : Z) (l : list entry) : list entry :=
  filter (fun e => e.1 = (cpu, p)) l.

Definition slot (cpu p : Z) (l : list entry) : net_stats_val :=
  NetStats.MkVal (u64 (Z.of_nat (length (on cpu p l)))) (u64 (Zsum (on cpu p l).*2)).

Definition protos (l : list entry) : list Z := (fun e => e.1.2) <$> l.

End Run.
Arguments conf : clear implicits.

(** *** Lemmas on the log *)

Lemma counted_true l e : counted (l ++ [(e, true)]) = counted l ++ [e].
Proof. unfold counted. by rewrite filter_app, fmap_app. Qed.

Lemma counted_false l e : counted (l ++ [(e, false)]) = counted l.
Proof. unfold counted. by rewrite filter_app, app_nil_r. Qed.

Lemma on_snoc cpu p l e :
  on cpu p (l ++ [e]) = if decide (e.1 = (cpu, p)) then on cpu p l ++ [e] else on cpu p l.
Proof.
  unfold on. rewrite filter_app. case_decide as He.
  - by rewrite filter_cons_True by done.
  - rewrite filter_cons_False by done. apply app_nil_r.
Qed.

Lemma slot_snoc_eq cpu p len l :
  slot cpu p (l ++ [(cpu, p, len)]) =
  NetStats.MkVal (NetStats.packets (slot cpu p l) +₆₄ 1) (NetStats.bytes (slot cpu p l) +₆₄ len).
Proof.
  unfold slot. rewrite on_snoc, decide_True by done. cbn [NetStats.packets NetStats.bytes].
  rewrite length_app, fmap_app, Zsum_app. unwrap. f_equal; f_equal; simpl; lia.
Qed.

Lemma slot_snoc_ne cpu p e l : e.1 <> (cpu, p) -> slot cpu p (l ++ [e]) = slot cpu p l.
Proof. intros He. unfold slot. by rewrite on_snoc, decide_False. Qed.

Lemma elem_of_protos p l : p ∈ protos l <-> exists e, e ∈ l /\ e.1.2 = p.
Proof. unfold protos. rewrite list_elem_of_fmap. split; intros (e & ? & ?); eauto. Qed.

Lemma protos_snoc l e : protos (l ++ [e]) = protos l ++ [e.1.2].
Proof. unfold protos. by rewrite fmap_app. Qed.

Lemma on_nil_protos cpu p l : p ∉ protos l -> on cpu p l = [].
Proof.
  intros Hp. destruct (on cpu p l) as [|e k] eqn:He; [done|exfalso].
  assert (e ∈ on cpu p l) as Hin by (rewrite He; left).
  apply list_elem_of_filter in Hin as [Hcp Hin]. apply Hp, elem_of_protos.
  exists e. by rewrite Hcp.
Qed.

Lemma stats_key_inj p q : stats_key p = stats_key q -> p = q.
Proof. by intros [= ->]. Qed.

#[export] Instance slot_Permutation cpu p : Proper ((≡ₚ) ==> (=)) (slot cpu p).
Proof. intros l k Hlk. unfold slot, on. by rewrite Hlk. Qed.

#[export] Instance protos_Permutation : Proper ((≡ₚ) ==> (≡ₚ)) protos.
Proof. intros l k Hlk. unfold protos. by rewrite Hlk. Qed.

(** *** The invariant *)

Section Invariant.
Context `{EL : XdpEnvLaws}.
Context {PM TM : Type}.
Context `{PH : PerCpuHash net_stats_key net_stats_val PM (NetStats.MkVal 0 0) max_entries}.
Context `{PA : PerCpuArray Z TM 1}.
#[local] Abbreviation C := (conf PM TM).

Definition pend_entries (m : gmap Z (Z * Z)) : list entry :=
  (fun x => (x.1, x.2.1, x.2.2)) <$> map_to_list m.

(** Freshly loaded maps. *)
Definition initial (c : C) : Prop :=
  pc_keys (proto_stats (st c)) = [] /\
  (forall cpu, pa_lookup (total_packets (st c)) cpu 0 = Some 0) /\
  pending c = ∅ /\ rx c = [] /\ done_ c = [].

Definition rx_on (cpu : Z) (l : list (Z * list Z)) : list (Z * list Z) :=
  filter (fun x => x.1 = cpu) l.

Record Inv (c : C) : Prop := {
  inv_slots cpu p :
    pc_lookup (proto_stats (st c)) cpu (stats_key p) =
    if decide (p ∈ protos (counted (done_ c))) then Some (slot cpu p (counted (done_ c)))
    else None;
  inv_pending cpu p len :
    pending c !! cpu = Some (p, len) -> on cpu p (counted (done_ c)) = [] /\ in_width 32 len;
  inv_rx : rx_entries (rx c) ≡ₚ (done_ c).*1 ++ pend_entries (pending c);
  inv_total cpu :
    pa_lookup (total_packets (st c)) cpu 0 = Some (u64 (Z.of_nat (length (rx_on cpu (rx c)))));
  inv_dropped e :
    (e, false) ∈ done_ c ->
    (max_entries <= length (pc_keys (proto_stats (st c))))%nat /\
    e.1.2 ∉ protos (counted (done_ c));
  inv_keys k :
    k ∈ pc_keys (proto_stats (st c)) ->
    exists p, k = stats_key p /\ p ∈ protos (counted (done_ c))
}.

Lemma inv_initial c : initial c -> Inv c.
Proof.
  intros (Hk & Ht & Hp & Hr & Hd). split; rewrite ?Hp, ?Hr, ?Hd; cbn.
  - intros cpu p. rewrite decide_False by apply not_elem_of_nil.
    destruct (pc_lookup _ cpu (stats_key p)) eqn:E'; [|done].
    assert (stats_key p ∈ pc_keys (proto_stats (st c))) as Hin.
    { apply (pc_keys_lookup _ cpu). by rewrite E'. }
    rewrite Hk in Hin. by apply not_elem_of_nil in Hin.
  - intros cpu p len. by rewrite lookup_empty.
  - unfold pend_entries. by rewrite map_to_list_empty.
  - intros cpu. by rewrite Ht.
  - intros e Hin. by apply not_elem_of_nil in Hin.
  - rewrite Hk. intros k Hin. by apply not_elem_of_nil in Hin.
Qed.

(** The total is bumped in every branch. *)
Lemma count_total_spec cpu cpu' (m : TM) :
  pa_lookup (count_total cpu m) cpu' 0 =
  (fun t => if decide (cpu = cpu') then u64 (t + 1) else t) <$> pa_lookup m cpu' 0.
Proof.
  unfold count_total.
  destruct (proj2 (pa_lookup_in (max_entries := 1) m cpu 0) ltac:(lia)) as [t Ht]. rewrite Ht.
  rewrite pa_lookup_modify, andb_true_r.
  destruct (Z.eqb_spec cpu cpu') as [->|Hne].
  - destruct (pa_lookup m cpu' 0); simpl; [|done]. by rewrite decide_True.
  - destruct (pa_lookup m cpu' 0); simpl; [|done]. by rewrite decide_False.
Qed.

Lemma rx_on_snoc cpu l x :
  rx_on cpu (l ++ [x]) = if decide (x.1 = cpu) then rx_on cpu l ++ [x] else rx_on cpu l.
Proof.
  unfold rx_on. rewrite filter_app. case_decide as Hx.
  - by rewrite filter_cons_True by done.
  - rewrite filter_cons_False by done. apply app_nil_r.
Qed.

Lemma total_step (c : C) cpu pkt cpu' :
  Inv c ->
  pa_lookup (count_total cpu (total_packets (st c))) cpu' 0 =
  Some (u64 (Z.of_nat (length (rx_on cpu' (rx c ++ [(cpu, pkt)]))))).
Proof.
  intros HI. rewrite count_total_spec, (inv_total _ HI), rx_on_snoc. simpl.
  case_decide; [|done]. rewrite length_app. unwrap. do 2 f_equal. simpl. lia.
Qed.

(** The two stores of a hit, seen from any slot. *)
Lemma count_hit_spec cpu k len (m : PM) cpu' k' :
  pc_lookup (count_hit cpu k len m) cpu' k' =
  (fun v => if decide ((cpu, k) = (cpu', k'))
            then NetStats.MkVal (NetStats.packets v +₆₄ 1) (NetStats.bytes v +₆₄ len) else v)
  <$> pc_lookup m cpu' k'.
Proof.
  unfold count_hit. destruct (decide ((cpu, k) = (cpu', k'))) as [Hk|Hk].
  - injection Hk as -> ->. rewrite !pc_lookup_modify_eq. by destruct (pc_lookup m cpu' k').
  - rewrite !pc_lookup_modify_ne by done. by destruct (pc_lookup m cpu' k').
Qed.

Lemma rx_entries_snoc l cpu pkt :
  rx_entries (l ++ [(cpu, pkt)]) =
  rx_entries l ++ match l3_proto pkt with Some p => [(cpu, p, pkt_len pkt)] | None => [] end.
Proof.
  unfold rx_entries. rewrite omap_app. simpl. by destruct (l3_proto pkt).
Qed.

Definition zero_val : net_stats_val := NetStats.MkVal 0 0.
Definition bump (v : net_stats_val) (len : Z) : net_stats_val :=
  NetStats.MkVal (NetStats.packets v +₆₄ 1) (NetStats.bytes v +₆₄ len).

(** The map [m] holds exactly the counts of the log [l]. *)
Definition slots_ok (m : PM) (l : list entry) : Prop :=
  forall cpu p, pc_lookup m cpu (stats_key p) =
    if decide (p ∈ protos l) then Some (slot cpu p l) else None.

Lemma slot_on_nil cpu p l : on cpu p l = [] -> slot cpu p l = zero_val.
Proof. intros Hon. unfold slot. by rewrite Hon. Qed.

(** [m'] is [m] with the packet [(cpu, p, len)] added to the slot of its CPU. *)
Definition adds (m m' : PM) (cpu p len : Z) : Prop :=
  forall cpu' q, pc_lookup m' cpu' (stats_key q) =
    if decide (q = p) then
      Some (let v := default zero_val (pc_lookup m cpu' (stats_key p)) in
            if decide (cpu' = cpu) then bump v len else v)
    else pc_lookup m cpu' (stats_key q).

Lemma slots_accept m m' l cpu p len :
  slots_ok m l -> adds m m' cpu p len -> slots_ok m' (l ++ [(cpu, p, len)]).
Proof.
  intros Hm Hadd cpu' q. rewrite Hadd, !Hm, protos_snoc. simpl.
  destruct (decide (q = p)) as [->|Hq].
  - rewrite (decide_True (P := p ∈ protos l ++ [p])) by set_solver. f_equal.
    assert (default zero_val (if decide (p ∈ protos l) then Some (slot cpu' p l) else None) =
            slot cpu' p l) as ->.
    { case_decide; [done|]. simpl. symmetry. by apply slot_on_nil, on_nil_protos. }
    case_decide as Hc; [subst; symmetry; apply slot_snoc_eq|].
    symmetry. apply slot_snoc_ne. simpl. congruence.
  - rewrite slot_snoc_ne by (simpl; congruence).
    destruct (decide (q ∈ protos l)); [rewrite decide_True by set_solver|
      rewrite decide_False by set_solver]; done.
Qed.

Lemma hit_adds m cpu p len v :
  pc_lookup m cpu (stats_key p) = Some v ->
  adds m (count_hit cpu (stats_key p) len m) cpu p len.
Proof.
  intros Hv cpu' q. rewrite count_hit_spec. destruct (decide (q = p)) as [->|Hq].
  - assert (is_Some (pc_lookup m cpu' (stats_key p))) as [v' ->].
    { apply pc_keys_lookup. apply (pc_keys_lookup m cpu). by rewrite Hv. }
    simpl. repeat case_decide; first [done | congruence].
  - destruct (pc_lookup m cpu' (stats_key q)); [|done]. simpl.
    rewrite decide_False; [done|]. intros [= _ ?]. congruence.
Qed.

Lemma insert_adds m cpu p len :
  default zero_val (pc_lookup m cpu (stats_key p)) = zero_val -> in_width 32 len ->
  (count_miss cpu (stats_key p) len m).1 = 0 ->
  adds m (count_miss cpu (stats_key p) len m).2 cpu p len.
Proof.
  intros Hz Hlen Hrc cpu' q. unfold count_miss in *.
  destruct (decide (q = p)) as [->|Hq].
  - destruct (decide (cpu' = cpu)) as [->|Hc].
    + rewrite pc_lookup_update_eq, Hz by done. unfold in_width in Hlen.
      unfold bump, zero_val; simpl; by rewrite !u64_small by lia.
    + by rewrite pc_lookup_update_cpu by (done || congruence).
  - rewrite pc_lookup_update_ne; [done|]. intros ?%stats_key_inj. congruence.
Qed.

Lemma slots_on_nil m l cpu p :
  slots_ok m l -> on cpu p l = [] ->
  default zero_val (pc_lookup m cpu (stats_key p)) = zero_val.
Proof. intros Hm Hon. rewrite Hm. case_decide; [|done]. by apply slot_on_nil. Qed.

Lemma keys_length_mono (m m' : PM) :
  (forall k, k ∈ pc_keys m -> k ∈ pc_keys m') ->
  (length (pc_keys m) <= length (pc_keys m'))%nat.
Proof. intros Hk. apply submseteq_length, NoDup_submseteq; [apply pc_keys_nodup|done]. Qed.

Lemma hit_keys m cpu key len k :
  k ∈ pc_keys (count_hit cpu key len m) <-> k ∈ pc_keys m.
Proof. by rewrite !(pc_keys_lookup _ cpu), count_hit_spec, fmap_is_Some. Qed.

Lemma insert_keys m cpu key len k :
  (count_miss cpu key len m).1 = 0 ->
  k ∈ pc_keys (count_miss cpu key len m).2 <-> k = key \/ k ∈ pc_keys m.
Proof.
  unfold count_miss. intros Hrc. rewrite !(pc_keys_lookup _ cpu).
  destruct (decide (k = key)) as [->|Hne].
  - rewrite pc_lookup_update_eq by done. split; eauto.
  - rewrite pc_lookup_update_ne by congruence. split; [eauto|]. by intros [?|?].
Qed.

Lemma slots_keys m l p : slots_ok m l -> stats_key p ∈ pc_keys m <-> p ∈ protos l.
Proof.
  intros Hm. rewrite (pc_keys_lookup m 0), Hm. case_decide; [done|].
  split; [by intros []|done].
Qed.

(** A packet is counted: what is left to show of the new configuration. *)
Lemma inv_accept (c c' : C) cpu p len :
  Inv c -> adds (proto_stats (st c)) (proto_stats (st c')) cpu p len ->
  done_ c' = done_ c ++ [(cpu, p, len, true)] ->
  (forall k, k ∈ pc_keys (proto_stats (st c')) <->
             k = stats_key p \/ k ∈ pc_keys (proto_stats (st c))) ->
  (forall e, (e, false) ∈ done_ c -> p ∈ protos (counted (done_ c))) ->
  (forall cpu' p' len', pending c' !! cpu' = Some (p', len') ->
     cpu' <> cpu /\ pending c !! cpu' = Some (p', len')) ->
  rx_entries (rx c') ≡ₚ (done_ c').*1 ++ pend_entries (pending c') ->
  (forall cpu', pa_lookup (total_packets (st c')) cpu' 0 =
     Some (u64 (Z.of_nat (length (rx_on cpu' (rx c')))))) ->
  Inv c'.
Proof.
  intros HI Hadd Hdone Hkeys Hdrop Hpend Hrx Htot.
  pose proof (slots_accept _ _ _ _ _ _ (inv_slots c HI) Hadd) as Hslots.
  split; try done; rewrite ?Hdone, ?counted_true; try done.
  - intros cpu' p' len' [Hne Hp']%Hpend. destruct (inv_pending c HI _ _ _ Hp') as [Hon Hl].
    split; [|done]. rewrite on_snoc, decide_False; [done|]. simpl. congruence.
  - intros e [He|[=]%list_elem_of_singleton]%elem_of_app.
    destruct (inv_dropped c HI e He) as [Hfull Hout]. split.
    + etrans; [exact Hfull|]. apply keys_length_mono. intros k Hk. apply Hkeys. by right.
    + rewrite protos_snoc. simpl. specialize (Hdrop e He).
      intros [?|Heq%list_elem_of_singleton]%elem_of_app; [done|]. congruence.
  - intros k [->|Hk]%Hkeys.
    + exists p. split; [done|]. rewrite protos_snoc. apply elem_of_app. right. by left.
    + destruct (inv_keys c HI k Hk) as (q & -> & Hq). exists q. split; [done|].
      rewrite protos_snoc. apply elem_of_app. by left.
Qed.

Lemma pend_entries_insert m cpu p len :
  m !! cpu = None -> pend_entries (<[cpu := (p, len)]> m) ≡ₚ (cpu, p, len) :: pend_entries m.
Proof. intros Hm. unfold pend_entries. by rewrite map_to_list_insert. Qed.

Lemma pend_entries_delete m cpu p len :
  m !! cpu = Some (p, len) -> pend_entries m ≡ₚ (cpu, p, len) :: pend_entries (delete cpu m).
Proof. intros Hm. unfold pend_entries. by rewrite <- (map_to_list_delete m cpu (p, len)). Qed.

Lemma inv_step_hit c cpu pkt p v :
  pending c !! cpu = None -> l3_proto pkt = Some p ->
  pc_lookup (proto_stats (st c)) cpu (stats_key p) = Some v -> Inv c ->
  Inv (MkConf (MkState (count_hit cpu (stats_key p) (pkt_len pkt) (proto_stats (st c)))
                       (count_total cpu (total_packets (st c))))
              (pending c) (rx c ++ [(cpu, pkt)]) (done_ c ++ [(cpu, p, pkt_len pkt, true)])).
Proof.
  intros Hidle Hl3 Hv HI.
  assert (stats_key p ∈ pc_keys (proto_stats (st c))) as Hk
    by (apply (pc_keys_lookup _ cpu); by rewrite Hv).
  eapply (inv_accept c); cbn; [done|by eapply hit_adds|done|..].
  - intros k. rewrite hit_keys. split; [by right|]. by intros [->|].
  - intros _ _. by apply (slots_keys _ _ _ (inv_slots c HI)).
  - intros cpu' p' len' Hp'. split; [congruence|done].
  - rewrite rx_entries_snoc, Hl3, (inv_rx c HI), fmap_app. simpl. solve_Permutation.
  - intros cpu'. by apply total_step.
Qed.

Lemma inv_step_miss c cpu pkt p :
  pending c !! cpu = None -> l3_proto pkt = Some p ->
  pc_lookup (proto_stats (st c)) cpu (stats_key p) = None -> Inv c ->
  Inv (MkConf (MkState (proto_stats (st c)) (count_total cpu (total_packets (st c))))
              (<[cpu := (p, pkt_len pkt)]> (pending c)) (rx c ++ [(cpu, pkt)]) (done_ c)).
Proof.
  intros Hidle Hl3 Hv HI. split; cbn; try apply HI; [|..|by intros; apply total_step].
  - intros cpu' p' len'. destruct (decide (cpu = cpu')) as [<-|Hne].
    + rewrite lookup_insert_eq. intros [= <- <-]. split; [|by apply wrap_bound].
      apply on_nil_protos. intros Hp. rewrite (inv_slots c HI), decide_True in Hv by done. done.
    + rewrite lookup_insert_ne by done. apply HI.
  - rewrite rx_entries_snoc, Hl3, (inv_rx c HI), pend_entries_insert by done. solve_Permutation.
Qed.

Lemma inv_step_insert c cpu p len :
  pending c !! cpu = Some (p, len) -> Inv c ->
  Inv (MkConf (MkState (count_miss cpu (stats_key p) len (proto_stats (st c))).2
                       (total_packets (st c)))
              (delete cpu (pending c)) (rx c)
              (done_ c ++ [(cpu, p, len,
                 (count_miss cpu (stats_key p) len (proto_stats (st c))).1 =? 0)])).
Proof.
  intros Hp HI. destruct (inv_pending c HI _ _ _ Hp) as [Hon Hlen].
  pose proof (inv_slots c HI) as Hs. pose proof (inv_rx c HI) as Hrx.
  rewrite (pend_entries_delete _ _ _ _ Hp) in Hrx.
  assert (forall cpu' p' len', delete cpu (pending c) !! cpu' = Some (p', len') ->
            cpu' <> cpu /\ pending c !! cpu' = Some (p', len')) as Hdel.
  { intros cpu' p' len' [? ?]%lookup_delete_Some. split; [congruence|done]. }
  destruct (Z.eqb_spec (count_miss cpu (stats_key p) len (proto_stats (st c))).1 0) as [Hrc|Hrc].
  - eapply (inv_accept c); cbn; [done| |done| | |done| |apply HI].
    + apply insert_adds; [by eapply slots_on_nil|done..].
    + intros k. by apply insert_keys.
    + intros e He. apply (pc_update_succeeds (zero := NetStats.MkVal 0 0)) in Hrc as [Hk|Hroom].
      * by apply (slots_keys _ _ _ Hs).
      * destruct (inv_dropped c HI e He). lia.
    + rewrite Hrx, fmap_app. simpl. solve_Permutation.
  - assert (~ (stats_key p ∈ pc_keys (proto_stats (st c)) \/
               (length (pc_keys (proto_stats (st c))) < max_entries)%nat)) as Hfull
      by (intros Hok; by apply Hrc, (pc_update_succeeds (zero := NetStats.MkVal 0 0))).
    unfold count_miss in *. rewrite pc_update_fails by done.
    split; cbn [st proto_stats total_packets pending rx done_]; rewrite ?counted_false;
      try apply HI.
    + intros cpu' p' len' [_ Hp']%Hdel. by apply (inv_pending c HI).
    + rewrite Hrx, fmap_app. simpl. solve_Permutation.
    + intros e [He|[= ->]%list_elem_of_singleton]%elem_of_app; [by apply HI|].
      rewrite <- (slots_keys _ _ _ Hs). split; [lia|tauto].
Qed.

Lemma inv_step c c' : step c c' -> Inv c -> Inv c'.
Proof.
  intros Hstep HI. destruct Hstep as [c cpu pkt ? ? Hl3| | |].
  - split; cbn; try apply HI; [|by intros; apply total_step].
    rewrite rx_entries_snoc, Hl3, app_nil_r. apply HI.
  - by eapply inv_step_hit.
  - by eapply inv_step_miss.
  - by eapply inv_step_insert.
Qed.

Lemma inv_reachable c0 c : initial c0 -> rtc step c0 c -> Inv c.
Proof. intros Hi Hr. eapply (rtc_preserves step Inv); [apply inv_step|done|by apply inv_initial]. Qed.

(** Losing a packet takes seventeen protocols. *)
Lemma no_drop c :
  Inv c -> (length (remove_dups (protos (done_ c).*1)) <= max_entries)%nat ->
  counted (done_ c) = (done_ c).*1.
Proof.
  intros HI Hfew. unfold counted. f_equal. apply filter_all. apply Forall_forall.
  intros [e []] Hin; [done|exfalso]. destruct (inv_dropped c HI e Hin) as [Hfull Hout].
  set (qs := NetStats.proto <$> pc_keys (proto_stats (st c))).
  assert (forall q, q ∈ qs -> q ∈ protos (counted (done_ c))) as Hqs.
  { intros q (k & -> & Hk)%list_elem_of_fmap. by destruct (inv_keys c HI k Hk) as (p & -> & ?). }
  assert (NoDup (e.1.2 :: qs)) as Hnd.
  { constructor; [by intros ?%Hqs|]. apply NoDup_fmap_2_strong; [|apply pc_keys_nodup].
    intros k k' Hk Hk' Heq. destruct (inv_keys c HI k Hk) as (p & -> & _).
    destruct (inv_keys c HI k' Hk') as (p' & -> & _). simpl in Heq. by subst. }
  assert (e.1.2 :: qs ⊆+ remove_dups (protos (done_ c).*1)) as Hsub%submseteq_length.
  { apply NoDup_submseteq; [done|]. intros q Hq. apply elem_of_remove_dups, elem_of_protos.
    apply elem_of_cons in Hq as [->|Hq].
    - exists e. split; [|done]. apply list_elem_of_fmap. by exists (e, false).
    - apply Hqs, elem_of_protos in Hq as (e' & He' & <-). exists e'. split; [|done].
      unfold counted in He'. apply list_elem_of_fmap in He' as (x & -> & Hx).
      apply list_elem_of_filter in Hx as [_ Hx]. by apply list_elem_of_fmap_2. }
  simpl in Hsub. unfold qs in Hsub. rewrite length_fmap in Hsub. lia.
Qed.

End Invariant.

End XdpRun.

(** ** Properties *)

Section Properties.
Import Xdp XdpRun.
Context `{EL : XdpEnvLaws}.
Context {PM TM : Type}.
Context `{PH : PerCpuHash net_stats_key net_stats_val PM (NetStats.MkVal 0 0) Xdp.max_entries}.
Context `{PA : PerCpuArray Z TM 1}.

(** C23: one packet on one CPU: the program never loads outside the packet,
    returns XDP_PASS, adds one to the total of its CPU and, for an IPv4 or IPv6
    packet with a whole header, adds one packet and its length to the slot of
    its CPU and protocol, unless that takes a new entry and all sixteen are
    used; every other slot and total stays. *)
Theorem xdp_net_stats_correct cpu pkt (s : State PM TM) :
  Forall (in_width 8) pkt ->
  exists s', xdp_net_stats cpu pkt s = Some (XDP_PASS, s') /\
    (forall cpu', pa_lookup (total_packets s') cpu' 0 =
       (fun t => if decide (cpu = cpu') then u64 (t + 1) else t)
       <$> pa_lookup (total_packets s) cpu' 0) /\
    match l3_proto pkt with
    | None => proto_stats s' = proto_stats s
    | Some p =>
        if decide (stats_key p ∈ pc_keys (proto_stats s) \/
                   (length (pc_keys (proto_stats s)) < Xdp.max_entries)%nat)
        then adds (proto_stats s) (proto_stats s') cpu p (pkt_len pkt)
        else proto_stats s' = proto_stats s
    end.
Proof.
  intros Hb. eexists. split; [by apply xdp_net_stats_spec|]. split.
  { intros cpu'. apply count_total_spec. }
  cbn. destruct (l3_proto pkt) as [p|]; [|done]. unfold count_packet.
  destruct (pc_lookup (proto_stats s) cpu (stats_key p)) as [v|] eqn:Hv.
  - rewrite decide_True; [by eapply hit_adds|]. left. apply (pc_keys_lookup _ cpu). by rewrite Hv.
  - case_decide as Hroom.
    + apply insert_adds; [by rewrite Hv|by apply wrap_bound|]. by apply pc_update_succeeds.
    + apply pc_update_fails. by intros Hrc%pc_update_succeeds.
Qed.

(** A handler that runs undisturbed is a run of the step relation: the
    interleaved semantics contains the sequential program. *)
Theorem xdp_run_refines (c : conf PM TM) cpu pkt ret s' :
  pending c !! cpu = None -> Forall (in_width 8) pkt ->
  xdp_net_stats cpu pkt (st c) = Some (ret, s') ->
  exists c', rtc step c c' /\ st c' = s' /\ pending c' = pending c /\
             rx c' = rx c ++ [(cpu, pkt)].
Proof.
  intros Hidle Hb. rewrite xdp_net_stats_spec by done. intros [= <- <-].
  destruct (l3_proto pkt) as [p|] eqn:Hl3.
  - unfold count_packet. destruct (pc_lookup _ cpu (stats_key p)) as [v|] eqn:Hv.
    + eexists. split; [by eapply rtc_once, step_hit|done].
    + eexists. split; [eapply rtc_l; [by eapply step_miss|]|].
      * eapply rtc_once, step_insert. cbn. apply lookup_insert_eq.
      * cbn. split; [done|]. by rewrite delete_insert_id.
  - eexists. split; [by eapply rtc_once, step_other|done].
Qed.

(** C11: any interleaving of handlers on any CPUs, once no handler is under way
    and at most sixteen protocols were seen: every CPU's total is its number of
    packets, and every slot holds exactly the packets and bytes of its CPU and
    protocol (modulo 2^64), no update lost. *)
Theorem xdp_counts_exact (c0 c : conf PM TM) cpu p :
  initial c0 -> rtc step c0 c -> pending c = ∅ ->
  (length (remove_dups (protos (rx_entries (rx c)))) <= Xdp.max_entries)%nat ->
  pa_lookup (total_packets (st c)) cpu 0 = Some (u64 (Z.of_nat (length (rx_on cpu (rx c))))) /\
  pc_lookup (proto_stats (st c)) cpu (stats_key p) =
    if decide (p ∈ protos (rx_entries (rx c))) then Some (slot cpu p (rx_entries (rx c)))
    else None.
Proof.
  intros Hi Hr Hq Hfew. pose proof (inv_reachable c0 c Hi Hr) as HI.
  split; [apply HI|]. pose proof (inv_rx c HI) as Hrx.
  rewrite Hq in Hrx. unfold pend_entries in Hrx. rewrite map_to_list_empty, app_nil_r in Hrx.
  rewrite (inv_slots c HI), no_drop, <- (slot_Permutation cpu p _ _ Hrx);
    [|done|by rewrite <- Hrx].
  apply decide_ext. by rewrite Hrx.
Qed.

(** With more protocols the map still never lies: at any moment a slot
    holds the packets counted so far, and a packet that was not counted belongs
    to a protocol that has no entry, in a map that is full. *)
Theorem xdp_drops_only_when_full (c0 c : conf PM TM) :
  initial c0 -> rtc step c0 c ->
  slots_ok (proto_stats (st c)) (counted (done_ c)) /\
  forall e, (e, false) ∈ done_ c ->
    (Xdp.max_entries <= length (pc_keys (proto_stats (st c))))%nat /\
    forall cpu, pc_lookup (proto_stats (st c)) cpu (stats_key e.1.2) = None.
Proof.
  intros Hi Hr. pose proof (inv_reachable c0 c Hi Hr) as HI. split; [exact (inv_slots c HI)|].
  intros e He. destruct (inv_dropped c HI e He) as [Hf Ho]. split; [done|].
  intros cpu. by rewrite (inv_slots c HI), decide_False.
Qed.

End Properties.

(** ** Witnesses: the wire formats, and maps that are finite maps *)

Module XdpWitness.
Import Xdp XdpRun.

Definition env : XdpEnv := {|
  ethhdr_size := 14; ethhdr_h_proto := 12; iphdr_size := 20; iphdr_protocol := 9;
  ipv6hdr_size := 40; ipv6hdr_nexthdr := 6;
  bpf_ntohs z := z mod 256 * 256 + z / 256;
  XDP_PASS := 2
|}.
#[export] Existing Instance env.

#[export] Instance env_laws : XdpEnvLaws env.
Proof.
  split; try done. unfold in_width. cbn. intros hi lo Hhi Hlo.
  Z.to_euclidean_division_equations. lia.
Qed.

#[export] Instance proto_ops : PerCpuHashOps net_stats_key net_stats_val _ :=
  GmapPerCpuHash.pchash_ops (NetStats.MkVal 0 0) Xdp.max_entries.
#[export] Instance proto_laws : PerCpuHash _ _ _ (NetStats.MkVal 0 0) Xdp.max_entries :=
  GmapPerCpuHash.pchash_laws (NetStats.MkVal 0 0) Xdp.max_entries.
#[export] Instance total_ops : PerCpuArrayOps Z _ := GmapPerCpuArray.pcarray_ops 0 1.
#[export] Instance total_laws : PerCpuArray Z _ 1 := GmapPerCpuArray.pcarray_laws 0 1.

Definition s0 : State (gmap net_stats_key (gmap Z net_stats_val)) (gmap (Z * Z) Z) :=
  MkState ∅ ∅.
Definition c0 := MkConf s0 ∅ [] [].

Definition ipv4 (proto : Z) : list Z :=
  replicate 12 0 ++ [8; 0] ++ replicate 9 0 ++ [proto] ++ replicate 14 0.
Definition ipv6 (proto : Z) : list Z :=
  replicate 12 0 ++ [134; 221] ++ replicate 6 0 ++ [proto] ++ replicate 33 0.

Definition after_udp := default s0 (snd <$> xdp_net_stats 3 (ipv6 17) s0).

(** Two CPUs meet on the first TCP packet; then a hit, UDP over IPv6, a frame
    too short to have a header. *)
Definition race : list event :=
  [Rx 0 (ipv4 6); Rx 1 (ipv4 6); Insert 1; Insert 0; Rx 1 (ipv4 6); Rx 0 (ipv6 17);
   Rx 2 [1; 2; 3]; Insert 0].

Definition after_race := default c0 (exec_events c0 race).

(** Seventeen protocols: the last finds the map full. *)
Definition flood : list event :=
  mjoin ((fun i => [Rx 0 (ipv4 (Z.of_nat i)); Insert 0]) <$> seq 0 17).
Definition after_flood := default c0 (exec_events c0 flood).

Lemma initial_c0 : initial c0.
Proof. by repeat split. Qed.

Lemma race_runs : rtc step c0 after_race.
Proof. apply (exec_events_sound _ race). vm_compute. reflexivity. Qed.

Lemma flood_runs : rtc step c0 after_flood.
Proof. apply (exec_events_sound _ flood). vm_compute. reflexivity. Qed.

End XdpWitness.

Section Witnesses.
Import Xdp XdpRun XdpWitness.

Lemma xdp_net_stats_correct_witness :
  exists s', xdp_net_stats 3 (ipv4 6) s0 = Some (2, s') /\
    adds (proto_stats s0) (proto_stats s') 3 6 38.
Proof.
  destruct (xdp_net_stats_correct 3 (ipv4 6) s0) as (s' & Hrun & _ & Hadd).
  - apply (bool_decide_unpack _). vm_compute. exact I.
  - exists s'. split; [exact Hrun|exact Hadd].
Defined.

Lemma xdp_run_refines_witness :
  exists c', rtc step c0 c' /\ st c' = after_udp /\ rx c' = [(3, ipv6 17)].
Proof.
  destruct (xdp_run_refines c0 3 (ipv6 17) 2 after_udp) as (c' & Hr & Hst & _ & Hrx);
    [reflexivity|apply (bool_decide_unpack _); vm_compute; exact I|vm_compute; reflexivity|].
  exists c'. by repeat split.
Defined.

Lemma xdp_counts_exact_witness :
  pc_lookup (proto_stats (st after_race)) 1 (stats_key 6) = Some (NetStats.MkVal 2 76).
Proof.
  refine (eq_trans (proj2 (xdp_counts_exact c0 after_race 1 6 initial_c0 race_runs _ _)) _);
    vm_compute; reflexivity || lia.
Defined.

Lemma xdp_drops_only_when_full_witness :
  pc_lookup (proto_stats (st after_flood)) 5 (stats_key 16) = None.
Proof.
  refine (proj2 (proj2 (xdp_drops_only_when_full c0 after_flood initial_c0 flood_runs)
                       (0, 16, 38) _) 5).
  apply (bool_decide_unpack _). vm_compute. exact I.
Defined.

End Witnesses.
