(* ===== verification/TcpTracer.v ===== *)
(** * TcpTracer: bpf/tcp_tracer.bpf.c

    The kprobes on [tcp_connect] and [tcp_close].  A probe is a function of the
    kernel state it reads through helpers ([Task]: the current task and the
    clock, [Sock]: the socket fields read with BPF_CORE_READ) and of its maps:
    the filters, the connects waiting for their close, the ring buffer. *)

From S2P Require Import Prelude Common BpfMaps.

Module Tracer.

Definition AF_INET : Z := 2.
Definition pending_max : Z := 4096.
Definition filters_max : Z := 2.

(** The fields of [struct sock] and [struct tcp_sock] that are read. *)
Record Sock := MkSock {
  skc_rcv_saddr : Z;   (** __be32 *)
  skc_daddr : Z;       (** __be32 *)
  skc_num : Z;         (** u16, host order *)
  skc_dport : Z;       (** __be16 *)
  bytes_sent : Z;      (** u64 *)
  bytes_received : Z   (** u64 *)
}.

Definition bswap16 (z : Z) : Z := Z.lor (Z.shiftl (Z.land z 255) 8) (Z.shiftr z 8).

(** *** Well-formed kernel data *)

Record wf_sock (sk : Sock) : Prop := {
  wfk_saddr : in_width 32 (skc_rcv_saddr sk);
  wfk_daddr : in_width 32 (skc_daddr sk);
  wfk_num : in_width 16 (skc_num sk);
  wfk_dport : in_width 16 (skc_dport sk);
  wfk_sent : in_width 64 (bytes_sent sk);
  wfk_received : in_width 64 (bytes_received sk)
}.

Section Program.
Context {FM PM RB : Type}
  `{!ArrayMapOps Z FM} `{!HashMapOps Z tcp_event PM} `{!RingBufOps tcp_event RB}.

Record State := MkState { filters : FM; pending_connects : PM; tcp_events : RB }.

Definition should_filter (pid dport : Z) (m : FM) : bool :=
  let fpid := am_lookup m 0 in
  if match fpid with Some v => negb (v =? 0) && negb (v =? pid) | None => false end then true
  else
    let fport := am_lookup m 1 in
    match fport with Some v => negb (v =? 0) && negb (u16 v =? dport) | None => false end.

(** [struct tcp_event ev = {}] and the assignments to its members. *)
Definition connect_event (pid dport : Z) (t : Task) (sk : Sock) : tcp_event :=
  TcpEvent.Mk (ktime_ns t) pid (Z.land (uid_gid t) 0xFFFFFFFF) (current_comm t)
    (skc_rcv_saddr sk) (skc_daddr sk) (skc_num sk) dport AF_INET TCP_ACTION_CONNECT
    [0; 0] 0 0.

Definition trace_tcp_connect (t : Task) (sk : Sock) (s : State) : Z * State :=
  let pid := u32 (Z.shiftr (pid_tgid t) 32) in
  let dport := bswap16 (skc_dport sk) in
  if should_filter pid dport (filters s) then (0, s) else
  let ev := connect_event pid dport t sk in
  let pending := (hm_update (pending_connects s) pid ev).2 in
  match rb_reserve (tcp_events s) with
  | Some (_, rb) => (0, MkState (filters s) pending (rb_submit rb ev))
  | None => (0, MkState (filters s) pending (tcp_events s))
  end.

(** [*rbev] without a pending connect: the members not assigned keep the bytes
    found in the buffer. *)
Definition close_event (pid : Z) (t : Task) (sk : Sock) (rbev : tcp_event) : tcp_event :=
  TcpEvent.Mk (TcpEvent.timestamp_ns rbev) pid (Z.land (uid_gid t) 0xFFFFFFFF)
    (current_comm t) (skc_rcv_saddr sk) (skc_daddr sk) (skc_num sk)
    (bswap16 (skc_dport sk)) AF_INET (TcpEvent.action rbev) (TcpEvent._pad rbev)
    (TcpEvent.bytes_tx rbev) (TcpEvent.bytes_rx rbev).

(** The assignments common to both branches. *)
Definition finish_close (t : Task) (sk : Sock) (rbev : tcp_event) : tcp_event :=
  TcpEvent.Mk (ktime_ns t) (TcpEvent.pid rbev) (TcpEvent.uid rbev) (TcpEvent.comm rbev)
    (TcpEvent.src_ip rbev) (TcpEvent.dst_ip rbev) (TcpEvent.src_port rbev)
    (TcpEvent.dst_port rbev) (TcpEvent.af rbev) TCP_ACTION_CLOSE (TcpEvent._pad rbev)
    (bytes_sent sk) (bytes_received sk).

Definition trace_tcp_close (t : Task) (sk : Sock) (s : State) : Z * State :=
  let pid := u32 (Z.shiftr (pid_tgid t) 32) in
  let pending := hm_lookup (pending_connects s) pid in
  match rb_reserve (tcp_events s) with
  | None => (0, s)
  | Some (junk, rb) =>
      let '(rbev, pm) :=
        match pending with
        | Some ev => (ev, (hm_delete (pending_connects s) pid).2)
        | None => (close_event pid t sk junk, pending_connects s)
        end in
      (0, MkState (filters s) pm (rb_submit rb (finish_close t sk rbev)))
  end.

(** The user side of the filters map: [set_filter] of src/monitor.cpp. *)
Definition set_filter (m : FM) (idx val : Z) : bool * FM :=
  let '(rc, m') := am_update m idx val in (rc =? 0, m').

(** The filters the monitor installs at start-up: [run_monitor]. *)
Definition install_filters (filter_pid filter_port : Z) (m : FM) : FM :=
  if negb (filter_pid =? 0) || negb (filter_port =? 0) then
    let m := if negb (filter_pid =? 0) then (set_filter m 0 filter_pid).2 else m in
    if negb (filter_port =? 0) then (set_filter m 1 filter_port).2 else m
  else m.

(** Kernel and monitor at work: the label is the process a probe runs for. *)
Inductive step : option Z -> State -> State -> Prop :=
| step_connect t sk s :
    wf_task t -> wf_sock sk ->
    step (Some (pid_of t)) s (trace_tcp_connect t sk s).2
| step_close t sk s :
    wf_task t -> wf_sock sk ->
    step (Some (pid_of t)) s (trace_tcp_close t sk s).2
(** The monitor consumes: the buffer changes, what was submitted stays. *)
| step_consume s rb :
    rb_records rb = rb_records (tcp_events s) ->
    step None s (MkState (filters s) (pending_connects s) rb)
| step_set_filter s idx val :
    step None s (MkState (set_filter (filters s) idx val).2 (pending_connects s) (tcp_events s)).

End Program.
Arguments State : clear implicits.

(** *** Lemmas *)

(** Swapping the bytes of a 16-bit word. *)
Lemma bswap16_spec z : in_width 16 z -> bswap16 z = 256 * (z mod 256) + z / 256.
Proof.
  intros Hz. unfold in_width in Hz. unfold bswap16.
  rewrite Z.shiftl_mul_pow2, Z.shiftr_div_pow2 by lia.
  change 255 with (Z.ones 8). rewrite Z.land_ones by lia. change (2 ^ 8) with 256.
  rewrite <- Z.lxor_lor, <- Z.add_nocarry_lxor; [lia|..];
    (apply Z.bits_inj'; intros n Hn; rewrite Z.land_spec, Z.bits_0; change 256 with (2 ^ 8);
     destruct (decide (n < 8)); [rewrite Z.mul_pow2_bits_low by lia; done|];
     replace (z / 2 ^ 8) with ((z / 2 ^ 8) mod 2 ^ 8)
       by (apply Z.mod_small; Z.to_euclidean_division_equations; lia);
     rewrite (Z.mod_pow2_bits_high (z / 2 ^ 8)) by lia; apply andb_false_r).
Qed.

Lemma bswap16_bound z : in_width 16 z -> in_width 16 (bswap16 z).
Proof.
  intros Hz. rewrite bswap16_spec by done. unfold in_width in *.
  Z.to_euclidean_division_equations; lia.
Qed.

Lemma bswap16_involutive z : in_width 16 z -> bswap16 (bswap16 z) = z.
Proof.
  intros Hz. rewrite (bswap16_spec (bswap16 z)) by by apply bswap16_bound.
  rewrite bswap16_spec by done. unfold in_width in *.
  Z.to_euclidean_division_equations; lia.
Qed.

Section Spec.
Context {FM PM RB : Type}.
Context `{AM : ArrayMap Z FM filters_max}.
Context `{HM : HashMap Z tcp_event PM pending_max}.
Context `{RL : RingBuf tcp_event RB}.
#[local] Abbreviation S := (State FM PM RB).

(** The event a connect emits and stores. *)
Definition event_of_connect (t : Task) (sk : Sock) : tcp_event :=
  connect_event (pid_of t) (bswap16 (skc_dport sk)) t sk.

Definition filtered (t : Task) (sk : Sock) (s : S) : bool :=
  should_filter (pid_of t) (bswap16 (skc_dport sk)) (filters s).

(** The record a reservation makes room for, if any. *)
Definition submitted (s : S) (e : tcp_event) : list tcp_event :=
  match rb_reserve (tcp_events s) with Some _ => [e] | None => [] end.

Lemma connect_spec t sk (s : S) :
  let s' := (trace_tcp_connect t sk s).2 in
  filters s' = filters s /\
  if filtered t sk s then s' = s else
  (forall pid, hm_lookup (pending_connects s') pid =
     if decide (pid = pid_of t /\ hm_room pending_max (pending_connects s) (pid_of t))
     then Some (event_of_connect t sk) else hm_lookup (pending_connects s) pid) /\
  rb_records (tcp_events s') =
    rb_records (tcp_events s) ++ submitted s (event_of_connect t sk).
Proof.
  cbn. unfold trace_tcp_connect, filtered, submitted. fold (pid_of t).
  destruct (should_filter _ _ _); [done|].
  destruct (rb_reserve (tcp_events s)) as [[g rb]|] eqn:Hres; cbn; (split; [done|]); split.
  - intros pid. apply hm_lookup_update.
  - by eapply rb_records_submit.
  - intros pid. apply hm_lookup_update.
  - by rewrite app_nil_r.
Qed.

Lemma close_spec t sk (s : S) :
  let s' := (trace_tcp_close t sk s).2 in
  filters s' = filters s /\
  match rb_reserve (tcp_events s) with
  | None => s' = s
  | Some (junk, _) =>
      (forall pid, hm_lookup (pending_connects s') pid =
         if decide (pid = pid_of t) then None else hm_lookup (pending_connects s) pid) /\
      rb_records (tcp_events s') = rb_records (tcp_events s) ++
        [finish_close t sk (default (close_event (pid_of t) t sk junk)
                              (hm_lookup (pending_connects s) (pid_of t)))]
  end.
Proof.
  cbn. unfold trace_tcp_close. fold (pid_of t).
  destruct (rb_reserve (tcp_events s)) as [[g rb]|] eqn:Hres; [|done].
  destruct (hm_lookup (pending_connects s) (pid_of t)) as [ev|] eqn:Hp; cbn;
    (split; [done|]); (split; [|by eapply rb_records_submit]); intros pid;
    destruct (decide (pid = pid_of t)) as [->|Hne]; try done.
  - apply hm_lookup_delete_eq.
  - by apply hm_lookup_delete_ne.
Qed.

Lemma should_filter_false pid dport (m : FM) fpid fport :
  am_lookup m 0 = Some fpid -> am_lookup m 1 = Some fport ->
  should_filter pid dport m = false <->
  (fpid = 0 \/ fpid = pid) /\ (fport = 0 \/ u16 fport = dport).
Proof.
  intros Hf0 Hf1. unfold should_filter. rewrite Hf0, Hf1.
  destruct (Z.eqb_spec fpid 0), (Z.eqb_spec fpid pid), (Z.eqb_spec fport 0),
    (Z.eqb_spec (u16 fport) dport); cbn; intuition congruence.
Qed.

Lemma set_filter_spec (m : FM) i v j :
  0 <= i < filters_max ->
  am_lookup (set_filter m i v).2 j = if i =? j then Some v else am_lookup m j.
Proof.
  intros Hi. unfold set_filter. rewrite <- (am_lookup_update m i v j Hi).
  by destruct (am_update m i v).
Qed.

Lemma install_filters_spec fpid fport (m : FM) i :
  am_lookup m 0 = Some 0 -> am_lookup m 1 = Some 0 -> i = 0 \/ i = 1 ->
  am_lookup (install_filters fpid fport m) i = Some (if i =? 0 then fpid else fport).
Proof.
  intros Hf0 Hf1 Hi. unfold install_filters.
  destruct (Z.eqb_spec fpid 0) as [->|], (Z.eqb_spec fport 0) as [->|]; cbn;
    rewrite ?set_filter_spec by (unfold filters_max; lia); destruct Hi as [->| ->]; cbn; congruence.
Qed.

(** *** Invariant of the records *)

(** Every record: members of their types, a terminated name, IPv4, and a connect
    has no traffic yet. *)
Definition ok_event (e : tcp_event) : Prop :=
  wf_tcp_event e /\ 0 ∈ TcpEvent.comm e /\ TcpEvent.af e = AF_INET /\
  (TcpEvent.action e = TCP_ACTION_CONNECT /\ TcpEvent.bytes_tx e = 0 /\ TcpEvent.bytes_rx e = 0
   \/ TcpEvent.action e = TCP_ACTION_CLOSE).

Definition Inv (s : S) : Prop :=
  Forall ok_event (rb_records (tcp_events s)) /\
  forall pid e, hm_lookup (pending_connects s) pid = Some e ->
    ok_event e /\ TcpEvent.pid e = pid /\ TcpEvent.action e = TCP_ACTION_CONNECT.

Lemma ok_connect t sk : wf_task t -> wf_sock sk -> ok_event (event_of_connect t sk).
Proof.
  intros [] []. split; [|by split; [|split; [|left]]].
  split; cbn; try done; try (by apply wrap_bound); rewrite ?land_u32;
    first [by apply wrap_bound | by apply bswap16_bound].
Qed.

Lemma ok_close_pending t sk e :
  wf_task t -> wf_sock sk -> ok_event e -> ok_event (finish_close t sk e).
Proof.
  intros [] [] ([] & Hc & Haf & _). split; [|by split; [|split; [|right]]]. by split; cbn.
Qed.

Lemma ok_close_fresh t sk junk :
  wf_task t -> wf_sock sk -> wf_tcp_event junk ->
  ok_event (finish_close t sk (close_event (pid_of t) t sk junk)).
Proof.
  intros [] [] []. split; [|by split; [|split; [|right]]].
  split; cbn; try done; try (by apply wrap_bound); rewrite ?land_u32;
    first [by apply wrap_bound | by apply bswap16_bound].
Qed.

(** The reserved memory has the size of the structure: whatever bytes it
    holds, they are values of the members' types. *)
Context (reserve_typed : forall b g b', rb_reserve b = Some (g, b') -> wf_tcp_event g).

Lemma inv_trace_connect t sk s :
  wf_task t -> wf_sock sk -> Inv s -> Inv (trace_tcp_connect t sk s).2.
Proof.
  intros Ht Hk [HR HP]. destruct (connect_spec t sk s) as [_ Hs]. cbn in Hs.
  destruct (filtered t sk s); [by rewrite Hs|]. destruct Hs as [Hp Hr]. split.
  - rewrite Hr. apply Forall_app. split; [done|]. unfold submitted.
    destruct (rb_reserve _); [|done]. constructor; [by apply ok_connect|done].
  - intros pid e. rewrite Hp. case_decide as Hpid; [|apply HP]. intros [= <-].
    destruct Hpid as [-> _]. by split; [apply ok_connect|].
Qed.

Lemma inv_trace_close t sk s :
  wf_task t -> wf_sock sk -> Inv s -> Inv (trace_tcp_close t sk s).2.
Proof.
  intros Ht Hk [HR HP]. destruct (close_spec t sk s) as [_ Hs]. cbn in Hs.
  destruct (rb_reserve _) as [[g rb]|] eqn:Hres; [|by rewrite Hs]. destruct Hs as [Hp Hr].
  split.
  - rewrite Hr. apply Forall_app. split; [done|]. constructor; [|done].
    destruct (hm_lookup _ _) as [e|] eqn:He; cbn.
    + apply ok_close_pending; try done. by apply HP in He as (? & _).
    + apply ok_close_fresh; try done. by eapply reserve_typed.
  - intros pid e. rewrite Hp. case_decide; [done|]. apply HP.
Qed.

Lemma inv_tracer_step l s s' : step l s s' -> Inv s -> Inv s'.
Proof.
  intros Hs HI. destruct Hs; [by apply inv_trace_connect|by apply inv_trace_close|..].
  - destruct HI as [HR HP]. split; cbn; [by rewrite H2|done].
  - done.
Qed.

(** A step for one process leaves the pending connect of another. *)
Lemma step_other_pid l s s' pid :
  step l s s' -> l <> Some pid ->
  hm_lookup (pending_connects s') pid = hm_lookup (pending_connects s) pid.
Proof.
  intros Hs Hne. destruct Hs; try done.
  - destruct (connect_spec t sk s) as [_ Hs]. cbn in Hs.
    destruct (filtered t sk s); [by rewrite Hs|]. destruct Hs as [-> _].
    rewrite decide_False; [done|]. intros [? _]. congruence.
  - destruct (close_spec t sk s) as [_ Hs]. cbn in Hs.
    destruct (rb_reserve _) as [[g rb]|]; [|by rewrite Hs]. destruct Hs as [-> _].
    rewrite decide_False; [done|]. congruence.
Qed.

(** Runs in which the process [pid] takes no part. *)
Definition others (pid : Z) (s s' : S) : Prop := exists l, l <> Some pid /\ step l s s'.

(** The records of such a run belong to other processes. *)
Lemma others_step_records pid s s' :
  others pid s s' -> Inv s ->
  exists new, rb_records (tcp_events s') = rb_records (tcp_events s) ++ new /\
    Forall (fun e => TcpEvent.pid e <> pid) new.
Proof.
  intros (l & Hl & Hs) [_ HP]. destruct Hs as [t sk s|t sk s|s rb Hrb|s idx val].
  - destruct (connect_spec t sk s) as [_ Hc]. cbn in Hc.
    destruct (filtered t sk s); [rewrite Hc; exists []; by rewrite app_nil_r|]. destruct Hc as [_ ->].
    eexists. split; [done|]. unfold submitted. destruct (rb_reserve _); [|done].
    constructor; [|done]. cbn. congruence.
  - destruct (close_spec t sk s) as [_ Hc]. cbn in Hc.
    destruct (rb_reserve _) as [[g rb]|]; [|rewrite Hc; exists []; by rewrite app_nil_r].
    destruct Hc as [_ ->]. eexists. split; [done|]. constructor; [|done].
    destruct (hm_lookup _ _) as [e|] eqn:He; cbn; [|congruence].
    apply HP in He as (_ & -> & _). congruence.
  - exists []. cbn. by rewrite Hrb, app_nil_r.
  - exists []. by rewrite app_nil_r.
Qed.

Lemma others_records pid s s' :
  rtc (others pid) s s' -> Inv s ->
  Inv s' /\ exists new, rb_records (tcp_events s') = rb_records (tcp_events s) ++ new /\
    Forall (fun e => TcpEvent.pid e <> pid) new.
Proof.
  induction 1 as [s|s s1 s' Hs _ IH]; intros HI; [split; [done|]; exists []; by rewrite app_nil_r|].
  destruct (others_step_records _ _ _ Hs HI) as (new1 & Hn1 & Hf1). destruct Hs as (l & _ & Hs).
  destruct (IH (inv_tracer_step _ _ _ Hs HI)) as (HI' & new2 & Hn2 & Hf2).
  split; [done|]. exists (new1 ++ new2). rewrite Hn2, Hn1, app_assoc. split; [done|]. by apply Forall_app.
Qed.

(** Before the first probe. *)
Lemma tracer_inv_initial s : rb_records (tcp_events s) = [] -> hm_keys (pending_connects s) = [] -> Inv s.
Proof.
  intros Hr Hp. split; [by rewrite Hr|]. intros pid e He.
  assert (pid ∈ hm_keys (pending_connects s)) as Hin by (apply hm_keys_lookup; by rewrite He).
  rewrite Hp in Hin. by apply not_elem_of_nil in Hin.
Qed.

Lemma others_pending pid s s' e :
  rtc (others pid) s s' -> hm_lookup (pending_connects s) pid = Some e ->
  hm_lookup (pending_connects s') pid = Some e.
Proof.
  intros Hr. apply (rtc_preserves (others pid)
    (fun s => hm_lookup (pending_connects s) pid = Some e)); [|done].
  intros a b (l & Hl & Hstep) <-. by eapply step_other_pid.
Qed.

End Spec.

End Tracer.

(** ** Properties *)

Section Properties.
Import Tracer.
Context {FM PM RB : Type}.
Context `{AM : ArrayMap Z FM filters_max}.
Context `{HM : HashMap Z tcp_event PM pending_max}.
Context `{RL : RingBuf tcp_event RB}.
#[local] Abbreviation S := (State FM PM RB).

(** C30: the options --filter-pid and --filter-port, from the map entries the
    monitor writes to the decision of the probe: zero lets everything pass, a
    process id selects that process, a port selects the destination port equal
    to it modulo 2^16. *)
Theorem filters_select fpid fport (m : FM) t sk (s : S) :
  am_lookup m 0 = Some 0 -> am_lookup m 1 = Some 0 ->
  filters s = install_filters fpid fport m ->
  filtered t sk s = false <->
  (fpid = 0 \/ fpid = pid_of t) /\ (fport = 0 \/ u16 fport = bswap16 (skc_dport sk)).
Proof.
  intros Hf0 Hf1 Hs. unfold filtered. rewrite Hs. apply should_filter_false;
    [apply (install_filters_spec fpid fport m 0)|apply (install_filters_spec fpid fport m 1)];
    auto.
Qed.

(** The connect probe returns 0 and either does nothing (filtered) or
    stores the event of the connection as the pending connect of its process,
    if the map has room for it, and submits it, if the ring buffer has room;
    pending connects of other processes stay. *)
Theorem connect_correct t sk (s : S) :
  let '(ret, s') := trace_tcp_connect t sk s in
  ret = 0 /\ filters s' = filters s /\
  if filtered t sk s then s' = s else
  (forall pid, hm_lookup (pending_connects s') pid =
     if decide (pid = pid_of t /\ hm_room pending_max (pending_connects s) (pid_of t))
     then Some (event_of_connect t sk) else hm_lookup (pending_connects s) pid) /\
  rb_records (tcp_events s') =
    rb_records (tcp_events s) ++ submitted s (event_of_connect t sk).
Proof.
  pose proof (connect_spec t sk s) as Hs. destruct (trace_tcp_connect t sk s) as [ret s'] eqn:E.
  split; [|done]. unfold trace_tcp_connect in E.
  destruct (should_filter _ _ _); [|destruct (rb_reserve _) as [[]|]]; congruence.
Qed.

(** The close probe returns 0 and does nothing when the ring buffer is
    full; otherwise it submits one close event (the pending connect of the
    process, or the socket's own addresses, with the byte counters of the
    socket) and the process has no pending connect any more. *)
Theorem close_correct t sk (s : S) :
  let '(ret, s') := trace_tcp_close t sk s in
  ret = 0 /\ filters s' = filters s /\
  match rb_reserve (tcp_events s) with
  | None => s' = s
  | Some (junk, _) =>
      (forall pid, hm_lookup (pending_connects s') pid =
         if decide (pid = pid_of t) then None else hm_lookup (pending_connects s) pid) /\
      rb_records (tcp_events s') = rb_records (tcp_events s) ++
        [finish_close t sk (default (close_event (pid_of t) t sk junk)
                              (hm_lookup (pending_connects s) (pid_of t)))]
  end.
Proof.
  pose proof (close_spec t sk s) as Hs. destruct (trace_tcp_close t sk s) as [ret s'] eqn:E.
  split; [|done]. unfold trace_tcp_close in E.
  destruct (rb_reserve _) as [[]|]; [destruct (hm_lookup _ _)|]; congruence.
Qed.

(** Whatever connects, closes, filter changes and reads happen, every
    record submitted is a well-formed IPv4 event with a terminated process name,
    a connect with zero byte counters or a close. *)
Theorem tracer_records_ok (s0 s : S) :
  (forall b g b', rb_reserve b = Some (g, b') -> wf_tcp_event g) ->
  rb_records (tcp_events s0) = [] -> hm_keys (pending_connects s0) = [] ->
  rtc (fun a b => exists l, step l a b) s0 s ->
  Forall ok_event (rb_records (tcp_events s)).
Proof.
  intros Hty Hr0 Hp0 Hr. cut (Inv s); [by intros []|].
  eapply (rtc_preserves _ Inv); [|exact Hr|];
    [intros a b [l Hl]; by eapply inv_tracer_step|by apply tracer_inv_initial].
Qed.

(** A process that connects once and then closes: whatever other processes
    do in between, the close event carries the addresses, ports, user and name
    of the connect, the time and byte counters of the close. *)
Theorem connect_close_pair t sk t' sk' (s s2 : S) g rb :
  filtered t sk s = false -> hm_room pending_max (pending_connects s) (pid_of t) ->
  rtc (others (pid_of t)) (trace_tcp_connect t sk s).2 s2 ->
  pid_of t' = pid_of t -> rb_reserve (tcp_events s2) = Some (g, rb) ->
  let s3 := (trace_tcp_close t' sk' s2).2 in
  rb_records (tcp_events s3) =
    rb_records (tcp_events s2) ++ [finish_close t' sk' (event_of_connect t sk)] /\
  hm_lookup (pending_connects s3) (pid_of t) = None.
Proof.
  intros Hf Hroom Hr Hpid Hres s3. destruct (connect_spec t sk s) as [_ Hc]. cbn in Hc.
  rewrite Hf in Hc. destruct Hc as [Hp _]. specialize (Hp (pid_of t)).
  rewrite decide_True in Hp by done. apply (others_pending _ _ _ _ Hr) in Hp.
  destruct (close_spec t' sk' s2) as [_ Hc]. cbn in Hc. rewrite Hres, Hpid in Hc.
  destruct Hc as [Hd Hrec]. rewrite Hp in Hrec. split; [exact Hrec|].
  unfold s3. by rewrite Hd, decide_True.
Qed.

(** C31: one pending connect per process: a process with two connections that
    closes the first has the close reported with the addresses and ports of the
    second and the byte counters of the first. *)
Theorem close_misattributes t1 sk1 t2 sk2 t3 (s s1 s2 : S) g rb :
  pid_of t2 = pid_of t1 -> pid_of t3 = pid_of t1 ->
  s1 = (trace_tcp_connect t1 sk1 s).2 -> s2 = (trace_tcp_connect t2 sk2 s1).2 ->
  filtered t1 sk1 s = false -> filtered t2 sk2 s1 = false ->
  hm_room pending_max (pending_connects s) (pid_of t1) ->
  rb_reserve (tcp_events s2) = Some (g, rb) ->
  exists e, rb_records (tcp_events (trace_tcp_close t3 sk1 s2).2) =
              rb_records (tcp_events s2) ++ [e] /\
    TcpEvent.dst_ip e = skc_daddr sk2 /\ TcpEvent.src_port e = skc_num sk2 /\
    TcpEvent.bytes_tx e = bytes_sent sk1 /\ TcpEvent.bytes_rx e = bytes_received sk1.
Proof.
  intros Hp2 Hp3 -> -> Hf1 Hf2 Hroom Hres.
  destruct (connect_spec t1 sk1 s) as [_ Hc1]. cbn in Hc1. rewrite Hf1 in Hc1.
  destruct Hc1 as [Hl1 _]. specialize (Hl1 (pid_of t1)). rewrite decide_True in Hl1 by done.
  destruct (connect_spec t2 sk2 (trace_tcp_connect t1 sk1 s).2) as [_ Hc2].
  cbn in Hc2. rewrite Hf2 in Hc2. destruct Hc2 as [Hl2 _]. specialize (Hl2 (pid_of t1)).
  rewrite Hp2, decide_True in Hl2
    by (split; [done|]; left; apply hm_keys_lookup; by rewrite Hl1).
  destruct (close_spec t3 sk1 (trace_tcp_connect t2 sk2 (trace_tcp_connect t1 sk1 s).2).2)
    as [_ Hc3]. cbn in Hc3. rewrite Hres, Hp3, Hl2 in Hc3. destruct Hc3 as [_ Hrec].
  eexists. split; [exact Hrec|]. done.
Qed.

End Properties.

(** ** Witnesses: finite maps, and a ring buffer with room for four records *)

Module TracerWitness.
Import Tracer.

Definition junk : tcp_event :=
  TcpEvent.Mk 9 9 9 (replicate 16 170) 9 9 9 9 9 9 [170; 187] 9 9.

#[export] Instance filter_ops : ArrayMapOps Z _ := ListArray.array_ops 0 filters_max.
#[export] Instance filter_laws : ArrayMap Z _ filters_max := ListArray.array_laws 0 filters_max.
#[export] Instance pending_ops : HashMapOps Z tcp_event _ := GmapHash.ops pending_max.
#[export] Instance pending_laws : HashMap Z tcp_event _ pending_max := GmapHash.laws pending_max.
#[export] Instance events_ops : RingBufOps tcp_event _ := ListRing.ring_ops junk 4.
#[export] Instance events_laws : RingBuf tcp_event _ := ListRing.ring_laws junk 4.

Definition s0 : State (gmap Z Z) (gmap Z tcp_event) (list tcp_event) := MkState ∅ ∅ [].

(** Process 42 of user 1000. *)
Definition task (time : Z) : Task :=
  MkTask (Z.lor (Z.shiftl 42 32) 43) (Z.lor (Z.shiftl 7 32) 1000) time (replicate 15 97 ++ [0]).
Definition other_task : Task :=
  MkTask (Z.shiftl 77 32) 0 5 (replicate 15 98 ++ [0]).
(** Port 443 is 47873 in network order on a little-endian machine. *)
Definition sock1 : Sock := MkSock 1 2 40000 47873 1500 90000.
Definition sock2 : Sock := MkSock 1 3 40001 20480 10 20.

Lemma reserve_typed b g b' : rb_reserve b = Some (g, b') -> wf_tcp_event g.
Proof.
  cbn. case_match; [|done]. intros [= <- _]. split; vm_compute; intuition congruence.
Qed.

Lemma wf_task_task time : in_width 64 time -> wf_task (task time).
Proof. split; [done|done|]. apply (bool_decide_unpack _). vm_compute. exact I. Qed.
Lemma wf_other_task : wf_task other_task.
Proof. split; [done|done|]. apply (bool_decide_unpack _). vm_compute. exact I. Qed.
Lemma wf_sock1 : wf_sock sock1.
Proof. split; vm_compute; intuition congruence. Qed.
Lemma wf_sock2 : wf_sock sock2.
Proof. split; vm_compute; intuition congruence. Qed.

(** Process 42 connects, then process 77 does. *)
Definition s1 := (trace_tcp_connect (task 1) sock1 s0).2.
Definition s2 := (trace_tcp_connect other_task sock2 s1).2.
(** Process 42 opens a second connection. *)
Definition s2' := (trace_tcp_connect (task 2) sock2 s1).2.

End TracerWitness.

Section Witnesses.
Import Tracer TracerWitness.

Lemma filters_select_witness :
  let s := MkState (install_filters 42 443 ∅) (pending_connects s0) (tcp_events s0) in
  filtered (task 1) sock1 s = false /\ filtered (task 1) sock2 s <> false /\
  filtered other_task sock1 s <> false.
Proof.
  intros s. assert (forall t sk, filtered t sk s = false <->
    (42 = 0 \/ 42 = pid_of t) /\ (443 = 0 \/ u16 443 = bswap16 (skc_dport sk))) as Hs.
  { intros t sk. exact (filters_select 42 443 ∅ t sk s eq_refl eq_refl eq_refl). }
  rewrite !Hs. vm_compute. intuition congruence.
Defined.

Lemma connect_correct_witness :
  rb_records (tcp_events s1) = [event_of_connect (task 1) sock1] /\
  hm_lookup (pending_connects s1) 42 = Some (event_of_connect (task 1) sock1).
Proof.
  pose proof (connect_correct (task 1) sock1 s0) as Hc. unfold s1.
  destruct (trace_tcp_connect (task 1) sock1 s0) as [ret s'].
  destruct Hc as (_ & _ & Hp & Hr). split; [exact Hr|].
  refine (eq_trans (Hp 42) _). vm_compute. reflexivity.
Defined.

Lemma close_correct_witness :
  exists e, rb_records (tcp_events (trace_tcp_close (task 3) sock1 s0).2) = [e] /\
            TcpEvent.dst_port e = 443 /\ TcpEvent._pad e = [170; 187].
Proof.
  pose proof (close_correct (task 3) sock1 s0) as Hc.
  destruct (trace_tcp_close (task 3) sock1 s0) as [ret s'].
  destruct Hc as (_ & _ & _ & Hr). eexists. split; [exact Hr|]. vm_compute. by split.
Defined.

Lemma tracer_records_ok_witness :
  Forall ok_event (rb_records (tcp_events s2)) /\ length (rb_records (tcp_events s2)) = 2%nat.
Proof.
  split; [|vm_compute; reflexivity].
  apply (tracer_records_ok s0); [exact reserve_typed|reflexivity|reflexivity|].
  eapply rtc_l; [eexists; apply step_connect; [apply (wf_task_task 1); done|exact wf_sock1]|].
  apply rtc_once. eexists. apply step_connect; [exact wf_other_task|exact wf_sock2].
Defined.

Lemma connect_close_pair_witness :
  rb_records (tcp_events (trace_tcp_close (task 3) sock1 s2).2) =
    rb_records (tcp_events s2) ++ [finish_close (task 3) sock1 (event_of_connect (task 1) sock1)].
Proof.
  refine (proj1 (connect_close_pair (task 1) sock1 (task 3) sock1 s0 s2 junk (tcp_events s2)
                   _ _ _ _ _)).
  - vm_compute. reflexivity.
  - right. vm_compute. reflexivity.
  - apply rtc_once. exists (Some (pid_of other_task)).
    split; [vm_compute; congruence|apply step_connect; [exact wf_other_task|exact wf_sock2]].
  - vm_compute. reflexivity.
  - vm_compute. reflexivity.
Defined.

Lemma close_misattributes_witness :
  exists e, rb_records (tcp_events (trace_tcp_close (task 3) sock1 s2').2) =
              rb_records (tcp_events s2') ++ [e] /\
            TcpEvent.dst_ip e = 3 /\ TcpEvent.bytes_tx e = 1500.
Proof.
  destruct (close_misattributes (task 1) sock1 (task 2) sock2 (task 3) s0 s1 s2' junk
              (tcp_events s2')) as (e & Hr & Hd & _ & Hb & _); try (vm_compute; reflexivity).
  - right. vm_compute. reflexivity.
  - exists e. by split.
Defined.

End Witnesses.
