(* ===== verification/TcpTracerSmp.v ===== *)
(** * TcpTracerSmp: the TCP probes on several CPUs

    bpf/tcp_tracer.bpf.c with its probes in progress on several CPUs at once,
    one helper call or map access at a time.  Two things are visible at this
    grain that whole runs of a probe ([TcpTracer]) hide.
    [bpf_map_lookup_elem] returns a pointer into the map, which
    trace_tcp_close dereferences later; an element that was deleted or
    replaced in between is on the map's free list and may be taken for another
    key, as preallocated hash maps do ([cells] and [index] below).  And a
    record of the ring buffer has its place from its reservation on, whenever
    it is submitted.

    When a process has one probe in progress at a time its records and its
    pending connect are those of its probes run one after the other, whatever
    the other CPUs do; two threads of one process can make a probe report the
    connection of a third party. *)

From S2P Require Import Prelude Common BpfMaps TcpTracer.
Import Tracer.

Module Smp.

(** A record of the ring buffer: reserved, or submitted. *)
Inductive slot := Busy | Done (e : tcp_event).

(** Where a probe is: what it has in its registers and on its stack. *)
Inductive point :=
| C0 (t : Task) (sk : Sock)                                (** trace_tcp_connect entered *)
| C1 (t : Task) (sk : Sock)                                (** the process filter let it pass *)
| C2 (t : Task) (sk : Sock)                                (** both filters let it pass *)
| C3 (t : Task) (sk : Sock) (stored : bool)                (** bpf_map_update_elem done *)
| C4 (t : Task) (sk : Sock) (stored : bool) (i : nat)      (** record [i] reserved *)
| D0 (t : Task) (sk : Sock)                                (** trace_tcp_close entered *)
| D1 (t : Task) (sk : Sock) (p : option nat)               (** [pending] looked up *)
| D2 (t : Task) (sk : Sock) (p : option nat) (i : nat) (junk : tcp_event)
| D3 (t : Task) (sk : Sock) (i : nat) (junk rbev : tcp_event)   (** [*rbev = *pending] done *)
| D4 (t : Task) (sk : Sock) (i : nat) (junk rbev : tcp_event).  (** addresses filled in *)

Definition task_of (pt : point) : Task :=
  match pt with
  | C0 t _ | C1 t _ | C2 t _ | C3 t _ _ | C4 t _ _ _
  | D0 t _ | D1 t _ _ | D2 t _ _ _ _ | D3 t _ _ _ _ | D4 t _ _ _ _ => t
  end.
Definition process (pt : point) : Z := pid_of (task_of pt).

(** What a finished probe did: nothing when filtered, otherwise whether the
    connect was stored and whether a record was reserved (with the bytes found
    there). *)
Inductive outcome :=
| Filtered (t : Task) (sk : Sock)
| Connected (t : Task) (sk : Sock) (stored reserved : bool)
| Closed (t : Task) (sk : Sock) (reserved : option tcp_event).

Definition outcome_task (o : outcome) : Task :=
  match o with Filtered t _ | Connected t _ _ _ | Closed t _ _ => t end.

Section Machine.
Context {FM : Type} `{!ArrayMapOps Z FM}.

Record state := MkState {
  filters : FM;
  index : gmap Z nat;              (** pending_connects: the element of each key *)
  cells : gmap nat tcp_event;      (** the elements, free ones included *)
  ring : list slot;                (** tcp_events, in the order of reservation *)
  cpus : gmap nat point;           (** the probes in progress *)
  history : list outcome           (** the probes finished *)
}.

(** What the kernel chooses at a step: the element an update takes from the
    free list, whether the ring buffer has room, the bytes of a reservation. *)
Record choice := MkChoice { cell : nat; room : bool; bytes : tcp_event }.

Inductive label :=
| Connect (cpu : nat) (t : Task) (sk : Sock)    (** the kernel calls tcp_connect *)
| Close (cpu : nat) (t : Task) (sk : Sock)      (** the kernel calls tcp_close *)
| Run (cpu : nat) (c : choice)                  (** the probe's next access *)
| SetFilter (i v : Z).                          (** the monitor writes a filter *)

Definition go (cpu : nat) (pt : point) (s : state) : state :=
  MkState (filters s) (index s) (cells s) (ring s) (<[cpu := pt]> (cpus s)) (history s).
Definition finish (cpu : nat) (o : outcome) (s : state) : state :=
  MkState (filters s) (index s) (cells s) (ring s) (delete cpu (cpus s)) (history s ++ [o]).
Definition with_map (ix : gmap Z nat) (cs : gmap nat tcp_event) (s : state) : state :=
  MkState (filters s) ix cs (ring s) (cpus s) (history s).
Definition with_ring (r : list slot) (s : state) : state :=
  MkState (filters s) (index s) (cells s) r (cpus s) (history s).

(** An element no key refers to. *)
Definition is_free (c : nat) (ix : gmap Z nat) : bool :=
  forallb (fun kv => negb (bool_decide (kv.2 = c))) (map_to_list ix).

(** [bpf_map_update_elem(&pending_connects, &pid, &ev, BPF_ANY)]: a new element
    takes the place of an old one of the key; a full map refuses a new key. *)
Definition has_room (pid : Z) (ix : gmap Z nat) : bool :=
  bool_decide (is_Some (ix !! pid)) || (Z.of_nat (size ix) <? pending_max).

(** One test of should_filter: [f && *f && !ok]; the value is loaded once. *)
Definition rejects (f : option Z) (ok : Z -> bool) : bool :=
  match f with Some v => negb (v =? 0) && negb (ok v) | None => false end.

(** One access of a probe on [cpu]. *)
Definition advance (cpu : nat) (c : choice) (pt : point) (s : state) : option state :=
  let reserved := if room c then Some (length (ring s)) else None in
  match pt with
  | C0 t sk =>
      Some (if rejects (am_lookup (filters s) 0) (fun v => v =? pid_of t)
            then finish cpu (Filtered t sk) s else go cpu (C1 t sk) s)
  | C1 t sk =>
      Some (if rejects (am_lookup (filters s) 1) (fun v => u16 v =? bswap16 (skc_dport sk))
            then finish cpu (Filtered t sk) s else go cpu (C2 t sk) s)
  | C2 t sk =>
      if has_room (pid_of t) (index s) then
        if is_free (cell c) (index s) then
          Some (go cpu (C3 t sk true)
                  (with_map (<[pid_of t := cell c]> (index s))
                            (<[cell c := event_of_connect t sk]> (cells s)) s))
        else None
      else Some (go cpu (C3 t sk false) s)
  | C3 t sk stored =>
      match reserved with
      | Some i => Some (go cpu (C4 t sk stored i) (with_ring (ring s ++ [Busy]) s))
      | None => Some (finish cpu (Connected t sk stored false) s)
      end
  | C4 t sk stored i =>
      Some (finish cpu (Connected t sk stored true)
              (with_ring (<[i := Done (event_of_connect t sk)]> (ring s)) s))
  | D0 t sk => Some (go cpu (D1 t sk (index s !! pid_of t)) s)
  | D1 t sk p =>
      match reserved with
      | Some i => Some (go cpu (D2 t sk p i (bytes c)) (with_ring (ring s ++ [Busy]) s))
      | None => Some (finish cpu (Closed t sk None) s)
      end
  | D2 t sk (Some a) i junk =>
      ev ← cells s !! a; Some (go cpu (D3 t sk i junk ev) s)
  | D2 t sk None i junk =>
      Some (go cpu (D4 t sk i junk (close_event (pid_of t) t sk junk)) s)
  | D3 t sk i junk rbev =>
      Some (go cpu (D4 t sk i junk rbev) (with_map (delete (pid_of t) (index s)) (cells s) s))
  | D4 t sk i junk rbev =>
      Some (finish cpu (Closed t sk (Some junk))
              (with_ring (<[i := Done (finish_close t sk rbev)]> (ring s)) s))
  end.

Definition step (l : label) (s : state) : option state :=
  match l with
  | Connect cpu t sk => if decide (cpus s !! cpu = None) then Some (go cpu (C0 t sk) s) else None
  | Close cpu t sk => if decide (cpus s !! cpu = None) then Some (go cpu (D0 t sk) s) else None
  | Run cpu c => pt ← cpus s !! cpu; advance cpu c pt s
  | SetFilter i v =>
      Some (MkState (am_update (filters s) i v).2 (index s) (cells s) (ring s) (cpus s) (history s))
  end.

(** Before the first probe. *)
Definition boot (m : FM) : state := MkState m ∅ ∅ [] ∅ [].

(** What a process has: its pending connect and its submitted records. *)
Definition pending (s : state) (p : Z) : option tcp_event := index s !! p ≫= fun a => cells s !! a.

Definition record_of (p : Z) (x : slot) : option tcp_event :=
  match x with Done e => if decide (TcpEvent.pid e = p) then Some e else None | Busy => None end.
Definition records (s : state) (p : Z) : list tcp_event := omap (record_of p) (ring s).

(** ** Probes run one after the other *)

Definition sequential (st : option tcp_event * list tcp_event) (o : outcome)
    : option tcp_event * list tcp_event :=
  match o with
  | Filtered _ _ => st
  | Connected t sk stored reserved =>
      let ev := event_of_connect t sk in
      (if stored then Some ev else st.1, st.2 ++ if (reserved : bool) then [ev] else [])
  | Closed t sk None => st
  | Closed t sk (Some junk) =>
      (None, st.2 ++ [finish_close t sk (default (close_event (pid_of t) t sk junk) st.1)])
  end.

Definition probes_of (p : Z) (os : list outcome) : list outcome :=
  filter (fun o => pid_of (outcome_task o) = p) os.

Definition alone (p : Z) (os : list outcome) : option tcp_event * list tcp_event :=
  fold_left sequential (probes_of p os) (None, []).

(** A process with one probe at a time: a probe starts when no other of its
    process is in progress. *)
Definition single_threaded (l : label) (s : state) : Prop :=
  match l with
  | Connect _ t _ | Close _ t _ =>
      map_Forall (fun _ pt => process pt <> pid_of t) (cpus s)
  | _ => True
  end.

Definition steps_to (s s' : state) : Prop :=
  exists l, single_threaded l s /\ step l s = Some s'.

Definition reachable (m : FM) (s : state) : Prop := rtc steps_to (boot m) s.

(** A schedule: each label must be enabled. *)
Fixpoint exec (ls : list label) (s : state) : option state :=
  match ls with [] => Some s | l :: ls => s' ← step l s; exec ls s' end.

End Machine.
Arguments state : clear implicits.

(** ** The invariant *)

Section Invariant.
Context {FM : Type} `{!ArrayMapOps Z FM}.
Implicit Types (s : state FM).

Definition slot_of (pt : point) : option nat :=
  match pt with C4 _ _ _ i | D2 _ _ _ i _ | D3 _ _ i _ _ | D4 _ _ i _ _ => Some i | _ => None end.

(** The record [i] is reserved, after all submitted records of the process. *)
Definition owns (p : Z) (i : nat) s : Prop :=
  ring s !! i = Some Busy /\
  forall j e, ring s !! j = Some (Done e) -> TcpEvent.pid e = p -> (j < i)%nat.

(** Process [p] between probes. *)
Definition resting (p : Z) s : Prop := (pending s p, records s p) = alone p (history s).

(** A probe in progress: its process is as its finished probes left it, up to
    what this probe has done. *)
Definition running (pt : point) s : Prop :=
  let p := process pt in
  let base := alone p (history s) in
  records s p = base.2 /\
  match pt with
  | C0 _ _ | C1 _ _ | C2 _ _ | D0 _ _ => pending s p = base.1
  | C3 t sk stored => pending s p = if stored then Some (event_of_connect t sk) else base.1
  | C4 t sk stored i =>
      pending s p = (if stored then Some (event_of_connect t sk) else base.1) /\ owns p i s
  | D1 _ _ a => index s !! p = a /\ pending s p = base.1
  | D2 _ _ a i _ => (index s !! p = a /\ pending s p = base.1) /\ owns p i s
  | D3 _ _ i _ rbev => base.1 = Some rbev /\ owns p i s
  | D4 t sk i junk rbev =>
      pending s p = None /\ rbev = default (close_event p t sk junk) base.1 /\ owns p i s
  end.

Record map_ok s : Prop := {
  m_inj : forall p q a, index s !! p = Some a -> index s !! q = Some a -> p = q;
  m_cells : forall p a, index s !! p = Some a -> is_Some (cells s !! a)
}.

Record inv s : Prop := {
  n_map : map_ok s;
  n_single : forall c c' pt pt', cpus s !! c = Some pt -> cpus s !! c' = Some pt' ->
    process pt = process pt' -> c = c';
  n_slots : forall c c' pt pt' i, cpus s !! c = Some pt -> cpus s !! c' = Some pt' ->
    slot_of pt = Some i -> slot_of pt' = Some i -> c = c';
  n_resting : forall p, (forall c pt, cpus s !! c = Some pt -> process pt <> p) -> resting p s;
  n_running : forall c pt, cpus s !! c = Some pt -> running pt s
}.

(** *** What a step of another process leaves alone *)

Record frame (p : Z) s s' : Prop := {
  f_index : index s' !! p = index s !! p;
  f_pending : pending s' p = pending s p;
  f_records : records s' p = records s p;
  f_alone : alone p (history s') = alone p (history s);
  f_done : forall j e, ring s' !! j = Some (Done e) -> TcpEvent.pid e = p ->
    ring s !! j = Some (Done e)
}.

Lemma frame_refl p s s' :
  index s' = index s -> cells s' = cells s -> ring s' = ring s ->
  alone p (history s') = alone p (history s) -> frame p s s'.
Proof.
  intros Hi Hc Hr Ha. split; unfold pending, records; rewrite ?Hi, ?Hc, ?Hr; done.
Qed.

Lemma running_frame pt s s' :
  frame (process pt) s s' ->
  (forall i, slot_of pt = Some i -> ring s !! i = Some Busy -> ring s' !! i = Some Busy) ->
  running pt s -> running pt s'.
Proof.
  intros [Hi Hp Hr Ha Hd] Hb. unfold running. rewrite Hr, Ha. intros [Hrec Hpt]. split; [done|].
  assert (forall i, slot_of pt = Some i -> owns (process pt) i s -> owns (process pt) i s') as Hown.
  { intros i Hs [Hbusy Hlast]. split; [by apply Hb|]. intros j e Hj He. eapply Hlast; eauto. }
  destruct pt; rewrite ?Hi, ?Hp; try exact Hpt; destruct_and? Hpt; split_and?; try assumption;
    by apply Hown.
Qed.

(** One probe of process [q] moves on [cpu]. *)
Section Move.
Context (s s' : state FM) (cpu : nat) (q : Z).
Hypothesis Hinv : inv s.
Hypothesis only : forall c pt, cpus s !! c = Some pt -> process pt = q <-> c = cpu.
Hypothesis map' : map_ok s'.
Hypothesis others_frame : forall p, p <> q -> frame p s s'.
Hypothesis others_busy : forall c pt i, c <> cpu -> cpus s !! c = Some pt -> slot_of pt = Some i ->
  ring s !! i = Some Busy -> ring s' !! i = Some Busy.

Lemma inv_go pt' :
  cpus s' = <[cpu := pt']> (cpus s) -> process pt' = q -> running pt' s' ->
  (forall c pt i, c <> cpu -> cpus s !! c = Some pt -> slot_of pt = Some i -> slot_of pt' <> Some i) ->
  inv s'.
Proof.
  intros Hc Hq Hrun Hslots. destruct Hinv as [_ Hsing Hsl Hrest Hrunning].
  split; rewrite ?Hc; [done| | | |].
  - intros c c' x y [[<- <-]|[Hne Hx]]%lookup_insert_Some [[<- <-]|[Hne' Hy]]%lookup_insert_Some Hp; try done.
    + symmetry. apply (only c' y Hy). congruence.
    + apply (only c x Hx). congruence.
    + by eapply Hsing.
  - intros c c' x y i [[<- <-]|[Hne Hx]]%lookup_insert_Some [[<- <-]|[Hne' Hy]]%lookup_insert_Some Hi Hj; try done.
    + exfalso. by eapply Hslots.
    + exfalso. by eapply (Hslots c x).
    + by eapply Hsl.
  - intros p Hidle. assert (p <> q) as Hpq.
    { intros ->. eapply Hidle; [apply lookup_insert_eq|done]. }
    destruct (others_frame p Hpq) as [_ Hp Hr Ha _]. unfold resting. rewrite Hp, Hr, Ha.
    apply Hrest. intros c pt Hcpt. destruct (decide (c = cpu)) as [->|Hne].
    + intros <-. apply Hpq. by apply (only cpu).
    + apply (Hidle c). by rewrite lookup_insert_ne.
  - intros c pt [[<- <-]|[Hne Hpt]]%lookup_insert_Some; [done|].
    eapply running_frame; [apply others_frame|intros i Hi; by eapply others_busy|by eapply Hrunning].
    intros Heq. by apply (only c pt Hpt) in Heq.
Qed.

Lemma inv_finish : cpus s' = delete cpu (cpus s) -> resting q s' -> inv s'.
Proof.
  intros Hc Hq. destruct Hinv as [_ Hsing Hsl Hrest Hrunning].
  split; rewrite ?Hc; [done| | | |].
  - intros c c' x y [_ Hx]%lookup_delete_Some [_ Hy]%lookup_delete_Some. by eapply Hsing.
  - intros c c' x y i [_ Hx]%lookup_delete_Some [_ Hy]%lookup_delete_Some. by eapply Hsl.
  - intros p Hidle. destruct (decide (p = q)) as [->|Hpq]; [done|].
    destruct (others_frame p Hpq) as [_ Hp Hr Ha _]. unfold resting. rewrite Hp, Hr, Ha.
    apply Hrest. intros c pt Hcpt. destruct (decide (c = cpu)) as [->|Hne].
    + intros <-. apply Hpq. by apply (only cpu).
    + apply (Hidle c). by rewrite lookup_delete_ne.
  - intros c pt [Hne Hpt]%lookup_delete_Some.
    eapply running_frame; [apply others_frame|intros i Hi; by eapply others_busy|by eapply Hrunning].
    intros Heq. by apply (only c pt Hpt) in Heq.
Qed.

End Move.

(** *** The parts of the state *)

Lemma is_free_spec c (ix : gmap Z nat) :
  is_free c ix = true -> forall p a, ix !! p = Some a -> a <> c.
Proof.
  unfold is_free. intros Hf p a Ha ->. rewrite forallb_forall in Hf.
  apply elem_of_map_to_list, list_elem_of_In in Ha. specialize (Hf _ Ha). cbn in Hf.
  by rewrite bool_decide_eq_true_2 in Hf.
Qed.

Lemma alone_snoc_same o os :
  alone (pid_of (outcome_task o)) (os ++ [o]) = sequential (alone (pid_of (outcome_task o)) os) o.
Proof.
  unfold alone, probes_of. rewrite filter_app, filter_cons_True by done. cbn. by rewrite fold_left_app.
Qed.

Lemma alone_snoc_other p o os :
  pid_of (outcome_task o) <> p -> alone p (os ++ [o]) = alone p os.
Proof.
  intros Hp. unfold alone, probes_of. rewrite filter_app, filter_cons_False by done. cbn.
  by rewrite app_nil_r.
Qed.

(** The pending connect of a process is one of its own. *)
Lemma alone_pid p os e : (alone p os).1 = Some e -> TcpEvent.pid e = p.
Proof.
  revert e. induction os as [|o os IH] using rev_ind; intros e; [done|].
  destruct (decide (pid_of (outcome_task o) = p)) as [<-|Hp].
  - rewrite alone_snoc_same. destruct o as [t sk|t sk stored reserved|t sk [junk|]]; cbn; try done; try apply IH.
    destruct stored; [by intros [= <-]|apply IH].
  - rewrite alone_snoc_other by done. apply IH.
Qed.

Lemma omap_Busy p (l : list slot) : omap (record_of p) (l ++ [Busy]) = omap (record_of p) l.
Proof. rewrite omap_app. cbn. apply app_nil_r. Qed.

Lemma omap_submit_other p (l : list slot) i e :
  l !! i = Some Busy -> TcpEvent.pid e <> p ->
  omap (record_of p) (<[i := Done e]> l) = omap (record_of p) l.
Proof.
  intros Hi He. rewrite <- (take_drop_middle l i Busy Hi) at 2.
  rewrite insert_take_drop by by eapply lookup_lt_Some. rewrite !omap_app. cbn.
  by rewrite decide_False.
Qed.

Lemma omap_submit p (l : list slot) i e :
  l !! i = Some Busy -> TcpEvent.pid e = p ->
  (forall j f, l !! j = Some (Done f) -> TcpEvent.pid f = p -> (j < i)%nat) ->
  omap (record_of p) (<[i := Done e]> l) = omap (record_of p) l ++ [e].
Proof.
  intros Hi He Hlast. rewrite <- (take_drop_middle l i Busy Hi) at 2.
  rewrite insert_take_drop by by eapply lookup_lt_Some. rewrite !omap_app. cbn.
  rewrite decide_True by done. rewrite <- app_assoc. do 2 f_equal.
  assert (forall k, k ⊆ drop (S i) l -> omap (record_of p) k = []) as Hnil; [|by rewrite Hnil].
  intros k Hk. induction k as [|x k IH]; [done|]. cbn.
  assert (x ∈ drop (S i) l) as (j & Hj)%list_elem_of_lookup by (apply Hk; left).
  rewrite lookup_drop in Hj. rewrite IH by (intros y Hy; apply Hk; by right).
  destruct x as [|f]; [done|]. cbn. destruct (decide (TcpEvent.pid f = p)) as [Hf|]; [|done].
  specialize (Hlast _ _ Hj Hf). lia.
Qed.

(** *** Frames of the accesses *)

Lemma frame_map p q s s' :
  (forall r, r <> q -> index s' !! r = index s !! r) ->
  (forall a, index s !! p = Some a -> cells s' !! a = cells s !! a) ->
  ring s' = ring s -> history s' = history s -> p <> q -> frame p s s'.
Proof.
  intros Hi Hc Hr Hh Hp. split; unfold pending, records; rewrite ?Hr, ?Hh, ?(Hi p Hp); try done.
  destruct (index s !! p) as [a|] eqn:Ha; [|done]. by apply Hc.
Qed.

Lemma frame_reserve p s s' :
  index s' = index s -> cells s' = cells s -> history s' = history s ->
  ring s' = ring s ++ [Busy] -> frame p s s'.
Proof.
  intros Hi Hc Hh Hr. split; unfold pending, records; rewrite ?Hi, ?Hc, ?Hh, ?Hr; try done.
  - apply omap_Busy.
  - intros j e [Hj|[_ Hj]]%lookup_app_Some; [done|].
    by apply list_lookup_singleton_Some in Hj as [_ [=]].
Qed.

Lemma frame_submit p q s s' i e o :
  index s' = index s -> cells s' = cells s -> history s' = history s ++ [o] ->
  ring s' = <[i := Done e]> (ring s) -> ring s !! i = Some Busy ->
  TcpEvent.pid e = q -> pid_of (outcome_task o) = q -> p <> q -> frame p s s'.
Proof.
  intros Hi Hc Hh Hr Hb He Ho Hp. split; unfold pending, records; rewrite ?Hi, ?Hc, ?Hh, ?Hr; try done.
  - apply omap_submit_other; [done|congruence].
  - apply alone_snoc_other. congruence.
  - intros j f [(<- & [= <-] & _)|[_ Hj]]%list_lookup_insert_Some Hf; [congruence|done].
Qed.

(** Reserving keeps what is reserved, and gives a record after all others. *)
Lemma owns_new p s s' : ring s' = ring s ++ [Busy] -> owns p (length (ring s)) s'.
Proof.
  intros Hr. split; rewrite Hr; [by rewrite lookup_app_r, Nat.sub_diag by lia|].
  intros j e [Hj|[_ Hj]]%lookup_app_Some _; [by eapply lookup_lt_Some|].
  by apply list_lookup_singleton_Some in Hj as [_ [=]].
Qed.

(** *** The accesses *)

Lemma only_of s cpu pt :
  inv s -> cpus s !! cpu = Some pt ->
  forall c pt', cpus s !! c = Some pt' -> process pt' = process pt <-> c = cpu.
Proof.
  intros I Hpt c pt' Hc. split.
  - intros Hp. by eapply (n_single _ I).
  - intros ->. congruence.
Qed.

Lemma go_quiet s cpu pt pt' :
  inv s -> cpus s !! cpu = Some pt -> process pt' = process pt -> running pt' s ->
  (slot_of pt' = None \/ slot_of pt' = slot_of pt) -> inv (go cpu pt' s).
Proof.
  intros I Hpt Hp Hrun Hslot.
  apply (inv_go s (go cpu pt' s) cpu (process pt)) with pt'; try done.
  - by apply only_of.
  - destruct (n_map _ I). by split.
  - intros c x i Hne Hx Hi Hi'. destruct Hslot as [Hs|Hs]; [congruence|].
    apply Hne. eapply (n_slots _ I); [exact Hx|exact Hpt|exact Hi|congruence].
Qed.

Lemma finish_quiet s cpu pt o :
  inv s -> cpus s !! cpu = Some pt -> outcome_task o = task_of pt ->
  (pending s (process pt), records s (process pt)) = sequential (alone (process pt) (history s)) o ->
  inv (finish cpu o s).
Proof.
  intros I Hpt Ho Hseq. assert (pid_of (outcome_task o) = process pt) as Hpid by (by rewrite Ho).
  apply (inv_finish s (finish cpu o s) cpu (process pt)); try done.
  - by apply only_of.
  - destruct (n_map _ I). by split.
  - intros p Hp. apply frame_refl; try done. cbn. apply alone_snoc_other. congruence.
  - pose proof (alone_snoc_same o (history s)) as Ha. rewrite Hpid, <- Hseq in Ha. symmetry. exact Ha.
Qed.

Lemma reserve_ok s cpu pt pt' :
  inv s -> cpus s !! cpu = Some pt -> process pt' = process pt ->
  slot_of pt' = Some (length (ring s)) ->
  (owns (process pt) (length (ring s)) (with_ring (ring s ++ [Busy]) s) ->
   records (with_ring (ring s ++ [Busy]) s) (process pt) = records s (process pt) ->
   running pt' (with_ring (ring s ++ [Busy]) s)) ->
  inv (go cpu pt' (with_ring (ring s ++ [Busy]) s)).
Proof.
  intros I Hpt Hp Hslot Hrun.
  apply (inv_go s (go cpu pt' (with_ring (ring s ++ [Busy]) s)) cpu (process pt)) with pt'; try done.
  - by apply only_of.
  - destruct (n_map _ I). by split.
  - intros p _. by apply frame_reserve.
  - intros c x i _ _ _ Hb. by apply lookup_app_l_Some.
  - apply Hrun; [by apply owns_new|]. apply omap_Busy.
  - intros c x i Hne Hx Hi. rewrite Hslot. intros [= <-].
    pose proof (n_running _ I c x Hx) as Hr.
    assert (owns (process x) (length (ring s)) s) as [Hb _].
    { unfold running in Hr. destruct x; cbn in Hi; try done; injection Hi as ->; tauto. }
    apply lookup_lt_Some in Hb. lia.
Qed.

Lemma submit_ok s cpu pt i e o :
  inv s -> cpus s !! cpu = Some pt -> slot_of pt = Some i -> owns (process pt) i s ->
  TcpEvent.pid e = process pt -> outcome_task o = task_of pt ->
  (pending s (process pt), records s (process pt) ++ [e]) =
    sequential (alone (process pt) (history s)) o ->
  inv (finish cpu o (with_ring (<[i := Done e]> (ring s)) s)).
Proof.
  intros I Hpt Hslot [Hb Hlast] He Ho Hseq.
  assert (pid_of (outcome_task o) = process pt) as Hpid by (by rewrite Ho).
  apply (inv_finish s (finish cpu o (with_ring (<[i := Done e]> (ring s)) s)) cpu (process pt)); try done.
  - by apply only_of.
  - destruct (n_map _ I). by split.
  - intros p Hp. by eapply frame_submit.
  - intros c x j Hne Hx Hj Hbj. cbn. rewrite list_lookup_insert_ne; [done|]. intros <-.
    apply Hne. by eapply (n_slots _ I).
  - pose proof (alone_snoc_same o (history s)) as Ha. rewrite Hpid, <- Hseq in Ha.
    unfold resting. etransitivity; [|symmetry; exact Ha]. f_equal. by apply omap_submit.
Qed.

(** A new element for the process, from the free list. *)
Lemma update_ok s cpu t sk a :
  inv s -> cpus s !! cpu = Some (C2 t sk) -> is_free a (index s) = true ->
  inv (go cpu (C3 t sk true) (with_map (<[pid_of t := a]> (index s))
                                (<[a := event_of_connect t sk]> (cells s)) s)).
Proof.
  intros I Hpt Hfree. pose proof (is_free_spec _ _ Hfree) as Hf. destruct (n_map _ I) as [Hinj Hcells].
  set (s' := go cpu _ _).
  apply (inv_go s s' cpu (pid_of t)) with (C3 t sk true); try done.
  - by apply (only_of s cpu (C2 t sk)).
  - split; cbn.
    + intros p q b [[Hp Hb]|[_ Hp]]%lookup_insert_Some [[Hq Hb']|[_ Hq]]%lookup_insert_Some.
      * congruence.
      * by apply Hf in Hq.
      * by apply Hf in Hp.
      * by eapply Hinj.
    + intros p b [[<- <-]|[Hne Hp]]%lookup_insert_Some; [by rewrite lookup_insert_eq|].
      rewrite lookup_insert_ne; [by eapply Hcells|]. intros Heq. by apply (Hf p b).
  - intros p Hp. apply (frame_map p (pid_of t)); try done; cbn.
    + intros r Hr. by rewrite lookup_insert_ne.
    + intros b Hb. apply lookup_insert_ne. intros Heq. by apply (Hf p b).
  - destruct (n_running _ I _ _ Hpt) as [Hrec _]. split; [done|].
    unfold pending. cbn. unfold process. cbn. by rewrite lookup_insert_eq; cbn; rewrite lookup_insert_eq.
Qed.

Lemma delete_ok s cpu t sk i junk rbev :
  inv s -> cpus s !! cpu = Some (D3 t sk i junk rbev) ->
  inv (go cpu (D4 t sk i junk rbev) (with_map (delete (pid_of t) (index s)) (cells s) s)).
Proof.
  intros I Hpt. destruct (n_map _ I) as [Hinj Hcells]. set (s' := go cpu _ _).
  apply (inv_go s s' cpu (pid_of t)) with (D4 t sk i junk rbev); try done.
  - by apply (only_of s cpu (D3 t sk i junk rbev)).
  - split; cbn.
    + intros p q b [_ Hp]%lookup_delete_Some [_ Hq]%lookup_delete_Some. by eapply Hinj.
    + intros p b [_ Hp]%lookup_delete_Some. by eapply Hcells.
  - intros p Hp. apply (frame_map p (pid_of t)); try done; cbn.
    intros r Hr. by rewrite lookup_delete_ne.
  - destruct (n_running _ I _ _ Hpt) as (Hrec & Hbase & Hown). split; [done|].
    split; [unfold pending; cbn; unfold process; cbn; by rewrite lookup_delete_eq|].
    split; [|done]. change (alone _ (history s')) with (alone (pid_of t) (history s)).
    change (alone (process _) (history s)) with (alone (pid_of t) (history s)) in Hbase.
    by rewrite Hbase.
  - intros c x j Hne Hx Hj Hj'. apply Hne. eapply (n_slots _ I); [exact Hx|exact Hpt|exact Hj|exact Hj'].
Qed.

Lemma pair_of {A B} (b : A * B) x y : x = b.1 -> y = b.2 -> (x, y) = b.
Proof. intros -> ->. by destruct b. Qed.

Lemma advance_inv s s' cpu c pt :
  inv s -> cpus s !! cpu = Some pt -> advance cpu c pt s = Some s' -> inv s'.
Proof.
  intros I Hpt Hs. pose proof (n_running _ I _ _ Hpt) as [Hrec Hrun].
  destruct pt as [t sk|t sk|t sk|t sk stored|t sk stored i|t sk|t sk p|t sk p i junk|t sk i junk rbev|t sk i junk rbev];
    unfold advance in Hs.
  - destruct (rejects _ _); apply (inj Some) in Hs as <-.
    + eapply finish_quiet; [exact I|exact Hpt|reflexivity|]. by apply pair_of.
    + eapply go_quiet; [exact I|exact Hpt|reflexivity| |by left]. by split.
  - destruct (rejects _ _); apply (inj Some) in Hs as <-.
    + eapply finish_quiet; [exact I|exact Hpt|reflexivity|]. by apply pair_of.
    + eapply go_quiet; [exact I|exact Hpt|reflexivity| |by left]. by split.
  - destruct (has_room (pid_of t) (index s)).
    + destruct (is_free (cell c) (index s)) eqn:Hf.
      * apply (inj Some) in Hs as <-. by apply update_ok.
      * discriminate Hs.
    + apply (inj Some) in Hs as <-. eapply go_quiet; [exact I|exact Hpt|reflexivity| |by left]. by split.
  - destruct (room c); apply (inj Some) in Hs as <-.
    + eapply reserve_ok; [exact I|exact Hpt|reflexivity..|]. intros Hown Hr.
      split; [by etransitivity|]. by split.
    + eapply finish_quiet; [exact I|exact Hpt|reflexivity|]. apply pair_of; [exact Hrun|].
      etransitivity; [exact Hrec|]. symmetry. apply app_nil_r.
  - apply (inj Some) in Hs as <-. destruct Hrun as [Hp Hown].
    eapply submit_ok; [exact I|exact Hpt|reflexivity|exact Hown|reflexivity..|].
    apply pair_of; [exact Hp|]. by rewrite Hrec.
  - apply (inj Some) in Hs as <-. eapply go_quiet; [exact I|exact Hpt|reflexivity| |by left]. by split.
  - destruct (room c); apply (inj Some) in Hs as <-.
    + eapply reserve_ok; [exact I|exact Hpt|reflexivity..|]. intros Hown Hr.
      split; [by etransitivity|]. by split.
    + destruct Hrun as [_ Hp]. eapply finish_quiet; [exact I|exact Hpt|reflexivity|]. by apply pair_of.
  - destruct Hrun as [[Hi Hp] Hown]. destruct p as [a|].
    + destruct (cells s !! a) as [ev|] eqn:Ha; [|discriminate Hs]. apply (inj Some) in Hs as <-.
      eapply go_quiet; [exact I|exact Hpt|reflexivity| |by right]. split; [done|]. split; [|done].
      etransitivity; [symmetry; exact Hp|]. unfold pending. rewrite Hi. exact Ha.
    + apply (inj Some) in Hs as <-. eapply go_quiet; [exact I|exact Hpt|reflexivity| |by right]. split; [done|].
      change (process (D2 t sk None i junk)) with (pid_of t) in Hi, Hp.
      assert (pending s (pid_of t) = None) as Hnone by (unfold pending; by rewrite Hi).
      split; [exact Hnone|]. split; [|done]. rewrite Hnone in Hp.
      change (alone (process _) _) with (alone (pid_of t) (history s)). by rewrite <- Hp.
  - apply (inj Some) in Hs as <-. by apply delete_ok.
  - apply (inj Some) in Hs as <-. destruct Hrun as (Hp & Hrbev & Hown).
    eapply submit_ok; [exact I|exact Hpt|reflexivity|exact Hown| |reflexivity|].
    + rewrite Hrbev. destruct (alone _ _).1 as [e|] eqn:Hb; [by apply alone_pid in Hb|done].
    + apply pair_of; [exact Hp|]. by rewrite Hrec, Hrbev.
Qed.

Lemma probe_start_inv s cpu pt :
  inv s -> cpus s !! cpu = None -> map_Forall (fun _ x => process x <> process pt) (cpus s) ->
  running pt s -> slot_of pt = None -> inv (go cpu pt s).
Proof.
  intros I Hc Hsingle Hrun Hslot.
  apply (inv_go s (go cpu pt s) cpu (process pt)) with pt; try done.
  - intros c x Hx. split; [|by intros ->; congruence]. intros Hp. by apply Hsingle in Hx.
  - destruct (n_map _ I). by split.
  - intros c x i _ _ _. by rewrite Hslot.
Qed.

Lemma smp_step_inv s s' : inv s -> steps_to s s' -> inv s'.
Proof.
  intros I (l & Hl & Hs). destruct l as [cpu t sk|cpu t sk|cpu c|i v]; cbn in Hs, Hl.
  - destruct (decide (cpus s !! cpu = None)) as [Hc|]; [|done]. injection Hs as <-.
    assert (resting (pid_of t) s) as Hrest by (apply (n_resting _ I); intros c pt Hpt; by apply Hl in Hpt).
    apply probe_start_inv; try done. split; [exact (f_equal snd Hrest)|exact (f_equal fst Hrest)].
  - destruct (decide (cpus s !! cpu = None)) as [Hc|]; [|done]. injection Hs as <-.
    assert (resting (pid_of t) s) as Hrest by (apply (n_resting _ I); intros c pt Hpt; by apply Hl in Hpt).
    apply probe_start_inv; try done. split; [exact (f_equal snd Hrest)|exact (f_equal fst Hrest)].
  - destruct (cpus s !! cpu) as [pt|] eqn:Hpt; [|done]. by eapply advance_inv.
  - injection Hs as <-. destruct I as [[Hi Hc] H1 H2 H3 H4].
    split; [by split|exact H1|exact H2|exact H3|exact H4].
Qed.

Lemma smp_reachable_inv m s : reachable m s -> inv s.
Proof.
  intros Hr. eapply rtc_preserves; [intros; by eapply smp_step_inv|exact Hr|].
  split; try (by intros c c' pt pt'; cbn; rewrite ?lookup_empty).
  - by split.
  - done.
  - intros c pt. cbn. by rewrite lookup_empty.
Qed.

End Invariant.

(** ** A race of two threads of one process *)

Section Race.
Context {FM : Type} `{!ArrayMapOps Z FM}.
Implicit Types (s : state FM).

(** [n] accesses of a CPU; an update takes element [a], the ring buffer has room
    and its new records hold [junk]. *)
Definition accesses (cpu n a : nat) (junk : tcp_event) : list label :=
  replicate n (Run cpu (MkChoice a true junk)).

(** Two threads of a process close two sockets on CPUs [c1] and [c2]: the first
    has looked up the pending connect, element [a], when the second does its
    whole close.  A task of another process connects on [c3], where the freed
    element is taken.  Then the first goes on. *)
Definition race (c1 c2 c3 a : nat) (t1 : Task) (sk1 : Sock) (t2 : Task) (sk2 : Sock)
    (u : Task) (su : Sock) (junk : tcp_event) : list label :=
  (Close c1 t1 sk1 :: accesses c1 1 a junk) ++
  (Close c2 t2 sk2 :: accesses c2 5 a junk) ++
  (Connect c3 u su :: accesses c3 5 a junk) ++
  accesses c1 4 a junk.

Lemma exec_app ls ls' s : exec (ls ++ ls') s = exec ls s ≫= exec ls'.
Proof.
  revert s. induction ls as [|l ls IH]; intros s; [done|]. cbn.
  destruct (step l s) as [s'|]; cbn; [apply IH|done].
Qed.

Lemma submit_last (r : list slot) e : <[length r := Done e]> (r ++ [Busy]) = r ++ [Done e].
Proof. by rewrite insert_app_r_alt, Nat.sub_diag by lia. Qed.

(** A close that has looked up element [a], whatever is in it by now. *)
Lemma exec_close_rest s cpu t sk a ev junk :
  cpus s !! cpu = Some (D1 t sk (Some a)) -> cells s !! a = Some ev ->
  exec (accesses cpu 4 a junk) s =
  Some (MkState (filters s) (delete (pid_of t) (index s)) (cells s) (ring s ++ [Done (finish_close t sk ev)])
          (delete cpu (cpus s)) (history s ++ [Closed t sk (Some junk)])).
Proof.
  intros Hc Ha. unfold accesses. cbn. rewrite Hc. cbn. rewrite lookup_insert_eq. cbn. rewrite Ha. cbn.
  rewrite lookup_insert_eq. cbn. rewrite lookup_insert_eq. cbn. unfold finish, with_ring. cbn.
  by rewrite submit_last, !delete_insert_eq.
Qed.

Lemma exec_lookup s cpu t sk a junk :
  cpus s !! cpu = None ->
  exec (Close cpu t sk :: accesses cpu 1 a junk) s = Some (go cpu (D1 t sk (index s !! pid_of t)) s).
Proof.
  intros Hc. unfold accesses. cbn. rewrite decide_True by done. cbn. rewrite lookup_insert_eq. cbn.
  unfold go. cbn. by rewrite insert_insert_eq.
Qed.

Lemma exec_connect s cpu t sk a junk :
  cpus s !! cpu = None ->
  rejects (am_lookup (filters s) 0) (fun v => v =? pid_of t) = false ->
  rejects (am_lookup (filters s) 1) (fun v => u16 v =? bswap16 (skc_dport sk)) = false ->
  has_room (pid_of t) (index s) = true -> is_free a (index s) = true ->
  let ev := event_of_connect t sk in
  exec (Connect cpu t sk :: accesses cpu 5 a junk) s =
  Some (MkState (filters s) (<[pid_of t := a]> (index s)) (<[a := ev]> (cells s)) (ring s ++ [Done ev])
          (cpus s) (history s ++ [Connected t sk true true])).
Proof.
  intros Hc H0 H1 Hroom Hfree ev. unfold accesses. cbn. rewrite decide_True by done. cbn.
  rewrite lookup_insert_eq. cbn. rewrite H0. cbn. rewrite lookup_insert_eq. cbn. rewrite H1. cbn.
  rewrite lookup_insert_eq. cbn. rewrite Hroom, Hfree. cbn. rewrite lookup_insert_eq. cbn.
  rewrite lookup_insert_eq. cbn. unfold finish, with_ring. cbn.
  by rewrite submit_last, !delete_insert_eq, delete_id.
Qed.

Lemma is_free_delete s p a :
  map_ok s -> index s !! p = Some a -> is_free a (delete p (index s)) = true.
Proof.
  intros [Hinj _] Hp. unfold is_free. apply forallb_forall. intros [q b] Hq.
  apply list_elem_of_In, elem_of_map_to_list, lookup_delete_Some in Hq as [Hne Hq]. cbn.
  apply negb_true_iff, bool_decide_eq_false. intros ->. apply Hne. by eapply Hinj.
Qed.

(** What the race leaves. *)
Lemma exec_race s c1 c2 c3 a t1 sk1 t2 sk2 u su ev junk :
  map_ok s -> index s !! pid_of t1 = Some a -> cells s !! a = Some ev ->
  pid_of t2 = pid_of t1 -> c1 <> c2 -> c1 <> c3 -> c2 <> c3 ->
  Forall (fun c => cpus s !! c = None) [c1; c2; c3] ->
  rejects (am_lookup (filters s) 0) (fun v => v =? pid_of u) = false ->
  rejects (am_lookup (filters s) 1) (fun v => u16 v =? bswap16 (skc_dport su)) = false ->
  has_room (pid_of u) (delete (pid_of t1) (index s)) = true ->
  let opened := event_of_connect u su in
  exec (race c1 c2 c3 a t1 sk1 t2 sk2 u su junk) s =
  Some (MkState (filters s) (delete (pid_of t1) (<[pid_of u := a]> (delete (pid_of t1) (index s))))
          (<[a := opened]> (cells s))
          (ring s ++ [Done (finish_close t2 sk2 ev); Done opened; Done (finish_close t1 sk1 opened)])
          (cpus s)
          (history s ++ [Closed t2 sk2 (Some junk); Connected u su true true; Closed t1 sk1 (Some junk)])).
Proof.
  intros Hm Hi Hc Hp H12 H13 H23 Hidle H0 H1 Hroom opened. unfold race.
  apply Forall_cons in Hidle as [Hc1 [Hc2 [Hc3 _]%Forall_cons]%Forall_cons].
  rewrite exec_app, exec_lookup, Hi by done. cbn [mbind option_bind]. rewrite exec_app.
  change (Close c2 t2 sk2 :: accesses c2 5 a junk)
    with ((Close c2 t2 sk2 :: accesses c2 1 a junk) ++ accesses c2 4 a junk).
  rewrite exec_app, exec_lookup by (cbn; by rewrite lookup_insert_ne). cbn [mbind option_bind].
  cbn [index go]. rewrite Hp, Hi.
  rewrite (exec_close_rest _ _ t2 sk2 a ev) by (cbn; by rewrite ?lookup_insert_eq).
  cbn [mbind option_bind]. rewrite exec_app, exec_connect; cbn -[exec accesses];
    [|by rewrite lookup_delete_ne, !lookup_insert_ne, Hc3|done|done|by rewrite Hp|rewrite Hp; by apply is_free_delete].
  rewrite (exec_close_rest _ _ t1 sk1 a opened); cbn -[exec];
    [|by rewrite lookup_delete_ne, lookup_insert_ne, lookup_insert_eq|by rewrite lookup_insert_eq].
  assert (forall x y : point, delete c1 (delete c2 (<[c2 := y]> (<[c1 := x]> (cpus s)))) = cpus s) as Hcpus.
  { intros x y. rewrite delete_insert_id by by rewrite lookup_insert_ne. by rewrite delete_insert_id. }
  rewrite Hp, Hcpus.
  by rewrite <- !app_assoc.
Qed.

End Race.

End Smp.

(** ** One probe after the other

    [Smp.sequential] is what the probes of [TcpTracer], run whole, do to the
    pending connect of their process and to the records. *)

Section Sequential.
Context {FM PM RB : Type}.
Context `{AM : ArrayMap Z FM filters_max}.
Context `{HM : HashMap Z tcp_event PM pending_max}.
Context `{RL : RingBuf tcp_event RB}.
#[local] Abbreviation S := (Tracer.State FM PM RB).

Lemma sequential_connect t sk (s : S) :
  let s' := (trace_tcp_connect t sk s).2 in
  (hm_lookup (pending_connects s') (pid_of t), rb_records (tcp_events s')) =
  Smp.sequential (hm_lookup (pending_connects s) (pid_of t), rb_records (tcp_events s))
    (if filtered t sk s then Smp.Filtered t sk
     else Smp.Connected t sk (bool_decide (hm_room pending_max (pending_connects s) (pid_of t)))
            (bool_decide (is_Some (rb_reserve (tcp_events s))))).
Proof.
  cbn zeta. destruct (connect_spec t sk s) as [_ Hs]. cbn zeta in Hs.
  destruct (filtered t sk s); [by rewrite Hs|]. destruct Hs as [Hp Hr]. cbn.
  rewrite Hp, Hr. unfold submitted. f_equal.
  - case_bool_decide as Hroom; [by rewrite decide_True|]. rewrite decide_False; [done|]. tauto.
  - destruct (rb_reserve _); [by rewrite bool_decide_eq_true_2|].
    rewrite bool_decide_eq_false_2; [done|]. by intros [].
Qed.

Lemma sequential_close t sk (s : S) :
  let s' := (trace_tcp_close t sk s).2 in
  (hm_lookup (pending_connects s') (pid_of t), rb_records (tcp_events s')) =
  Smp.sequential (hm_lookup (pending_connects s) (pid_of t), rb_records (tcp_events s))
    (Smp.Closed t sk (fst <$> rb_reserve (tcp_events s))).
Proof.
  cbn zeta. destruct (close_spec t sk s) as [_ Hs]. cbn zeta in Hs.
  destruct (rb_reserve (tcp_events s)) as [[junk rb]|]; cbn; [|by rewrite Hs].
  destruct Hs as [Hp Hr]. by rewrite Hp, Hr, decide_True.
Qed.

End Sequential.

(** ** Properties *)

Section Properties.
Import Smp.

(** C10: processes do not disturb each other: under every interleaving of
    probes on several CPUs, access by access, in which a process has one probe
    in progress at a time, a process between two probes has exactly the pending
    connect and the submitted records, in order, of its finished probes run one
    after the other on their own. *)
Theorem smp_processes_isolated {FM} `{!ArrayMapOps Z FM} (m : FM) s p :
  reachable m s -> (forall c pt, cpus s !! c = Some pt -> process pt <> p) ->
  (pending s p, records s p) = alone p (history s).
Proof. intros Hr. apply (n_resting _ (smp_reachable_inv m s Hr)). Qed.


End Properties.

(** ** Witnesses and the race *)

Module SmpWitness.
Import Smp TracerWitness.

(** [n] accesses of a CPU; an update takes element [a]. *)
Definition run (cpu n a : nat) : list label := replicate n (Run cpu (MkChoice a true junk)).

(** Process 42 connects on CPU 0 while process 77 connects on CPU 1. *)
Definition two_connects : list label :=
  [Connect 0 (task 1) sock1] ++ run 0 2 0 ++ [Connect 1 other_task sock2] ++ run 1 3 0 ++
  run 0 2 1 ++ run 1 2 0 ++ run 0 1 0 ++ [Close 0 (task 2) sock1] ++ run 0 2 0.

#[export] Instance single_threaded_dec l (s : state (gmap Z Z)) : Decision (single_threaded l s).
Proof. destruct l; cbn; apply _. Defined.

(** The same run, with one probe of a process at a time. *)
Fixpoint exec_single (ls : list label) (s : state (gmap Z Z)) : option (state (gmap Z Z)) :=
  match ls with
  | [] => Some s
  | l :: ls => if decide (single_threaded l s) then s' ← step l s; exec_single ls s' else None
  end.

Lemma exec_single_reaches ls s s' : exec_single ls s = Some s' -> rtc steps_to s s'.
Proof.
  revert s. induction ls as [|l ls IH]; intros s Hx; cbn in Hx; [by injection Hx as <-|].
  destruct (decide (single_threaded l s)) as [Hl|]; [|discriminate Hx].
  destruct (step l s) as [s1|] eqn:Hs; [|discriminate Hx]. eapply rtc_l; [by exists l|]. by apply IH.
Qed.

Definition two_state : state (gmap Z Z) :=
  Eval vm_compute in default (boot ∅) (exec_single two_connects (boot ∅)).

(** Process 42 connects. *)
Definition one_connect : list label := [Connect 0 (task 1) sock1] ++ run 0 5 0.
Definition connected_state : state (gmap Z Z) :=
  Eval vm_compute in default (boot ∅) (exec_single one_connect (boot ∅)).

(** Another socket of it. *)
Definition sock3 : Sock := MkSock 1 8 40002 8080 1 2.

End SmpWitness.

Section Witnesses.
Import Smp TracerWitness SmpWitness.

(** Process 77 has connected while a close of process 42 is in progress. *)
Lemma smp_processes_isolated_witness :
  (pending two_state 77, records two_state 77) = alone 77 (history two_state) /\
  pending two_state 77 = Some (event_of_connect other_task sock2).
Proof.
  split; [|vm_compute; reflexivity].
  apply (smp_processes_isolated ∅ two_state 77).
  - apply (exec_single_reaches two_connects). vm_compute. reflexivity.
  - change (map_Forall (fun (_ : nat) pt => process pt <> 77) (cpus two_state)).
    apply (bool_decide_unpack _). vm_compute. exact I.
Defined.


End Witnesses.
