(* ===== verification/SyscallAudit.v ===== *)
(** * SyscallAudit: bpf/syscall_audit.bpf.c

    The tracepoint program on [sys_enter] that reports suspicious system calls
    of users not on the white list. *)

From S2P Require Import Prelude Common BpfMaps.

Module Audit.

Definition SYS_execve : Z := 59.
Definition SYS_execveat : Z := 322.
Definition SYS_ptrace : Z := 101.
Definition SYS_process_vm_readv : Z := 310.
Definition SYS_process_vm_writev : Z := 311.

Definition whitelist_max : Z := 64.

(** [struct trace_event_raw_sys_enter]: the number and the six arguments. *)
Record SysEnter := MkSysEnter {
  id : Z;                (** long *)
  ctx_args : list Z      (** unsigned long[6] *)
}.

Definition is_suspicious (nr : Z) : bool :=
  (nr =? SYS_execve) || (nr =? SYS_execveat) || (nr =? SYS_ptrace) ||
  (nr =? SYS_process_vm_readv) || (nr =? SYS_process_vm_writev).

Section Program.
Context {WM RB : Type} `{!HashMapOps Z Z WM} `{!RingBufOps syscall_event RB}.

Record State := MkState { uid_whitelist : WM; syscall_events : RB }.

(** [None]: an index outside [ctx->args]. *)
Definition audit_syscall (t : Task) (ctx : SysEnter) (s : State) : option (Z * State) :=
  let nr := id ctx in
  if negb (is_suspicious nr) then Some (0, s) else
  let uid := Z.land (uid_gid t) 0xFFFFFFFF in
  let wl := hm_lookup (uid_whitelist s) uid in
  if match wl with Some v => negb (v =? 0) | None => false end then Some (0, s) else
  match rb_reserve (syscall_events s) with
  | None => Some (0, s)
  | Some (_, rb) =>
      arg0 ← ctx_args ctx !! 0%nat;
      arg1 ← ctx_args ctx !! 1%nat;
      arg2 ← ctx_args ctx !! 2%nat;
      let ev := SyscallEvent.Mk (ktime_ns t) (u32 (Z.shiftr (pid_tgid t) 32)) uid
                  (current_comm t) nr [arg0; arg1; arg2] in
      Some (0, MkState (uid_whitelist s) (rb_submit rb ev))
  end.

(** A sequence of system calls. *)
Fixpoint audit_all (calls : list (Task * SysEnter)) (s : State) : option State :=
  match calls with
  | [] => Some s
  | (t, ctx) :: calls => '(_, s) ← audit_syscall t ctx s; audit_all calls s
  end.

End Program.
Arguments State : clear implicits.

(** *** Reference: which calls are reported, and as what *)

Definition suspicious_calls : list Z := [59; 101; 310; 311; 322].

Definition event_of (t : Task) (ctx : SysEnter) : syscall_event :=
  SyscallEvent.Mk (ktime_ns t) (pid_of t) (uid_of t) (current_comm t) (id ctx)
    (take 3 (ctx_args ctx)).

Section Spec.
Context {WM RB : Type} `{WO : HashMapOps Z Z WM} `{RL : RingBuf syscall_event RB}.
#[local] Abbreviation S := (State WM RB).

Definition whitelisted (m : WM) (uid : Z) : Prop := exists v, hm_lookup m uid = Some v /\ v <> 0.

#[export] Instance whitelisted_dec m uid : Decision (whitelisted m uid).
Proof.
  unfold whitelisted. destruct (hm_lookup m uid) as [v|].
  - destruct (decide (v = 0)); [right|left; eauto]. intros (v' & [= <-] & Hv). done.
  - right. by intros (v & [=] & _).
Defined.

Definition reported (m : WM) (c : Task * SysEnter) : Prop :=
  id c.2 ∈ suspicious_calls /\ ~ whitelisted m (uid_of c.1).

Lemma is_suspicious_spec nr : is_suspicious nr = true <-> nr ∈ suspicious_calls.
Proof.
  unfold is_suspicious, suspicious_calls. rewrite !orb_true_iff, !Z.eqb_eq.
  rewrite !elem_of_cons, elem_of_nil. tauto.
Qed.

Lemma whitelist_test m uid :
  match hm_lookup m uid with Some v => negb (v =? 0) | None => false end = true <->
  whitelisted m uid.
Proof.
  unfold whitelisted. destruct (hm_lookup m uid) as [v|]; [|naive_solver].
  destruct (Z.eqb_spec v 0); naive_solver.
Qed.

Lemma audit_spec t ctx (s : S) :
  length (ctx_args ctx) = 6%nat ->
  exists s', audit_syscall t ctx s = Some (0, s') /\ uid_whitelist s' = uid_whitelist s /\
    if decide (reported (uid_whitelist s) (t, ctx)) then
      match rb_reserve (syscall_events s) with
      | None => s' = s
      | Some _ => rb_records (syscall_events s') =
                  rb_records (syscall_events s) ++ [event_of t ctx]
      end
    else s' = s.
Proof.
  intros Hargs. unfold audit_syscall. rewrite land_u32. fold (uid_of t) (pid_of t).
  destruct (is_suspicious (id ctx)) eqn:Hnr.
  2: { exists s. rewrite decide_False; [done|]. intros [Hs%is_suspicious_spec _]. cbn in Hs.
       congruence. }
  apply is_suspicious_spec in Hnr. cbn [negb].
  destruct (match hm_lookup (uid_whitelist s) (uid_of t) with
            | Some v => _ | None => _ end) eqn:Hw.
  { exists s. apply whitelist_test in Hw. rewrite decide_False; [done|]. by intros [_ Hnw]. }
  assert (~ whitelisted (uid_whitelist s) (uid_of t)) as Hnw.
  { intros Hwl%whitelist_test. congruence. }
  destruct (ctx_args ctx) as [|a0 [|a1 [|a2 rest]]] eqn:Ha; try done.
  destruct (rb_reserve (syscall_events s)) as [[g rb]|] eqn:Hres.
  2: { exists s. by rewrite decide_True. }
  eexists. split; [done|]. split; [done|]. rewrite decide_True by done. cbn. unfold event_of. rewrite Ha.
  by eapply rb_records_submit.
Qed.

End Spec.

End Audit.

(** ** Properties *)

Section Properties.
Import Audit.
Context {WM RB : Type} `{WO : HashMapOps Z Z WM} `{RL : RingBuf syscall_event RB}.
#[local] Abbreviation S := (State WM RB).

(** One system call: the program returns 0 and submits one event, with the
    caller's ids and the first three arguments, exactly when the call is one of
    execve, execveat, ptrace, process_vm_readv, process_vm_writev, its user
    (root included) is not on the white list, and the ring buffer has room. *)
Theorem audit_correct t ctx (s : S) :
  length (ctx_args ctx) = 6%nat ->
  exists s', audit_syscall t ctx s = Some (0, s') /\ uid_whitelist s' = uid_whitelist s /\
    if decide (reported (uid_whitelist s) (t, ctx)) then
      match rb_reserve (syscall_events s) with
      | None => s' = s
      | Some _ => rb_records (syscall_events s') =
                  rb_records (syscall_events s) ++ [event_of t ctx]
      end
    else s' = s.
Proof. apply audit_spec. Qed.

(** C24: a whole sequence of system calls: the records are, in order, among the
    events of the calls to report, never anything else, and all of them when
    the ring buffer never fills up. *)
Theorem audit_log_exact calls (s : S) :
  Forall (fun c => length (ctx_args c.2) = 6%nat) calls ->
  exists s' log, audit_all calls s = Some s' /\
    rb_records (syscall_events s') = rb_records (syscall_events s) ++ log /\
    let expected := (fun c => event_of c.1 c.2) <$> filter (reported (uid_whitelist s)) calls in
    log `sublist_of` expected /\
    ((forall b : RB, is_Some (rb_reserve b)) -> log = expected).
Proof.
  intros Hargs. revert s. induction Hargs as [|[t ctx] calls Hc Hcs IH]; intros s.
  { exists s, []. by rewrite app_nil_r. }
  destruct (audit_spec t ctx s Hc) as (s1 & Hs1 & Hwl & Hrec).
  destruct (IH s1) as (s' & log & Hs' & Hlog & Hsub & Hall). rewrite Hwl in Hsub, Hall.
  simpl audit_all. rewrite Hs1. cbn [mbind option_bind]. rewrite Hs'.
  rewrite filter_cons. case_decide as Hrep; [|exists s', log; by subst].
  rewrite fmap_cons. destruct (rb_reserve (syscall_events s)) as [p|] eqn:Hres.
  - exists s', (event_of t ctx :: log). rewrite Hlog, Hrec, <- app_assoc.
    split; [done|]. split; [done|]. split; [by apply sublist_skip|].
    intros Hroom. by rewrite Hall.
  - exists s', log. subst s1. split; [done|]. split; [done|]. split; [by apply sublist_cons|].
    intros Hroom. destruct (Hroom (syscall_events s)). congruence.
Qed.

End Properties.

(** ** Witnesses *)

Module AuditWitness.
Import Audit.

#[export] Instance whitelist_ops : HashMapOps Z Z _ := GmapHash.ops whitelist_max.
#[export] Instance audit_ring_ops : RingBufOps syscall_event _ :=
  UnboundedRing.unbounded_ops (SyscallEvent.Mk 9 9 9 (replicate 16 170) 9 [9; 9; 9]).
#[export] Instance audit_ring_laws : RingBuf syscall_event _ :=
  UnboundedRing.unbounded_laws (SyscallEvent.Mk 9 9 9 (replicate 16 170) 9 [9; 9; 9]).

(** User 1000 and root are on the white list, user 1001 is listed as 0. *)
Definition s0 : State (gmap Z Z) (list syscall_event) :=
  MkState (<[1000 := 1]> (<[0 := 1]> (<[1001 := 0]> ∅))) [].

Definition user (uid : Z) : Task := MkTask (Z.shiftl 42 32) uid 7 (replicate 16 97).
Definition call (nr : Z) : SysEnter := MkSysEnter nr [1; 2; 3; 4; 5; 6].

Definition calls : list (Task * SysEnter) :=
  [(user 1001, call SYS_execve); (user 1000, call SYS_execve); (user 5, call 0);
   (user 0, call SYS_ptrace); (user 5, call SYS_process_vm_readv)].

End AuditWitness.

Section Witnesses.
Import Audit AuditWitness.

Lemma audit_correct_witness :
  audit_syscall (user 0) (call SYS_ptrace) s0 = Some (0, s0).
Proof.
  destruct (audit_correct (user 0) (call SYS_ptrace) s0) as (s' & Hrun & _ & Hs'); [reflexivity|].
  rewrite Hrun. rewrite decide_False in Hs'; [by rewrite Hs'|].
  intros [_ Hnw]. apply Hnw. by exists 1.
Defined.

Lemma audit_log_exact_witness :
  exists s', audit_all calls s0 = Some s' /\
    rb_records (syscall_events s') = [event_of (user 1001) (call SYS_execve);
                                      event_of (user 5) (call SYS_process_vm_readv)].
Proof.
  destruct (audit_log_exact calls s0) as (s' & log & Hrun & Hlog & _ & Hall).
  - apply (bool_decide_unpack _). vm_compute. exact I.
  - exists s'. split; [exact Hrun|]. rewrite Hlog, Hall; [vm_compute; reflexivity|].
    intros b. by eexists.
Defined.

End Witnesses.
