(* ===== verification/StatsReporter.v ===== *)
(** * StatsReporter: src/stats_reporter.h

    The aggregation of TCP events per connection and its printed report.
    [stats_] is an [unordered_map]: a finite map, whose iteration order is a
    parameter.  Every public method holds [mu_] while it touches the map, so a
    method is one transition of the state. *)

From S2P Require Import Prelude Common.
From Stdlib Require Import Ascii.

(** ** The C++ library, as far as the file uses it *)

(** [strnlen(s, 16)] and the [std::string] made of that many characters. *)
Fixpoint c_string (bytes : list Z) : string :=
  match bytes with
  | [] => EmptyString
  | b :: bytes => if b =? 0 then EmptyString
                  else String (ascii_of_N (Z.to_N (u8 b))) (c_string bytes)
  end.

(** [std::to_string], [operator<<] on unsigned numbers. *)
Definition to_string (z : Z) : string := pretty z.

(** [std::left << std::setw(w) << s]. *)
Definition setw (w : nat) (s : string) : string :=
  s +:+ String.string_of_list_ascii (replicate (w - String.length s) " "%char).

Definition newline : string := String (ascii_of_nat 10) EmptyString.
Definition escape : string := String (ascii_of_nat 27) EmptyString.

(** [std::sort] needs a strict weak ordering and then returns a sorted
    permutation; the order of equivalent elements is not specified. *)
Record strict_weak_order {A} (comp : A -> A -> bool) : Prop := {
  swo_irrefl x : comp x x = false;
  swo_trans x y z : comp x y = true -> comp y z = true -> comp x z = true;
  swo_incomp x y z : comp x y = false -> comp y z = false -> comp x z = false
}.

Class StdSort := std_sort : forall A, (A -> A -> bool) -> list A -> list A.
Arguments std_sort {_ A}.

Class StdSortLaws (S : StdSort) : Prop := {
  std_sort_perm {A} (comp : A -> A -> bool) l :
    strict_weak_order comp -> std_sort comp l ≡ₚ l;
  std_sort_sorted {A} (comp : A -> A -> bool) l :
    strict_weak_order comp -> StronglySorted (fun a b => comp b a = false) (std_sort comp l)
}.

Module Reporter.

Record ConnectionKey := MkKey {
  src_ip : Z;      (** uint32_t *)
  dst_ip : Z;      (** uint32_t *)
  src_port : Z;    (** uint16_t *)
  dst_port : Z;    (** uint16_t *)
  pid : Z          (** uint32_t *)
}.

Definition key_eqb (k o : ConnectionKey) : bool :=
  (src_ip k =? src_ip o) && (dst_ip k =? dst_ip o) && (src_port k =? src_port o) &&
  (dst_port k =? dst_port o) && (pid k =? pid o).

Record ConnectionStats := MkStats {
  comm : string;
  uid : Z;         (** uint32_t *)
  bytes_tx : Z;    (** uint64_t *)
  bytes_rx : Z;    (** uint64_t *)
  connects : Z;    (** uint64_t *)
  timestamp : Z    (** uint64_t *)
}.

(** The default member initialisers. *)
Definition new_stats : ConnectionStats := MkStats EmptyString 0 0 0 0 0.

#[export] Instance key_eq_dec : EqDecision ConnectionKey.
Proof. solve_decision. Defined.
#[export] Program Instance key_countable : Countable ConnectionKey :=
  inj_countable' (fun k => (src_ip k, dst_ip k, src_port k, dst_port k, pid k))
                 (fun '(a, b, c, d, e) => MkKey a b c d e) _.
Next Obligation. by intros []. Qed.

(** The hash functor; [std::hash] of the integer types is the library's. *)
Section Hash.
Context (hash32 hash16 : Z -> Z).

Definition mix (h hv : Z) : Z :=
  Z.lxor h (u64 (u64 (u64 (hv + 0x9e3779b9) + u64 (Z.shiftl h 6)) + Z.shiftr h 2)).

Definition hash (k : ConnectionKey) : Z :=
  let h := 0 in
  let h := mix h (hash32 (src_ip k)) in
  let h := mix h (hash32 (dst_ip k)) in
  let h := mix h (hash16 (src_port k)) in
  let h := mix h (hash16 (dst_port k)) in
  mix h (hash32 (pid k)).
End Hash.

Record StatsReporter := MkReporter { stats_ : gmap ConnectionKey ConnectionStats }.

Definition new_reporter : StatsReporter := MkReporter ∅.

Definition key_of (ev : tcp_event) : ConnectionKey :=
  MkKey (TcpEvent.src_ip ev) (TcpEvent.dst_ip ev) (TcpEvent.src_port ev)
        (TcpEvent.dst_port ev) (TcpEvent.pid ev).

Definition record (ev : tcp_event) (r : StatsReporter) : StatsReporter :=
  let key := key_of ev in
  let s := default new_stats (stats_ r !! key) in
  let s := MkStats (c_string (take 16 (TcpEvent.comm ev))) (TcpEvent.uid ev)
             (bytes_tx s) (bytes_rx s) (connects s) (TcpEvent.timestamp_ns ev) in
  let s :=
    if TcpEvent.action ev =? TCP_ACTION_CONNECT then
      MkStats (comm s) (uid s) (bytes_tx s) (bytes_rx s) (connects s +₆₄ 1) (timestamp s)
    else
      MkStats (comm s) (uid s) (bytes_tx s +₆₄ TcpEvent.bytes_tx ev)
              (bytes_rx s +₆₄ TcpEvent.bytes_rx ev) (connects s) (timestamp s) in
  MkReporter (<[key := s]> (stats_ r)).

Definition connection_count (r : StatsReporter) : Z := Z.of_nat (size (stats_ r)).

Definition clear (r : StatsReporter) : StatsReporter := MkReporter ∅.

(** [b/1024] and so on are divisions of [uint64_t] values. *)
Definition human_bytes (b : Z) : string :=
  if b <? 1024 then to_string b +:+ "B"
  else if b <? 1024 * 1024 then to_string (b / 1024) +:+ "K"
  else to_string (b / (1024 * 1024)) +:+ "M".

(** The comparison [print_top] sorts with. *)
Definition item : Type := ConnectionKey * ConnectionStats.

Definition traffic (i : item) : Z := bytes_tx i.2 +₆₄ bytes_rx i.2.

Definition more_traffic (a b : item) : bool := traffic a >? traffic b.

Section Report.
(** The iteration order of the map and [inet_ntop(AF_INET, ...)]. *)
Context (iter : gmap ConnectionKey ConnectionStats -> list item) (inet_ntop : Z -> string) `{StdSort}.

(** [for_each]: the callback threads its captured state. *)
Definition for_each {S} (fn : ConnectionKey -> ConnectionStats -> S -> S)
    (r : StatsReporter) (s : S) : S :=
  fold_left (fun s i => fn i.1 i.2 s) (iter (stats_ r)) s.

Definition ip_port (ip port : Z) : string := inet_ntop ip +:+ ":" +:+ to_string port.

Definition rule : string := "═══════════════════════════════════════════════════════" +:+ newline.

Definition header : string :=
  escape +:+ "[2J" +:+ escape +:+ "[H" +:+
  rule +:+
  "  eBPF System Monitor — Top TCP Connections" +:+ newline +:+
  rule +:+
  setw 6 "PID" +:+ setw 16 "COMM" +:+ setw 20 "SRC" +:+ setw 20 "DST" +:+
  setw 10 "TX" +:+ setw 10 "RX" +:+ newline +:+
  String.string_of_list_ascii (replicate 80 "="%char) +:+ newline.

Definition row (i : item) : string :=
  let '(k, s) := i in
  setw 6 (to_string (pid k)) +:+ setw 16 (comm s) +:+
  setw 20 (ip_port (src_ip k) (src_port k)) +:+
  setw 20 (ip_port (dst_ip k) (dst_port k)) +:+
  setw 10 (human_bytes (bytes_tx s)) +:+ setw 10 (human_bytes (bytes_rx s)) +:+ newline.

Definition INT_MAX : Z := 2 ^ 31 - 1.

(** The loop over the items; [shown] is an [int], whose overflow is undefined
    ([None]). *)
Fixpoint print_rows (n shown : Z) (items : list item) : option string :=
  match items with
  | [] => Some EmptyString
  | i :: items =>
      if shown =? INT_MAX then None
      else if shown >=? n then Some EmptyString
      else rest ← print_rows n (shown + 1) items; Some (row i +:+ rest)
  end.

Definition print_top (n : Z) (r : StatsReporter) : option string :=
  let items := std_sort more_traffic (iter (stats_ r)) in
  rows ← print_rows n 0 items;
  Some (header +:+ rows).

End Report.

(** ** Lemmas *)

(** [operator==] is equality, so the finite map identifies the keys the
    [unordered_map] identifies. *)
Lemma key_eqb_spec k o : key_eqb k o = true <-> k = o.
Proof.
  unfold key_eqb. rewrite !andb_true_iff, !Z.eqb_eq. destruct k, o; cbn. intuition congruence.
Qed.

Lemma more_traffic_swo : strict_weak_order more_traffic.
Proof.
  unfold more_traffic. split; intros *; rewrite !Z.gtb_ltb; intros;
    repeat match goal with
    | H : (_ <? _) = true |- _ => apply Z.ltb_lt in H
    | H : (_ <? _) = false |- _ => apply Z.ltb_ge in H
    end; first [apply Z.ltb_lt; lia | apply Z.ltb_ge; lia].
Qed.

(** *** Aggregation *)

(** What [record] does to the entry of the event's connection. *)
Definition update (ev : tcp_event) (s : ConnectionStats) : ConnectionStats :=
  let conn := TcpEvent.action ev =? TCP_ACTION_CONNECT in
  MkStats (c_string (take 16 (TcpEvent.comm ev))) (TcpEvent.uid ev)
    (if conn then bytes_tx s else bytes_tx s +₆₄ TcpEvent.bytes_tx ev)
    (if conn then bytes_rx s else bytes_rx s +₆₄ TcpEvent.bytes_rx ev)
    (if conn then connects s +₆₄ 1 else connects s) (TcpEvent.timestamp_ns ev).

Lemma record_insert ev r :
  stats_ (record ev r) =
  <[key_of ev := update ev (default new_stats (stats_ r !! key_of ev))]> (stats_ r).
Proof. unfold record, update. by destruct (_ =? _). Qed.

Definition record_all (evs : list tcp_event) (r : StatsReporter) : StatsReporter :=
  fold_left (fun r ev => record ev r) evs r.

(** The reference: the events of one connection, summed up. *)
Definition events_of (k : ConnectionKey) (evs : list tcp_event) : list tcp_event :=
  filter (fun e => key_of e = k) evs.

Definition is_connect (e : tcp_event) : Prop := TcpEvent.action e = TCP_ACTION_CONNECT.
#[export] Instance is_connect_dec e : Decision (is_connect e).
Proof. unfold is_connect. apply _. Defined.

Definition closes (evs : list tcp_event) : list tcp_event := filter (fun e => ~ is_connect e) evs.

(** Sums over the events of one connection, the newest of which is [e]. *)
Definition totals (e : tcp_event) (es : list tcp_event) : ConnectionStats :=
  MkStats (c_string (take 16 (TcpEvent.comm e))) (TcpEvent.uid e)
    (u64 (Zsum (TcpEvent.bytes_tx <$> closes es))) (u64 (Zsum (TcpEvent.bytes_rx <$> closes es)))
    (u64 (Z.of_nat (length (filter is_connect es)))) (TcpEvent.timestamp_ns e).

Definition aggregate (k : ConnectionKey) (evs : list tcp_event) : option ConnectionStats :=
  (fun e => totals e (events_of k evs)) <$> last (events_of k evs).

Lemma update_totals ev e es : update ev (totals e es) = totals ev (es ++ [ev]).
Proof.
  unfold update, totals, closes. rewrite !filter_app, length_app, !fmap_app, !Zsum_app.
  destruct (Z.eqb_spec (TcpEvent.action ev) TCP_ACTION_CONNECT) as [Hc|Hc]; cbn [bytes_tx bytes_rx connects].
  - rewrite (filter_cons_True is_connect), (filter_cons_False (fun e => ~ is_connect e)) by tauto.
    cbn. rewrite !Z.add_0_r. f_equal. unwrap. f_equal; lia.
  - rewrite (filter_cons_False is_connect), (filter_cons_True (fun e => ~ is_connect e)) by tauto.
    cbn. rewrite !Z.add_0_r. unwrap. by rewrite Nat.add_0_r.
Qed.

Lemma update_new ev : update ev new_stats = totals ev [ev].
Proof.
  replace new_stats with (MkStats EmptyString 0 (u64 0) (u64 0) (u64 0) 0) by done.
  unfold update, totals, closes. cbn [bytes_tx bytes_rx connects].
  destruct (Z.eqb_spec (TcpEvent.action ev) TCP_ACTION_CONNECT) as [Hc|Hc].
  - rewrite (filter_cons_True is_connect), (filter_cons_False (fun e => ~ is_connect e)) by tauto.
    done.
  - rewrite (filter_cons_False is_connect), (filter_cons_True (fun e => ~ is_connect e)) by tauto.
    cbn. unwrap. by rewrite !Z.add_0_r, !Z.add_0_l.
Qed.

Lemma record_all_snoc evs ev r : record_all (evs ++ [ev]) r = record ev (record_all evs r).
Proof. apply fold_left_app. Qed.

Lemma events_of_snoc k evs ev :
  events_of k (evs ++ [ev]) =
  if decide (key_of ev = k) then events_of k evs ++ [ev] else events_of k evs.
Proof.
  unfold events_of. rewrite filter_app. case_decide as Hk.
  - by rewrite filter_cons_True.
  - rewrite filter_cons_False by done. apply app_nil_r.
Qed.

Lemma record_all_lookup evs k : stats_ (record_all evs new_reporter) !! k = aggregate k evs.
Proof.
  induction evs as [|ev evs IH] using rev_ind; [done|].
  rewrite record_all_snoc, record_insert. unfold aggregate. rewrite events_of_snoc.
  destruct (decide (key_of ev = k)) as [<-|Hk].
  - rewrite lookup_insert_eq, last_snoc, IH. simpl. f_equal. unfold aggregate.
    destruct (last (events_of (key_of ev) evs)) as [e|] eqn:Hl; simpl.
    + apply update_totals.
    + apply last_None in Hl. rewrite Hl. apply update_new.
  - by rewrite lookup_insert_ne, IH.
Qed.

Lemma record_all_dom evs :
  dom (stats_ (record_all evs new_reporter)) = list_to_set (key_of <$> evs).
Proof.
  induction evs as [|ev evs IH] using rev_ind; [done|].
  rewrite record_all_snoc, record_insert, dom_insert_L, IH, fmap_app, list_to_set_app_L.
  simpl. rewrite (right_id_L ∅ (∪)). apply (comm_L (∪)).
Qed.

(** *** The report *)

Section Rows.
Context (inet_ntop : Z -> string).

Definition rows (items : list item) : string :=
  foldr (fun i acc => row inet_ntop i +:+ acc) EmptyString items.

Lemma print_rows_spec n shown items :
  0 <= shown -> shown < INT_MAX -> n < INT_MAX ->
  print_rows inet_ntop n shown items = Some (rows (take (Z.to_nat (n - shown)) items)).
Proof.
  revert shown. induction items as [|i items IH]; intros shown H0 Hs Hn; simpl.
  { by rewrite take_nil. }
  rewrite (proj2 (Z.eqb_neq shown INT_MAX)) by lia. rewrite Z.geb_leb.
  destruct (Z.leb_spec n shown).
  - by replace (Z.to_nat (n - shown)) with O by lia.
  - rewrite IH by lia. cbn. replace (Z.to_nat (n - shown)) with (S (Z.to_nat (n - (shown + 1)))) by lia.
    done.
Qed.
End Rows.

(** *** Types *)

(** Values of the members' types; a name is at most the 16 characters of the
    event. *)
Record wf_key (k : ConnectionKey) : Prop := {
  wfk_src_ip : in_width 32 (src_ip k);
  wfk_dst_ip : in_width 32 (dst_ip k);
  wfk_src_port : in_width 16 (src_port k);
  wfk_dst_port : in_width 16 (dst_port k);
  wfk_pid : in_width 32 (pid k)
}.

Record wf_stats (s : ConnectionStats) : Prop := {
  wfs_comm : (String.length (comm s) <= 16)%nat;
  wfs_uid : in_width 32 (uid s);
  wfs_tx : in_width 64 (bytes_tx s);
  wfs_rx : in_width 64 (bytes_rx s);
  wfs_connects : in_width 64 (connects s);
  wfs_timestamp : in_width 64 (timestamp s)
}.

Definition wf_reporter (r : StatsReporter) : Prop :=
  map_Forall (fun k s => wf_key k /\ wf_stats s) (stats_ r).

Lemma c_string_length bytes : (String.length (c_string bytes) <= length bytes)%nat.
Proof. induction bytes as [|b bytes IH]; cbn; [done|]. destruct (b =? 0); cbn; lia. Qed.

Lemma wf_update ev s : wf_tcp_event ev -> wf_stats s -> wf_stats (update ev s).
Proof.
  intros [] []. assert (forall z, in_width 64 (u64 z)) as H64 by apply u64_bound.
  split; cbn; try done; try (destruct (_ =? _); done).
  pose proof (c_string_length (take 16 (TcpEvent.comm ev))). rewrite length_take in *. lia.
Qed.

Lemma wf_new_stats : wf_stats new_stats.
Proof. split; cbn; unfold in_width; lia. Qed.

Lemma wf_record ev r : wf_tcp_event ev -> wf_reporter r -> wf_reporter (record ev r).
Proof.
  intros He Hr. unfold wf_reporter. rewrite record_insert. apply map_Forall_insert_2; [|done]. split.
  - destruct He. by split.
  - apply wf_update; [done|]. destruct (stats_ r !! key_of ev) as [s|] eqn:Hs; cbn.
    + by apply Hr in Hs as [_ ?].
    + apply wf_new_stats.
Qed.

Lemma wf_record_all es r : Forall wf_tcp_event es -> wf_reporter r -> wf_reporter (record_all es r).
Proof.
  intros Hes. revert r. induction Hes as [|e es He Hes IH]; intros r Hr; [done|].
  cbn. apply IH. by apply wf_record.
Qed.

(** A connection is named by one of the events. *)
Lemma aggregate_name k evs s :
  aggregate k evs = Some s -> exists e, e ∈ evs /\ comm s = c_string (take 16 (TcpEvent.comm e)).
Proof.
  unfold aggregate. intros (e & Hl & ->)%fmap_Some. exists e. split; [|done].
  apply last_Some_elem_of, list_elem_of_filter in Hl as [_ Hl]. done.
Qed.

(** The unit [human_bytes] picks. *)
Definition unit_of (b : Z) : Z * string :=
  if b <? 1024 then (1, "B") else if b <? 1024 * 1024 then (1024, "K") else (1024 * 1024, "M").

Lemma human_bytes_unit b :
  human_bytes b = to_string (b / (unit_of b).1) +:+ (unit_of b).2.
Proof.
  unfold human_bytes, unit_of. destruct (b <? 1024); [by rewrite Z.div_1_r|].
  by destruct (b <? 1024 * 1024).
Qed.

End Reporter.

(** ** Properties *)

Section Properties.
Import Reporter.

(** C15: any sequence of recorded events: the entry of a connection is absent
    when none of them belongs to it, and otherwise holds its number of connects,
    the sums of the byte counters of its closes (modulo 2^64), and the name,
    user and time of its newest event; events of other connections play no
    part. *)
Theorem record_aggregates evs k :
  stats_ (record_all evs new_reporter) !! k = aggregate k evs.
Proof. apply record_all_lookup. Qed.

(** Connection_count is the number of distinct connections seen, and zero
    after clear. *)
Theorem connection_count_distinct evs :
  connection_count (record_all evs new_reporter) =
    Z.of_nat (length (remove_dups (key_of <$> evs))) /\
  connection_count (clear (record_all evs new_reporter)) = 0.
Proof.
  split; [|done]. unfold connection_count. f_equal.
  rewrite <- size_dom, record_all_dom.
  rewrite <- (size_list_to_set (C := gset ConnectionKey)) by apply NoDup_remove_dups.
  f_equal. apply set_eq. intros k. by rewrite !elem_of_list_to_set, elem_of_remove_dups.
Qed.

(** C33: print_top n prints the header and min(n, connections) rows; these are
    the connections with the most traffic (bytes sent plus received, modulo
    2^64), in descending order: no connection left out has more than one
    shown. *)
Theorem print_top_correct iter inet_ntop `{SL : StdSortLaws} n r :
  (forall m, iter m ≡ₚ map_to_list m) -> n < INT_MAX ->
  exists shown rest,
    print_top iter inet_ntop n r = Some (header +:+ rows inet_ntop shown) /\
    shown ++ rest ≡ₚ map_to_list (stats_ r) /\
    length shown = (Z.to_nat n `min` size (stats_ r))%nat /\
    StronglySorted (fun a b => traffic b <= traffic a) shown /\
    (forall a b, a ∈ shown -> b ∈ rest -> traffic b <= traffic a).
Proof.
  intros Hiter Hn. set (items := std_sort more_traffic (iter (stats_ r))).
  assert (items ≡ₚ map_to_list (stats_ r)) as Hperm.
  { unfold items. by rewrite std_sort_perm by apply more_traffic_swo. }
  assert (StronglySorted (fun a b => traffic b <= traffic a) items) as Hsort.
  { eapply StronglySorted_weaken; [|apply std_sort_sorted, more_traffic_swo].
    intros a b Hab. unfold more_traffic in Hab. break_bool. lia. }
  exists (take (Z.to_nat n) items), (drop (Z.to_nat n) items). rewrite take_drop.
  rewrite <- (take_drop (Z.to_nat n) items) in Hsort.
  split; [|split; [done|split; [|split]]].
  - unfold print_top. fold items. rewrite print_rows_spec by (done || lia).
    cbn. by rewrite Z.sub_0_r.
  - rewrite length_take, (Permutation_length Hperm). f_equal. apply length_map_to_list.
  - by apply StronglySorted_app_1_l in Hsort.
  - intros a b Ha Hb.
    exact (StronglySorted_app_1_elem_of (fun a b => traffic b <= traffic a) _ _ _ _ Hsort Ha Hb).
Qed.

(** Human_bytes prints the quotient by the largest of the units 1, 2^10,
    2^20 that fits, rounded down: below one mebibyte never more than four
    digits are needed, and the error is less than one unit. *)
Theorem human_bytes_correct b :
  in_width 64 b ->
  exists q size suffix, human_bytes b = to_string q +:+ suffix /\
    (size, suffix) ∈ [(1, "B"); (1024, "K"); (1024 * 1024, "M")] /\
    q * size <= b < (q + 1) * size /\
    (b < 1024 * 1024 -> q < 1024) /\ (1024 <= b -> 1 <= q).
Proof.
  intros Hb. unfold in_width in Hb.
  exists (b / (unit_of b).1), (unit_of b).1, (unit_of b).2.
  split; [apply human_bytes_unit|]. unfold unit_of.
  destruct (Z.ltb_spec b 1024); [|destruct (Z.ltb_spec b (1024 * 1024))]; cbn [fst snd];
    (split; [set_solver|]); Z.to_euclidean_division_equations; lia.
Qed.

End Properties.

(** ** Witnesses: merge sort, iteration in key order *)

Module ReporterWitness.
Import Reporter.

Definition not_before {A} (comp : A -> A -> bool) (a b : A) : Prop := comp b a = false.
#[export] Instance not_before_dec {A} (comp : A -> A -> bool) a b : Decision (not_before comp a b).
Proof. unfold not_before. apply _. Defined.

#[export] Instance merge_std_sort : StdSort := fun A comp l => merge_sort (not_before comp) l.

#[export] Instance merge_std_sort_laws : StdSortLaws merge_std_sort.
Proof.
  split; intros A comp l [Hi Ht Hn].
  - apply merge_sort_Permutation.
  - assert (Transitive (not_before comp)).
    { intros x y z Hxy Hyz. unfold not_before in *. eauto. }
    assert (Total (not_before comp)).
    { intros x y. unfold not_before. destruct (comp y x) eqn:Hyx; [right|by left].
      destruct (comp x y) eqn:Hxy; [|done]. by rewrite <- (Hi x), (Ht x y x). }
    by apply (StronglySorted_merge_sort (not_before comp)).
Qed.

Definition event (action dst tx rx : Z) : tcp_event :=
  TcpEvent.Mk 7 42 1000 (99 :: 117 :: 114 :: 108 :: replicate 12 0) 1 dst 40000 443 2 action
    [0; 0] tx rx.

Definition three : StatsReporter :=
  record_all [event 0 1 0 0; event 1 1 10 20; event 0 2 0 0; event 1 2 5000 0; event 1 3 1 1]
    new_reporter.

End ReporterWitness.

Section Witnesses.
Import Reporter ReporterWitness.

Lemma print_top_correct_witness :
  exists shown (rest : list item),
    print_top map_to_list (fun _ => "1.2.3.4"%string) 2 three =
      Some (header +:+ rows (fun _ => "1.2.3.4"%string) shown) /\
    length shown = 2%nat /\ length rest = 1%nat.
Proof.
  destruct (print_top_correct map_to_list (fun _ => "1.2.3.4"%string) 2 three)
    as (shown & rest & Hout & Hperm & Hlen & _); [done|reflexivity|].
  exists shown, rest. split; [exact Hout|].
  apply Permutation_length in Hperm. rewrite length_app in Hperm.
  split; [exact Hlen|]. rewrite <- (Nat.add_sub (length rest) (length shown)), Nat.add_comm.
  rewrite Hperm, Hlen. vm_compute. reflexivity.
Defined.

Lemma human_bytes_correct_witness :
  human_bytes 1048575 = "1023K"%string /\
  exists q size suffix, human_bytes 1048575 = to_string q +:+ suffix /\
    q * size <= 1048575 < (q + 1) * size.
Proof.
  split; [vm_compute; reflexivity|].
  destruct (human_bytes_correct 1048575) as (q & size & suffix & Hs & _ & Hq & _);
    [vm_compute; intuition congruence|]. by exists q, size, suffix.
Defined.

End Witnesses.
