(* ===== verification/ReporterConcurrent.v ===== *)
(** * ReporterConcurrent: src/stats_reporter.h called by several threads

    The methods of [StatsReporter] access by access, with the mutex [mu_] and
    any number of threads: [record] writes the members of an entry one after the
    other, [for_each] and the copy of [print_top] visit one element at a time.
    The map's accesses are undefined when an entry that a reference or an
    iterator refers to has gone.  Under every interleaving there is no data race
    and every call has the effect and the result it would have on its own, in
    the order in which the calls release the lock. *)

From S2P Require Import Prelude Common StatsReporter.
Import Reporter.

Module Shared.

(** The calls.  [ForEach] is [for_each] with a callback that takes note of the
    elements it is given; the callbacks of the program call no method of the
    reporter. *)
Inductive call :=
| Record (ev : tcp_event)
| PrintTop (n : Z)
| ConnectionCount
| Clear
| ForEach.

Inductive result :=
| Nothing
| Text (s : option string)     (** printed; [None] as for [print_top] *)
| Count (n : Z)
| Visited (l : list item).

(** Where a thread is in its call. *)
Inductive point :=
| Called (c : call)                               (** before the lock_guard *)
| Locked (c : call)
| Found (ev : tcp_event)                          (** [auto& s = stats_\[key\]] done *)
| NameSet (ev : tcp_event)
| UidSet (ev : tcp_event)
| TimeSet (ev : tcp_event)
| TxAdded (ev : tcp_event)
| Iterating (c : call) (rest : list ConnectionKey) (seen : list item)
| Leaving (c : call) (res : result).              (** before the lock_guard's destructor *)

Record entry := MkEntry { by_thread : nat; the_call : call; its_result : result }.

Record state := MkState {
  stats : gmap ConnectionKey ConnectionStats;     (** stats_ *)
  mu : option nat;                                (** mu_: the thread that holds it *)
  threads : gmap nat point;                       (** the threads inside a call *)
  log : list entry                                (** the calls that released the lock *)
}.

Definition boot : state := MkState ∅ None ∅ [].

(** What one step of a thread may come to. *)
Inductive verdict := Undefined | Next (s : state).

Definition go (t : nat) (pt : point) (s : state) : state :=
  MkState (stats s) (mu s) (<[t := pt]> (threads s)) (log s).
Definition with_stats (m : gmap ConnectionKey ConnectionStats) (s : state) : state :=
  MkState m (mu s) (threads s) (log s).

(** A write through the reference [s]. *)
Definition on_entry (key : ConnectionKey) (f : ConnectionStats -> ConnectionStats) (t : nat) (pt : point)
    (s : state) : verdict :=
  match stats s !! key with
  | Some st => Next (go t pt (with_stats (<[key := f st]> (stats s)) s))
  | None => Undefined
  end.

(** The member functions' assignments. *)
Definition set_comm (ev : tcp_event) (s : ConnectionStats) : ConnectionStats :=
  MkStats (c_string (take 16 (TcpEvent.comm ev))) (uid s) (bytes_tx s) (bytes_rx s) (connects s) (timestamp s).
Definition set_uid (ev : tcp_event) (s : ConnectionStats) : ConnectionStats :=
  MkStats (comm s) (TcpEvent.uid ev) (bytes_tx s) (bytes_rx s) (connects s) (timestamp s).
Definition set_timestamp (ev : tcp_event) (s : ConnectionStats) : ConnectionStats :=
  MkStats (comm s) (uid s) (bytes_tx s) (bytes_rx s) (connects s) (TcpEvent.timestamp_ns ev).
Definition count_connect (s : ConnectionStats) : ConnectionStats :=
  MkStats (comm s) (uid s) (bytes_tx s) (bytes_rx s) (connects s +₆₄ 1) (timestamp s).
Definition add_tx (ev : tcp_event) (s : ConnectionStats) : ConnectionStats :=
  MkStats (comm s) (uid s) (bytes_tx s +₆₄ TcpEvent.bytes_tx ev) (bytes_rx s) (connects s) (timestamp s).
Definition add_rx (ev : tcp_event) (s : ConnectionStats) : ConnectionStats :=
  MkStats (comm s) (uid s) (bytes_tx s) (bytes_rx s +₆₄ TcpEvent.bytes_rx ev) (connects s) (timestamp s).

Section Threads.
Context (iter : gmap ConnectionKey ConnectionStats -> list item) (inet_ntop : Z -> string) `{StdSort}.

(** What [print_top] does with its copy, after the lock is released. *)
Definition print_items (n : Z) (items : list item) : option string :=
  rows ← print_rows inet_ntop n 0 (std_sort more_traffic items);
  Some (header +:+ rows).

Definition visited (c : call) (items : list item) : result :=
  match c with PrintTop n => Text (print_items n items) | _ => Visited items end.

(** One step of thread [t]; [None]: it waits for the lock. *)
Definition advance (t : nat) (pt : point) (s : state) : option verdict :=
  match pt with
  | Called c =>
      match mu s with
      | None => Some (Next (MkState (stats s) (Some t) (<[t := Locked c]> (threads s)) (log s)))
      | Some _ => None
      end
  | Locked (Record ev) =>
      let key := key_of ev in
      Some (Next (go t (Found ev)
        (with_stats (<[key := default new_stats (stats s !! key)]> (stats s)) s)))
  | Locked (PrintTop n) => Some (Next (go t (Iterating (PrintTop n) (iter (stats s)).*1 []) s))
  | Locked ForEach => Some (Next (go t (Iterating ForEach (iter (stats s)).*1 []) s))
  | Locked ConnectionCount =>
      Some (Next (go t (Leaving ConnectionCount (Count (Z.of_nat (size (stats s))))) s))
  | Locked Clear => Some (Next (go t (Leaving Clear Nothing) (with_stats ∅ s)))
  | Found ev => Some (on_entry (key_of ev) (set_comm ev) t (NameSet ev) s)
  | NameSet ev => Some (on_entry (key_of ev) (set_uid ev) t (UidSet ev) s)
  | UidSet ev => Some (on_entry (key_of ev) (set_timestamp ev) t (TimeSet ev) s)
  | TimeSet ev =>
      Some (if TcpEvent.action ev =? TCP_ACTION_CONNECT
            then on_entry (key_of ev) count_connect t (Leaving (Record ev) Nothing) s
            else on_entry (key_of ev) (add_tx ev) t (TxAdded ev) s)
  | TxAdded ev => Some (on_entry (key_of ev) (add_rx ev) t (Leaving (Record ev) Nothing) s)
  | Iterating c [] seen => Some (Next (go t (Leaving c (visited c seen)) s))
  | Iterating c (k :: rest) seen =>
      Some (match stats s !! k with
            | Some st => Next (go t (Iterating c rest (seen ++ [(k, st)])) s)
            | None => Undefined
            end)
  | Leaving c res =>
      Some (Next (MkState (stats s) None (delete t (threads s)) (log s ++ [MkEntry t c res])))
  end.

Inductive label := Call (t : nat) (c : call) | Run (t : nat).

Definition step (l : label) (s : state) : option verdict :=
  match l with
  | Call t c => if decide (threads s !! t = None) then Some (Next (go t (Called c) s)) else None
  | Run t => pt ← threads s !! t; advance t pt s
  end.

Definition steps_to (s s' : state) : Prop := exists l, step l s = Some (Next s').
Definition reachable (s : state) : Prop := rtc steps_to boot s.

(** ** What is promised *)

(** A thread's next access to [stats_]: [Some true] when it writes. *)
Definition next_access (pt : point) : option bool :=
  match pt with
  | Called _ | Leaving _ _ => None
  | Locked (Record _) | Locked Clear => Some true
  | Locked _ | Iterating _ _ _ => Some false
  | _ => Some true
  end.

Definition race (s : state) : Prop :=
  exists t t' pt pt' w w', t <> t' /\ threads s !! t = Some pt /\ threads s !! t' = Some pt' /\
    next_access pt = Some w /\ next_access pt' = Some w' /\ w || w' = true.

(** A call on its own. *)
Definition sequential (c : call) (r : StatsReporter) : StatsReporter * result :=
  match c with
  | Record ev => (record ev r, Nothing)
  | PrintTop n => (r, Text (print_top iter inet_ntop n r))
  | ConnectionCount => (r, Count (connection_count r))
  | Clear => (clear r, Nothing)
  | ForEach => (r, Visited (for_each iter (fun k st l => l ++ [(k, st)]) r []))
  end.

(** [replays l r]: the calls of [l], one after the other on a new reporter, have
    the results of [l] and leave [r]. *)
Inductive replays : list entry -> StatsReporter -> Prop :=
| replays_nil : replays [] new_reporter
| replays_snoc l r e r' :
    replays l r -> sequential (the_call e) r = (r', its_result e) -> replays (l ++ [e]) r'.

(** ** The invariant *)

Hypothesis iter_perm : forall m, iter m ≡ₚ map_to_list m.

Definition holds_lock (pt : point) : bool := match pt with Called _ => false | _ => true end.

(** The entry of the event's connection when [f] has been done to it. *)
Definition partly (ev : tcp_event) (f : ConnectionStats -> ConnectionStats) (r : StatsReporter)
    : gmap ConnectionKey ConnectionStats :=
  <[key_of ev := f (default new_stats (stats_ r !! key_of ev))]> (stats_ r).

(** The map while the thread that holds the lock is at [pt], when the calls
    before it left [r]. *)
Definition midway (pt : point) (m : gmap ConnectionKey ConnectionStats) (r : StatsReporter) : Prop :=
  match pt with
  | Called _ | Locked _ => m = stats_ r
  | Found ev => m = partly ev id r
  | NameSet ev => m = partly ev (set_comm ev) r
  | UidSet ev => m = partly ev (set_uid ev ∘ set_comm ev) r
  | TimeSet ev => m = partly ev (set_timestamp ev ∘ set_uid ev ∘ set_comm ev) r
  | TxAdded ev =>
      (TcpEvent.action ev =? TCP_ACTION_CONNECT) = false /\
      m = partly ev (add_tx ev ∘ set_timestamp ev ∘ set_uid ev ∘ set_comm ev) r
  | Iterating c rest seen =>
      (c = ForEach \/ exists n, c = PrintTop n) /\ m = stats_ r /\
      exists l, iter m = seen ++ l /\ rest = l.*1
  | Leaving c res => sequential c r = (MkReporter m, res)
  end.

Record inv (s : state) (r : StatsReporter) : Prop := {
  n_log : replays (log s) r;
  n_lock : forall t pt, threads s !! t = Some pt -> holds_lock pt = true -> mu s = Some t;
  n_holder : forall t, mu s = Some t ->
    exists pt, threads s !! t = Some pt /\ holds_lock pt = true /\ midway pt (stats s) r;
  n_free : mu s = None -> stats s = stats_ r
}.

Lemma iter_lookup m l k st l' : iter m = l ++ (k, st) :: l' -> m !! k = Some st.
Proof.
  intros Hi. apply elem_of_map_to_list. rewrite <- iter_perm, Hi. apply elem_of_app. right. left.
Qed.

Lemma for_each_items r : for_each iter (fun k st (l : list item) => l ++ [(k, st)]) r [] = iter (stats_ r).
Proof.
  unfold for_each. change (iter (stats_ r)) with ([] ++ iter (stats_ r)) at 2.
  generalize (@nil item). induction (iter (stats_ r)) as [|[k st] l IH]; intros acc; cbn.
  - by rewrite app_nil_r.
  - by rewrite IH, <- app_assoc.
Qed.

(** The holder of the lock makes a step that keeps it. *)
Lemma holder_goes s r t pt pt' m :
  inv s r -> threads s !! t = Some pt -> holds_lock pt = true ->
  holds_lock pt' = true -> midway pt' m r -> inv (go t pt' (with_stats m s)) r.
Proof.
  intros [Hlog Hlock Hholder Hfree] Ht Hh Hh' Hm. pose proof (Hlock t pt Ht Hh) as Hmu.
  split; cbn; [done| | |by rewrite Hmu].
  - intros u x [[<- <-]|[Hne Hx]]%lookup_insert_Some Hhx; [done|by eapply Hlock].
  - intros u Hu. assert (u = t) as -> by congruence. exists pt'. by rewrite lookup_insert_eq.
Qed.

Lemma insert_partly ev f g r :
  <[key_of ev := f (g (default new_stats (stats_ r !! key_of ev)))]> (partly ev g r) = partly ev (f ∘ g) r.
Proof. unfold partly. by rewrite insert_insert_eq. Qed.

Lemma on_entry_partly s r t pt pt' ev f g :
  inv s r -> threads s !! t = Some pt -> holds_lock pt = true -> holds_lock pt' = true ->
  stats s = partly ev g r -> midway pt' (partly ev (f ∘ g) r) r ->
  exists s', on_entry (key_of ev) f t pt' s = Next s' /\ inv s' r.
Proof.
  intros I Ht Hh Hh' Hs Hm. unfold on_entry. rewrite Hs. unfold partly at 1. rewrite lookup_insert_eq.
  eexists. split; [reflexivity|]. rewrite insert_partly. by eapply holder_goes.
Qed.

(** [record] in one step. *)
Lemma record_connect ev r :
  (TcpEvent.action ev =? TCP_ACTION_CONNECT) = true ->
  record ev r = MkReporter (partly ev (count_connect ∘ set_timestamp ev ∘ set_uid ev ∘ set_comm ev) r).
Proof. intros Ha. unfold record. by rewrite Ha. Qed.

Lemma record_close ev r :
  (TcpEvent.action ev =? TCP_ACTION_CONNECT) = false ->
  record ev r = MkReporter (partly ev (add_rx ev ∘ add_tx ev ∘ set_timestamp ev ∘ set_uid ev ∘ set_comm ev) r).
Proof. intros Ha. unfold record. by rewrite Ha. Qed.

Lemma with_same_stats s : with_stats (stats s) s = s.
Proof. by destruct s. Qed.

(** The holder's next step is defined and keeps the invariant. *)
Lemma holder_advances s r t pt :
  inv s r -> threads s !! t = Some pt -> holds_lock pt = true ->
  exists s' r', advance t pt s = Some (Next s') /\ inv s' r'.
Proof.
  intros I Ht Hh. pose proof (n_lock _ _ I t pt Ht Hh) as Hmu.
  destruct (n_holder _ _ I t Hmu) as (pt0 & Ht0 & _ & Hm).
  assert (pt0 = pt) as -> by congruence.
  assert (forall pt' m, holds_lock pt' = true -> midway pt' m r -> inv (go t pt' (with_stats m s)) r) as Hgo
    by (intros; by eapply holder_goes).
  assert (forall pt', holds_lock pt' = true -> midway pt' (stats s) r -> inv (go t pt' s) r) as Hstay
    by (intros pt' ??; rewrite <- (with_same_stats s) at 1; by apply Hgo).
  assert (forall pt' ev f g, holds_lock pt' = true -> stats s = partly ev g r ->
    midway pt' (partly ev (f ∘ g) r) r ->
    exists s' r', Some (on_entry (key_of ev) f t pt' s) = Some (Next s') /\ inv s' r') as Hon.
  { intros pt' ev f g Hh' Hs Hm'. destruct (on_entry_partly s r t pt pt' ev f g) as (s' & -> & I'); eauto. }
  destruct pt as [c|c|ev|ev|ev|ev|ev|c [|k rest] seen|c res]; cbn [midway] in Hm; [done|..]; cbn [advance].
  - destruct c as [ev|n| | |]; do 2 eexists; (split; [reflexivity|]).
    + apply Hgo; [done|]. cbn [midway]. by rewrite Hm.
    + apply Hstay; [done|]. split; [eauto|]. split; [done|]. eauto.
    + apply Hstay; [done|]. cbn. unfold connection_count. rewrite Hm. by destruct r.
    + by apply Hgo.
    + apply Hstay; [done|]. split; [eauto|]. split; [done|]. eauto.
  - by apply (Hon (NameSet ev) ev (set_comm ev) id).
  - by apply (Hon (UidSet ev) ev (set_uid ev) (set_comm ev)).
  - by apply (Hon (TimeSet ev) ev (set_timestamp ev) (set_uid ev ∘ set_comm ev)).
  - destruct (TcpEvent.action ev =? TCP_ACTION_CONNECT) eqn:Ha.
    + eapply Hon; [done|exact Hm|]. cbn [midway sequential]. by rewrite record_connect.
    + by eapply Hon; [|exact Hm|split].
  - destruct Hm as [Ha Hm]. eapply Hon; [done|exact Hm|]. cbn [midway sequential]. by rewrite record_close.
  - destruct Hm as (Hc & Hm & l & Hi & Hl). symmetry in Hl. apply fmap_nil_inv in Hl as ->.
    rewrite app_nil_r in Hi. do 2 eexists. split; [reflexivity|]. apply Hstay; [done|].
    rewrite Hm in *. destruct Hc as [->|[n ->]]; cbn.
    + rewrite for_each_items, Hi. by destruct r.
    + unfold print_top, print_items. rewrite Hi. by destruct r.
  - destruct Hm as (Hc & Hm & [|[k' st] l] & Hi & [= -> ->]).
    rewrite (iter_lookup _ _ _ _ _ Hi). do 2 eexists. split; [reflexivity|]. apply Hstay; [done|].
    split; [done|]. split; [done|]. exists l. by rewrite Hi, <- app_assoc.
  - do 2 eexists. split; [reflexivity|]. destruct I as [Hlog Hlock Hholder Hfree]. split; cbn; try done.
    + by eapply replays_snoc.
    + intros u x [Hne Hx]%lookup_delete_Some Hhx. pose proof (Hlock u x Hx Hhx). congruence.
    + done.
Qed.

Lemma waits_inv s r t c :
  inv s r -> mu s = None ->
  inv (MkState (stats s) (Some t) (<[t := Locked c]> (threads s)) (log s)) r.
Proof.
  intros [Hlog Hlock Hholder Hfree] Hmu. split; cbn; [done| | |done].
  - intros u x [[<- <-]|[Hne Hx]]%lookup_insert_Some Hhx; [done|].
    pose proof (Hlock u x Hx Hhx). congruence.
  - intros u [= <-]. exists (Locked c). rewrite lookup_insert_eq. split; [done|]. split; [done|]. by apply Hfree.
Qed.

Lemma call_inv s r t c : inv s r -> threads s !! t = None -> inv (go t (Called c) s) r.
Proof.
  intros [Hlog Hlock Hholder Hfree] Ht. split; cbn; [done| | |done].
  - intros u x [[<- <-]|[Hne Hx]]%lookup_insert_Some Hhx; [done|by eapply Hlock].
  - intros u Hu. destruct (Hholder u Hu) as (pt & Hpt & Hh & Hm). exists pt.
    rewrite lookup_insert_ne by (intros ->; congruence). done.
Qed.

(** No step is undefined, and each keeps the invariant. *)
Lemma step_inv s r l v : inv s r -> step l s = Some v -> exists s' r', v = Next s' /\ inv s' r'.
Proof.
  intros I Hs. destruct l as [t c|t]; cbn in Hs.
  - destruct (decide (threads s !! t = None)) as [Ht|]; [|done]. injection Hs as <-.
    do 2 eexists. split; [reflexivity|]. by apply call_inv.
  - destruct (threads s !! t) as [pt|] eqn:Ht; [|done]. cbn in Hs.
    destruct (holds_lock pt) eqn:Hh.
    + destruct (holder_advances s r t pt I Ht Hh) as (s' & r' & Ha & I'). rewrite Ha in Hs.
      injection Hs as <-. eauto.
    + destruct pt as [c| | | | | | | |]; try done. cbn in Hs. destruct (mu s) eqn:Hmu; [done|].
      injection Hs as <-. do 2 eexists. split; [reflexivity|]. by apply waits_inv.
Qed.

Lemma reporter_reachable_inv s : reachable s -> exists r, inv s r.
Proof.
  intros Hr. apply (rtc_preserves steps_to (fun s => exists r, inv s r) boot s); [|exact Hr|].
  - intros s1 s2 [l Hl] [r I]. destruct (step_inv s1 r l _ I Hl) as (s' & r' & [= <-] & I'). eauto.
  - exists new_reporter. split; [constructor|..]; cbn; try done.
Qed.

Lemma access_locked pt w : next_access pt = Some w -> holds_lock pt = true.
Proof. by destruct pt. Qed.

End Threads.
End Shared.

(** ** Properties *)

Section Properties.
Import Shared.
Context (iter : gmap ConnectionKey ConnectionStats -> list item) (inet_ntop : Z -> string) `{StdSort}.

(** C19: the reporter called by any number of threads, in every interleaving of
    their accesses: no two threads are about to access the map at once with one of
    them writing, no access is undefined, the calls that have released the lock
    have the results they have one after the other in that order on a new
    reporter, and when the lock is free the map is what they leave; and while a
    thread is inside a call, some thread can go on. *)
Theorem reporter_linearizable s :
  (forall m, iter m ≡ₚ map_to_list m) -> reachable iter inet_ntop s ->
  ~ race s /\ (forall l, step iter inet_ntop l s <> Some Undefined) /\
  (exists r, replays iter inet_ntop (log s) r /\ (mu s = None -> stats s = stats_ r)) /\
  (threads s <> ∅ -> exists t s', step iter inet_ntop (Run t) s = Some (Next s')).
Proof.
  intros Hiter Hr. destruct (reporter_reachable_inv iter inet_ntop Hiter s Hr) as [r I].
  split; [|split; [|split]].
  - intros (t & t' & pt & pt' & w & w' & Hne & Ht & Ht' & Hw & Hw' & _).
    pose proof (n_lock _ _ _ _ I t pt Ht (access_locked _ _ Hw)).
    pose proof (n_lock _ _ _ _ I t' pt' Ht' (access_locked _ _ Hw')). congruence.
  - intros l Hu. by destruct (step_inv iter inet_ntop Hiter s r l _ I Hu) as (? & ? & ? & _).
  - exists r. split; [exact (n_log _ _ _ _ I)|exact (n_free _ _ _ _ I)].
  - intros Hne. destruct (mu s) as [t|] eqn:Hmu.
    + destruct (n_holder _ _ _ _ I t Hmu) as (pt & Ht & Hh & _).
      destruct (holder_advances iter inet_ntop Hiter s r t pt I Ht Hh) as (s' & r' & Ha & _).
      exists t, s'. cbn. by rewrite Ht.
    + apply map_choose in Hne as (t & pt & Ht). exists t.
      destruct (holds_lock pt) eqn:Hh; [pose proof (n_lock _ _ _ _ I t pt Ht Hh); congruence|].
      destruct pt; try done. eexists. cbn. rewrite Ht. cbn. by rewrite Hmu.
Qed.

End Properties.

(** ** Witness: a scrape while an event is recorded *)

Module SharedWitness.
Import Shared ReporterWitness.

Definition show_ip (a : Z) : string := to_string a.

(** [n] steps of a thread. *)
Definition run (t n : nat) : list label := replicate n (Run t).

Fixpoint exec (ls : list label) (s : state) : option state :=
  match ls with
  | [] => Some s
  | l :: ls => match step map_to_list show_ip l s with Some (Next s') => exec ls s' | _ => None end
  end.

(** Thread 1 asks for the connections while thread 0 is in the middle of
    recording a close; it waits, and reads in between two records. *)
Definition schedule : list label :=
  [Call 0 (Record (event 0 1 0 0))] ++ run 0 7 ++ [Call 0 (Record (event 1 1 10 20))] ++ run 0 3 ++
  [Call 1 ForEach] ++ run 0 5 ++ run 1 2 ++ [Call 0 Clear] ++ run 1 3.

Definition scraped : state := Eval vm_compute in default boot (exec schedule boot).

Lemma exec_reachable ls s s' : exec ls s = Some s' -> rtc (steps_to map_to_list show_ip) s s'.
Proof.
  revert s. induction ls as [|l ls IH]; intros s Hx; cbn in Hx; [by injection Hx as <-|].
  destruct (step map_to_list show_ip l s) as [[|s1]|] eqn:Hs; try discriminate Hx.
  eapply rtc_l; [by exists l|by apply IH].
Qed.

End SharedWitness.

Section Witnesses.
Import Shared SharedWitness ReporterWitness.

Lemma reporter_linearizable_witness :
  ~ race scraped /\ length (log scraped) = 3%nat /\
  exists r, replays map_to_list show_ip (log scraped) r.
Proof.
  destruct (reporter_linearizable map_to_list show_ip scraped) as (Hrace & _ & (r & Hr & _) & _);
    [intros m; reflexivity|apply (exec_reachable schedule); vm_compute; reflexivity|].
  split; [exact Hrace|]. split; [reflexivity|]. exists r. exact Hr.
Defined.

End Witnesses.
