(* ===== verification/RequestStats.v ===== *)
(** * RequestStats: src/http/request_stats.h

    Per-route counters of the HTTP server and the timer that feeds them.
    [record] runs under the exclusive lock and the queries under the shared
    lock of [m_mtx], so each method is one transition of the state. *)

From S2P Require Import Prelude.
From Stdlib Require Import SpecFloat.

Module Requests.

Definition UINT64_MAX : Z := 2 ^ 64 - 1.

Record RouteStats := MkRoute {
  requests : Z;
  errors : Z;
  total_us : Z;
  min_us : Z;
  max_us : Z
}.

(** The default member initialisers. *)
Definition new_route : RouteStats := MkRoute 0 0 0 UINT64_MAX 0.

(** [double]: IEEE binary64, conversions and division rounded to nearest. *)
Definition double_of (z : Z) : spec_float := binary_normalize 53 1024 z 0 false.
Definition div_double (a b : spec_float) : spec_float := SFdiv 53 1024 a b.

Definition mean_us (s : RouteStats) : spec_float :=
  if requests s >? 0 then div_double (double_of (total_us s)) (double_of (requests s))
  else S754_zero false.

Record RequestStats := MkStats { m_stats : gmap string RouteStats }.

Definition new_stats : RequestStats := MkStats ∅.

Definition record (route : string) (elapsed_us : Z) (ok : bool) (r : RequestStats) : RequestStats :=
  let s := default new_route (m_stats r !! route) in
  let s := MkRoute (requests s +₆₄ 1) (errors s) (total_us s) (min_us s) (max_us s) in
  let s := MkRoute (requests s) (errors s) (total_us s +₆₄ elapsed_us) (min_us s) (max_us s) in
  let s := MkRoute (requests s) (errors s) (total_us s) (Z.min (min_us s) elapsed_us) (max_us s) in
  let s := MkRoute (requests s) (errors s) (total_us s) (min_us s) (Z.max (max_us s) elapsed_us) in
  let s := if negb ok
           then MkRoute (requests s) (errors s +₆₄ 1) (total_us s) (min_us s) (max_us s) else s in
  MkStats (<[route := s]> (m_stats r)).

Definition snapshot (r : RequestStats) : gmap string RouteStats := m_stats r.

Section Totals.
(** The iteration order of the map. *)
Context (iter : gmap string RouteStats -> list (string * RouteStats)).

Definition total_requests (r : RequestStats) : Z :=
  fold_left (fun n x => n +₆₄ requests x.2) (iter (m_stats r)) 0.

Definition total_errors (r : RequestStats) : Z :=
  fold_left (fun n x => n +₆₄ errors x.2) (iter (m_stats r)) 0.
End Totals.

(** *** RequestTimer *)

Record RequestTimer := MkTimer {
  m_route : string;
  m_start : Z;      (** steady_clock::time_point, nanoseconds *)
  m_done : bool
}.

Definition new_timer (route : string) (now : Z) : RequestTimer := MkTimer route now false.

(** [duration_cast<microseconds>] truncates. *)
Definition finish (ok : bool) (now : Z) (t : RequestTimer) (r : RequestStats)
    : RequestTimer * RequestStats :=
  if m_done t then (t, r) else
  let t := MkTimer (m_route t) (m_start t) true in
  let elapsed := (now - m_start t) ÷ 1000 in
  (t, record (m_route t) (u64 elapsed) ok r).

(** The destructor. *)
Definition destroy (now : Z) (t : RequestTimer) (r : RequestStats) : RequestStats :=
  (finish false now t r).2.

(** The life of a timer: any calls of [finish], then the destructor. *)
Fixpoint finish_all (calls : list (bool * Z)) (t : RequestTimer) (r : RequestStats)
    : RequestTimer * RequestStats :=
  match calls with
  | [] => (t, r)
  | (ok, now) :: calls => let '(t, r) := finish ok now t r in finish_all calls t r
  end.

Definition timer_life (route : string) (start : Z) (calls : list (bool * Z)) (end_ : Z)
    (r : RequestStats) : RequestStats :=
  let '(t, r) := finish_all calls (new_timer route start) r in destroy end_ t r.

(** ** Reference *)

(** One finished request: route, latency, success. *)
Definition request : Type := string * Z * bool.

Definition record_all (reqs : list request) (r : RequestStats) : RequestStats :=
  fold_left (fun r '(route, us, ok) => record route us ok r) reqs r.

Definition of_route (route : string) (reqs : list request) : list request :=
  filter (fun q => q.1.1 = route) reqs.

Definition failed (reqs : list request) : list request := filter (fun q => q.2 = false) reqs.

Definition latencies (reqs : list request) : list Z := (fun q => q.1.2) <$> reqs.

Definition route_totals (reqs : list request) : RouteStats :=
  MkRoute (u64 (Z.of_nat (length reqs))) (u64 (Z.of_nat (length (failed reqs))))
    (u64 (Zsum (latencies reqs)))
    (foldr Z.min UINT64_MAX (latencies reqs)) (foldr Z.max 0 (latencies reqs)).

(** ** Lemmas *)

Lemma foldr_min_snoc l x b : foldr Z.min b (l ++ [x]) = Z.min (foldr Z.min b l) x.
Proof. induction l as [|y l IH]; simpl; lia. Qed.

Lemma foldr_max_snoc l x b : foldr Z.max b (l ++ [x]) = Z.max (foldr Z.max b l) x.
Proof. induction l as [|y l IH]; simpl; lia. Qed.

Lemma latencies_snoc reqs route us ok :
  latencies (reqs ++ [(route, us, ok)]) = latencies reqs ++ [us].
Proof. unfold latencies. by rewrite fmap_app. Qed.

Lemma failed_snoc reqs q :
  failed (reqs ++ [q]) = failed reqs ++ (if q.2 then [] else [q]).
Proof. unfold failed. rewrite filter_app. by destruct q as [? []]. Qed.

Definition update (us : Z) (ok : bool) (s : RouteStats) : RouteStats :=
  MkRoute (requests s +₆₄ 1) (if ok then errors s else errors s +₆₄ 1) (total_us s +₆₄ us)
    (Z.min (min_us s) us) (Z.max (max_us s) us).

Lemma route_record_insert route us ok r :
  m_stats (record route us ok r) =
  <[route := update us ok (default new_route (m_stats r !! route))]> (m_stats r).
Proof. by destruct ok. Qed.

Lemma update_route_totals route us ok reqs :
  update us ok (route_totals reqs) = route_totals (reqs ++ [(route, us, ok)]).
Proof.
  unfold update, route_totals. rewrite latencies_snoc, failed_snoc.
  rewrite !length_app, Zsum_app, foldr_min_snoc, foldr_max_snoc.
  cbn [requests errors total_us min_us max_us]. unwrap.
  f_equal; [f_equal; simpl; lia| |f_equal; unfold Zsum; simpl; lia].
  destruct ok; simpl; unwrap; f_equal; lia.
Qed.

Lemma requests_snoc reqs route us ok r :
  record_all (reqs ++ [(route, us, ok)]) r = record route us ok (record_all reqs r).
Proof. apply fold_left_app. Qed.

Lemma of_route_snoc route reqs q :
  of_route route (reqs ++ [q]) =
  if decide (q.1.1 = route) then of_route route reqs ++ [q] else of_route route reqs.
Proof.
  unfold of_route. rewrite filter_app. case_decide as Hk.
  - by rewrite filter_cons_True.
  - rewrite filter_cons_False by done. apply app_nil_r.
Qed.

Lemma requests_lookup reqs route :
  m_stats (record_all reqs new_stats) !! route =
  match of_route route reqs with [] => None | qs => Some (route_totals qs) end.
Proof.
  induction reqs as [|[[route' us] ok] reqs IH] using rev_ind; [done|].
  rewrite requests_snoc, route_record_insert, of_route_snoc. cbn.
  destruct (decide (route' = route)) as [->|Hne].
  - rewrite lookup_insert_eq, IH.
    assert (default new_route match of_route route reqs with
              | [] => None | qs => Some (route_totals qs) end =
            route_totals (of_route route reqs)) as ->
      by (by destruct (of_route route reqs)).
    rewrite (update_route_totals route). by destruct (of_route route reqs).
  - by rewrite lookup_insert_ne, IH.
Qed.

Lemma sum_requests reqs :
  u64 (map_sum requests (m_stats (record_all reqs new_stats))) = u64 (Z.of_nat (length reqs)).
Proof.
  induction reqs as [|[[route us] ok] reqs IH] using rev_ind; [done|].
  rewrite requests_snoc, route_record_insert, map_sum_insert, length_app. cbn [update requests].
  replace (default 0 (requests <$> m_stats (record_all reqs new_stats) !! route))
    with (requests (default new_route (m_stats (record_all reqs new_stats) !! route)))
    by (by destruct (_ !! route)).
  rewrite u64_add_r, Nat2Z.inj_add, <- (u64_add_l (Z.of_nat (length reqs))), <- IH, u64_add_l.
  f_equal. simpl. lia.
Qed.

Lemma sum_errors reqs :
  u64 (map_sum errors (m_stats (record_all reqs new_stats))) =
  u64 (Z.of_nat (length (failed reqs))).
Proof.
  induction reqs as [|[[route us] ok] reqs IH] using rev_ind; [done|].
  rewrite requests_snoc, route_record_insert, map_sum_insert, failed_snoc, length_app.
  cbn [update errors].
  replace (default 0 (errors <$> m_stats (record_all reqs new_stats) !! route))
    with (errors (default new_route (m_stats (record_all reqs new_stats) !! route)))
    by (by destruct (_ !! route)).
  rewrite Nat2Z.inj_add, <- (u64_add_l (Z.of_nat (length (failed reqs)))), <- IH, u64_add_l.
  destruct ok; rewrite ?u64_add_r; f_equal; simpl; lia.
Qed.

Lemma totals_of iter reqs :
  (forall m, iter m ≡ₚ map_to_list m) ->
  let r := record_all reqs new_stats in
  total_requests iter r = u64 (Z.of_nat (length reqs)) /\
  total_errors iter r = u64 (Z.of_nat (length (failed reqs))).
Proof.
  intros Hiter r. unfold total_requests, total_errors. change 0 with (u64 0).
  rewrite !fold_left_u64, !Hiter. split; [apply sum_requests|apply sum_errors].
Qed.

Lemma finish_done ok now t r : m_done t = true -> finish ok now t r = (t, r).
Proof. intros Hd. unfold finish. by rewrite Hd. Qed.

Lemma finish_all_done calls t r : m_done t = true -> finish_all calls t r = (t, r).
Proof.
  intros Hd. induction calls as [|[ok now] calls IH]; simpl; [done|]. by rewrite finish_done.
Qed.

End Requests.

(** ** Properties *)

Section Properties.
Import Requests.

(** Any sequence of finished requests: a route that was never served has
    no entry, any other holds its number of requests and failures, the sum of
    its latencies (modulo 2^64) and their minimum and maximum; the totals over
    all routes, whatever the iteration order, count all requests and all
    failures. *)
Theorem request_stats_exact iter reqs route :
  (forall m, iter m ≡ₚ map_to_list m) ->
  let r := record_all reqs new_stats in
  snapshot r !! route =
    match of_route route reqs with [] => None | qs => Some (route_totals qs) end /\
  total_requests iter r = u64 (Z.of_nat (length reqs)) /\
  total_errors iter r = u64 (Z.of_nat (length (failed reqs))).
Proof.
  intros Hiter r. split; [apply requests_lookup|by apply totals_of].
Qed.

(** A timer reports its request exactly once: with the outcome and the
    time of the first finish, later calls and the destructor adding nothing;
    as a failure, at destruction, when finish was never called. *)
Theorem timer_records_once route start calls end_ r :
  timer_life route start calls end_ r =
  let '(ok, now) := default (false, end_) (head calls) in
  record route (u64 ((now - start) ÷ 1000)) ok r.
Proof.
  unfold timer_life, destroy. destruct calls as [|[ok now] calls]; [done|]. cbn.
  rewrite finish_all_done by done. by rewrite finish_done.
Qed.

End Properties.

(** ** Witnesses *)

Section Witnesses.
Import Requests.

Lemma request_stats_exact_witness :
  let reqs := [("/metrics", 30, true); ("/health", 5, true); ("/metrics", 10, false)]%string in
  snapshot (record_all reqs new_stats) !! "/metrics"%string = Some (MkRoute 2 1 40 10 30) /\
  total_requests map_to_list (record_all reqs new_stats) = 3.
Proof.
  intros reqs.
  destruct (request_stats_exact map_to_list reqs "/metrics") as (Hs & Ht & _); [done|].
  split; [exact Hs|exact Ht].
Defined.

End Witnesses.
