(* ===== verification/ThreadPool.v ===== *)
(** * ThreadPool: src/http/thread_pool.h

    The fixed-size pool: a queue of tasks under a mutex, workers that sleep on
    a condition variable, futures, a destructor that drains the queue.

    A transition is one critical section, one notification, or one access to
    the counters, by any thread; everything between them interleaves freely.
    The condition variable is modelled with its pitfalls: a notification only
    reaches workers that are asleep when it is sent, it is sent after the mutex
    is released, and a worker may wake up without one. *)

From S2P Require Import Prelude.

Module Tp.

(** A task is named by the number of its [submit] call. *)
Definition task : Type := nat.

(** Where a worker is in [worker_loop]. *)
Inductive worker :=
| Ready             (** about to lock [m_mtx] and evaluate the predicate *)
| Waiting           (** asleep in [m_cv.wait] *)
| Running (t : task)  (** inside the task body *)
| Counted (t : task)  (** past the CompletionGuard, the future not ready yet *)
| Exited.           (** returned from [worker_loop] *)

#[export] Instance worker_eq_dec : EqDecision worker.
Proof. solve_decision. Defined.

(** [std::runtime_error("ThreadPool: submit after shutdown")] *)
Inductive error := submit_after_shutdown.

Section Pool.
(** The result of each task body: a value or the exception it throws. *)
Context {R : Type} (body : task -> R).

Record ThreadPool := MkPool {
  m_tasks : list task;
  m_workers : list worker;
  m_stop : bool;
  m_pending : Z;
  m_completed : Z;
  futures : gmap task R;   (** the futures that are ready *)
  next : nat;              (** number of successful [submit] calls so far *)
  to_notify : nat;         (** [submit] calls between unlock and [notify_one] *)
  to_notify_all : bool     (** the destructor between unlock and [notify_all] *)
}.

Definition new_pool (thread_count : nat) : ThreadPool :=
  let thread_count := if (thread_count =? 0)%nat then 1%nat else thread_count in
  MkPool [] (replicate thread_count Ready) false 0 0 ∅ 0 0 false.

(** The critical section of [submit]; the [notify_one] is still to come. *)
Definition submit (p : ThreadPool) : ThreadPool + error :=
  if m_stop p then inr submit_after_shutdown else
  inl (MkPool (m_tasks p ++ [next p]) (m_workers p) (m_stop p) (m_pending p +₆₄ 1)
              (m_completed p) (futures p) (S (next p)) (S (to_notify p)) (to_notify_all p)).

Definition size (p : ThreadPool) : Z := Z.of_nat (length (m_workers p)).
Definition pending (p : ThreadPool) : Z := m_pending p.
Definition completed (p : ThreadPool) : Z := m_completed p.

Definition set_worker (p : ThreadPool) (i : nat) (w : worker) : ThreadPool :=
  MkPool (m_tasks p) (<[i := w]> (m_workers p)) (m_stop p) (m_pending p) (m_completed p)
         (futures p) (next p) (to_notify p) (to_notify_all p).

(** The critical section of [worker_loop]: the predicate of [wait], then the
    return or the pop. *)
Definition worker_section (p : ThreadPool) (i : nat) : ThreadPool :=
  if negb (m_stop p || negb (bool_decide (m_tasks p = []))) then set_worker p i Waiting
  else if m_stop p && bool_decide (m_tasks p = []) then set_worker p i Exited
  else match m_tasks p with
  | t :: ts =>
      MkPool ts (<[i := Running t]> (m_workers p)) (m_stop p) (m_pending p -₆₄ 1)
             (m_completed p) (futures p) (next p) (to_notify p) (to_notify_all p)
  | [] => p
  end.

(** [~CompletionGuard], when the body has returned or thrown. *)
Definition completion_guard (p : ThreadPool) (i : nat) (t : task) : ThreadPool :=
  MkPool (m_tasks p) (<[i := Counted t]> (m_workers p)) (m_stop p) (m_pending p)
         (m_completed p +₆₄ 1) (futures p) (next p) (to_notify p) (to_notify_all p).

(** [packaged_task] stores the result; the worker goes round its loop. *)
Definition make_ready (p : ThreadPool) (i : nat) (t : task) : ThreadPool :=
  MkPool (m_tasks p) (<[i := Ready]> (m_workers p)) (m_stop p) (m_pending p)
         (m_completed p) (<[t := body t]> (futures p)) (next p) (to_notify p) (to_notify_all p).

Definition with_notify (p : ThreadPool) (ws : list worker) (n : nat) (all : bool) : ThreadPool :=
  MkPool (m_tasks p) ws (m_stop p) (m_pending p) (m_completed p) (futures p) (next p) n all.

(** The critical section of the destructor. *)
Definition set_stop (p : ThreadPool) : ThreadPool :=
  MkPool (m_tasks p) (m_workers p) true (m_pending p) (m_completed p) (futures p) (next p)
         (to_notify p) true.

Definition wake (w : worker) : worker := match w with Waiting => Ready | _ => w end.

(** What the workers and the pending notifications do by themselves. *)
Inductive internal : ThreadPool -> ThreadPool -> Prop :=
| int_section p i :
    m_workers p !! i = Some Ready -> internal p (worker_section p i)
| int_guard p i t :
    m_workers p !! i = Some (Running t) -> internal p (completion_guard p i t)
| int_ready p i t :
    m_workers p !! i = Some (Counted t) -> internal p (make_ready p i t)
| int_notify_one p i n :
    to_notify p = S n -> m_workers p !! i = Some Waiting ->
    internal p (with_notify p (<[i := Ready]> (m_workers p)) n (to_notify_all p))
| int_notify_none p n :
    to_notify p = S n -> Waiting ∉ m_workers p ->
    internal p (with_notify p (m_workers p) n (to_notify_all p))
| int_notify_all p :
    to_notify_all p = true ->
    internal p (with_notify p (wake <$> m_workers p) (to_notify p) false).

(** What clients and the scheduler may do at any time: a [submit], the start of
    the destructor, a spurious wake-up. *)
Inductive external : ThreadPool -> ThreadPool -> Prop :=
| ext_submit p p' : submit p = inl p' -> external p p'
| ext_stop p : m_stop p = false -> external p (set_stop p)
| ext_spurious p i :
    m_workers p !! i = Some Waiting -> external p (set_worker p i Ready).

Definition step (p p' : ThreadPool) : Prop := internal p p' \/ external p p'.

Definition reachable (p : ThreadPool) : Prop := exists n, rtc step (new_pool n) p.

(** The destructor's join returns. *)
Definition joined (p : ThreadPool) : Prop := Forall (fun w => w = Exited) (m_workers p).

End Pool.
Arguments ThreadPool : clear implicits.
Arguments int_section {_ _}.

(** ** Invariant *)

Definition running_of (w : worker) : option task := match w with Running t => Some t | _ => None end.
Definition counted_of (w : worker) : option task := match w with Counted t => Some t | _ => None end.
Definition running (ws : list worker) : list task := omap running_of ws.
Definition counted (ws : list worker) : list task := omap counted_of ws.

(** Will look at the queue again. *)
Definition awake (w : worker) : bool := match w with Waiting | Exited => false | _ => true end.

Lemma omap_insert_perm {A B} (f : A -> option B) (l : list A) i x y :
  l !! i = Some x ->
  option_list (f x) ++ omap f (<[i := y]> l) ≡ₚ option_list (f y) ++ omap f l.
Proof.
  intros Hi. rewrite <- (take_drop_middle l i x Hi).
  assert (length (take i l) = i) as Hl.
  { rewrite length_take. apply lookup_lt_Some in Hi. lia. }
  rewrite <- Hl at 1.
  rewrite (insert_app_r_alt _ _ (length (take i l))) by lia. rewrite Nat.sub_diag. simpl.
  rewrite !omap_app. simpl. destruct (f x), (f y); simpl; solve_Permutation.
Qed.

Section Invariant.
Context {R : Type} (body : task -> R).
#[local] Abbreviation P := (ThreadPool R).

Definition done_tasks (p : P) : list task := (map_to_list (futures p)).*1.

(** The tasks taken from the queue: in a body, counted, or with a ready
    future. *)
Definition taken (p : P) : list task :=
  running (m_workers p) ++ counted (m_workers p) ++ done_tasks p.

Record Inv (p : P) : Prop := {
  inv_workers : m_workers p <> [];
  inv_queue : exists k, (k <= next p)%nat /\ m_tasks p = seq k (next p - k) /\
                        seq 0 k ≡ₚ taken p;
  inv_results t r : futures p !! t = Some r -> r = body t;
  inv_pending : m_pending p = u64 (Z.of_nat (length (m_tasks p)));
  inv_completed :
    m_completed p = u64 (Z.of_nat (length (counted (m_workers p) ++ done_tasks p)));
  inv_exited : Exited ∈ m_workers p -> m_stop p = true /\ m_tasks p = [];
  inv_wakeup : m_tasks p <> [] -> (0 < to_notify p)%nat \/ exists w, w ∈ m_workers p /\ awake w;
  inv_stop : m_stop p = true -> Waiting ∈ m_workers p -> to_notify_all p = true;
  inv_all : to_notify_all p = true -> m_stop p = true
}.

Lemma omap_replicate_none {A B} (f : A -> option B) n x : f x = None -> omap f (replicate n x) = [].
Proof. intros Hf. induction n; simpl; [done|]. by rewrite Hf. Qed.

Lemma inv_new n : Inv (new_pool n).
Proof.
  unfold new_pool. set (k := if (n =? 0)%nat then 1%nat else n).
  assert (0 < k)%nat by (unfold k; destruct (Nat.eqb_spec n 0); lia).
  split; cbn.
  - by destruct k; [lia|].
  - exists 0%nat. split; [lia|]. split; [done|].
    unfold taken, running, counted, done_tasks. cbn. rewrite !omap_replicate_none by done. done.
  - intros t r Ht. by rewrite lookup_empty in Ht.
  - done.
  - unfold counted, done_tasks. cbn. by rewrite omap_replicate_none.
  - intros [? _]%elem_of_replicate. done.
  - done.
  - intros [=].
  - intros [=].
Qed.

(** *** Replacing one worker *)

Lemma elem_of_set (ws : list worker) i x w : w ∈ <[i := x]> ws -> w = x \/ w ∈ ws.
Proof.
  intros (j & Hj)%list_elem_of_lookup. apply list_lookup_insert_Some in Hj as [(_ & <- & _)|(_ & Hj)].
  - by left.
  - right. by eapply list_elem_of_lookup_2.
Qed.

Lemma elem_of_set_new (ws : list worker) i y x : ws !! i = Some y -> x ∈ <[i := x]> ws.
Proof.
  intros Hi. apply (list_elem_of_lookup_2 _ i), list_lookup_insert_eq. by eapply lookup_lt_Some.
Qed.

Lemma elem_of_set_other (ws : list worker) i y x w :
  ws !! i = Some y -> w ∈ ws -> w <> y -> w ∈ <[i := x]> ws.
Proof.
  intros Hi (j & Hj)%list_elem_of_lookup Hne. apply (list_elem_of_lookup_2 _ j).
  rewrite list_lookup_insert_ne; [done|]. intros ->. congruence.
Qed.

Lemma set_nonempty (ws : list worker) i x : ws <> [] -> <[i := x]> ws <> [].
Proof. intros Hws Hn. apply Hws. by destruct ws, i. Qed.

(** An awake worker is replaced by an awake one: nobody falls asleep. *)
Lemma awake_set (ws : list worker) i y x :
  ws !! i = Some y -> awake x ->
  (exists w, w ∈ ws /\ awake w) -> exists w, w ∈ <[i := x]> ws /\ awake w.
Proof. intros Hi Hx _. exists x. split; [by eapply elem_of_set_new|done]. Qed.

Lemma running_set ws i x y :
  ws !! i = Some x ->
  option_list (running_of x) ++ running (<[i := y]> ws) ≡ₚ option_list (running_of y) ++ running ws.
Proof. apply omap_insert_perm. Qed.

Lemma counted_set ws i x y :
  ws !! i = Some x ->
  option_list (counted_of x) ++ counted (<[i := y]> ws) ≡ₚ option_list (counted_of y) ++ counted ws.
Proof. apply omap_insert_perm. Qed.

(** *** Preservation, one transition at a time *)

(** Steps that move a worker without a task, or only notify. *)
Lemma inv_idle p p' :
  Inv p ->
  m_tasks p' = m_tasks p -> m_stop p' = m_stop p -> m_pending p' = m_pending p ->
  m_completed p' = m_completed p -> futures p' = futures p -> next p' = next p ->
  m_workers p' <> [] ->
  running (m_workers p') ≡ₚ running (m_workers p) ->
  counted (m_workers p') ≡ₚ counted (m_workers p) ->
  (Exited ∈ m_workers p' -> m_stop p = true /\ m_tasks p = []) ->
  (m_tasks p <> [] -> (0 < to_notify p')%nat \/ exists w, w ∈ m_workers p' /\ awake w) ->
  (m_stop p = true -> Waiting ∈ m_workers p' -> to_notify_all p' = true) ->
  (to_notify_all p' = true -> m_stop p = true) ->
  Inv p'.
Proof.
  intros [] Ht Hs Hpe Hco Hf Hn Hw Hrun Hcnt Hex Hwk Hst Hall.
  assert (done_tasks p' = done_tasks p) as Hd by (unfold done_tasks; by rewrite Hf).
  split; rewrite ?Ht, ?Hs, ?Hpe, ?Hf; try done.
  - destruct inv_queue0 as (k & Hk & Hq & Hperm). exists k. rewrite Hn.
    split; [done|]. split; [done|]. unfold taken. by rewrite Hrun, Hcnt, Hd.
  - rewrite Hco, inv_completed0, Hd. do 2 f_equal. by rewrite !length_app, Hcnt.
Qed.

(** One worker moves between states without a task. *)
Lemma inv_move p p' i x y :
  Inv p -> m_workers p !! i = Some x -> m_workers p' = <[i := y]> (m_workers p) ->
  running_of x = None -> running_of y = None -> counted_of x = None -> counted_of y = None ->
  m_tasks p' = m_tasks p -> m_stop p' = m_stop p -> m_pending p' = m_pending p ->
  m_completed p' = m_completed p -> futures p' = futures p -> next p' = next p ->
  (Exited ∈ <[i := y]> (m_workers p) -> m_stop p = true /\ m_tasks p = []) ->
  (m_tasks p <> [] ->
     (0 < to_notify p')%nat \/ exists w, w ∈ <[i := y]> (m_workers p) /\ awake w) ->
  (m_stop p = true -> Waiting ∈ <[i := y]> (m_workers p) -> to_notify_all p' = true) ->
  (to_notify_all p' = true -> m_stop p = true) ->
  Inv p'.
Proof.
  intros HI Hi Hw Hrx Hry Hcx Hcy Ht Hs Hpe Hco Hf Hn.
  pose proof (running_set _ _ _ y Hi) as Hrun. rewrite Hrx, Hry in Hrun.
  pose proof (counted_set _ _ _ y Hi) as Hcnt. rewrite Hcx, Hcy in Hcnt.
  rewrite <- Hw in *. intros. apply (inv_idle p); try done.
  rewrite Hw. by apply set_nonempty, HI.
Qed.

Lemma inv_pop p i t ts :
  m_workers p !! i = Some Ready -> m_tasks p = t :: ts -> Inv p ->
  Inv (MkPool ts (<[i := Running t]> (m_workers p)) (m_stop p) (m_pending p -₆₄ 1)
         (m_completed p) (futures p) (next p) (to_notify p) (to_notify_all p)).
Proof.
  intros Hi Ht []. pose proof (running_set _ _ _ (Running t) Hi) as Hrun.
  pose proof (counted_set _ _ _ (Running t) Hi) as Hcnt. cbn in Hrun, Hcnt.
  split; cbn; try done.
  - by apply set_nonempty.
  - destruct inv_queue0 as (k & Hk & Hq & Hperm). rewrite Ht in Hq.
    destruct (next p - k)%nat as [|d] eqn:Hd; [done|]. injection Hq as -> ->.
    exists (S k). split; [lia|]. split; [f_equal; lia|].
    rewrite seq_S, Hperm. unfold taken. cbn [m_workers].
    rewrite Hrun, Hcnt. change (done_tasks _) with (done_tasks p). simpl. solve_Permutation.
  - rewrite inv_pending0, Ht. unwrap. f_equal. cbn [length]. lia.
  - rewrite inv_completed0. change (done_tasks (MkPool _ _ _ _ _ _ _ _ _)) with (done_tasks p).
    do 2 f_equal. by rewrite !length_app, Hcnt.
  - intros [?|Hin]%elem_of_set; [done|]. destruct (inv_exited0 Hin). congruence.
  - right. exists (Running t). split; [by eapply elem_of_set_new|done].
  - intros Hs [?|Hin]%elem_of_set; [done|]. by apply inv_stop0.
Qed.

Lemma inv_section p i :
  m_workers p !! i = Some Ready -> Inv p -> Inv (worker_section p i).
Proof.
  intros Hi HI. unfold worker_section.
  destruct (bool_decide_reflect (m_tasks p = [])) as [He|He].
  - destruct (m_stop p) eqn:Hs; cbn.
    + apply (inv_move p _ i Ready Exited); try done.
      intros _ [?|Hin]%elem_of_set; [done|]. by apply (inv_stop p HI).
    + apply (inv_move p _ i Ready Waiting); try done; cbn.
      * intros [?|Hin]%elem_of_set; [done|]. by apply (inv_exited p HI).
      * congruence.
      * intros Ha. by apply (inv_all p HI).
  - rewrite orb_true_r, andb_false_r. cbn.
    destruct (m_tasks p) as [|t ts] eqn:Ht; [done|]. by eapply inv_pop.
Qed.

Lemma inv_guard p i t :
  m_workers p !! i = Some (Running t) -> Inv p -> Inv (completion_guard p i t).
Proof.
  intros Hi []. pose proof (running_set _ _ _ (Counted t) Hi) as Hrun.
  pose proof (counted_set _ _ _ (Counted t) Hi) as Hcnt. cbn in Hrun, Hcnt.
  split; cbn; try done.
  - by apply set_nonempty.
  - destruct inv_queue0 as (k & Hk & Hq & Hperm). exists k. split; [done|]. split; [done|].
    rewrite Hperm. unfold taken. cbn [m_workers]. change (done_tasks (completion_guard p i t)) with (done_tasks p).
    rewrite <- Hrun, Hcnt. simpl. solve_Permutation.
  - rewrite inv_completed0. unwrap. change (done_tasks (completion_guard p i t)) with (done_tasks p).
    f_equal. rewrite !length_app, Hcnt. cbn [length]. lia.
  - intros [?|Hin]%elem_of_set; [done|]. by apply inv_exited0.
  - intros _. right. exists (Counted t). split; [by eapply elem_of_set_new|done].
  - intros Hs [?|Hin]%elem_of_set; [done|]. by apply inv_stop0.
Qed.

Lemma inv_make_ready p i t :
  m_workers p !! i = Some (Counted t) -> Inv p -> Inv (make_ready body p i t).
Proof.
  intros Hi []. pose proof (running_set _ _ _ Ready Hi) as Hrun.
  pose proof (counted_set _ _ _ Ready Hi) as Hcnt. cbn in Hrun, Hcnt.
  assert (futures p !! t = None) as Hfresh.
  { destruct inv_queue0 as (k & _ & _ & Hperm). pose proof (NoDup_seq 0 k) as Hnd.
    rewrite Hperm in Hnd. unfold taken in Hnd. rewrite <- Hcnt in Hnd.
    apply NoDup_app in Hnd as (_ & _ & [Hnd _]%NoDup_cons).
    apply eq_None_not_Some. intros [r Hr]. apply Hnd, elem_of_app. right.
    apply list_elem_of_fmap. exists (t, r). by rewrite elem_of_map_to_list. }
  assert (done_tasks (make_ready body p i t) ≡ₚ t :: done_tasks p) as Hdone.
  { unfold done_tasks. cbn. by rewrite map_to_list_insert. }
  split; cbn; try done.
  - by apply set_nonempty.
  - destruct inv_queue0 as (k & Hk & Hq & Hperm). exists k. split; [done|]. split; [done|].
    rewrite Hperm. unfold taken. rewrite Hdone. cbn [m_workers make_ready].
    rewrite Hrun, <- Hcnt. simpl. solve_Permutation.
  - intros t' r [(<- & <-)|(_ & Hr)]%lookup_insert_Some; [done|]. by apply inv_results0.
  - rewrite inv_completed0. do 2 f_equal. rewrite Hdone, !length_app, <- Hcnt.
    cbn [length]. fold (counted (<[i := Ready]> (m_workers p))). lia.
  - intros [?|Hin]%elem_of_set; [done|]. by apply inv_exited0.
  - intros _. right. exists Ready. split; [by eapply elem_of_set_new|done].
  - intros Hs [?|Hin]%elem_of_set; [done|]. by apply inv_stop0.
Qed.

Lemma wake_notin (ws : list worker) : Waiting ∉ wake <$> ws.
Proof. intros (w & Hw & _)%list_elem_of_fmap. by destruct w. Qed.

Lemma elem_of_wake (ws : list worker) w : w <> Ready -> w ∈ wake <$> ws -> w ∈ ws.
Proof. intros Hr (w' & -> & Hw')%list_elem_of_fmap. by destruct w'. Qed.

Lemma omap_wake {B} (f : worker -> option B) (ws : list worker) :
  f Waiting = None -> f Ready = None -> omap f (wake <$> ws) = omap f ws.
Proof.
  intros Hw Hr. induction ws as [|w ws IH]; [done|]. csimpl. rewrite IH. destruct w; simpl;
    by rewrite ?Hw, ?Hr.
Qed.

Lemma awake_wake (ws : list worker) : (exists w, w ∈ ws /\ awake w) -> exists w, w ∈ wake <$> ws /\ awake w.
Proof.
  intros (w & Hin & Ha). exists (wake w). split; [by apply list_elem_of_fmap_2|by destruct w].
Qed.

(** While tasks are queued no worker has left, so without a sleeper some worker
    is awake. *)
Lemma none_waiting_awake p :
  Inv p -> m_tasks p <> [] -> Waiting ∉ m_workers p -> exists w, w ∈ m_workers p /\ awake w.
Proof.
  intros [] Ht Hnw. destruct (m_workers p) as [|w ws] eqn:Hw; [done|]. exists w.
  split; [left|]. destruct w; try done.
  - exfalso. apply Hnw. left.
  - destruct inv_exited0; [left|congruence].
Qed.

Lemma inv_internal p p' : internal body p p' -> Inv p -> Inv p'.
Proof.
  intros Hs HI. destruct Hs as [p i Hi|p i t Hi|p i t Hi|p i n Hn Hi|p n Hn Hnw|p Hall].
  - by apply inv_section.
  - by apply inv_guard.
  - by apply inv_make_ready.
  - apply (inv_move p _ i Waiting Ready); try done; cbn.
    + intros [?|Hin]%elem_of_set; [done|]. by apply (inv_exited p HI).
    + intros _. right. exists Ready. split; [by eapply elem_of_set_new|done].
    + intros Hs [?|Hin]%elem_of_set; [done|]. by apply (inv_stop p HI).
    + by apply (inv_all p HI).
  - apply (inv_idle p); try done; try apply HI; cbn.
    intros Ht. right. by apply none_waiting_awake.
  - apply (inv_idle p); try done; cbn.
    + intros Hn%fmap_nil_inv. by apply (inv_workers p HI).
    + unfold running. by rewrite omap_wake.
    + unfold counted. by rewrite omap_wake.
    + intros Hin%elem_of_wake; [|done]. by apply (inv_exited p HI).
    + intros Ht. destruct (inv_wakeup p HI Ht) as [?|?]; [by left|]. right. by apply awake_wake.
    + intros _ Hin. by apply wake_notin in Hin.
Qed.

Lemma inv_external p p' : external p p' -> Inv p -> Inv p'.
Proof.
  intros Hs HI. destruct Hs as [p p' Hsub|p Hst|p i Hi].
  - unfold submit in Hsub. destruct (m_stop p) eqn:Hs; [done|]. injection Hsub as <-.
    destruct HI. split; cbn; try done.
    + destruct inv_queue0 as (k & Hk & Hq & Hperm). exists k. split; [lia|].
      split; [|done]. change (m_tasks p ++ [next p] = seq k (S (next p) - k)).
      rewrite Hq, Nat.sub_succ_l, seq_S by lia. do 2 f_equal. lia.
    + rewrite inv_pending0, length_app. unwrap. f_equal. cbn [length]. lia.
    + intros Hin. destruct (inv_exited0 Hin). congruence.
    + intros _. left. lia.
    + intros Ha%inv_all0. congruence.
  - destruct HI. split; cbn; try done. intros Hin. destruct (inv_exited0 Hin). congruence.
  - apply (inv_move p _ i Waiting Ready); try done; cbn.
    + intros [?|Hin]%elem_of_set; [done|]. by apply (inv_exited p HI).
    + intros _. right. exists Ready. split; [by eapply elem_of_set_new|done].
    + intros Hs [?|Hin]%elem_of_set; [done|]. by apply (inv_stop p HI).
    + by apply (inv_all p HI).
Qed.

Lemma inv_reachable_pool p : reachable body p -> Inv p.
Proof.
  intros [n Hr]. eapply (rtc_preserves (step body) Inv); [|exact Hr|apply inv_new].
  intros a b [Hi|He] HI; [by eapply inv_internal|by eapply inv_external].
Qed.

(** *** Progress *)

Definition weight (w : worker) : nat :=
  match w with Waiting | Exited => 0 | Ready => 1 | Counted _ => 2 | Running _ => 3 end.

(** An upper bound on the transitions the pool can make by itself. *)
Definition measure (p : P) : nat :=
  3 * length (m_tasks p) + sum_list_with weight (m_workers p) + 2 * to_notify p +
  (if to_notify_all p then S (length (m_workers p)) else 0).

Lemma sum_set (ws : list worker) i x y :
  ws !! i = Some x ->
  (sum_list_with weight (<[i := y]> ws) + weight x = sum_list_with weight ws + weight y)%nat.
Proof.
  revert i. induction ws as [|w ws IH]; intros [|i] Hi; simplify_eq/=; [lia|].
  specialize (IH i Hi). lia.
Qed.

Lemma sum_wake (ws : list worker) :
  (sum_list_with weight (wake <$> ws) <= sum_list_with weight ws + length ws)%nat.
Proof. induction ws as [|w ws IH]; csimpl; [lia|]. destruct w; simpl; lia. Qed.

Lemma internal_decreases p p' : internal body p p' -> (measure p' < measure p)%nat.
Proof.
  intros Hs. unfold measure. destruct Hs as [p i Hi|p i t Hi|p i t Hi|p i n Hn Hi|p n Hn Hnw|p Hall].
  - unfold worker_section.
    pose proof (sum_set _ _ _ Waiting Hi). pose proof (sum_set _ _ _ Exited Hi).
    destruct (m_stop p), (m_tasks p) as [|t ts] eqn:Ht; cbn in *;
      try pose proof (sum_set _ _ _ (Running t) Hi); rewrite ?Ht, ?length_insert; cbn in *; lia.
  - pose proof (sum_set _ _ _ (Counted t) Hi). cbn in *. rewrite length_insert. lia.
  - pose proof (sum_set _ _ _ Ready Hi). cbn in *. rewrite length_insert. lia.
  - pose proof (sum_set _ _ _ Ready Hi). cbn in *. rewrite length_insert, Hn. lia.
  - cbn. lia.
  - cbn. rewrite Hall. pose proof (sum_wake (m_workers p)). lia.
Qed.

(** Nothing left to do: the queue is empty, every future is ready, and the
    workers sleep, or have left once the pool is being destroyed. *)
Definition at_rest (p : P) : Prop :=
  m_tasks p = [] /\ to_notify p = 0%nat /\ to_notify_all p = false /\
  (forall t, (t < next p)%nat -> futures p !! t = Some (body t)) /\
  if m_stop p then joined p else Forall (fun w => w = Waiting) (m_workers p).

Lemma omap_none {A B} (f : A -> option B) (l : list A) :
  (forall x, x ∈ l -> f x = None) -> omap f l = [].
Proof.
  induction l as [|x l IH]; intros Hl; [done|]. csimpl. rewrite Hl by left.
  apply IH. intros y Hy. apply Hl. by right.
Qed.

Lemma rest_futures p t :
  Inv p -> m_tasks p = [] -> (forall w, w ∈ m_workers p -> awake w = false) ->
  (t < next p)%nat -> futures p !! t = Some (body t).
Proof.
  intros HI Hq Hw Ht. destruct (inv_queue p HI) as (k & Hk & Hseq & Hperm).
  rewrite Hq in Hseq. destruct (next p - k)%nat eqn:Hd; [|done].
  assert (t ∈ taken p) as Hin.
  { rewrite <- Hperm. apply elem_of_seq. lia. }
  unfold taken, running, counted in Hin.
  rewrite !omap_none in Hin by (intros w Hwin; specialize (Hw w Hwin); by destruct w).
  apply list_elem_of_fmap in Hin as ([t' r] & -> & Hr%elem_of_map_to_list). simpl.
  etrans; [exact Hr|]. f_equal. exact (inv_results p HI _ _ Hr).
Qed.

Lemma awake_internal p i w :
  m_workers p !! i = Some w -> awake w -> exists p', internal body p p'.
Proof.
  intros Hi Ha. destruct w as [| |t|t|]; try done; eexists;
    [by eapply int_section|by eapply int_guard|by eapply int_ready].
Qed.

Lemma progress p : Inv p -> (exists p', internal body p p') \/ at_rest p.
Proof.
  intros HI. destruct (decide (Exists awake (m_workers p))) as [Hex|Hno].
  { left. apply Exists_exists in Hex as (w & (i & Hi)%list_elem_of_lookup & Ha).
    by eapply awake_internal. }
  assert (forall w, w ∈ m_workers p -> awake w = false) as Hw.
  { intros w Hin. apply not_true_is_false. intros Ha. apply Hno, Exists_exists. exists w.
    by rewrite Ha. }
  destruct (to_notify p) as [|n] eqn:Hn.
  2: { left. destruct (decide (Waiting ∈ m_workers p)) as [(i & Hi)%list_elem_of_lookup|Hnw];
       eexists; [by eapply int_notify_one|by eapply int_notify_none]. }
  destruct (to_notify_all p) eqn:Hall; [left; eexists; by apply int_notify_all|right].
  assert (m_tasks p = []) as Hq.
  { destruct (m_tasks p) as [|t ts] eqn:Ht; [done|exfalso].
    destruct (inv_wakeup p HI) as [?|(w & Hin & Ha)]; [by rewrite Ht|lia|].
    by rewrite (Hw w Hin) in Ha. }
  repeat split; try done; [by intros; apply rest_futures|].
  destruct (m_stop p) eqn:Hs; apply Forall_forall; intros w Hin; specialize (Hw w Hin);
    destruct w; try done; exfalso.
  - pose proof (inv_stop p HI Hs Hin). congruence.
  - destruct (inv_exited p HI Hin). congruence.
Qed.

Lemma internal_stop_next p p' :
  internal body p p' -> m_stop p' = m_stop p /\ next p' = next p.
Proof.
  intros Hs. destruct Hs; cbn; try done. unfold worker_section.
  destruct (negb _); [done|]. destruct (_ && _); [done|]. by destruct (m_tasks p).
Qed.

Lemma drains p :
  Inv p -> exists p', rtc (internal body) p p' /\ at_rest p' /\ m_stop p' = m_stop p /\
                      next p' = next p.
Proof.
  induction p as [p IH] using (induction_ltof1 _ measure). intros HI.
  destruct (progress p HI) as [(p1 & Hs)|Hrest]; [|by exists p].
  destruct (IH p1) as (p' & Hr & Hrest & Hst & Hn);
    [by apply internal_decreases|by eapply inv_internal|].
  destruct (internal_stop_next p p1 Hs) as [Hst1 Hn1].
  exists p'. split; [by eapply rtc_l|]. split; [done|]. split; congruence.
Qed.

End Invariant.

End Tp.

(** ** Properties *)

Section Properties.
Import Tp.
Context {R : Type} (body : task -> R).
#[local] Abbreviation P := (ThreadPool R).

(** C14: under every interleaving of submits, workers, notifications and
    spurious wake-ups: tasks leave the queue in the order they were submitted,
    each task taken is in exactly one place (in its body, counted, or with a
    ready future that holds its result), m_pending is the length of the queue,
    and m_completed counts every task whose future is ready. *)
Theorem pool_runs_once (p : P) :
  reachable body p ->
  (exists k, (k <= next p)%nat /\ m_tasks p = seq k (next p - k) /\
     seq 0 k ≡ₚ running (m_workers p) ++ counted (m_workers p) ++ done_tasks p) /\
  (forall t r, futures p !! t = Some r -> r = body t) /\
  pending p = u64 (Z.of_nat (length (m_tasks p))) /\
  completed p = u64 (Z.of_nat (length (counted (m_workers p)) + length (done_tasks p))).
Proof.
  intros HI%inv_reachable_pool. split; [apply HI|]. split; [apply HI|]. split; [apply HI|].
  unfold completed. by rewrite (inv_completed body p HI), length_app.
Qed.

(** C12: no wake-up is lost: whenever the pool cannot make a transition by
    itself, the queue is empty, every submitted task has its future ready, and
    the workers sleep or, once the destructor has set the stop flag, have all
    left, so that its join returns. *)
Theorem pool_no_lost_wakeup (p : P) :
  reachable body p -> ~ (exists p', internal body p p') -> at_rest body p.
Proof. intros HI%inv_reachable_pool Hstuck. by destruct (progress body p HI). Qed.

(** C25: left alone, the pool comes to rest: every run of its own transitions
    is bounded, and from every reachable state one ends at rest with all
    submitted tasks done; with the stop flag set that is the end of the
    destructor's join. *)
Theorem pool_drains (p : P) :
  reachable body p ->
  (forall n p', nsteps (internal body) n p p' -> (n <= measure p)%nat) /\
  exists p', rtc (internal body) p p' /\ at_rest body p' /\ m_stop p' = m_stop p /\
             next p' = next p.
Proof.
  intros HI%inv_reachable_pool. split; [|by apply drains].
  clear HI. intros n p'. revert p. induction n as [|n IH]; intros p Hn; [lia|].
  inversion_clear Hn as [|? ? p1 ? Hs Hn']. apply internal_decreases in Hs.
  specialize (IH _ Hn'). lia.
Qed.

End Properties.

(** ** Witnesses: two workers, three tasks, the third one throws *)

Module PoolWitness.
Import Tp.

Definition body (t : task) : nat + string :=
  if (t =? 2)%nat then inr "boom"%string else inl (10 * t)%nat.

Definition submitted (p : ThreadPool (nat + string)) : ThreadPool (nat + string) :=
  match submit p with inl p' => p' | inr _ => p end.

(** Both workers fall asleep, a task arrives, the notification wakes one. *)
Definition p0 : ThreadPool (nat + string) := new_pool 2.
Definition p1 := worker_section (worker_section p0 0) 1.
Definition p2 := submitted p1.
Definition p3 := with_notify p2 (<[1%nat := Ready]> (m_workers p2)) 0 (to_notify_all p2).
Definition p4 := worker_section p3 1.

Lemma p4_reachable : reachable body p4.
Proof.
  exists 2%nat.
  eapply (rtc_l _ _ (worker_section p0 0)); [left; by apply int_section|].
  eapply (rtc_l _ _ p1); [left; by apply int_section|].
  eapply (rtc_l _ _ p2); [right; by apply ext_submit|].
  eapply (rtc_l _ _ p3); [left; by eapply int_notify_one|].
  apply rtc_once. left. by apply int_section.
Qed.

(** The task runs to its end and the worker goes back to sleep. *)
Definition p7 := worker_section (make_ready body (completion_guard p4 1 0%nat) 1 0%nat) 1.

Lemma p7_reachable : reachable body p7.
Proof.
  destruct p4_reachable as [n Hr]. exists n. etrans; [exact Hr|].
  eapply (rtc_l _ _ (completion_guard p4 1 0%nat)); [left; by apply int_guard|].
  eapply rtc_l; [left; apply (int_ready body _ 1 0%nat); reflexivity|].
  apply rtc_once. left. by apply int_section.
Qed.

Lemma p7_stuck : ~ (exists p', internal body p7 p').
Proof.
  intros [p' Hs]. inversion Hs as [p i Hi|p i t Hi|p i t Hi|p i n Hn|p n Hn|p Hall]; subst;
    try done; destruct i as [|[|i]]; done.
Qed.

End PoolWitness.

Section Witnesses.
Import Tp PoolWitness.

Lemma pool_runs_once_witness :
  (exists k, m_tasks p4 = seq k (1 - k) /\ seq 0 k ≡ₚ [0%nat]) /\ pending p4 = 0.
Proof.
  destruct (pool_runs_once body p4 p4_reachable) as ((k & _ & Hq & Hp) & _ & Hpend & _).
  split; [|exact Hpend]. exists k. split; [exact Hq|]. rewrite Hp. vm_compute. reflexivity.
Defined.

Lemma pool_no_lost_wakeup_witness :
  at_rest body p7 /\ futures p7 !! 0%nat = Some (inl 0%nat).
Proof.
  assert (at_rest body p7) as Hr by exact (pool_no_lost_wakeup body p7 p7_reachable p7_stuck).
  split; [exact Hr|]. destruct Hr as (_ & _ & _ & Hf & _). apply (Hf 0%nat). vm_compute. lia.
Defined.

Lemma pool_drains_witness :
  exists p', rtc (internal body) p4 p' /\ futures p' !! 0%nat = Some (inl 0%nat).
Proof.
  destruct (pool_drains body p4 p4_reachable) as (_ & p' & Hr & (_ & _ & _ & Hf & _) & _ & Hn).
  exists p'. split; [exact Hr|]. apply (Hf 0%nat). rewrite Hn. vm_compute. lia.
Defined.

End Witnesses.
