(* ===== verification/PoolRequests.v ===== *)
(** * PoolRequests: request handlers on the thread pool

    src/http/thread_pool.h and src/http/request_stats.h used together, the way
    both are meant to be: every task submitted to the pool makes a
    [RequestTimer] for its route, calls [finish] on it any number of times and
    destroys it when the body returns or throws, while other tasks do the same
    on other workers.  The timers share one [RequestStats], whose [record] is
    one critical section of [m_mtx].  Whatever the interleaving, a task whose
    future is ready has been counted exactly once. *)

From S2P Require Import Prelude RequestStats ThreadPool.
Import Requests.

Module PoolReq.

(** Where the body of a task is: with its timer and the [finish] calls still to
    make, or past the timer's destructor. *)
Inductive phase := Timing (tm : RequestTimer) (todo : list bool) | Left.

Section Machine.
Context {R : Type} (body : Tp.task -> R).
(** The timer of each task: its route and the arguments of its [finish]
    calls, in order. *)
Context (route : Tp.task -> string) (calls : Tp.task -> list bool).

Record state := MkState {
  pool : Tp.ThreadPool R;
  stats : RequestStats;
  bodies : gmap Tp.task phase    (** the bodies that have made their timer *)
}.

Definition set_body (t : Tp.task) (ph : phase) (r : RequestStats) (s : state) : state :=
  MkState (pool s) r (<[t := ph]> (bodies s)).

(** The worker [i] is in the body of [t]. *)
Definition in_body (p : Tp.ThreadPool R) (i : nat) (t : Tp.task) : Prop :=
  Tp.m_workers p !! i = Some (Tp.Running t).

(** A transition of the pool, one of [X], that ends no task body, or a step of
    a task body; [now] is the clock of the step. *)
Inductive move (X : relation (Tp.ThreadPool R)) : state -> state -> Prop :=
| mv_pool s p' :
    X (pool s) p' -> (forall i t, in_body (pool s) i t -> in_body p' i t) ->
    move X s (MkState p' (stats s) (bodies s))
| mv_timer s i t now :
    in_body (pool s) i t -> bodies s !! t = None ->
    move X s (set_body t (Timing (new_timer (route t) now) (calls t)) (stats s) s)
| mv_finish s i t tm ok todo now :
    in_body (pool s) i t -> bodies s !! t = Some (Timing tm (ok :: todo)) ->
    move X s (set_body t (Timing (finish ok now tm (stats s)).1 todo)
                (finish ok now tm (stats s)).2 s)
| mv_destroy s i t tm now :
    in_body (pool s) i t -> bodies s !! t = Some (Timing tm []) ->
    move X s (set_body t Left (destroy now tm (stats s)) s)
| mv_guard s i t :
    in_body (pool s) i t -> bodies s !! t = Some Left ->
    move X s (MkState (Tp.completion_guard (pool s) i t) (stats s) (bodies s)).

(** Everybody, or the workers and their notifications alone. *)
Definition step : relation state := move (Tp.step body).
Definition own : relation state := move (Tp.internal body).

Definition start (n : nat) : state := MkState (Tp.new_pool n) new_stats ∅.
Definition reachable (s : state) : Prop := exists n, rtc step (start n) s.

(** What a task reports: the argument of the first [finish], a failure
    without one. *)
Definition outcome (t : Tp.task) : bool := default false (head (calls t)).

Definition all_ready (s : state) : Prop :=
  forall t, (t < Tp.next (pool s))%nat -> is_Some (Tp.futures (pool s) !! t).

(** ** The invariant *)

(** Past the body, or taken at all. *)
Definition is_past (p : Tp.ThreadPool R) (t : Tp.task) : Prop :=
  Tp.Counted t ∈ Tp.m_workers p \/ is_Some (Tp.futures p !! t).
Definition is_taken (p : Tp.ThreadPool R) (t : Tp.task) : Prop :=
  Tp.Running t ∈ Tp.m_workers p \/ is_past p t.

Definition reported (ph : option phase) : bool :=
  match ph with Some Left => true | Some (Timing tm _) => m_done tm | None => false end.

(** The requests recorded so far, with their tasks. *)
Record logged (s : state) (log : list (Tp.task * request)) : Prop := {
  lg_stats : stats s = record_all log.*2 new_stats;
  lg_once : NoDup log.*1;
  lg_reported t : t ∈ log.*1 <-> reported (bodies s !! t) = true;
  lg_request t q : (t, q) ∈ log -> q.1.1 = route t /\ q.2 = outcome t
}.

Record Inv (s : state) : Prop := {
  iv_log : exists log, logged s log;
  iv_timing t tm todo : bodies s !! t = Some (Timing tm todo) ->
    m_route tm = route t /\ (m_done tm = false -> todo = calls t);
  iv_left t : is_past (pool s) t -> bodies s !! t = Some Left;
  iv_taken t : is_Some (bodies s !! t) -> is_taken (pool s) t
}.

End Machine.
Arguments state : clear implicits.

(** The requests of the tasks, counted by a property of the task. *)
Lemma filter_log (Q : Tp.task -> Prop) (Q' : request -> Prop)
    `{!forall t, Decision (Q t)} `{!forall q, Decision (Q' q)} (log : list (Tp.task * request)) :
  (forall t q, (t, q) ∈ log -> Q' q <-> Q t) ->
  length (filter Q' log.*2) = length (filter Q log.*1).
Proof.
  induction log as [|[t q] log IH]; intros Hq; [done|]. csimpl.
  assert (Q' q <-> Q t) as Hh by (apply Hq; left).
  rewrite !filter_cons. destruct (decide (Q' q)), (decide (Q t)); try tauto; cbn;
    rewrite IH; try done; intros; apply Hq; by right.
Qed.

Section Lemmas.
Context {R : Type} (body : Tp.task -> R) (route : Tp.task -> string) (calls : Tp.task -> list bool).
#[local] Abbreviation P := (Tp.ThreadPool R).
#[local] Abbreviation Inv := (@Inv R route calls).
#[local] Abbreviation logged := (@logged R route calls).
#[local] Abbreviation step := (step body route calls).
#[local] Abbreviation own := (own body route calls).
Implicit Types (s : state R) (p : P).

Lemma in_body_elem p i t : in_body p i t -> Tp.Running t ∈ Tp.m_workers p.
Proof. apply list_elem_of_lookup_2. Qed.

(** A worker that is in no task is replaced by one past no body. *)
Lemma counted_kept (ws : list Tp.worker) i x y t :
  ws !! i = Some x -> (forall u, x <> Tp.Counted u) -> (forall u, y <> Tp.Counted u) ->
  Tp.Counted t ∈ <[i := y]> ws <-> Tp.Counted t ∈ ws.
Proof.
  intros Hi Hx Hy. split.
  - intros [Heq|Hin]%Tp.elem_of_set; [by destruct (Hy t)|done].
  - intros Hin. apply (Tp.elem_of_set_other _ i x); done || congruence.
Qed.

Lemma counted_wake (ws : list Tp.worker) t : Tp.Counted t ∈ Tp.wake <$> ws <-> Tp.Counted t ∈ ws.
Proof.
  rewrite list_elem_of_fmap. split.
  - intros ([] & Heq & Hin); simplify_eq/=; done.
  - intros Hin. by exists (Tp.Counted t).
Qed.

Lemma section_past p i t :
  Tp.m_workers p !! i = Some Tp.Ready -> is_past (Tp.worker_section p i) t <-> is_past p t.
Proof.
  intros Hi. unfold is_past, Tp.worker_section, Tp.set_worker.
  destruct (negb _); [|destruct (_ && _); [|destruct (Tp.m_tasks p) as [|u ts]]]; cbn; try done;
    by rewrite (counted_kept _ _ Tp.Ready).
Qed.

(** A transition that ends no body leaves the tasks past their bodies alone. *)
Lemma step_past p p' t :
  Tp.step body p p' -> (forall i u, in_body p i u -> in_body p' i u) ->
  is_past p' t <-> is_past p t.
Proof.
  intros [Hs|Hs] Hkeep.
  - destruct Hs as [p i Hi|p i u Hi|p i u Hi|p i n Hn Hi|p n Hn Hnw|p Hall].
    + by apply section_past.
    + specialize (Hkeep i u Hi). unfold in_body in Hkeep. cbn in Hkeep.
      rewrite list_lookup_insert_eq in Hkeep by (by eapply lookup_lt_Some). done.
    + unfold is_past. cbn. destruct (decide (t = u)) as [->|Hne].
      * rewrite lookup_insert_eq. split; [|by right; eexists].
        intros _. left. by eapply list_elem_of_lookup_2.
      * rewrite lookup_insert_ne by done. split; (intros [Hin|]; [left|by right]).
        -- by apply Tp.elem_of_set in Hin as [|].
        -- apply (Tp.elem_of_set_other _ i (Tp.Counted u)); congruence.
    + unfold is_past. cbn. by rewrite (counted_kept _ _ Tp.Waiting).
    + done.
    + unfold is_past. cbn. by rewrite counted_wake.
  - destruct Hs as [p p' Hsub|p Hst|p i Hi].
    + unfold Tp.submit in Hsub. destruct (Tp.m_stop p); [done|]. by injection Hsub as <-.
    + done.
    + unfold is_past. cbn. by rewrite (counted_kept _ _ Tp.Waiting).
Qed.

Lemma step_taken p p' t :
  Tp.step body p p' -> (forall i u, in_body p i u -> in_body p' i u) ->
  is_taken p t -> is_taken p' t.
Proof.
  intros Hs Hkeep [(i & Hi)%list_elem_of_lookup|Hp].
  - left. by apply (in_body_elem _ i), Hkeep.
  - right. by apply (step_past p).
Qed.

Lemma guard_past p i t u :
  in_body p i t -> is_past (Tp.completion_guard p i t) u -> u = t \/ is_past p u.
Proof.
  intros Hi [Hin|Hf]; [|by right; right].
  cbn in Hin. apply Tp.elem_of_set in Hin as [[= ->]|Hin]; [by left|]. by right; left.
Qed.

Lemma guard_taken p i t u :
  in_body p i t -> is_taken p u -> is_taken (Tp.completion_guard p i t) u.
Proof.
  intros Hi [Hr|[Hc|Hf]]; [|right; left|by right; right]; cbn.
  - destruct (decide (u = t)) as [->|Hne].
    + right. left. cbn. by eapply Tp.elem_of_set_new.
    + left. cbn. eapply Tp.elem_of_set_other; [exact Hi|done|congruence].
  - eapply Tp.elem_of_set_other; [exact Hi|done|done].
Qed.

(** ** Preservation *)

Lemma logged_same s s' log :
  logged s log -> stats s' = stats s -> (forall t, reported (bodies s' !! t) = reported (bodies s !! t)) ->
  logged s' log.
Proof.
  intros [] Hst Hb. split; [by rewrite Hst|done| |done]. intros t. by rewrite Hb.
Qed.

Lemma reported_set s t ph :
  reported (Some ph) = reported (bodies s !! t) ->
  forall u, reported (<[t := ph]> (bodies s) !! u) = reported (bodies s !! u).
Proof.
  intros Hph u. destruct (decide (u = t)) as [->|Hne]; [by rewrite lookup_insert_eq|].
  by rewrite lookup_insert_ne.
Qed.

(** A task reports its request. *)
Lemma logged_record s log t ph us :
  logged s log -> reported (bodies s !! t) = false -> reported (Some ph) = true ->
  logged (set_body t ph (record (route t) us (outcome calls t) (stats s)) s)
    (log ++ [(t, (route t, us, outcome calls t))]).
Proof.
  intros [Hst Hnd Hrep Hreq] Hb Hph.
  assert (t ∉ log.*1) as Hnew by (rewrite Hrep, Hb; done).
  split; cbn; rewrite ?fmap_app; cbn.
  - rewrite requests_snoc. by rewrite Hst.
  - apply NoDup_app. split; [done|]. split; [|by apply NoDup_singleton].
    intros u Hu ->%list_elem_of_singleton. done.
  - intros u. rewrite elem_of_app, list_elem_of_singleton, Hrep.
    destruct (decide (u = t)) as [->|Hne]; [rewrite lookup_insert_eq; tauto|].
    rewrite lookup_insert_ne by done. tauto.
  - intros u q [Hin|[= -> ->]%list_elem_of_singleton]%elem_of_app; [by apply Hreq|done].
Qed.

(** The body of [t] moves on: the other tasks and the pool stay as they are. *)
Lemma inv_body s i t ph r :
  Inv s -> in_body (pool s) i t -> bodies s !! t <> Some Left ->
  (exists log, logged (set_body t ph r s) log) ->
  (forall tm todo, ph = Timing tm todo ->
     m_route tm = route t /\ (m_done tm = false -> todo = calls t)) ->
  Inv (set_body t ph r s).
Proof.
  intros [Hlog Htm Hleft Htk] Hi Hnl Hlog' Hph. split; [done|..]; cbn; intros u;
    (destruct (decide (u = t)) as [->|Hne];
       [rewrite ?lookup_insert_eq|rewrite ?lookup_insert_ne by done]).
  - intros tm todo [= ->]. by apply Hph.
  - by apply Htm.
  - intros Hp%Hleft. done.
  - by apply Hleft.
  - intros _. left. by eapply in_body_elem.
  - by apply Htk.
Qed.

Lemma inv_timer_finish s i t tm ok todo now :
  Inv s -> in_body (pool s) i t -> bodies s !! t = Some (Timing tm (ok :: todo)) ->
  Inv (set_body t (Timing (finish ok now tm (stats s)).1 todo) (finish ok now tm (stats s)).2 s).
Proof.
  intros HI Hi Hb. destruct (iv_timing _ _ s HI t _ _ Hb) as [Hrt Htodo].
  destruct (iv_log _ _ s HI) as [log Hlog]. destruct (m_done tm) eqn:Hd.
  - rewrite finish_done by done. cbn. apply (inv_body s i); try done.
    + rewrite Hb. done.
    + exists log. apply (logged_same s); try done. apply reported_set. by rewrite Hb.
    + intros tm' todo' [= <- <-]. split; [done|congruence].
  - unfold finish. rewrite Hd. cbn. apply (inv_body s i); try done.
    + rewrite Hb. done.
    + rewrite Hrt. specialize (Htodo eq_refl).
      assert (ok = outcome calls t) as -> by (unfold outcome; by rewrite <- Htodo).
      eexists. apply logged_record; [done| |done]. by rewrite Hb.
    + intros tm' todo' [= <- <-]. done.
Qed.

Lemma inv_timer_destroy s i t tm now :
  Inv s -> in_body (pool s) i t -> bodies s !! t = Some (Timing tm []) ->
  Inv (set_body t Left (destroy now tm (stats s)) s).
Proof.
  intros HI Hi Hb. destruct (iv_timing _ _ s HI t _ _ Hb) as [Hrt Htodo].
  destruct (iv_log _ _ s HI) as [log Hlog].
  apply (inv_body s i); try done; [by rewrite Hb|]. unfold destroy. destruct (m_done tm) eqn:Hd.
  - rewrite finish_done by done. exists log. apply (logged_same s); try done.
    apply reported_set. by rewrite Hb.
  - unfold finish. rewrite Hd. cbn. rewrite Hrt. specialize (Htodo eq_refl).
    assert (false = outcome calls t) as -> by (unfold outcome; by rewrite <- Htodo).
    eexists. apply logged_record; [done| |done]. by rewrite Hb.
Qed.

Lemma pool_requests_step s s' : Inv s -> step s s' -> Inv s'.
Proof.
  intros HI Hs. destruct Hs as [s p' Hs Hk|s i t now Hi Hb|s i t tm ok todo now Hi Hb|
                                 s i t tm now Hi Hb|s i t Hi Hb].
  - destruct HI as [[log Hlog] Htm Hleft Htk]. split; cbn; try done.
    + exists log. by apply (logged_same s).
    + intros t Hp. apply Hleft. by apply (step_past (pool s) p').
    + intros t Hsome. apply (step_taken (pool s)); auto.
  - apply (inv_body s i); try done; [by rewrite Hb| |].
    + destruct (iv_log _ _ s HI) as [log Hlog]. exists log. apply (logged_same s); try done.
      apply reported_set. by rewrite Hb.
    + by intros ? ? [= <- <-].
  - by apply (inv_timer_finish s i).
  - by apply (inv_timer_destroy s i t).
  - destruct HI as [[log Hlog] Htm Hleft Htk]. split; cbn; try done.
    + exists log. by apply (logged_same s).
    + intros u [->|Hp]%guard_past; [done|by apply Hleft|done].
    + intros u Hsome. apply guard_taken; auto.
Qed.

Lemma pool_requests_start n : Inv (start n).
Proof.
  split.
  - exists []. split; cbn; [done|constructor| |by intros ? ? ?%not_elem_of_nil].
    intros t. rewrite lookup_empty. split; [by intros ?%not_elem_of_nil|done].
  - cbn. intros t ? ?. by rewrite lookup_empty.
  - intros t [Hin|[? Hf]].
    + unfold start, Tp.new_pool in Hin. cbn in Hin. by apply elem_of_replicate in Hin as [? _].
    + cbn in Hf. by rewrite lookup_empty in Hf.
  - cbn. intros t. rewrite lookup_empty. by intros [? ?].
Qed.

Lemma pool_requests_inv s : reachable body route calls s -> Inv s.
Proof.
  intros [n Hr]. eapply (rtc_preserves step Inv); [|exact Hr|apply pool_requests_start].
  intros a b Hs HI. by eapply pool_requests_step.
Qed.

(** The pool inside is a run of the pool. *)
Lemma reachable_pool s : reachable body route calls s -> Tp.reachable body (pool s).
Proof.
  intros [n Hr]. exists n. remember (start n) as s0 eqn:H0.
  assert (Tp.new_pool n = pool s0) as -> by (by subst). clear H0.
  induction Hr as [s0|s0 s1 s2 Hs _ IH]; [done|]. etrans; [|exact IH]. clear IH.
  destruct Hs; cbn; try reflexivity; apply rtc_once; [done|]. left. by apply Tp.int_guard.
Qed.

(** ** Progress *)

Lemma body_completes s i t :
  in_body (pool s) i t ->
  exists s', rtc own s s' /\ pool s' = pool s /\ bodies s' !! t = Some Left.
Proof.
  intros Hi.
  assert (forall todo s1, pool s1 = pool s -> forall tm, bodies s1 !! t = Some (Timing tm todo) ->
            exists s', rtc own s1 s' /\ pool s' = pool s /\ bodies s' !! t = Some Left) as Hrun.
  { induction todo as [|ok todo IH]; intros s1 Hp tm Hb; rewrite <- Hp in Hi.
    - eexists. split; [apply rtc_once; by eapply (mv_destroy _ _ _ _ i t tm 0)|]. cbn.
      by rewrite lookup_insert_eq.
    - pose (f := finish ok 0 tm (stats s1)).
      destruct (IH (set_body t (Timing f.1 todo) f.2 s1) Hp f.1) as (s' & Hr & Hs');
        [by apply lookup_insert_eq|]. exists s'. split; [|done]. eapply rtc_l; [by eapply (mv_finish _ _ _ _ i t tm ok todo 0)|].
      exact Hr. }
  destruct (bodies s !! t) as [[tm todo|]|] eqn:Hb.
  - by eapply Hrun.
  - by exists s.
  - edestruct (Hrun (calls t) (set_body t (Timing (new_timer (route t) 0) (calls t)) (stats s) s))
      as (s' & Hr & Hs'); [done|by apply lookup_insert_eq|].
    exists s'. split; [|done]. eapply rtc_l; [by apply (mv_timer _ _ _ _ i t 0)|done].
Qed.

(** Every transition of the pool by itself is a run of the workers here. *)
Lemma own_internal s p' :
  Tp.internal body (pool s) p' -> exists s', rtc own s s' /\ pool s' = p'.
Proof.
  intros Hs.
  assert ((forall i t, in_body (pool s) i t -> in_body p' i t) ->
          exists s', rtc own s s' /\ pool s' = p') as Hquiet.
  { intros Hk. eexists (MkState p' (stats s) (bodies s)). split; [|done]. by apply rtc_once, mv_pool. }
  inversion Hs as [p i Hi|p i t Hi|p i t Hi|p i n Hn Hi|p n Hn Hnw|p Hall]; subst;
    [apply Hquiet| |apply Hquiet..]; unfold in_body; cbn.
  - intros j u Hj. assert (i <> j) by congruence. unfold Tp.worker_section, Tp.set_worker.
    destruct (negb _); [|destruct (_ && _); [|destruct (Tp.m_tasks (pool s))]]; cbn; try done;
      by rewrite list_lookup_insert_ne.
  - destruct (body_completes s i t Hi) as (s1 & Hr & Hp & Hb).
    exists (MkState (Tp.completion_guard (pool s1) i t) (stats s1) (bodies s1)). split; [|by cbn; rewrite Hp].
    etrans; [exact Hr|]. apply rtc_once, mv_guard; [|done]. unfold in_body. by rewrite Hp.
  - intros j u Hj. rewrite list_lookup_insert_ne; congruence.
  - intros j u Hj. rewrite list_lookup_insert_ne; congruence.
  - done.
  - intros j u Hj. rewrite list_lookup_fmap, Hj. done.
Qed.

Lemma own_drains s :
  reachable body route calls s ->
  exists s', rtc own s s' /\ Tp.next (pool s') = Tp.next (pool s) /\ all_ready s'.
Proof.
  intros Hr%reachable_pool%Tp.inv_reachable_pool.
  destruct (Tp.drains body _ Hr) as (p' & Hp & Hrest & _ & Hn).
  assert (exists s', rtc own s s' /\ pool s' = p') as (s' & Hs & <-).
  { remember (pool s) as p eqn:Heq. clear Hr Hrest Hn. revert s Heq.
    induction Hp as [p|p p1 p2 Hs _ IH]; intros s ->; [by exists s|].
    destruct (own_internal s p1 Hs) as (s1 & Hr1 & Hp1).
    destruct (IH s1) as (s' & Hr' & Hp'); [done|]. exists s'. split; [by etrans|done]. }
  exists s'. split; [done|]. split; [done|]. intros t Ht.
  destruct Hrest as (_ & _ & _ & Hf & _). eexists. by apply Hf.
Qed.

(** ** Counting *)

Lemma taken_submitted s t : reachable body route calls s -> is_taken (pool s) t -> (t < Tp.next (pool s))%nat.
Proof.
  intros Hr%reachable_pool%Tp.inv_reachable_pool Ht.
  destruct (Tp.inv_queue body _ Hr) as (k & Hk & _ & Hp).
  assert (t ∈ Tp.taken (pool s)) as Hin.
  { unfold Tp.taken, Tp.running, Tp.counted, Tp.done_tasks. rewrite !elem_of_app.
    destruct Ht as [Hw|[Hw|[r Hf]]]; [left|right; left|right; right].
    - apply list_elem_of_omap. by exists (Tp.Running t).
    - apply list_elem_of_omap. by exists (Tp.Counted t).
    - apply list_elem_of_fmap. exists (t, r). split; [done|]. by apply elem_of_map_to_list. }
  rewrite <- Hp in Hin. apply elem_of_seq in Hin. lia.
Qed.

End Lemmas.

End PoolReq.

(** ** Properties *)

Section Properties.
Import PoolReq.
Context {R : Type} (body : Tp.task -> R) (route : Tp.task -> string) (calls : Tp.task -> list bool).

(** C36: request handlers on the pool, under every interleaving of submits,
    workers, timers and the destructor: the statistics are those of a list of
    requests with at most one of each task, of its route and with the outcome of
    its first finish, and every task whose future is ready is in the list.  The
    workers by themselves can always make every future ready; then the totals
    count the tasks and the failures, and every route counts its tasks. *)
Theorem pool_requests_counted iter (s : state R) :
  (forall m, iter m ≡ₚ map_to_list m) -> reachable body route calls s ->
  let tasks := seq 0 (Tp.next (pool s)) in
  (exists log : list (Tp.task * request),
     stats s = record_all log.*2 new_stats /\ NoDup log.*1 /\
     (forall t q, (t, q) ∈ log -> t ∈ tasks /\ q.1.1 = route t /\ q.2 = outcome calls t) /\
     (forall t, is_Some (Tp.futures (pool s) !! t) -> t ∈ log.*1)) /\
  (exists s', rtc (own body route calls) s s' /\ Tp.next (pool s') = Tp.next (pool s) /\
     all_ready s') /\
  (all_ready s ->
     total_requests iter (stats s) = u64 (Z.of_nat (length tasks)) /\
     total_errors iter (stats s) =
       u64 (Z.of_nat (length (filter (fun t => outcome calls t = false) tasks))) /\
     forall rt, default 0 (requests <$> snapshot (stats s) !! rt) =
       u64 (Z.of_nat (length (filter (fun t => route t = rt) tasks)))).
Proof.
  intros Hiter Hr tasks. pose proof (pool_requests_inv _ _ _ s Hr) as HI.
  destruct (iv_log _ _ s HI) as [log [Hst Hnd Hrep Hreq]].
  assert (forall t, t ∈ log.*1 -> t ∈ tasks) as Hsub.
  { intros t Ht%Hrep. apply elem_of_seq. split; [lia|]. apply (taken_submitted body route calls); [done|].
    apply (iv_taken _ _ s HI). destruct (bodies s !! t); [by eexists|done]. }
  assert (forall t, is_Some (Tp.futures (pool s) !! t) -> t ∈ log.*1) as Hready.
  { intros t Ht. apply Hrep. rewrite (iv_left _ _ s HI t); [done|by right]. }
  split; [|split; [by apply own_drains|]].
  { exists log. split; [done|]. split; [done|]. split; [|done]. intros t q Hin. split; [|by apply Hreq].
    apply Hsub, list_elem_of_fmap. by exists (t, q). }
  intros Hall. assert (log.*1 ≡ₚ tasks) as Hperm.
  { apply NoDup_Permutation; [done|apply NoDup_seq|]. intros t. split; [apply Hsub|].
    intros [_ Ht]%elem_of_seq. by apply Hready, Hall. }
  rewrite Hst. destruct (totals_of iter log.*2 Hiter) as [-> ->]. split; [|split].
  - rewrite <- Hperm. by rewrite !length_fmap.
  - unfold failed. do 2 f_equal. rewrite <- Hperm. apply filter_log.
    intros t q Hin. by destruct (Hreq t q Hin) as [_ ->].
  - intros rt. unfold snapshot. rewrite requests_lookup. rewrite <- Hperm.
    rewrite <- (filter_log (fun t => route t = rt) (fun q => q.1.1 = rt)).
    2: { intros t q Hin. by destruct (Hreq t q Hin) as [-> _]. }
    unfold of_route. by destruct (filter _ _).
Qed.

End Properties.

(** ** Witness *)

Module PoolReqWitness.
Import PoolReq PoolWitness.

(** The first task of two workers: a request for /metrics that is finished
    twice. *)
Definition to (t : Tp.task) : string := "/metrics".
Definition finishes (t : Tp.task) : list bool := [true; false].

(** The worker has the task; the body; the end of the body. *)
Definition s0 : state (nat + string) := MkState p4 new_stats ∅.
Definition s1 : state (nat + string) :=
  set_body 0%nat (Timing (new_timer "/metrics" 5000) [true; false]) new_stats s0.
Definition s2 : state (nat + string) :=
  let f := finish true 12500 (new_timer "/metrics" 5000) (stats s1) in
  set_body 0%nat (Timing f.1 [false]) f.2 s1.

(** A transition of the pool before any body. *)
Lemma before_bodies p p' s :
  Tp.step body p p' -> (forall i t, ~ in_body p i t) ->
  rtc (step body to finishes) (MkState p' new_stats ∅) s ->
  rtc (step body to finishes) (MkState p new_stats ∅) s.
Proof.
  intros Hs Hn. apply rtc_l, (mv_pool _ _ _ (MkState p new_stats ∅) p'); [done|].
  intros i t []%Hn.
Qed.

Ltac no_body := by intros [|[|]] t.

Lemma s0_reachable : reachable body to finishes s0.
Proof.
  exists 2%nat. apply (before_bodies p0 (Tp.worker_section p0 0)); [left; by apply Tp.int_section|no_body|].
  apply (before_bodies _ p1); [left; by apply Tp.int_section|no_body|].
  apply (before_bodies _ p2); [right; by apply Tp.ext_submit|no_body|].
  apply (before_bodies _ p3); [left; by eapply Tp.int_notify_one|no_body|].
  apply (before_bodies _ p4); [left; by apply Tp.int_section|no_body|]. reflexivity.
Qed.

Lemma s2_reachable : reachable body to finishes s2.
Proof.
  destruct s0_reachable as [n Hr]. exists n. etrans; [exact Hr|].
  apply (rtc_l _ _ s1); [by apply (mv_timer to finishes _ s0 1 0%nat 5000)|].
  apply rtc_once.
  by apply (mv_finish to finishes _ s1 1 0%nat (new_timer "/metrics" 5000) true [false] 12500).
Qed.

End PoolReqWitness.

Section Witnesses.
Import PoolReq PoolWitness PoolReqWitness.

(** The request is counted before its future is ready, once, and the worker can
    finish the task. *)
Lemma pool_requests_counted_witness :
  snapshot (stats s2) !! "/metrics"%string = Some (MkRoute 1 0 7 7 7) /\
  (exists log : list (Tp.task * request),
     stats s2 = record_all log.*2 new_stats /\ NoDup log.*1) /\
  (exists s', rtc (own body to finishes) s2 s' /\ Tp.next (pool s') = 1%nat /\ all_ready s').
Proof.
  destruct (pool_requests_counted body to finishes map_to_list s2)
    as ((log & Hs & Hn & _) & Hr & _); [done|exact s2_reachable|].
  split; [vm_compute; reflexivity|]. split; [by exists log|exact Hr].
Defined.

End Witnesses.
