(* ===== verification/HttpServer.v ===== *)
(** * HttpServer: src/http/async_server.h

    The request side of the epoll server: parsing, the response, one readable
    client, the acceptor, a batch of events.  Sockets are kernel objects: the
    results of successive [read], [accept4], [epoll_ctl] and [write] calls are
    arguments of the handlers, and what the server keeps of the kernel's state
    (open descriptors, the epoll set, bytes accepted by [write]) is part of the
    model's state.  A character string is the list of its characters. *)

From S2P Require Import Prelude.
From Stdlib Require Import Ascii.

Abbreviation str := (list ascii).
Definition lit (s : string) : str := String.list_ascii_of_string s.
Definition decimal (z : Z) : str := lit (pretty z).
Definition CR : ascii := ascii_of_nat 13.
Definition LF : ascii := ascii_of_nat 10.
Definition CRLF : str := [CR; LF].
Definition space : ascii := ascii_of_nat 32.

(** [s.find(c, pos)]; [npos] is [None]. *)
Definition find (c : ascii) (pos : nat) (s : str) : option nat :=
  (fun x => (pos + x.1)%nat) <$> list_find (eq c) (drop pos s).

Definition substr (pos n : nat) (s : str) : str := take n (drop pos s).

(** [s.find(pat) != npos]. *)
Fixpoint contains (pat s : str) : bool :=
  bool_decide (take (length pat) s = pat) ||
  match s with [] => false | _ :: s => contains pat s end.

Module Http.

Definition BUF_SIZE : Z := 8192.

Definition parse_path (req : str) : str :=
  match find space 0 req with
  | None => []
  | Some sp1 =>
      match find space (sp1 + 1) req with
      | None => []
      | Some sp2 => substr (sp1 + 1) (sp2 - sp1 - 1) req
      end
  end.

Definition build_response (status : Z) (content_type body : str) : str :=
  let reason := if status =? 200 then lit "OK" else lit "Not Found" in
  lit "HTTP/1.1 " ++ decimal status ++ lit " " ++ reason ++
  CRLF ++ lit "Content-Type: " ++ content_type ++
  CRLF ++ lit "Content-Length: " ++ decimal (Z.of_nat (length body)) ++
  CRLF ++ lit "Connection: close" ++ CRLF ++ CRLF ++ body.

(** *** Clients *)

Inductive errno := EAGAIN | ECONNRESET | EOTHER.
Inductive read_result := Data (bytes : str) | Eof | Failed (e : errno).

(** What the process does on a signal: its default action (for SIGPIPE, to end
    the process), nothing, or a handler. *)
Inductive disposition := SIG_DFL | SIG_IGN | SIG_HANDLER.

(** [write] accepts a number of bytes (none when it fails), or fails with
    EPIPE on a broken connection: the kernel then raises SIGPIPE as well. *)
Inductive write_result := Wrote (n : nat) | BrokenPipe.

(** What ends the server thread other than the stop event: an exception of
    [epoll_add], or the signal. *)
Inductive server_error := epoll_ctl_failed | killed_by_sigpipe.

Record Server := MkServer {
  read_bufs_ : gmap Z str;
  epoll_set : gset Z;           (** registered with [epoll_fd_] *)
  open_fds : gset Z;            (** descriptors the process has open *)
  sent : list (Z * str);        (** bytes accepted by [write], per call *)
  running_ : bool
}.

(** [std::function<std::string(std::string_view)>], possibly empty. *)
Definition RouteHandler : Type := option (str -> str).

(** The read loop of [handle_client]: [Some buf] to go on with the request,
    [None] when the client is gone.  Reads past the given results would
    block. *)
Fixpoint read_loop (buf : str) (reads : list read_result) : option str :=
  match reads with
  | [] => Some buf
  | Data bytes :: reads =>
      let buf := buf ++ bytes in
      if contains (CRLF ++ CRLF) buf then Some buf else read_loop buf reads
  | Eof :: _ => None
  | Failed ECONNRESET :: _ => None
  | Failed EAGAIN :: _ => Some buf
  | Failed EOTHER :: _ => None
  end.

(** [epoll_ctl(epfd, EPOLL_CTL_DEL, fd)]; its result is not used. *)
Definition epoll_del (fd : Z) (s : Server) : Server :=
  MkServer (read_bufs_ s) (epoll_set s ∖ {[fd]}) (open_fds s) (sent s) (running_ s).

Definition close_client (fd : Z) (s : Server) : Server :=
  let s := epoll_del fd s in
  MkServer (delete fd (read_bufs_ s)) (epoll_set s) (open_fds s ∖ {[fd]}) (sent s) (running_ s).

(** The response to what was read. *)
Definition respond (handler_ : RouteHandler) (buf : str) : str :=
  let path := parse_path buf in
  let body := match handler_ with Some h => h path | None => lit "Not Found" end in
  let ct := if decide (path = lit "/metrics")
            then lit "text/plain; version=0.0.4; charset=utf-8"
            else lit "application/json" in
  let status := if bool_decide (path = []) || bool_decide (body = []) then 404 else 200 in
  build_response status ct body.

(** [reads] are the results of the [read] calls, [written] that of the
    [write], [sigpipe] the disposition of SIGPIPE: with the default action the
    process ends inside the [write], otherwise the [write] fails and its result
    is not used. *)
Definition handle_client (handler_ : RouteHandler) (sigpipe : disposition) (fd : Z)
    (reads : list read_result) (written : write_result) (s : Server) : Server * option server_error :=
  let buf := default [] (read_bufs_ s !! fd) in
  match read_loop buf reads with
  | None => (close_client fd (MkServer (<[fd := buf]> (read_bufs_ s)) (epoll_set s) (open_fds s)
                                       (sent s) (running_ s)), None)
  | Some buf =>
      let response := respond handler_ buf in
      let answered (n : nat) :=
        (close_client fd
           (MkServer (<[fd := buf]> (read_bufs_ s)) (epoll_set s) (open_fds s)
                     (sent s ++ [(fd, take n response)]) (running_ s)), None) in
      match written, sigpipe with
      | Wrote n, _ => answered n
      | BrokenPipe, SIG_DFL =>
          (MkServer (<[fd := buf]> (read_bufs_ s)) (epoll_set s) (open_fds s) (sent s) (running_ s),
           Some killed_by_sigpipe)
      | BrokenPipe, _ => answered 0%nat
      end
  end.

(** [accept_clients]: the descriptors [accept4] returns until it fails, and
    whether [epoll_ctl] accepts each; [epoll_add] throws when it does not. *)
Fixpoint accept_clients (clients : list (Z * bool)) (s : Server) : Server * option server_error :=
  match clients with
  | [] => (s, None)
  | (client, added) :: clients =>
      let s := MkServer (read_bufs_ s) (epoll_set s) ({[client]} ∪ open_fds s) (sent s) (running_ s) in
      if added : bool then
        accept_clients clients
          (MkServer (read_bufs_ s) ({[client]} ∪ epoll_set s) (open_fds s) (sent s) (running_ s))
      else (s, Some epoll_ctl_failed)
  end.

(** *** The event loop *)

Section Loop.
Context (sigpipe : disposition) (listen_fd_ epoll_fd_ stop_fd_ : Z).

(** A ready descriptor with what the kernel answers to the calls made for it. *)
Record event := MkEvent {
  fd : Z;
  reads : list read_result;
  written : write_result;
  clients : list (Z * bool)
}.

(** The [for] loop over the events of one [epoll_wait]. *)
Fixpoint process_events (handler_ : RouteHandler) (events : list event) (s : Server) : Server * option server_error :=
  match events with
  | [] => (s, None)
  | e :: events =>
      if fd e =? stop_fd_ then
        (MkServer (read_bufs_ s) (epoll_set s) (open_fds s) (sent s) false, None)
      else if fd e =? listen_fd_ then
        match accept_clients (clients e) s with
        | (s, None) => process_events handler_ events s
        | (s, Some err) => (s, Some err)
        end
      else
        match handle_client handler_ sigpipe (fd e) (reads e) (written e) s with
        | (s, None) => process_events handler_ events s
        | (s, Some err) => (s, Some err)
        end
  end.

(** The end of [run]: the server's own descriptors are closed. *)
Definition close_server (s : Server) : Server :=
  MkServer (read_bufs_ s) (epoll_set s) (open_fds s ∖ {[listen_fd_; epoll_fd_; stop_fd_]})
           (sent s) (running_ s).

(** [run]: one batch of events per [epoll_wait], while [running_]; at the end
    of the list the loop is still waiting.  The handler reads data that other
    threads change, so every wait comes with what it computes at that time. *)
Fixpoint run (waits : list (RouteHandler * list event)) (s : Server) : Server * option server_error :=
  if running_ s then
    match waits with
    | [] => (s, None)
    | (handler_, events) :: waits =>
        match process_events handler_ events s with
        | (s, None) => run waits s
        | (s, Some err) => (s, Some err)
        end
    end
  else (close_server s, None).
End Loop.

(** ** Lemmas *)

(** The first occurrence of a character, from a position on. *)
Lemma find_app c (pre a b : str) :
  c ∉ a -> find c (length pre) (pre ++ a ++ c :: b) = Some (length pre + length a)%nat.
Proof.
  intros Ha. unfold find. rewrite drop_app_length.
  rewrite list_find_app_r.
  - simpl. by rewrite decide_True.
  - apply list_find_None. apply Forall_forall. by intros x Hx <-.
Qed.

Lemma find_none c (pre a : str) : c ∉ a -> find c (length pre) (pre ++ a) = None.
Proof.
  intros Ha. unfold find. rewrite drop_app_length.
  by rewrite (proj2 (list_find_None _ _)) by (apply Forall_forall; by intros x Hx <-).
Qed.

Lemma parse_path_line (method path rest : str) :
  space ∉ method -> space ∉ path ->
  parse_path (method ++ space :: path ++ space :: rest) = path.
Proof.
  intros Hm Hp. unfold parse_path.
  pose proof (find_app space [] method (path ++ space :: rest) Hm) as Hf.
  cbn [length Nat.add app] in Hf. rewrite Hf.
  assert (length (method ++ [space]) = length method + 1)%nat as Hl by by rewrite length_app.
  rewrite <- Hl. change (space :: path ++ space :: rest) with ([space] ++ path ++ space :: rest).
  rewrite app_assoc, find_app by done. unfold substr. rewrite drop_app_length.
  rewrite Hl. replace (length method + 1 + length path - length method - 1)%nat
    with (length path) by lia.
  apply take_app_length.
Qed.

Lemma parse_path_short1 (req : str) : space ∉ req -> parse_path req = [].
Proof.
  intros Hn. unfold parse_path. pose proof (find_none space [] req Hn) as Hf.
  cbn [length app] in Hf. by rewrite Hf.
Qed.

Lemma parse_path_short2 (method rest : str) :
  space ∉ method -> space ∉ rest -> parse_path (method ++ space :: rest) = [].
Proof.
  intros Hm Hr. unfold parse_path. pose proof (find_app space [] method rest Hm) as Hf.
  cbn [length Nat.add app] in Hf. rewrite Hf.
  replace (length method + 1)%nat with (length (method ++ [space])) by by rewrite length_app.
  change (space :: rest) with ([space] ++ rest). by rewrite app_assoc, find_none.
Qed.

Lemma count_none (l : str) : space ∉ l -> filter (eq space) l = [].
Proof.
  intros Hn. destruct (filter (eq space) l) as [|x k] eqn:Hf; [done|exfalso].
  assert (x ∈ filter (eq space) l) as [<- Hin]%list_elem_of_filter by (rewrite Hf; left). done.
Qed.

(** A request has no space, one, or the two that delimit the path. *)
Lemma request_cases (req : str) :
  space ∉ req \/
  (exists m r, req = m ++ (space :: r) /\ space ∉ m /\ space ∉ r) \/
  (exists m p r, req = m ++ (space :: p ++ space :: r) /\ space ∉ m /\ space ∉ p).
Proof.
  destruct (decide (space ∈ req)) as [Hin|]; [right|by left].
  apply list_elem_of_split_l in Hin as (m & r & -> & Hm).
  destruct (decide (space ∈ r)) as [Hin|]; [right|left; eauto].
  apply list_elem_of_split_l in Hin as (p & r' & -> & Hp). eauto 10.
Qed.

Lemma parse_path_few (req : str) : (length (filter (eq space) req) < 2)%nat -> parse_path req = [].
Proof.
  intros Hsp. destruct (request_cases req) as [Hn|[(m & r & -> & Hm & Hr)|(m & q & r & -> & Hm & Hq)]].
  - by apply parse_path_short1.
  - by apply parse_path_short2.
  - exfalso. rewrite filter_app, filter_cons_True, filter_app, filter_cons_True in Hsp by done.
    rewrite !length_app in Hsp. cbn [length] in Hsp. rewrite !length_app in Hsp.
    cbn [length] in Hsp. lia.
Qed.

(** *** Searching the end of the header *)

Lemma contains_spec pat s : contains pat s = true <-> exists a b, s = a ++ pat ++ b.
Proof.
  induction s as [|c s IH]; cbn [contains]; rewrite orb_true_iff, bool_decide_eq_true.
  - rewrite take_nil. split.
    + intros [<-|[=]]. by exists [], [].
    + intros (a & b & Hab). symmetry in Hab.
      apply app_eq_nil in Hab as [-> Hab]. apply app_eq_nil in Hab as [-> _]. by left.
  - rewrite IH. split.
    + intros [Ht|(a & b & ->)]; [|by exists (c :: a), b].
      exists [], (drop (length pat) (c :: s)). rewrite app_nil_l, <- Ht at 1.
      symmetry. apply take_drop.
    + intros ([|c' a] & b & Hab).
      * left. rewrite Hab, app_nil_l. apply take_app_length.
      * right. injection Hab as <- ->. eauto.
Qed.

(** *** The response, read line by line *)

(** The client's reader: a line up to CR LF. *)
Fixpoint read_line (s : str) : option (str * str) :=
  match s with
  | [] => None
  | c :: s =>
      if decide (c = CR /\ head s = Some LF) then Some ([], tail s)
      else '(l, rest) ← read_line s; Some (c :: l, rest)
  end.

(** Lines up to the empty one; what follows is the body. *)
Fixpoint read_head (fuel : nat) (s : str) : option (list str * str) :=
  match fuel with
  | O => None
  | S fuel =>
      '(l, rest) ← read_line s;
      if decide (l = []) then Some ([], rest)
      else '(ls, body) ← read_head fuel rest; Some (l :: ls, body)
  end.

Lemma read_line_app (l rest : str) : CR ∉ l -> read_line (l ++ CRLF ++ rest) = Some (l, rest).
Proof.
  induction l as [|c l IH]; intros Hl; simpl; [done|].
  apply not_elem_of_cons in Hl as [Hc Hl]. rewrite decide_False by naive_solver.
  change (CR :: LF :: rest) with (CRLF ++ rest). by rewrite IH.
Qed.

Lemma read_head_line fuel l (rest : str) :
  CR ∉ l -> l <> [] ->
  read_head (S fuel) (l ++ CRLF ++ rest) =
  '(ls, body) ← read_head fuel rest; Some (l :: ls, body).
Proof. intros Hl Hne. cbn [read_head]. rewrite read_line_app by done. cbn. by rewrite decide_False. Qed.

Lemma read_head_end fuel (body : str) : read_head (S fuel) (CRLF ++ body) = Some ([], body).
Proof. done. Qed.

(** Decimal numbers have no CR. *)
Lemma pretty_N_go_no_CR x s : CR ∉ lit s -> CR ∉ lit (pretty_N_go x s).
Proof.
  revert s. induction (N.lt_wf_0 x) as [x _ IH]. intros s Hs.
  destruct (decide (0 < x)%N) as [Hx|Hx].
  - rewrite pretty_N_go_step by done. apply IH; [by apply N.div_lt|].
    apply not_elem_of_cons. split; [|done].
    unfold pretty_N_char. by repeat case_match.
  - replace x with 0%N by lia. by rewrite pretty_N_go_0.
Qed.

Lemma decimal_no_CR z : 0 <= z -> CR ∉ decimal z.
Proof.
  intros Hz. unfold decimal. destruct z as [|z|z]; [|apply pretty_N_go_no_CR|lia].
  - apply (bool_decide_unpack _). vm_compute. exact I.
  - apply not_elem_of_nil.
Qed.

Lemma lit_no_CR s : bool_decide (CR ∉ lit s) = true -> CR ∉ lit s.
Proof. apply bool_decide_eq_true_1. Qed.

Lemma lit_app_no_CR s (l : str) : bool_decide (CR ∉ lit s) = true -> CR ∉ l -> CR ∉ lit s ++ l.
Proof. intros Hs Hl [Hin|Hin]%elem_of_app; [by apply lit_no_CR in Hin|done]. Qed.

(** *** The read loop, for any division of the data into reads *)

Lemma read_loop_data buf chunks :
  contains (CRLF ++ CRLF) (buf ++ mjoin chunks) = true -> contains (CRLF ++ CRLF) buf = false ->
  exists buf' rest, read_loop buf (Data <$> chunks) = Some buf' /\
    buf' ++ rest = buf ++ mjoin chunks /\ contains (CRLF ++ CRLF) buf' = true.
Proof.
  revert buf. induction chunks as [|c chunks IH]; intros buf Hc Hn.
  { change (mjoin []) with (@nil ascii) in Hc. rewrite app_nil_r in Hc. congruence. }
  cbn [fmap list_fmap read_loop]. change (mjoin (c :: chunks)) with (c ++ mjoin chunks) in *.
  rewrite app_assoc in Hc |- *. destruct (contains (CRLF ++ CRLF) (buf ++ c)) eqn:Hbc.
  - by exists (buf ++ c), (mjoin chunks).
  - by apply IH.
Qed.

(** A prefix with the end of the header has the whole request line. *)
Lemma prefix_parse_path (method path rest buf tail : str) :
  CR ∉ method -> CR ∉ path -> space ∉ method -> space ∉ path ->
  buf ++ tail = method ++ space :: path ++ space :: rest ->
  contains (CRLF ++ CRLF) buf = true -> parse_path buf = path.
Proof.
  intros Hm Hp Hsm Hsp Heq (a & b & ->)%contains_spec.
  set (line := method ++ space :: path ++ [space]).
  assert (CR ∉ line) as Hline.
  { unfold line. rewrite !elem_of_app, !elem_of_cons, elem_of_app, list_elem_of_singleton.
    intros [?|[[=]|[?|[=]]]]; done. }
  replace (method ++ space :: path ++ space :: rest) with (line ++ rest) in Heq
    by (unfold line; rewrite <- app_assoc; cbn; by rewrite <- app_assoc).
  assert (length line <= length a)%nat as Hlen.
  { destruct (decide (length line <= length a)%nat) as [|Hlt]; [done|exfalso].
    apply Hline, (list_elem_of_lookup_2 _ (length a)).
    rewrite <- (lookup_app_l line rest) by lia. rewrite <- Heq, <- app_assoc.
    by rewrite lookup_app_r, Nat.sub_diag by lia. }
  rewrite <- app_assoc in Heq. apply (f_equal (take (length line))) in Heq as Ht.
  rewrite take_app_length, take_app_le in Ht by done.
  rewrite <- (take_drop (length line) a), Ht. unfold line. rewrite <- !app_assoc. cbn.
  rewrite <- app_assoc. by apply parse_path_line.
Qed.

(** *** Descriptors *)

Lemma handle_client_fds handler_ sigpipe fd reads written s s' :
  handle_client handler_ sigpipe fd reads written s = (s', None) ->
  read_bufs_ s' = delete fd (read_bufs_ s) /\ epoll_set s' = epoll_set s ∖ {[fd]} /\
  open_fds s' = open_fds s ∖ {[fd]} /\ running_ s' = running_ s.
Proof.
  unfold handle_client. destruct (read_loop _ _); [destruct written, sigpipe; try done|];
    intros [= <-]; cbn; by rewrite delete_insert_eq.
Qed.

(** Without a broken pipe the client is dealt with. *)
Lemma handle_client_wrote handler_ sigpipe fd reads written s :
  written <> BrokenPipe -> exists s', handle_client handler_ sigpipe fd reads written s = (s', None).
Proof. intros Hw. unfold handle_client. destruct (read_loop _ _), written; eauto; done. Qed.

(** Whatever a client sent, it is answered; when it has gone, the process is
    killed with the request read and the client's descriptor open. *)
Lemma read_loop_chunks buf chunks : exists buf', read_loop buf (Data <$> chunks) = Some buf'.
Proof.
  revert buf. induction chunks as [|c chunks IH]; intros buf; cbn; [eauto|].
  destruct (contains _ _); eauto.
Qed.

Lemma handle_client_broken handler_ fd chunks s :
  exists s', handle_client handler_ SIG_DFL fd (Data <$> chunks) BrokenPipe s = (s', Some killed_by_sigpipe) /\
    epoll_set s' = epoll_set s /\ open_fds s' = open_fds s /\ sent s' = sent s /\
    running_ s' = running_ s.
Proof.
  unfold handle_client.
  destruct (read_loop_chunks (default [] (read_bufs_ s !! fd)) chunks) as [buf ->]. by eexists.
Qed.

(** A request that arrives whole. *)
Lemma whole_request h sigpipe fd chunks method path rest room s :
  CR ∉ method -> CR ∉ path -> space ∉ method -> space ∉ path ->
  mjoin chunks = method ++ space :: path ++ space :: rest ->
  contains (CRLF ++ CRLF) (mjoin chunks) = true -> read_bufs_ s !! fd = None ->
  sent (handle_client (Some h) sigpipe fd (Data <$> chunks) (Wrote room) s).1 =
  sent s ++ [(fd, take room (build_response
    (if bool_decide (path = []) || bool_decide (h path = []) then 404 else 200)
    (lit (if decide (path = lit "/metrics") then "text/plain; version=0.0.4; charset=utf-8"
          else "application/json")) (h path)))].
Proof.
  intros Hm Hp Hsm Hsp Hreq Hend Hbuf.
  destruct (read_loop_data [] chunks) as (buf & tail & Hloop & Htail & Hc); [done|done|].
  unfold handle_client. rewrite Hbuf. cbn [default]. rewrite Hloop. cbn [close_client epoll_del sent fst].
  rewrite app_nil_l, Hreq in Htail.
  unfold respond. rewrite (prefix_parse_path method path rest buf tail) by done.
  by destruct (decide (path = lit "/metrics")).
Qed.

Section LoopInvariant.
Context (sigpipe : disposition) (listen_fd_ epoll_fd_ stop_fd_ : Z) (handler_ : RouteHandler).

(** No half-read request is kept between events, and the descriptors open are
    the registered ones and the epoll instance. *)
Definition Tidy (s : Server) : Prop :=
  read_bufs_ s = ∅ /\ open_fds s = epoll_set s ∪ {[epoll_fd_]}.

Lemma tidy_handle_client fd reads written s s' :
  fd <> epoll_fd_ -> handle_client handler_ sigpipe fd reads written s = (s', None) -> Tidy s -> Tidy s'.
Proof.
  intros Hne Hh [Hb Ho]. destruct (handle_client_fds _ _ _ _ _ _ _ Hh) as (Hb' & He' & Ho' & _).
  split; [by rewrite Hb', Hb, delete_empty|]. rewrite Ho', He', Ho. set_solver.
Qed.

Lemma accept_running clients s s' : accept_clients clients s = (s', None) -> running_ s' = running_ s.
Proof.
  revert s. induction clients as [|[client []] clients IH]; intros s; cbn; [by intros [= <-]|..]; [|done].
  intros Ha. by rewrite (IH _ Ha).
Qed.

Lemma tidy_accept clients s s' : accept_clients clients s = (s', None) -> Tidy s -> Tidy s'.
Proof.
  revert s. induction clients as [|[client []] clients IH]; intros s; cbn.
  - by intros [= <-].
  - intros Ha [Hb Ho]. apply IH in Ha; [done|]. split; cbn; [done|]. rewrite Ho. set_solver.
  - done.
Qed.

Definition no_epoll_event (events : list event) : Prop :=
  Forall (fun e => fd e <> epoll_fd_) events.

Lemma tidy_process events s s' :
  no_epoll_event events ->
  process_events sigpipe listen_fd_ stop_fd_ handler_ events s = (s', None) -> Tidy s -> Tidy s'.
Proof.
  intros Hev. revert s. induction Hev as [|e events He Hev IH]; intros s; cbn.
  - by intros [= <-].
  - destruct (fd e =? stop_fd_); [by intros [= <-]|]. destruct (fd e =? listen_fd_).
    + destruct (accept_clients (clients e) s) as [s1 [err|]] eqn:Ha; [done|].
      intros Hp Hs. apply (IH s1); [done|]. by eapply tidy_accept.
    + destruct (handle_client handler_ sigpipe (fd e) (reads e) (written e) s) as [s1 [err|]] eqn:Hh; [done|].
      intros Hp Hs. apply (IH s1); [done|]. by eapply tidy_handle_client.
Qed.

(** A batch with the stop event ends the loop. *)
Lemma process_stop events s s' :
  Exists (fun e => fd e = stop_fd_) events ->
  process_events sigpipe listen_fd_ stop_fd_ handler_ events s = (s', None) -> running_ s' = false.
Proof.
  intros Hex. revert s. induction events as [|e events IH]; intros s; [by apply Exists_nil in Hex|].
  cbn. destruct (Z.eqb_spec (fd e) stop_fd_) as [|Hne]; [by intros [= <-]|].
  apply Exists_cons in Hex as [?|Hex]; [done|]. destruct (fd e =? listen_fd_).
  - destruct (accept_clients (clients e) s) as [s1 [err|]]; [done|]. by apply IH.
  - destruct (handle_client _ _ _ _ _ s) as [s1 [err|]]; [done|]. by apply IH.
Qed.

Lemma run_stopped waits s :
  running_ s = false ->
  run sigpipe listen_fd_ epoll_fd_ stop_fd_ waits s =
    (close_server listen_fd_ epoll_fd_ stop_fd_ s, None).
Proof. intros Hr. destruct waits; cbn; by rewrite Hr. Qed.

(** One [epoll_wait] that returns several events does what several do that
    return them one by one. *)
Lemma run_split e events waits s :
  run sigpipe listen_fd_ epoll_fd_ stop_fd_ ((handler_, e :: events) :: waits) s =
  run sigpipe listen_fd_ epoll_fd_ stop_fd_ ((handler_, [e]) :: (handler_, events) :: waits) s.
Proof.
  destruct (running_ s) eqn:Hr; [|by rewrite !run_stopped].
  cbn [run process_events]. rewrite Hr. destruct (fd e =? stop_fd_).
  { by rewrite !run_stopped by done. }
  destruct (fd e =? listen_fd_).
  - destruct (accept_clients (clients e) s) as [s1 [err|]] eqn:Ha; [done|].
    by rewrite (accept_running _ _ _ Ha), Hr.
  - destruct (handle_client handler_ sigpipe (fd e) (reads e) (written e) s) as [s1 [err|]] eqn:Hh; [done|].
    by rewrite (proj2 (proj2 (proj2 (handle_client_fds _ _ _ _ _ _ _ Hh)))), Hr.
Qed.

End LoopInvariant.

(** *** The client's view of a response *)

Lemma read_response status ct body :
  status = 200 \/ status = 404 -> CR ∉ ct ->
  read_head 5 (build_response status ct body) =
  Some ([lit (if status =? 200 then "HTTP/1.1 200 OK" else "HTTP/1.1 404 Not Found");
         lit "Content-Type: " ++ ct;
         lit "Content-Length: " ++ decimal (Z.of_nat (length body));
         lit "Connection: close"], body).
Proof.
  intros Hst Hct. pose proof (decimal_no_CR (Z.of_nat (length body)) ltac:(lia)) as Hd.
  set (status_line := lit (if status =? 200 then "HTTP/1.1 200 OK" else "HTTP/1.1 404 Not Found")).
  assert (build_response status ct body =
    status_line ++ CRLF ++ (lit "Content-Type: " ++ ct) ++ CRLF ++
    (lit "Content-Length: " ++ decimal (Z.of_nat (length body))) ++ CRLF ++
    lit "Connection: close" ++ CRLF ++ CRLF ++ body) as ->.
  { unfold status_line, build_response. destruct Hst as [-> | ->]; by rewrite <- !app_assoc. }
  assert (CR ∉ status_line /\ status_line <> []) as [Hl1 Hn1]
    by (destruct Hst as [-> | ->]; (split; [by apply lit_no_CR|done])).
  assert (CR ∉ lit "Content-Type: " ++ ct) as Hl2 by by apply lit_app_no_CR.
  assert (CR ∉ lit "Content-Length: " ++ decimal (Z.of_nat (length body))) as Hl3
    by by apply lit_app_no_CR.
  rewrite read_head_line by done. rewrite read_head_line by done. rewrite read_head_line by done.
  rewrite read_head_line by (done || by apply lit_no_CR). by rewrite read_head_end.
Qed.

End Http.

(** ** Properties *)

Section Properties.
Import Http.

(** Parse_path returns the text between the first two spaces of the
    request, and nothing when there are fewer than two. *)
Theorem parse_path_correct req p :
  parse_path req = p <->
  (exists m r, req = m ++ (space :: p ++ space :: r) /\ space ∉ m /\ space ∉ p) \/
  p = [] /\ (length (filter (eq space) req) < 2)%nat.
Proof.
  destruct (request_cases req) as [Hn|[(m & r & -> & Hm & Hr)|(m & q & r & -> & Hm & Hq)]].
  - rewrite parse_path_short1, count_none by done. split; [intros <-; right; split; [done|cbn; lia]|].
    intros [(m & r & -> & _)|[-> _]]; [|done]. exfalso. apply Hn. rewrite elem_of_app. right. left.
  - rewrite parse_path_short2, filter_app, filter_cons_True, !count_none by done.
    split; [intros <-; right; split; [done|cbn; lia]|]. intros [(m' & r' & Heq & Hm' & _)|[-> _]]; [|done].
    exfalso. apply (f_equal (filter (eq space))) in Heq.
    rewrite !filter_app, !filter_cons_True, filter_app, filter_cons_True, !(count_none m), (count_none r),
      (count_none m') in Heq by done. cbn in Heq. injection Heq as Heq.
    symmetry in Heq. apply app_eq_nil in Heq as [_ [=]].
  - rewrite parse_path_line by done. split; [intros <-; left; eauto 10|].
    intros [(m' & r' & Heq & Hm' & Hp)|[-> Hl]].
    + rewrite <- (parse_path_line m q r), Heq by done. by apply parse_path_line.
    + exfalso. rewrite filter_app, filter_cons_True, filter_app, filter_cons_True in Hl by done.
      rewrite !length_app in Hl. cbn [length] in Hl. rewrite !length_app in Hl. cbn [length] in Hl. lia.
Qed.

(** A client that reads the response line by line gets the status line,
    the content type, the exact length of the body and "Connection: close",
    then the empty line and the body unchanged, whatever characters the body
    has. *)
Theorem response_roundtrip status ct body :
  status = 200 \/ status = 404 -> CR ∉ ct ->
  read_head 5 (build_response status ct body) =
  Some ([lit (if status =? 200 then "HTTP/1.1 200 OK" else "HTTP/1.1 404 Not Found");
         lit "Content-Type: " ++ ct;
         lit "Content-Length: " ++ decimal (Z.of_nat (length body));
         lit "Connection: close"], body).
Proof. apply read_response. Qed.

(** A request that arrives whole, in any number of pieces: the client gets
    (the start of) the response of the route handler for its path, 404 exactly
    when the handler returns nothing or the path is empty, and is closed. *)
Theorem request_served h sigpipe fd chunks method path rest room s :
  CR ∉ method -> CR ∉ path -> space ∉ method -> space ∉ path ->
  mjoin chunks = method ++ space :: path ++ space :: rest ->
  contains (CRLF ++ CRLF) (mjoin chunks) = true -> read_bufs_ s !! fd = None ->
  let s' := (handle_client (Some h) sigpipe fd (Data <$> chunks) (Wrote room) s).1 in
  let status := if bool_decide (path = []) || bool_decide (h path = []) then 404 else 200 in
  let ct := if decide (path = lit "/metrics") then "text/plain; version=0.0.4; charset=utf-8"
            else "application/json" in
  sent s' = sent s ++ [(fd, take room (build_response status (lit ct) (h path)))] /\
  read_bufs_ s' !! fd = None /\ fd ∉ epoll_set s' /\ fd ∉ open_fds s'.
Proof.
  intros Hm Hp Hsm Hsp Hreq Hend Hbuf s' status ct.
  destruct (handle_client_wrote (Some h) sigpipe fd (Data <$> chunks) (Wrote room) s) as [s1 Hs1]; [done|].
  destruct (handle_client_fds _ _ _ _ _ _ _ Hs1) as (Hb & He & Ho & _).
  split; [exact (whole_request h sigpipe fd chunks method path rest room s Hm Hp Hsm Hsp Hreq Hend Hbuf)|unfold s'; rewrite Hs1; cbn; rewrite Hb, He, Ho, lookup_delete_eq; set_solver].
Qed.

(** C38: the event loop keeps its books: between events no request buffer is
    left and the open descriptors are the registered ones; a batch with the
    stop event ends the loop, which closes the server's own descriptors and
    leaves the clients still connected open. *)
Theorem event_loop_tidy sigpipe listen_fd_ epoll_fd_ stop_fd_ handler_ events s s' :
  no_epoll_event epoll_fd_ events -> Tidy epoll_fd_ s ->
  process_events sigpipe listen_fd_ stop_fd_ handler_ events s = (s', None) ->
  Tidy epoll_fd_ s' /\
  (Exists (fun e => fd e = stop_fd_) events -> forall waits,
     let '(s2, err) := run sigpipe listen_fd_ epoll_fd_ stop_fd_ waits s' in
     err = None /\ open_fds s2 = epoll_set s2 ∖ {[listen_fd_; epoll_fd_; stop_fd_]}).
Proof.
  intros Hev Ht Hp. pose proof (tidy_process _ _ _ _ _ _ _ _ Hev Hp Ht) as [Hb Ho].
  split; [done|]. intros Hstop waits. apply (process_stop _ _ _ _ _ _ _ Hstop) in Hp.
  rewrite run_stopped by done. cbn. split; [done|]. rewrite Ho. set_solver.
Qed.

(** C39: a request of which only a first segment has arrived when the socket
    is drained is not waited for: without the end of the header the client is
    answered and closed.  With fewer than two spaces in the segment it gets 404;
    with the path complete it gets the route's response. *)
Theorem partial_request_answered h sigpipe fd segment room s :
  contains (CRLF ++ CRLF) segment = false -> read_bufs_ s !! fd = None ->
  let s' := (handle_client (Some h) sigpipe fd [Data segment; Failed EAGAIN] (Wrote room) s).1 in
  fd ∉ epoll_set s' /\ fd ∉ open_fds s' /\
  ((length (filter (eq space) segment) < 2)%nat ->
   sent s' = sent s ++ [(fd, take room (build_response 404 (lit "application/json") (h [])))]) /\
  (forall method path rest, segment = method ++ space :: path ++ space :: rest ->
   space ∉ method -> space ∉ path ->
   let status := if bool_decide (path = []) || bool_decide (h path = []) then 404 else 200 in
   let ct := if decide (path = lit "/metrics") then "text/plain; version=0.0.4; charset=utf-8"
             else "application/json" in
   sent s' = sent s ++ [(fd, take room (build_response status (lit ct) (h path)))]).
Proof.
  intros Hend Hbuf s'.
  destruct (handle_client_wrote (Some h) sigpipe fd [Data segment; Failed EAGAIN] (Wrote room) s) as [s1 Hs1]; [done|].
  destruct (handle_client_fds _ _ _ _ _ _ _ Hs1) as (_ & He & Ho & _).
  assert (sent s' = sent s ++ [(fd, take room (respond (Some h) segment))]) as Hsent.
  { unfold s', handle_client. rewrite Hbuf. cbn [default read_loop]. by rewrite app_nil_l, Hend. }
  split; [unfold s'; rewrite Hs1; cbn; rewrite He; set_solver|].
  split; [unfold s'; rewrite Hs1; cbn; rewrite Ho; set_solver|]. rewrite Hsent. unfold respond. split.
  - intros Hsp. by rewrite parse_path_few.
  - intros method path rest -> Hm Hp. rewrite parse_path_line by done.
    by destruct (decide (path = lit "/metrics")).
Qed.

End Properties.

(** ** Witnesses *)

Module HttpWitness.
Import Http.

Definition health (path : str) : str :=
  if decide (path = lit "/health") then lit "{ok}" else [].

(** The server's descriptors 3 (listen), 4 (epoll), 5 (stop), the client 7. *)
Definition s0 : Server := MkServer ∅ {[3; 5; 7]} {[3; 4; 5; 7]} [] true.

(** A request in three pieces. *)
Definition pieces : list str :=
  [lit "GET /hea"; lit "lth HTTP/1.1" ++ CRLF ++ [CR]; [LF] ++ lit "junk"].

Definition two_events : list event :=
  [MkEvent 3 [] (Wrote 0) [(8, true); (9, true)]; MkEvent 7 [Eof] (Wrote 0) [];
   MkEvent 5 [] (Wrote 0) []].

Definition s1 : Server := (process_events SIG_DFL 3 5 (Some health) two_events s0).1.

End HttpWitness.

Section Witnesses.
Import Http HttpWitness.

Lemma response_roundtrip_witness :
  read_head 5 (build_response 404 (lit "application/json") (CRLF ++ CRLF ++ lit "x")) =
  Some ([lit "HTTP/1.1 404 Not Found"; lit "Content-Type: application/json";
         lit "Content-Length: 5"; lit "Connection: close"], CRLF ++ CRLF ++ lit "x").
Proof.
  apply (response_roundtrip 404 (lit "application/json") (CRLF ++ CRLF ++ lit "x"));
    [by right|]. apply lit_no_CR. reflexivity.
Defined.

Lemma request_served_witness :
  sent (handle_client (Some health) SIG_DFL 7 (Data <$> pieces) (Wrote 500) s0).1 =
    [(7, take 500 (build_response 200 (lit "application/json") (lit "{ok}")))].
Proof.
  refine (proj1 (request_served health SIG_DFL 7 pieces (lit "GET") (lit "/health")
    (lit "HTTP/1.1" ++ CRLF ++ CRLF ++ lit "junk") 500 s0 _ _ _ _ _ _ _));
    first [reflexivity | apply (bool_decide_unpack _); vm_compute; exact I].
Defined.

Lemma event_loop_tidy_witness :
  Tidy 4 s1 /\ forall waits,
    let '(s2, err) := run SIG_DFL 3 4 5 waits s1 in
    err = None /\ open_fds s2 = epoll_set s2 ∖ {[3; 4; 5]}.
Proof.
  destruct (event_loop_tidy SIG_DFL 3 4 5 (Some health) two_events s0 s1) as [Ht Hr].
  - apply (bool_decide_unpack _). vm_compute. exact I.
  - split; vm_compute; reflexivity.
  - vm_compute. reflexivity.
  - split; [exact Ht|]. apply Hr. right. right. left. reflexivity.
Defined.

(** The line is split inside the path, and after it. *)
Lemma partial_request_answered_witness :
  sent (handle_client (Some health) SIG_DFL 7 [Data (lit "GET /hea"); Failed EAGAIN] (Wrote 500) s0).1 =
    [(7, take 500 (build_response 404 (lit "application/json") []))] /\
  sent (handle_client (Some health) SIG_DFL 7 [Data (lit "GET /health HT"); Failed EAGAIN] (Wrote 500) s0).1 =
    [(7, take 500 (build_response 200 (lit "application/json") (lit "{ok}")))].
Proof.
  destruct (partial_request_answered health SIG_DFL 7 (lit "GET /hea") 500 s0) as (_ & _ & H1 & _);
    [reflexivity..|].
  destruct (partial_request_answered health SIG_DFL 7 (lit "GET /health HT") 500 s0) as (_ & _ & _ & H2);
    [reflexivity..|].
  split; [apply H1; vm_compute; lia|].
  apply (H2 (lit "GET") (lit "/health") (lit "HT"));
    first [reflexivity | apply (bool_decide_unpack _); vm_compute; exact I].
Defined.

End Witnesses.
