(* ===== verification/Metrics.v ===== *)
(** * Metrics: src/http/metrics.h

    The Prometheus text of the reporter's connections and of the batch
    processor's counters.  The clock, [inet_ntop] and [ntohs] are
    parameters. *)

From S2P Require Import Prelude Common TcpTracer StatsReporter HttpServer MemoryPool PacketProcessor.
From Stdlib Require Import Ascii.

(** A double quote. *)
Definition dq : str := [ascii_of_nat 34].
Definition nl : str := [LF].

#[export] Existing Instances Reporter.key_eq_dec Reporter.key_countable.

Module Prom.

Definition emit_help (name help : str) : str := lit "# HELP " ++ name ++ lit " " ++ help ++ nl.
Definition emit_type (name type : str) : str := lit "# TYPE " ++ name ++ lit " " ++ type ++ nl.

Section Metrics.
Context (iter : gmap Reporter.ConnectionKey Reporter.ConnectionStats -> list Reporter.item).
Context (inet_ntop : Z -> string) (ntohs : Z -> Z).

Definition labels (key : Reporter.ConnectionKey) (st : Reporter.ConnectionStats) : str :=
  lit "{comm=" ++ dq ++ lit (Reporter.comm st) ++
  dq ++ lit ",pid=" ++ dq ++ decimal (Reporter.pid key) ++
  dq ++ lit ",src=" ++ dq ++ lit (inet_ntop (Reporter.src_ip key)) ++ lit ":" ++
    decimal (ntohs (Reporter.src_port key)) ++
  dq ++ lit ",dst=" ++ dq ++ lit (inet_ntop (Reporter.dst_ip key)) ++ lit ":" ++
    decimal (ntohs (Reporter.dst_port key)) ++
  dq ++ lit "}".

(** One sample: name, labels, value, time. *)
Definition sample (name lbl : str) (value now_ms : Z) : str :=
  name ++ lbl ++ lit " " ++ decimal value ++ lit " " ++ decimal now_ms ++ nl.

(** What the callback of [for_each] appends for one connection. *)
Definition connection_lines (now_ms : Z) (key : Reporter.ConnectionKey)
    (st : Reporter.ConnectionStats) : str :=
  let lbl := labels key st in
  sample (lit "ebpf_connection_bytes_tx_total") lbl (Reporter.bytes_tx st) now_ms ++
  sample (lit "ebpf_connection_bytes_rx_total") lbl (Reporter.bytes_rx st) now_ms ++
  sample (lit "ebpf_connection_connects_total") lbl (Reporter.connects st) now_ms.

(** The lines before the connections. *)
Definition preamble (count now_ms : Z) : str :=
  emit_help (lit "ebpf_active_connections") (lit "Number of tracked TCP connections") ++
  emit_type (lit "ebpf_active_connections") (lit "gauge") ++
  lit "ebpf_active_connections " ++ decimal count ++ lit " " ++ decimal now_ms ++ nl ++ nl ++
  emit_help (lit "ebpf_connection_bytes_tx_total") (lit "Bytes transmitted per connection") ++
  emit_type (lit "ebpf_connection_bytes_tx_total") (lit "counter") ++
  emit_help (lit "ebpf_connection_bytes_rx_total") (lit "Bytes received per connection") ++
  emit_type (lit "ebpf_connection_bytes_rx_total") (lit "counter") ++
  emit_help (lit "ebpf_connection_connects_total") (lit "TCP connect events per connection") ++
  emit_type (lit "ebpf_connection_connects_total") (lit "counter").

(** [connection_count] and [for_each] each take the reporter's lock: events may
    be recorded in between, so each sees a reporter of its own. *)
Definition from_reporter (now_ms : Z) (counted listed : Reporter.StatsReporter) : str :=
  Reporter.for_each iter
    (fun key st out => out ++ connection_lines now_ms key st) listed
    (preamble (Reporter.connection_count counted) now_ms).

(** One metric of the processor. *)
Definition metric (name help type : str) (value now_ms : Z) : str :=
  emit_help name help ++ emit_type name type ++
  name ++ lit " " ++ decimal value ++ lit " " ++ decimal now_ms ++ nl ++ nl.

Definition from_processor {St} (now_ms : Z) (proc : @Processor.BatchProcessor St) : str :=
  let s := Processor.stats proc in
  metric (lit "dpdk_sim_packets_processed_total") (lit "Total packets processed") (lit "counter")
    (pkts_processed s) now_ms ++
  metric (lit "dpdk_sim_packets_dropped_total") (lit "Total packets dropped (ring full)")
    (lit "counter") (pkts_dropped s) now_ms ++
  metric (lit "dpdk_sim_bytes_processed_total") (lit "Total bytes processed") (lit "counter")
    (bytes_processed s) now_ms ++
  metric (lit "dpdk_sim_pool_available") (lit "Free objects in memory pool") (lit "gauge")
    (Pool.available (Processor.pool proc)) now_ms.

End Metrics.

End Prom.

(** ** Lemmas *)

Lemma for_each_append iter (f : Reporter.ConnectionKey -> Reporter.ConnectionStats -> str) r init :
  Reporter.for_each iter (fun k st out => out ++ f k st) r init =
  init ++ mjoin ((fun i => f i.1 i.2) <$> iter (Reporter.stats_ r)).
Proof.
  unfold Reporter.for_each. revert init.
  induction (iter (Reporter.stats_ r)) as [|i l IH]; intros init; csimpl.
  - by rewrite app_nil_r.
  - by rewrite IH, <- app_assoc.
Qed.

(** The connections a reporter lists, each once. *)
Lemma listed_keys (iter : gmap Reporter.ConnectionKey Reporter.ConnectionStats -> list Reporter.item)
    evs :
  (forall m, iter m ≡ₚ map_to_list m) ->
  let r := Reporter.record_all evs Reporter.new_reporter in
  let ks := (iter (Reporter.stats_ r)).*1 in
  NoDup ks /\ (forall k, k ∈ ks <-> k ∈ Reporter.key_of <$> evs) /\
  (forall i, i ∈ iter (Reporter.stats_ r) -> Reporter.aggregate i.1 evs = Some i.2).
Proof.
  intros Hiter r ks. split; [|split].
  - unfold ks. rewrite Hiter. apply NoDup_fst_map_to_list.
  - intros k. unfold ks. rewrite Hiter.
    transitivity (k ∈ dom (Reporter.stats_ r)).
    + rewrite elem_of_dom, list_elem_of_fmap. split.
      * intros ([k' st] & -> & Hin%elem_of_map_to_list). by exists st.
      * intros [st Hst]. exists (k, st). by rewrite elem_of_map_to_list.
    + unfold r. by rewrite Reporter.record_all_dom, elem_of_list_to_set.
  - intros [k st] Hin. rewrite Hiter in Hin. apply elem_of_map_to_list in Hin.
    by rewrite <- Reporter.record_all_lookup.
Qed.

(** ** Properties *)

Section Properties.
Import Prom.
Context (iter : gmap Reporter.ConnectionKey Reporter.ConnectionStats -> list Reporter.item).
Context (inet_ntop : Z -> string) (ntohs : Z -> Z).

(** The metrics of a reporter that saw the events [evs]: the number of
    distinct connections, then for each of them, once, the sums of its events
    as three samples. *)
Theorem metrics_complete evs now_ms :
  (forall m, iter m ≡ₚ map_to_list m) ->
  let r := Reporter.record_all evs Reporter.new_reporter in
  exists ks : list (Reporter.ConnectionKey * Reporter.ConnectionStats),
    NoDup ks.*1 /\ (forall k, k ∈ ks.*1 <-> k ∈ Reporter.key_of <$> evs) /\
    (forall i, i ∈ ks -> Reporter.aggregate i.1 evs = Some i.2) /\
    from_reporter iter inet_ntop ntohs now_ms r r =
      preamble (Z.of_nat (length ks)) now_ms ++
      mjoin ((fun i => connection_lines inet_ntop ntohs now_ms i.1 i.2) <$> ks).
Proof.
  intros Hiter r. exists (iter (Reporter.stats_ r)).
  destruct (listed_keys iter evs Hiter) as (Hnd & Hks & Hagg).
  split; [done|]. split; [done|]. split; [done|].
  unfold from_reporter. rewrite for_each_append. unfold Reporter.connection_count.
  replace (size (Reporter.stats_ r)) with (length (iter (Reporter.stats_ r))); [done|].
  rewrite (Permutation_length (Hiter (Reporter.stats_ r))). apply length_map_to_list.
Qed.

(** C40: the port labels are byte-swapped: the tracer stores ports in host
    order and the metrics convert them once more, so the destination port shown
    for a connection is the number in network byte order. *)
Theorem metrics_ports_swapped t sk st :
  (forall z, in_width 16 z -> ntohs z = Tracer.bswap16 z) -> in_width 16 (Tracer.skc_dport sk) ->
  let key := Reporter.key_of (Tracer.event_of_connect t sk) in
  Reporter.dst_port key = Tracer.bswap16 (Tracer.skc_dport sk) /\
  exists before, labels inet_ntop ntohs key st =
    before ++ lit ":" ++ decimal (Tracer.skc_dport sk) ++ dq ++ lit "}".
Proof.
  intros Hn Hp key. split; [done|]. unfold labels.
  replace (ntohs (Reporter.dst_port key)) with (Tracer.skc_dport sk).
  - eexists. rewrite !app_assoc. reflexivity.
  - cbn. rewrite Hn by by apply Tracer.bswap16_bound. by rewrite Tracer.bswap16_involutive.
Qed.

End Properties.

(** ** Witnesses *)

Section Witnesses.
Import Prom.

(** Two events of one connection. *)
Definition demo_events : list tcp_event :=
  [ReporterWitness.event 0 1 0 0; ReporterWitness.event 1 1 10 20].

Lemma metrics_complete_witness :
  exists ks : list (Reporter.ConnectionKey * Reporter.ConnectionStats),
    (forall k, k ∈ ks.*1 <-> k ∈ Reporter.key_of <$> demo_events) /\
    from_reporter map_to_list (fun _ => "1.2.3.4"%string) Tracer.bswap16 5
      (Reporter.record_all demo_events Reporter.new_reporter)
      (Reporter.record_all demo_events Reporter.new_reporter) =
    preamble (Z.of_nat (length ks)) 5 ++
    mjoin ((fun i => connection_lines (fun _ => "1.2.3.4"%string) Tracer.bswap16 5 i.1 i.2) <$> ks).
Proof.
  destruct (metrics_complete map_to_list (fun _ => "1.2.3.4"%string) Tracer.bswap16 demo_events 5)
    as (ks & _ & Hks & _ & Hout); [intros m; reflexivity|].
  exists ks. split; [exact Hks|exact Hout].
Defined.

(** Port 443 is shown as 47873. *)
Lemma metrics_ports_swapped_witness :
  exists before,
    labels (fun _ => "1.2.3.4"%string) Tracer.bswap16
      (Reporter.key_of (Tracer.event_of_connect (TracerWitness.task 1) TracerWitness.sock1))
      Reporter.new_stats = before ++ lit ":" ++ lit "47873" ++ dq ++ lit "}".
Proof.
  apply (metrics_ports_swapped (fun _ => "1.2.3.4"%string) Tracer.bswap16 (TracerWitness.task 1)
           TracerWitness.sock1 Reporter.new_stats); [done|]. vm_compute. intuition congruence.
Defined.

End Witnesses.
