(* ===== verification/Monitor.v ===== *)
(** * Monitor: src/monitor.cpp

    The ring buffer callbacks, the HTTP routes, the command line and the main
    loop of the daemon.  [getopt_long], [inet_ntop], [ntohs], the clock and
    libbpf are parameters; the globals [g_reporter], [g_json], [g_stop] and the
    output are explicit state. *)

From S2P Require Import Prelude Common StatsReporter HttpServer Metrics.
From Stdlib Require Import Ascii.

(** ** std::stoul *)

Definition digit (c : ascii) : option Z :=
  let n := Z.of_nat (nat_of_ascii c) in
  if (48 <=? n) && (n <=? 57) then Some (n - 48) else None.

Definition is_space (c : ascii) : bool :=
  let n := nat_of_ascii c in ((n =? 32) || ((9 <=? n) && (n <=? 13)))%nat%bool.

(** The digits at the front and their value. *)
Fixpoint digits (acc : Z) (s : str) : Z :=
  match s with
  | [] => acc
  | c :: s => match digit c with Some d => digits (10 * acc + d) s | None => acc end
  end.

Fixpoint skip_spaces (s : str) : str :=
  match s with
  | [] => []
  | c :: s' => if is_space c then skip_spaces s' else s
  end.

Inductive stoul_error := invalid_argument | out_of_range.

(** [std::stoul(s)]: white space, a sign, digits; what follows is ignored; a
    minus sign negates in [unsigned long]. *)
Definition stoul (s : str) : Z + stoul_error :=
  let s := skip_spaces s in
  let '(neg, s) :=
    match s with
    | c :: s' => if decide (c = "-"%char) then (true, s')
                 else if decide (c = "+"%char) then (false, s') else (false, s)
    | [] => (false, [])
    end in
  match s with
  | c :: _ =>
      match digit c with
      | None => inr invalid_argument
      | Some _ =>
          let v := digits 0 s in
          if v >=? 2 ^ 64 then inr out_of_range
          else inl (if neg : bool then u64 (- v) else v)
      end
  | [] => inr invalid_argument
  end.

Module Mon.

Section Monitor.
Context (inet_ntop : Z -> string) (ntohs : Z -> Z).
Context (iter : gmap Reporter.ConnectionKey Reporter.ConnectionStats -> list Reporter.item).

(** *** Callbacks *)

Record Globals := MkGlobals {
  g_reporter : option Reporter.StatsReporter;   (** nullptr is [None] *)
  g_json : bool;
  g_stop : bool;
  stdout : str;
  stderr : str
}.

(** [%s] of a [char[16]]: reading on past the array is undefined. *)
Definition print_comm (comm : list Z) : option str :=
  if decide (0 ∈ comm) then Some (lit (c_string comm)) else None.

Definition field (name : string) (value : str) : str := dq ++ lit name ++ dq ++ lit ":" ++ value.
Definition quoted (s : str) : str := dq ++ s ++ dq.

(** The JSON line of an event. *)
Definition json_line (ev : tcp_event) : option str :=
  comm ← print_comm (TcpEvent.comm ev);
  Some (lit "{" ++ field "ts" (decimal (TcpEvent.timestamp_ns ev)) ++ lit "," ++
    field "pid" (decimal (TcpEvent.pid ev)) ++ lit "," ++
    field "comm" (quoted comm) ++ lit "," ++
    field "src" (quoted (lit (inet_ntop (TcpEvent.src_ip ev)) ++ lit ":" ++
                         decimal (TcpEvent.src_port ev))) ++ lit "," ++
    field "dst" (quoted (lit (inet_ntop (TcpEvent.dst_ip ev)) ++ lit ":" ++
                         decimal (TcpEvent.dst_port ev))) ++ lit "," ++
    field "action" (decimal (TcpEvent.action ev)) ++ lit "," ++
    field "tx" (decimal (TcpEvent.bytes_tx ev)) ++ lit "," ++
    field "rx" (decimal (TcpEvent.bytes_rx ev)) ++ lit "}" ++ nl).

Definition handle_tcp_event (data : list Z) (g : Globals) : option (Z * Globals) :=
  ev ← tcp_event_of_bytes data;
  let rep := Reporter.record ev <$> g_reporter g in
  if g_json g then
    line ← json_line ev;
    Some (0, MkGlobals rep (g_json g) (g_stop g) (stdout g ++ line) (stderr g))
  else Some (0, MkGlobals rep (g_json g) (g_stop g) (stdout g) (stderr g)).

Definition handle_syscall_event (data : list Z) (g : Globals) : option (Z * Globals) :=
  ev ← syscall_event_of_bytes data;
  comm ← print_comm (SyscallEvent.comm ev);
  let line := lit "[AUDIT] ts=" ++ decimal (SyscallEvent.timestamp_ns ev) ++
    lit " pid=" ++ decimal (SyscallEvent.pid ev) ++ lit " uid=" ++ decimal (SyscallEvent.uid ev) ++
    lit " comm=" ++ comm ++ lit " syscall=" ++ decimal (SyscallEvent.syscall_nr ev) ++ nl in
  Some (0, MkGlobals (g_reporter g) (g_json g) (g_stop g) (stdout g) (stderr g ++ line)).

(** A poll of a ring buffer: the callback on every sample. *)
Fixpoint poll (callback : list Z -> Globals -> option (Z * Globals)) (samples : list (list Z))
    (g : Globals) : option Globals :=
  match samples with
  | [] => Some g
  | data :: samples => '(_, g) ← callback data g; poll callback samples g
  end.

(** *** Routes *)

(** One element of the array of /connections. *)
Definition connection_json (k : Reporter.ConnectionKey) (s : Reporter.ConnectionStats) : str :=
  lit "{" ++ field "comm" (quoted (lit (Reporter.comm s))) ++
  lit "," ++ field "pid" (decimal (Reporter.pid k)) ++
  lit "," ++ field "src" (quoted (lit (inet_ntop (Reporter.src_ip k)) ++ lit ":" ++
                                  decimal (ntohs (Reporter.src_port k)))) ++
  lit "," ++ field "dst" (quoted (lit (inet_ntop (Reporter.dst_ip k)) ++ lit ":" ++
                                  decimal (ntohs (Reporter.dst_port k)))) ++
  lit "," ++ field "tx" (decimal (Reporter.bytes_tx s)) ++
  lit "," ++ field "rx" (decimal (Reporter.bytes_rx s)) ++
  lit "," ++ field "connects" (decimal (Reporter.connects s)) ++ lit "}".

(** The callback's captured [first] and [out]. *)
Definition add_connection (k : Reporter.ConnectionKey) (s : Reporter.ConnectionStats)
    (acc : bool * str) : bool * str :=
  let '(first, out) := acc in
  (false, (if first : bool then out else out ++ lit ",") ++ connection_json k s).

(** [reporter] is the reporter as [for_each] finds it; for /metrics
    [connection_count] was called before it, under a lock of its own, and found
    [counted]. *)
Definition http_route (now_ms : Z) (path : str) (counted reporter : Reporter.StatsReporter) : str :=
  if decide (path = lit "/metrics") then
    Prom.from_reporter iter inet_ntop ntohs now_ms counted reporter
  else if decide (path = lit "/connections") then
    (Reporter.for_each iter add_connection reporter (true, lit "[")).2 ++ lit "]"
  else if decide (path = lit "/health") then
    lit "{" ++ field "status" (quoted (lit "ok")) ++ lit "}"
  else [].

(** *** Command line *)

Record Config := MkConfig {
  filter_pid : Z;     (** uint32_t *)
  filter_port : Z;    (** uint32_t *)
  http_port : Z       (** uint16_t *)
}.

Definition default_config : Config := MkConfig 0 0 9090.

(** What [getopt_long] returns, one option after the other. *)
Inductive option_ :=
| FilterPid (optarg : str) | FilterPort (optarg : str) | Port (optarg : str)
| Json | Help | Unknown.

Definition usage : str :=
  lit "Usage: sudo ebpf-monitor [OPTIONS]" ++ nl ++
  lit "  --filter-pid N   trace only PID N" ++ nl ++
  lit "  --filter-port N  trace only port N" ++ nl ++
  lit "  --port N         HTTP metrics port (default: 9090)" ++ nl ++
  lit "  --json           emit JSON lines to stdout" ++ nl.

Definition set_json (g : Globals) : Globals :=
  MkGlobals (g_reporter g) true (g_stop g) (stdout g) (stderr g).

Definition print (s : str) (g : Globals) : Globals :=
  MkGlobals (g_reporter g) (g_json g) (g_stop g) (stdout g ++ s) (stderr g).

(** The return code, the configuration and the globals, or the exception of
    [std::stoul]. *)
Fixpoint parse_args (opts : list option_) (cfg : Config) (g : Globals)
    : (Z * Config * Globals) + stoul_error :=
  match opts with
  | [] => inl (0, cfg, g)
  | FilterPid a :: opts =>
      match stoul a with
      | inl v => parse_args opts (MkConfig (u32 v) (filter_port cfg) (http_port cfg)) g
      | inr e => inr e
      end
  | FilterPort a :: opts =>
      match stoul a with
      | inl v => parse_args opts (MkConfig (filter_pid cfg) (u32 v) (http_port cfg)) g
      | inr e => inr e
      end
  | Port a :: opts =>
      match stoul a with
      | inl v => parse_args opts (MkConfig (filter_pid cfg) (filter_port cfg) (u16 v)) g
      | inr e => inr e
      end
  | Json :: opts => parse_args opts cfg (set_json g)
  | Help :: _ => inl (-1, cfg, print usage g)
  | Unknown :: _ => inl (1, cfg, g)
  end.

(** *** The main loop *)

Definition PRINT_INTERVAL_SEC : Z := 5.

(** One turn of the loop: the samples of both polls, the clock after them
    (nanoseconds), and whether a signal arrived during the turn. *)
Record turn := MkTurn {
  tcp_samples : list (list Z);
  audit_samples : list (list Z);
  now : Z;
  signalled : bool
}.

Context `{StdSort}.

(** The reports printed, with their times; the loop body. *)
Definition loop_turn (t : turn) (last_print : Z) (g : Globals) : option (Z * Globals) :=
  g ← poll handle_tcp_event (tcp_samples t) g;
  g ← poll handle_syscall_event (audit_samples t) g;
  let g := MkGlobals (g_reporter g) (g_json g) (g_stop g || signalled t) (stdout g) (stderr g) in
  if negb (g_json g) && ((now t - last_print) ÷ 1000000000 >=? PRINT_INTERVAL_SEC) then
    report ← match g_reporter g with
             | Some r => Reporter.print_top iter inet_ntop 10 r
             | None => None
             end;
    Some (now t, print (lit report) g)
  else Some (last_print, g).

Fixpoint main_loop (turns : list turn) (last_print : Z) (g : Globals) : option (Z * Globals) :=
  if g_stop g then Some (last_print, g) else
  match turns with
  | [] => Some (last_print, g)
  | t :: turns => '(last_print, g) ← loop_turn t last_print g; main_loop turns last_print g
  end.

End Monitor.

End Mon.

(** ** Lemmas *)

Lemma digit_char x : (x < 10)%N -> digit (pretty_N_char x) = Some (Z.of_N x).
Proof.
  intros Hx. destruct x as [|x]; [done|]. do 10 (destruct x as [x|x|]; try done; try lia).
Qed.

Definition is_digit (c : ascii) : Prop := digit c <> None.

Lemma digits_go x s : digits 0 (lit (pretty_N_go x s)) = digits (Z.of_N x) (lit s).
Proof.
  revert s. induction (N.lt_wf_0 x) as [x _ IH]. intros s.
  destruct (decide (0 < x)%N) as [Hx|Hx].
  - rewrite pretty_N_go_step, IH by first [done | by apply N.div_lt]. cbn [lit String.list_ascii_of_string digits].
    rewrite digit_char by (apply N.mod_lt; lia). f_equal. rewrite N2Z.inj_div, N2Z.inj_mod by done.
    pose proof (Z.div_mod (Z.of_N x) 10). lia.
  - replace x with 0%N by lia. by rewrite pretty_N_go_0.
Qed.

Lemma go_head_digit x c s : is_digit c -> exists c' s', lit (pretty_N_go x (String c s)) = c' :: s' /\ is_digit c'.
Proof.
  revert c s. induction (N.lt_wf_0 x) as [x _ IH]. intros c s Hc.
  destruct (decide (0 < x)%N) as [Hx|Hx].
  - rewrite pretty_N_go_step by done. apply IH; [by apply N.div_lt|].
    unfold is_digit. by rewrite digit_char by (apply N.mod_lt; lia).
  - replace x with 0%N by lia. rewrite pretty_N_go_0. by exists c, (lit s).
Qed.

Lemma decimal_head n : 0 <= n -> exists c s, decimal n = c :: s /\ is_digit c.
Proof.
  intros Hn. unfold decimal. destruct n as [|n|n]; [by exists "0"%char, []| |lia].
  change (pretty (Z.pos n)) with (pretty_N_go (N.pos n) "").
  rewrite pretty_N_go_step by done. apply go_head_digit.
  unfold is_digit. by rewrite digit_char by (apply N.mod_lt; lia).
Qed.

Lemma decimal_digits n : 0 <= n -> digits 0 (decimal n) = n.
Proof.
  intros Hn. unfold decimal. destruct n as [|n|n]; [done| |lia].
  change (pretty (Z.pos n)) with (pretty_N_go (N.pos n) ""). by rewrite digits_go.
Qed.

Lemma digit_not_space c : is_digit c -> is_space c = false /\ c <> "-"%char /\ c <> "+"%char.
Proof.
  intros Hc. destruct c as [b0 b1 b2 b3 b4 b5 b6 b7].
  destruct b0, b1, b2, b3, b4, b5, b6, b7; try (by destruct Hc); done.
Qed.

(** [std::stoul] reads back what [std::to_string] prints. *)
Lemma stoul_decimal n : in_width 64 n -> stoul (decimal n) = inl n.
Proof.
  unfold in_width. intros Hn. pose proof (decimal_digits n ltac:(lia)) as Hd.
  destruct (decimal_head n) as (c & s & Hc & Hdig); [lia|]. rewrite Hc in *.
  destruct (digit_not_space c Hdig) as (Hsp & Hm & Hp).
  unfold stoul. cbn [skip_spaces]. rewrite Hsp, !decide_False by done.
  unfold is_digit in Hdig. destruct (digit c) eqn:Hdc; [|done]. rewrite Hd.
  rewrite Z.geb_leb, (proj2 (Z.leb_gt _ _)) by lia. done.
Qed.

Section Lemmas.
Import Mon.
Context (inet_ntop : Z -> string) (ntohs : Z -> Z).
Context (iter : gmap Reporter.ConnectionKey Reporter.ConnectionStats -> list Reporter.item).

(** One sample of a well-formed event. *)
Lemma handle_tcp_event_spec e g r :
  wf_tcp_event e -> 0 ∈ TcpEvent.comm e -> g_reporter g = Some r ->
  exists line, json_line inet_ntop e = Some line /\
    handle_tcp_event inet_ntop (tcp_event_bytes e) g =
    Some (0, MkGlobals (Some (Reporter.record e r)) (g_json g) (g_stop g)
               (stdout g ++ (if g_json g then line else [])) (stderr g)).
Proof.
  intros Hwf Hc Hr. unfold handle_tcp_event, json_line, print_comm.
  rewrite decide_True by done. eexists. split; [reflexivity|].
  rewrite read_tcp_event, Hr by done. cbn [mbind option_bind fmap option_fmap option_map].
  destruct (g_json g); [by rewrite decide_True|]. by rewrite app_nil_r.
Qed.

(** Elements with commas between them. *)
Definition comma_join (l : list str) : str :=
  match l with [] => [] | x :: l => x ++ mjoin ((fun y => lit "," ++ y) <$> l) end.

Lemma add_connections_rest (l : list Reporter.item) out :
  fold_left (fun acc i => add_connection inet_ntop ntohs i.1 i.2 acc) l (false, out) =
  (false, out ++ mjoin ((fun y => lit "," ++ y) <$>
                        ((fun i => connection_json inet_ntop ntohs i.1 i.2) <$> l))).
Proof.
  revert out. induction l as [|i l IH]; intros out; [csimpl; by rewrite app_nil_r|].
  rewrite !fmap_cons. cbn [fold_left add_connection]. rewrite IH.
  change (mjoin (?x :: ?k)) with (x ++ mjoin k). by rewrite <- !app_assoc.
Qed.

Lemma connections_json (r : Reporter.StatsReporter) :
  (Reporter.for_each iter (add_connection inet_ntop ntohs) r (true, lit "[")).2 =
  lit "[" ++ comma_join ((fun i => connection_json inet_ntop ntohs i.1 i.2) <$>
                         iter (Reporter.stats_ r)).
Proof.
  unfold Reporter.for_each. destruct (iter (Reporter.stats_ r)) as [|i l]; [done|].
  rewrite fmap_cons. cbn [fold_left add_connection]. rewrite add_connections_rest. cbn [snd comma_join].
  by rewrite <- app_assoc.
Qed.

(** The options a user types, with numbers in decimal. *)
Inductive setting := SPid (n : Z) | SPort (n : Z) | SHttp (n : Z) | SJson.

Definition typed (s : setting) : option_ :=
  match s with
  | SPid n => FilterPid (decimal n)
  | SPort n => FilterPort (decimal n)
  | SHttp n => Port (decimal n)
  | SJson => Json
  end.

Definition setting_ok (s : setting) : Prop :=
  match s with SPid n | SPort n | SHttp n => in_width 64 n | SJson => True end.

Definition apply_setting (cfg : Config) (s : setting) : Config :=
  match s with
  | SPid n => MkConfig (u32 n) (filter_port cfg) (http_port cfg)
  | SPort n => MkConfig (filter_pid cfg) (u32 n) (http_port cfg)
  | SHttp n => MkConfig (filter_pid cfg) (filter_port cfg) (u16 n)
  | SJson => cfg
  end.

Definition apply_json (g : Globals) (s : setting) : Globals :=
  match s with SJson => set_json g | _ => g end.

End Lemmas.

(** ** Properties *)

Section Properties.
Import Mon.
Context (inet_ntop : Z -> string) (ntohs : Z -> Z).
Context (iter : gmap Reporter.ConnectionKey Reporter.ConnectionStats -> list Reporter.item).

(** From the ring buffer to the statistics: polling the bytes of any
    sequence of well-formed events leaves the reporter with exactly these
    events recorded, in order, and with --json one line per event on standard
    output, otherwise nothing. *)
Theorem monitor_pipeline es g r :
  Forall wf_tcp_event es -> Forall (fun e => 0 ∈ TcpEvent.comm e) es -> g_reporter g = Some r ->
  exists g' lines,
    poll (handle_tcp_event inet_ntop) (tcp_event_bytes <$> es) g = Some g' /\
    g_reporter g' = Some (Reporter.record_all es r) /\
    Forall2 (fun e line => json_line inet_ntop e = Some line) es lines /\
    stdout g' = stdout g ++ (if g_json g then mjoin lines else []) /\ g_json g' = g_json g.
Proof.
  intros Hwf. revert g r. induction Hwf as [|e es He Hes IH]; intros g r Hc Hr.
  { exists g, []. repeat split; try done. destruct (g_json g); by rewrite app_nil_r. }
  apply Forall_cons in Hc as [Hce Hc].
  destruct (handle_tcp_event_spec inet_ntop e g r He Hce Hr) as (line & Hline & Hrun).
  rewrite fmap_cons. cbn [poll]. rewrite Hrun. cbn [mbind option_bind].
  destruct (IH (MkGlobals (Some (Reporter.record e r)) (g_json g) (g_stop g)
                  (stdout g ++ (if g_json g then line else [])) (stderr g)) (Reporter.record e r))
    as (g' & lines & Hp & Hrep & Hlines & Hout & Hj); [exact Hc|reflexivity|].
  exists g', (line :: lines). split; [exact Hp|]. split; [exact Hrep|].
  split; [by constructor|]. split; [|exact Hj]. rewrite Hout. cbn [stdout g_json].
  destruct (g_json g); [|by rewrite !app_nil_r].
  change (mjoin (line :: lines)) with (line ++ mjoin lines). by rewrite app_assoc.
Qed.

(** The routes: the body is empty, which the server answers with 404,
    exactly for paths other than /metrics, /connections and /health; and
    /connections is the JSON array of all connections, each once, separated by
    commas. *)
Theorem routes_exact now_ms path counted r :
  (forall m, iter m ≡ₚ map_to_list m) ->
  (http_route inet_ntop ntohs iter now_ms path counted r = [] <->
   path ∉ [lit "/metrics"; lit "/connections"; lit "/health"]) /\
  exists l, l ≡ₚ map_to_list (Reporter.stats_ r) /\
    http_route inet_ntop ntohs iter now_ms (lit "/connections") counted r =
    lit "[" ++ comma_join ((fun i => connection_json inet_ntop ntohs i.1 i.2) <$> l) ++ lit "]".
Proof.
  intros Hiter. split.
  - unfold http_route. rewrite !not_elem_of_cons.
    destruct (decide (path = lit "/metrics")) as [->|Hm].
    { split; [|tauto]. unfold Prom.from_reporter. rewrite for_each_append. done. }
    destruct (decide (path = lit "/connections")) as [->|Hc].
    { split; [|tauto]. rewrite connections_json. done. }
    destruct (decide (path = lit "/health")) as [->|Hh]; [split; [done|tauto]|].
    split; [|done]. intros _. split_and!; try done. apply not_elem_of_nil.
  - exists (iter (Reporter.stats_ r)). split; [apply Hiter|].
    unfold http_route. rewrite decide_False by done. rewrite decide_True by done.
    rewrite connections_json. by rewrite <- app_assoc.
Qed.

(** The command line: options given in decimal set the fields they name,
    the last one winning, process id and port filter modulo 2^32 and the HTTP
    port modulo 2^16; no exception is thrown for 64-bit numbers. *)
Theorem options_roundtrip ss cfg g :
  Forall setting_ok ss ->
  parse_args (typed <$> ss) cfg g =
  inl (0, fold_left apply_setting ss cfg, fold_left apply_json ss g).
Proof.
  intros Hss. revert cfg g. induction Hss as [|s ss Hs Hss IH]; intros cfg g; [done|].
  rewrite fmap_cons. destruct s; cbn [typed parse_args fold_left apply_setting apply_json];
    rewrite ?stoul_decimal by done; apply IH.
Qed.

End Properties.

(** ** Witnesses *)

Section Witnesses.
Import Mon.

Definition ntop : Z -> string := fun _ => "1.2.3.4"%string.

Definition g0 : Globals := MkGlobals (Some Reporter.new_reporter) true false [] [].

Lemma demo_events_wf : Forall wf_tcp_event demo_events.
Proof. repeat constructor; vm_compute; congruence. Qed.

Lemma monitor_pipeline_witness :
  exists g' lines,
    poll (handle_tcp_event ntop) (tcp_event_bytes <$> demo_events) g0 = Some g' /\
    g_reporter g' = Some (Reporter.record_all demo_events Reporter.new_reporter) /\
    stdout g' = mjoin lines /\ length lines = 2%nat.
Proof.
  destruct (monitor_pipeline ntop demo_events g0 Reporter.new_reporter)
    as (g' & lines & Hp & Hrep & Hlines & Hout & _);
    [exact demo_events_wf|apply (bool_decide_unpack _); vm_compute; exact I|reflexivity|].
  exists g', lines. split; [exact Hp|]. split; [exact Hrep|]. split; [exact Hout|].
  apply Forall2_length in Hlines. symmetry. exact Hlines.
Defined.

Lemma routes_exact_witness :
  http_route ntop (fun z => z) map_to_list 5 (lit "/metric") Reporter.new_reporter Reporter.new_reporter = [].
Proof.
  apply (routes_exact ntop (fun z => z) map_to_list 5 (lit "/metric") Reporter.new_reporter
    Reporter.new_reporter);
    [intros m; reflexivity|]. apply (bool_decide_unpack _). vm_compute. exact I.
Defined.

Lemma options_roundtrip_witness :
  parse_args [FilterPid (lit "42"); Port (lit "65616"); Json] default_config g0 =
  inl (0, MkConfig 42 0 80, set_json g0).
Proof.
  apply (options_roundtrip [SPid 42; SHttp 65616; SJson] default_config g0).
  repeat constructor; vm_compute; congruence.
Defined.

End Witnesses.
