(* ===== verification/MonitorLoop.v ===== *)
(** * MonitorLoop: the main loop of src/monitor.cpp, turn by turn

    What [Mon.main_loop] does with the events the BPF programs emit: which are
    recorded, what is printed, how often, and when the loop ends. *)

From S2P Require Import Prelude Common StatsReporter HttpServer Metrics Monitor.
From Stdlib Require Import Ascii.

Module Loop.

(** ** Events in turns *)

(** One turn of the loop, with the events behind the samples. *)
Record feed := MkFeed {
  tcp : list tcp_event;
  audit : list syscall_event;
  time : Z;
  signal : bool
}.

Definition turn_of (f : feed) : Mon.turn :=
  Mon.MkTurn (tcp_event_bytes <$> tcp f) (syscall_event_bytes <$> audit f) (time f) (signal f).

(** Events as the BPF programs write them: members in range, names with their
    terminator. *)
Definition ok_tcp (e : tcp_event) : Prop := wf_tcp_event e /\ 0 ∈ TcpEvent.comm e.
Definition ok_audit (e : syscall_event) : Prop := wf_syscall_event e /\ 0 ∈ SyscallEvent.comm e.
Definition ok_feed (f : feed) : Prop := Forall ok_tcp (tcp f) /\ Forall ok_audit (audit f).

(** The turns the loop takes: up to the first with a signal. *)
Fixpoint served (fs : list feed) : list feed :=
  match fs with
  | [] => []
  | f :: fs => f :: (if signal f then [] else served fs)
  end.

Lemma elem_of_served f fs : f ∈ served fs -> f ∈ fs.
Proof.
  induction fs as [|x fs IH]; cbn; [done|]. rewrite !elem_of_cons. destruct (signal x); [|naive_solver].
  rewrite elem_of_nil. naive_solver.
Qed.

Definition tcp_of (fs : list feed) : list tcp_event := mjoin (tcp <$> fs).
Definition audit_of (fs : list feed) : list syscall_event := mjoin (audit <$> fs).

Section Loop.
Context (inet_ntop : Z -> string).
Context (iter : gmap Reporter.ConnectionKey Reporter.ConnectionStats -> list Reporter.item).
Context `{StdSort}.

Definition json_text (e : tcp_event) : str := default [] (Mon.json_line inet_ntop e).

Definition audit_text (e : syscall_event) : str :=
  lit "[AUDIT] ts=" ++ decimal (SyscallEvent.timestamp_ns e) ++
  lit " pid=" ++ decimal (SyscallEvent.pid e) ++ lit " uid=" ++ decimal (SyscallEvent.uid e) ++
  lit " comm=" ++ lit (c_string (SyscallEvent.comm e)) ++
  lit " syscall=" ++ decimal (SyscallEvent.syscall_nr e) ++ nl.

(** The report of ten connections. *)
Definition report (r : Reporter.StatsReporter) : str :=
  lit (default EmptyString (Reporter.print_top iter inet_ntop 10 r)).

Lemma print_top_10 r : exists s, Reporter.print_top iter inet_ntop 10 r = Some s /\ report r = lit s.
Proof.
  unfold report, Reporter.print_top.
  rewrite Reporter.print_rows_spec by (unfold Reporter.INT_MAX; lia). cbn [mbind option_bind]. eauto.
Qed.

(** ** The polls *)

Lemma poll_tcp_events es g r :
  Forall ok_tcp es -> Mon.g_reporter g = Some r ->
  Mon.poll (Mon.handle_tcp_event inet_ntop) (tcp_event_bytes <$> es) g =
  Some (Mon.MkGlobals (Some (Reporter.record_all es r)) (Mon.g_json g) (Mon.g_stop g)
          (Mon.stdout g ++ (if Mon.g_json g then mjoin (json_text <$> es) else [])) (Mon.stderr g)).
Proof.
  intros Hes. revert g r. induction Hes as [|e es [Hwf Hc] Hes IH]; intros g r Hr.
  { destruct g as [rep j st out err]. cbn in Hr |- *. subst rep. destruct j; by rewrite app_nil_r. }
  destruct (handle_tcp_event_spec inet_ntop e g r Hwf Hc Hr) as (line & Hline & Hrun).
  rewrite !fmap_cons. cbn [Mon.poll]. rewrite Hrun. cbn [mbind option_bind].
  rewrite (IH _ (Reporter.record e r)) by done. cbn [Mon.stdout Mon.g_json Mon.g_stop Mon.stderr].
  unfold json_text at 2. rewrite Hline. change (default [] (Some line)) with line.
  change (mjoin (line :: ?k)) with (line ++ mjoin k).
  destruct (Mon.g_json g); by rewrite <- ?app_assoc.
Qed.

Lemma handle_audit_event e g :
  ok_audit e ->
  Mon.handle_syscall_event (syscall_event_bytes e) g =
  Some (0, Mon.MkGlobals (Mon.g_reporter g) (Mon.g_json g) (Mon.g_stop g) (Mon.stdout g)
             (Mon.stderr g ++ audit_text e)).
Proof.
  intros [Hwf Hc]. unfold Mon.handle_syscall_event, Mon.print_comm.
  rewrite syscall_event_roundtrip by done. cbn [mbind option_bind]. by rewrite decide_True.
Qed.

Lemma poll_audit_events es g :
  Forall ok_audit es ->
  Mon.poll Mon.handle_syscall_event (syscall_event_bytes <$> es) g =
  Some (Mon.MkGlobals (Mon.g_reporter g) (Mon.g_json g) (Mon.g_stop g) (Mon.stdout g)
          (Mon.stderr g ++ mjoin (audit_text <$> es))).
Proof.
  intros Hes. revert g. induction Hes as [|e es He Hes IH]; intros g.
  { destruct g. cbn. by rewrite app_nil_r. }
  rewrite !fmap_cons. cbn [Mon.poll]. rewrite handle_audit_event by done.
  cbn [mbind option_bind]. rewrite IH. cbn [Mon.stdout Mon.g_json Mon.g_stop Mon.stderr Mon.g_reporter].
  change (mjoin (?x :: ?k)) with (x ++ mjoin k). by rewrite <- app_assoc.
Qed.

(** ** A turn *)

(** A report is due. *)
Definition due (json : bool) (t last : Z) : bool :=
  negb json && ((t - last) ÷ 1000000000 >=? Mon.PRINT_INTERVAL_SEC).

Lemma due_gap json t last : due json t last = true -> json = false /\ 5000000000 <= t - last.
Proof.
  unfold due, Mon.PRINT_INTERVAL_SEC. intros Hd. break_bool. split; [done|].
  pose proof (Z.quot_rem' (t - last) 1000000000). pose proof (Z.rem_bound_abs (t - last) 1000000000).
  destruct (Z.le_gt_cases 0 (t - last)).
  - pose proof (Z.rem_bound_pos (t - last) 1000000000). lia.
  - pose proof (Z.quot_opp_l (-(t - last)) 1000000000 ltac:(lia)).
    pose proof (Z.quot_pos (-(t - last)) 1000000000). rewrite Z.opp_involutive in *. lia.
Qed.

(** The globals after a turn. *)
Definition after_turn (f : feed) (last : Z) (r : Reporter.StatsReporter) (g : Mon.Globals) : Mon.Globals :=
  let r' := Reporter.record_all (tcp f) r in
  Mon.MkGlobals (Some r') (Mon.g_json g) (Mon.g_stop g || signal f)
    (Mon.stdout g ++ (if Mon.g_json g then mjoin (json_text <$> tcp f) else []) ++
       (if due (Mon.g_json g) (time f) last then report r' else []))
    (Mon.stderr g ++ mjoin (audit_text <$> audit f)).

Lemma loop_turn_spec f last g r :
  ok_feed f -> Mon.g_reporter g = Some r ->
  Mon.loop_turn inet_ntop iter (turn_of f) last g =
  Some (if due (Mon.g_json g) (time f) last then time f else last, after_turn f last r g).
Proof.
  intros [Ht Ha] Hr. unfold Mon.loop_turn, turn_of.
  cbn [Mon.tcp_samples Mon.audit_samples Mon.now Mon.signalled].
  rewrite (poll_tcp_events _ _ r) by done. cbn [mbind option_bind].
  rewrite poll_audit_events by done. cbn [mbind option_bind Mon.g_json Mon.g_reporter Mon.stdout Mon.stderr Mon.g_stop].
  unfold after_turn. fold (due (Mon.g_json g) (time f) last).
  destruct (due _ _ _) eqn:Hdue.
  - destruct (print_top_10 (Reporter.record_all (tcp f) r)) as (s & -> & ->). cbn [mbind option_bind].
    unfold Mon.print. cbn [Mon.g_json Mon.g_reporter Mon.stdout Mon.stderr Mon.g_stop].
    by rewrite <- app_assoc.
  - by rewrite app_nil_r.
Qed.

Lemma record_all_app es es' r : Reporter.record_all (es ++ es') r = Reporter.record_all es' (Reporter.record_all es r).
Proof. apply fold_left_app. Qed.

(** ** The loop *)

(** The reports printed: the statistics after some of the turns. *)
Definition reports_of (fs : list feed) (r : Reporter.StatsReporter) (reps : list str) : Prop :=
  Forall (fun rep => exists fs1, fs1 `prefix_of` fs /\ rep = report (Reporter.record_all (tcp_of fs1) r)) reps.

Lemma reports_cons f fs r reps :
  reports_of fs (Reporter.record_all (tcp f) r) reps -> reports_of (f :: fs) r reps.
Proof.
  intros Hr. eapply Forall_impl; [exact Hr|]. cbn. intros rep (fs1 & Hp & ->).
  exists (f :: fs1). split; [by apply prefix_cons|]. unfold tcp_of. rewrite fmap_cons.
  change (mjoin (tcp f :: ?k)) with (tcp f ++ mjoin k). by rewrite record_all_app.
Qed.

Lemma main_loop_stopped turns last g :
  Mon.g_stop g = true -> Mon.main_loop inet_ntop iter turns last g = Some (last, g).
Proof. intros Hs. destruct turns; cbn [Mon.main_loop]; by rewrite Hs. Qed.

(** What a turn prints, and how far it moves [last_print]. *)
Definition turn_reports (json : bool) (f : feed) (last : Z) (r : Reporter.StatsReporter) : list str :=
  if due json (time f) last then [report (Reporter.record_all (tcp f) r)] else [].

Definition next_print (json : bool) (f : feed) (last : Z) : Z :=
  if due json (time f) last then time f else last.

Lemma after_turn_stdout f last r g :
  Mon.stdout (after_turn f last r g) = Mon.stdout g ++
    (if Mon.g_json g then mjoin (json_text <$> tcp f)
     else mjoin (turn_reports (Mon.g_json g) f last r)).
Proof.
  unfold after_turn, turn_reports. cbn [Mon.stdout]. destruct (Mon.g_json g).
  - change (due true (time f) last) with false. by rewrite app_nil_r.
  - destruct (due false (time f) last); [|done].
    change (mjoin [?x]) with (x ++ []). by rewrite app_nil_r.
Qed.

Lemma turn_reports_spec json f fs last r :
  reports_of (f :: fs) r (turn_reports json f last r) /\
  5000000000 * Z.of_nat (length (turn_reports json f last r)) <= next_print json f last - last /\
  (next_print json f last = last \/ next_print json f last = time f).
Proof.
  unfold turn_reports, next_print. destruct (due json (time f) last) eqn:Hd.
  - apply due_gap in Hd as [_ Hd]. split; [|cbn; lia]. constructor; [|constructor].
    exists [f]. split; [by exists fs|]. unfold tcp_of. cbn. by rewrite app_nil_r.
  - split; [constructor|cbn; lia].
Qed.

Lemma main_loop_spec fs last g r :
  Forall ok_feed fs -> Mon.g_reporter g = Some r -> Mon.g_stop g = false ->
  exists last' reps,
    Mon.main_loop inet_ntop iter (turn_of <$> fs) last g =
    Some (last', Mon.MkGlobals (Some (Reporter.record_all (tcp_of (served fs)) r)) (Mon.g_json g)
      (existsb signal fs)
      (Mon.stdout g ++ (if Mon.g_json g then mjoin (json_text <$> tcp_of (served fs)) else mjoin reps))
      (Mon.stderr g ++ mjoin (audit_text <$> audit_of (served fs)))) /\
    reports_of (served fs) r reps /\
    5000000000 * Z.of_nat (length reps) <= last' - last /\ (last' = last \/ last' ∈ time <$> served fs).
Proof.
  intros Hfs. revert last g r. induction Hfs as [|f fs Hf Hfs IH]; intros last g r Hr Hs.
  { exists last, []. rewrite fmap_nil. cbn [Mon.main_loop]. rewrite Hs.
    split; [|split; [constructor|cbn; auto with lia]].
    destruct g as [rep j st out err]. cbn in *. subst.
    by rewrite app_nil_r; destruct j; rewrite ?app_nil_r. }
  rewrite fmap_cons. cbn [Mon.main_loop]. rewrite Hs, (loop_turn_spec f last g r) by done.
  cbn [mbind option_bind]. fold (next_print (Mon.g_json g) f last).
  pose proof (after_turn_stdout f last r g) as Hout. set (g1 := after_turn f last r g) in *.
  cbn [served existsb]. destruct (turn_reports_spec (Mon.g_json g) f
    (if signal f then [] else served fs) last r) as (Hrep & Hgap & Hlast).
  set (new := turn_reports _ f last r) in *. set (last1 := next_print _ f last) in *.
  destruct (signal f) eqn:Hsig.
  - rewrite main_loop_stopped by (cbn; rewrite Hsig; apply orb_true_r).
    exists last1, new. split_and!; [|done|done|].
    + f_equal. f_equal. unfold g1, after_turn in *. cbn [Mon.stdout] in Hout.
      rewrite Hout, Hs, Hsig. unfold tcp_of, audit_of. cbn. by rewrite !app_nil_r.
    + rewrite fmap_cons. set_solver.
  - destruct (IH last1 g1 (Reporter.record_all (tcp f) r)) as (last' & reps & Hrun & Hreps & Hg & Hl);
      [done|cbn; by rewrite Hs, Hsig|].
    exists last', (new ++ reps). rewrite Hrun. split_and!.
    + f_equal. f_equal. rewrite Hout. cbn [g1 after_turn Mon.g_json Mon.stderr].
      unfold tcp_of, audit_of. rewrite !fmap_cons.
      change (mjoin (tcp f :: ?k)) with (tcp f ++ mjoin k).
      change (mjoin (audit f :: ?k)) with (audit f ++ mjoin k).
      rewrite record_all_app, !fmap_app, !join_app, <- !app_assoc. by destruct (Mon.g_json g).
    + apply Forall_app. split; [done|]. by apply reports_cons.
    + rewrite length_app. lia.
    + rewrite fmap_cons. set_solver.
Qed.

End Loop.
End Loop.

(** ** Properties *)

Section Properties.
Import Loop.
Context (inet_ntop : Z -> string).
Context (iter : gmap Reporter.ConnectionKey Reporter.ConnectionStats -> list Reporter.item).
Context `{StdSort}.

(** C20: the main loop, whatever events and signals the turns bring: it takes
    the turns up to the first signal and ends there, without undefined
    behaviour; the reporter has recorded exactly the TCP events of these turns,
    in order; every audit event has its line on standard error, and with
    --json standard output has one line per TCP event and nothing else. *)
Theorem main_loop_correct fs last g r :
  Forall ok_feed fs -> Mon.g_reporter g = Some r -> Mon.g_stop g = false ->
  exists last' out,
    Mon.main_loop inet_ntop iter (turn_of <$> fs) last g =
    Some (last', Mon.MkGlobals (Some (Reporter.record_all (tcp_of (served fs)) r)) (Mon.g_json g)
      (existsb signal fs) (Mon.stdout g ++ out)
      (Mon.stderr g ++ mjoin (audit_text <$> audit_of (served fs)))) /\
    (Mon.g_json g = true -> out = mjoin (json_text inet_ntop <$> tcp_of (served fs))).
Proof.
  intros Hfs Hr Hs. destruct (main_loop_spec inet_ntop iter fs last g r Hfs Hr Hs)
    as (last' & reps & Hrun & _). do 2 eexists. split; [exact Hrun|]. by intros ->.
Qed.

(** C35: the rate of reports: without --json the output of the loop is a
    sequence of reports, each the ten busiest connections at the end of one of
    its turns, and at most one per five seconds: if no turn is later than
    [stop], there are at most (stop - start) / 5 s of them. *)
Theorem report_rate fs last g r stop :
  Forall ok_feed fs -> Mon.g_reporter g = Some r -> Mon.g_stop g = false -> Mon.g_json g = false ->
  last <= stop -> Forall (fun f => time f <= stop) fs ->
  exists last' g' reps,
    Mon.main_loop inet_ntop iter (turn_of <$> fs) last g = Some (last', g') /\
    Mon.stdout g' = Mon.stdout g ++ mjoin reps /\ reports_of inet_ntop iter (served fs) r reps /\
    Z.of_nat (length reps) <= (stop - last) / 5000000000.
Proof.
  intros Hfs Hr Hs Hj Hl Ht. destruct (main_loop_spec inet_ntop iter fs last g r Hfs Hr Hs)
    as (last' & reps & Hrun & Hreps & Hgap & Hlast). rewrite Hj in Hrun.
  do 2 eexists. exists reps. split; [exact Hrun|]. split; [done|]. split; [done|].
  apply Z.div_le_lower_bound; [lia|]. enough (last' <= stop) by lia.
  destruct Hlast as [->|Hin]; [done|]. rewrite Forall_forall in Ht.
  apply list_elem_of_fmap in Hin as (f & -> & Hf). apply Ht. by apply elem_of_served.
Qed.

End Properties.

(** ** Witnesses *)

Module LoopWitness.
Import Loop.

Definition audit_event : syscall_event := SyscallEvent.Mk 3 42 0 (replicate 16 0) 59 [1; 2; 3].

(** A turn with two events, one that is late, one with the signal. *)
Definition feeds : list feed :=
  [MkFeed demo_events [audit_event] 1000000000 false; MkFeed [] [] 7000000000 false;
   MkFeed demo_events [] 7500000000 true; MkFeed demo_events [] 20000000000 false].

Definition quiet_globals : Mon.Globals := Mon.MkGlobals (Some Reporter.new_reporter) false false [] [].

Lemma feeds_ok : Forall ok_feed feeds.
Proof.
  assert (Forall ok_tcp demo_events) by (repeat constructor; try (vm_compute; congruence);
    apply (bool_decide_unpack _); vm_compute; exact I).
  assert (ok_audit audit_event) by (split; [constructor; vm_compute; intuition congruence|left]).
  repeat constructor; done.
Qed.

End LoopWitness.

Section Witnesses.
Import Loop LoopWitness ReporterWitness.

Lemma main_loop_correct_witness :
  exists last' g', Mon.main_loop ntop map_to_list (turn_of <$> feeds) 0 g0 = Some (last', g') /\
    Mon.g_reporter g' = Some (Reporter.record_all (demo_events ++ demo_events) Reporter.new_reporter) /\
    Mon.g_stop g' = true.
Proof.
  destruct (main_loop_correct ntop map_to_list feeds 0 g0 Reporter.new_reporter)
    as (last' & out & Hrun & _); [exact feeds_ok|reflexivity|reflexivity|].
  do 2 eexists. split; [exact Hrun|]. split; reflexivity.
Defined.

Lemma report_rate_witness :
  exists last' g' reps,
    Mon.main_loop ntop map_to_list (turn_of <$> feeds) 0 quiet_globals = Some (last', g') /\
    Mon.stdout g' = mjoin reps /\ Z.of_nat (length reps) <= 4.
Proof.
  destruct (report_rate ntop map_to_list feeds 0 quiet_globals Reporter.new_reporter 20000000000)
    as (last' & g' & reps & Hrun & Hout & _ & Hn);
    [exact feeds_ok|reflexivity|reflexivity|reflexivity|lia|repeat constructor; vm_compute; congruence|].
  exists last', g', reps. split; [exact Hrun|]. split; [exact Hout|exact Hn].
Defined.

End Witnesses.
