(* ===== verification/Effects.v ===== *)
(** * Effects: the control flow of the C++ code

    Functions of src/ebpf_loader.h, src/http/async_server.h and src/monitor.cpp
    that acquire resources are programs of the monad [M]: they thread a world
    of type [W] and return, throw, or stop for good.  [raii] is a local object:
    its destructor runs when the scope is left, also by an exception. *)

From S2P Require Import Prelude.
From Stdlib Require Import Ascii.

(** ** Outcomes *)

(** The exceptions the code throws: [ebpf::Error], and what else derives from
    [std::exception]; [what] is the message. *)
Inductive exn :=
| Error (what : list ascii)
| StdException (what : list ascii).

(** Ways of not coming back: the thread waits for an event that does not
    happen, the behaviour is undefined, [std::terminate] was called. *)
Inductive halt := Blocked | Undefined | Terminated.

Inductive outcome (A : Type) :=
| Ok (a : A)
| Throw (e : exn)
| Halt (h : halt).
Arguments Ok {A}.
Arguments Throw {A}.
Arguments Halt {A}.

Definition M (W A : Type) : Type := W -> outcome A * W.

#[export] Instance M_ret {W} : MRet (M W) := fun A a w => (Ok a, w).

#[export] Instance M_bind {W} : MBind (M W) := fun A B k m w =>
  match m w with
  | (Ok a, w) => k a w
  | (Throw e, w) => (Throw e, w)
  | (Halt h, w) => (Halt h, w)
  end.

Section Operations.
Context {W : Type}.

Definition throw {A} (e : exn) : M W A := fun w => (Throw e, w).
Definition halt_with {A} (h : halt) : M W A := fun w => (Halt h, w).
Definition get : M W W := fun w => (Ok w, w).
Definition modify (f : W -> W) : M W () := fun w => (Ok (), f w).

(** A pure step with undefined behaviour. *)
Definition of_option {A} (o : option A) : M W A :=
  match o with Some a => mret a | None => halt_with Undefined end.

Definition when (b : bool) (m : M W ()) : M W () := if b then m else mret ().

(** [try { m } catch]: the handler sees the exception. *)
Definition try_catch {A} (m : M W A) (handler : exn -> M W A) : M W A := fun w =>
  match m w with
  | (Throw e, w) => handler e w
  | r => r
  end.

(** What leaving a scope does with the outcome of its body: the destructor
    runs unless the thread never gets there, and an exception that escapes it
    ([noexcept]) terminates the program. *)
Definition leave {A} (dtor : M W ()) (o : outcome A) : M W A := fun w =>
  match o with
  | Halt h => (Halt h, w)
  | _ =>
      match dtor w with
      | (Ok _, w) => (o, w)
      | (Throw _, w) => (Halt Terminated, w)
      | (Halt h, w) => (Halt h, w)
      end
  end.

(** A local object: a constructor that throws leaves no object to destroy. *)
Definition raii {R A} (ctor : M W R) (dtor : R -> M W ()) (body : R -> M W A) : M W A := fun w =>
  match ctor w with
  | (Ok r, w) => let '(o, w) := body r w in leave (dtor r) o w
  | (Throw e, w) => (Throw e, w)
  | (Halt h, w) => (Halt h, w)
  end.

End Operations.

(** ** Parts of the world

    What a component promises about the part [S] of the world it works on:
    reading and writing the part are a lens. *)

Class Part (W S : Type) := {
  part : W -> S;
  set_part : S -> W -> W
}.

Class PartLaws (W S : Type) `{Part W S} : Prop := {
  part_set s w : part (set_part s w) = s;
  set_part_part w : set_part (part w) w = w
}.

Definition zoom {W S A} `{Part W S} (m : M S A) : M W A := fun w =>
  let '(o, s) := m (part w) in (o, set_part s w).

(** ** Weakest preconditions *)

(** [wp m Q w]: the outcome of [m] from [w], and the world it leaves, satisfy
    [Q].  [Q] sees every outcome, so [wp] is total correctness when [Q] refuses
    [Halt]. *)
Definition wp {W A} (m : M W A) (Q : outcome A -> W -> Prop) (w : W) : Prop :=
  let '(o, w) := m w in Q o w.

(** What follows [m] when it returns; other outcomes go through. *)
Definition then_ {W A B} (k : A -> W -> Prop) (Q : outcome B -> W -> Prop) : outcome A -> W -> Prop :=
  fun o w => match o with Ok a => k a w | Throw e => Q (Throw e) w | Halt h => Q (Halt h) w end.

(** Whether the thread got through. *)
Definition finished {A} (o : outcome A) : Prop := match o with Halt _ => False | _ => True end.

Section Rules.
Context {W : Type}.
Implicit Types w : W.

Lemma wp_mono {A} (m : M W A) Q Q' w :
  wp m Q w -> (forall o w', Q o w' -> Q' o w') -> wp m Q' w.
Proof. unfold wp. destruct (m w). auto. Qed.

(** [wp] is exactly the execution: the bridge to equations. *)
Lemma wp_run {A} (m : M W A) o w w' : wp m (fun o' w'' => o' = o /\ w'' = w') w <-> m w = (o, w').
Proof. unfold wp. destruct (m w). split; [by intros [-> ->]|by intros [= -> ->]]. Qed.

Lemma wp_ret {A} (a : A) (Q : outcome A -> W -> Prop) w : Q (Ok a) w -> wp (mret a) Q w.
Proof. done. Qed.

Lemma wp_throw {A} e (Q : outcome A -> W -> Prop) w : Q (Throw e) w -> wp (throw e) Q w.
Proof. done. Qed.

Lemma wp_bind {A B} (m : M W A) (k : A -> M W B) Q w :
  wp m (then_ (fun a => wp (k a) Q) Q) w -> wp (m ≫= k) Q w.
Proof. unfold wp, mbind, M_bind, then_. by destruct (m w) as [[] w']. Qed.

Lemma wp_get (Q : outcome W -> W -> Prop) w : Q (Ok w) w -> wp get Q w.
Proof. done. Qed.

Lemma wp_modify f (Q : outcome () -> W -> Prop) w : Q (Ok ()) (f w) -> wp (modify f) Q w.
Proof. done. Qed.

Lemma wp_when (b : bool) (m : M W ()) (Q : outcome () -> W -> Prop) w : (if b then wp m Q w else Q (Ok ()) w) -> wp (when b m) Q w.
Proof. by destruct b. Qed.

Lemma wp_try_catch {A} (m : M W A) h Q w :
  wp m (fun o w' => match o with Throw e => wp (h e) Q w' | _ => Q o w' end) w ->
  wp (try_catch m h) Q w.
Proof. unfold wp, try_catch. by destruct (m w) as [[] w']. Qed.

(** What must hold when the body of a scope ends with [o]. *)
Definition leaving {A} (dtor : M W ()) (Q : outcome A -> W -> Prop) (o : outcome A) (w : W) : Prop :=
  match o with
  | Halt h => Q (Halt h) w
  | _ => wp dtor (fun o' w' =>
           match o' with
           | Ok _ => Q o w'
           | Throw _ => Q (Halt Terminated) w'
           | Halt h => Q (Halt h) w'
           end) w
  end.

Lemma wp_raii {R A} (ctor : M W R) dtor (body : R -> M W A) Q w :
  wp ctor (then_ (fun r => wp (body r) (leaving (dtor r) Q)) Q) w ->
  wp (raii ctor dtor body) Q w.
Proof.
  unfold wp, raii, then_, leaving, leave, wp. destruct (ctor w) as [[r|e|h] w1]; try done.
  destruct (body r w1) as [[a|e|h] w2]; try done; by destruct (dtor r w2) as [[] w3].
Qed.

Lemma wp_zoom {S A} `{Part W S} (m : M S A) Q w :
  wp m (fun o s => Q o (set_part s w)) (part w) -> wp (zoom m) Q w.
Proof. unfold wp, zoom. by destruct (m (part w)). Qed.

End Rules.

(** One step of a program: apply the rule of its head construct. *)
Ltac wp_step :=
  match goal with
  | |- wp (mret _) _ _ => apply wp_ret
  | |- wp (throw _) _ _ => apply wp_throw
  | |- wp (_ ≫= _) _ _ => apply wp_bind
  | |- wp get _ _ => apply wp_get
  | |- wp (modify _) _ _ => apply wp_modify
  | |- wp (when _ _) _ _ => apply wp_when
  | |- wp (try_catch _ _) _ _ => apply wp_try_catch
  | |- wp (raii _ _ _) _ _ => apply wp_raii
  | |- wp (zoom _) _ _ => apply wp_zoom
  | |- then_ _ _ (Ok _) _ => unfold then_ at 1
  | |- then_ _ _ (Throw _) _ => unfold then_ at 1
  end.

Ltac wp_steps := repeat wp_step.

(** ** Programs that always come back *)

Definition returns {W A} (m : M W A) : Prop := forall w h, (m w).1 <> Halt h.

Create HintDb returns discriminated.

Section Returns.
Context {W : Type}.

Lemma returns_ret {A} (a : A) : returns (mret a : M W A).
Proof. done. Qed.

Lemma returns_throw {A} e : returns (throw e : M W A).
Proof. done. Qed.

Lemma returns_get : returns (get : M W W).
Proof. done. Qed.

Lemma returns_modify f : returns (modify f : M W ()).
Proof. done. Qed.

Lemma returns_bind {A B} (m : M W A) (k : A -> M W B) :
  returns m -> (forall a, returns (k a)) -> returns (m ≫= k).
Proof.
  intros Hm Hk w h. unfold mbind, M_bind. specialize (Hm w). destruct (m w) as [[a|e|h'] w'].
  - apply Hk.
  - done.
  - by destruct (Hm h').
Qed.

Lemma returns_when (b : bool) (m : M W ()) : returns m -> returns (when b m).
Proof. by destruct b. Qed.

End Returns.

#[export] Hint Resolve returns_ret returns_throw returns_get returns_modify returns_bind returns_when : returns.
