(* ===== verification/Loader.v ===== *)
(** * Loader: src/ebpf_loader.h

    The owners of libbpf objects.  libbpf is a parameter ([Libbpf]: which calls
    succeed); the model keeps the set of objects, links and ring buffers that
    exist, so that using or destroying one that does not exist is undefined,
    and one that is never destroyed is seen to leak. *)

From S2P Require Import Prelude HttpServer Metrics Effects.
From Stdlib Require Import Ascii.

Module Bpf.

(** ** libbpf *)

(** What libbpf answers; a null pointer is [false], [bpf_object__load] returns
    its error code. *)
Record Libbpf := MkLibbpf {
  open_ok : str -> bool;                          (** path *)
  load_err : str -> Z;                            (** path *)
  has_program : str -> str -> bool;               (** path, program *)
  kprobe_ok : str -> str -> bool;                 (** program, function *)
  tracepoint_ok : str -> str -> str -> bool;      (** program, category, name *)
  has_map : str -> str -> bool;                   (** path, map *)
  ring_ok : str -> bool;                          (** map *)
  strerror : Z -> str
}.

(** Things that exist until they are destroyed. *)
Inductive resource :=
| Object (id : nat) (path : str)
| Link (id : nat) (prog : str)
| Ring (id : nat) (map : str).

#[export] Instance resource_eq_dec : EqDecision resource.
Proof. solve_decision. Defined.

Definition id_of (r : resource) : nat :=
  match r with Object id _ | Link id _ | Ring id _ => id end.

(** Newest first. *)
Record State := MkState { live : list resource; next_id : nat }.

(** Pointers into an object. *)
Record bpf_program := MkProgram { prog_object : resource; prog_name : str }.
Record bpf_map := MkMap { map_object : resource; map_name : str }.

Section Classes.
Context (L : Libbpf).

Definition allocate (mk : nat -> resource) : M State resource := fun s =>
  (Ok (mk (next_id s)), MkState (mk (next_id s) :: live s) (S (next_id s))).

(** Access through a pointer. *)
Definition use (r : resource) : M State () := fun s =>
  if decide (r ∈ live s) then (Ok (), s) else (Halt Undefined, s).

Definition destroy (r : resource) : M State () :=
  _ ← use r; modify (fun s => MkState (remove_first r (live s)) (next_id s)).

Definition bpf_object__open (path : str) : M State (option resource) :=
  if open_ok L path then r ← allocate (fun id => Object id path); mret (Some r) else mret None.

Definition bpf_object__load (obj : resource) : M State Z :=
  _ ← use obj;
  mret (match obj with Object _ path => load_err L path | _ => 0 end).

Definition object_path (obj : resource) : str := match obj with Object _ path => path | _ => [] end.

Definition bpf_object__find_program_by_name (obj : resource) (name : str) : M State (option bpf_program) :=
  _ ← use obj;
  mret (if has_program L (object_path obj) name then Some (MkProgram obj name) else None).

Definition bpf_object__find_map_by_name (obj : resource) (name : str) : M State (option bpf_map) :=
  _ ← use obj;
  mret (if has_map L (object_path obj) name then Some (MkMap obj name) else None).

Definition bpf_program__attach_kprobe (prog : bpf_program) (func : str) : M State (option resource) :=
  _ ← use (prog_object prog);
  if kprobe_ok L (prog_name prog) func
  then r ← allocate (fun id => Link id (prog_name prog)); mret (Some r) else mret None.

Definition bpf_program__attach_tracepoint (prog : bpf_program) (category name : str)
    : M State (option resource) :=
  _ ← use (prog_object prog);
  if tracepoint_ok L (prog_name prog) category name
  then r ← allocate (fun id => Link id (prog_name prog)); mret (Some r) else mret None.

(** [ring_buffer__new(bpf_map__fd(map), ...)]. *)
Definition ring_buffer__new (map : bpf_map) : M State (option resource) :=
  _ ← use (map_object map);
  if ring_ok L (map_name map)
  then r ← allocate (fun id => Ring id (map_name map)); mret (Some r) else mret None.

(** ** BpfObject *)

Record BpfObject := MkObject { obj_ : option resource }.

Definition BpfObject_ctor (path : str) : M State BpfObject :=
  obj ← bpf_object__open path;
  match obj with
  | None => throw (Error (lit "bpf_object__open(" ++ dq ++ path ++ dq ++ lit ") failed"))
  | Some o =>
      err ← bpf_object__load o;
      if negb (err =? 0) then throw (Error (lit "bpf_object__load failed: " ++ strerror L (- err)))
      else mret (MkObject (Some o))
  end.

Definition BpfObject_dtor (this : BpfObject) : M State () :=
  match obj_ this with Some o => destroy o | None => mret () end.

(** The move constructor: the new object, and what is left of the old one. *)
Definition BpfObject_move (o : BpfObject) : BpfObject * BpfObject := (MkObject (obj_ o), MkObject None).

Definition BpfObject_get (this : BpfObject) : option resource := obj_ this.

(** A null [obj_] is dereferenced by libbpf. *)
Definition get_obj (this : BpfObject) : M State resource := of_option (obj_ this).

Definition attach_kprobe (this : BpfObject) (func_name prog_name : str) : M State resource :=
  obj ← get_obj this;
  prog ← bpf_object__find_program_by_name obj prog_name;
  match prog with
  | None => throw (Error (lit "Program not found: " ++ prog_name))
  | Some prog =>
      link ← bpf_program__attach_kprobe prog func_name;
      match link with
      | None => throw (Error (lit "attach_kprobe failed for " ++ func_name))
      | Some link => mret link
      end
  end.

Definition attach_tracepoint (this : BpfObject) (category name prog_name : str) : M State resource :=
  obj ← get_obj this;
  prog ← bpf_object__find_program_by_name obj prog_name;
  match prog with
  | None => throw (Error (lit "Program not found: " ++ prog_name))
  | Some prog =>
      link ← bpf_program__attach_tracepoint prog category name;
      match link with
      | None => throw (Error (lit "attach_tracepoint failed"))
      | Some link => mret link
      end
  end.

Definition find_map (this : BpfObject) (name : str) : M State bpf_map :=
  obj ← get_obj this;
  m ← bpf_object__find_map_by_name obj name;
  match m with
  | None => throw (Error (lit "Map not found: " ++ name))
  | Some m => mret m
  end.

(** ** BpfLink *)

Record BpfLink := MkLink { link_ : option resource }.

Definition BpfLink_ctor (l : resource) : M State BpfLink := mret (MkLink (Some l)).

Definition BpfLink_dtor (this : BpfLink) : M State () :=
  match link_ this with Some l => destroy l | None => mret () end.

Definition BpfLink_move (o : BpfLink) : BpfLink * BpfLink := (MkLink (link_ o), MkLink None).

Definition BpfLink_get (this : BpfLink) : option resource := link_ this.

(** ** BpfRingBuffer *)

Record BpfRingBuffer := MkRing { rb_ : option resource }.

Definition BpfRingBuffer_ctor (map : bpf_map) : M State BpfRingBuffer :=
  rb ← ring_buffer__new map;
  match rb with
  | None => throw (Error (lit "ring_buffer__new failed"))
  | Some rb => mret (MkRing (Some rb))
  end.

Definition BpfRingBuffer_dtor (this : BpfRingBuffer) : M State () :=
  match rb_ this with Some rb => destroy rb | None => mret () end.

(** [ring_buffer__poll]: the callback on every sample that is there, until one
    call returns a negative number; the number of samples consumed. *)
Fixpoint consume {W A} (callback : A -> M W Z) (samples : list A) (n : Z) : M W Z :=
  match samples with
  | [] => mret n
  | x :: samples =>
      rc ← callback x;
      if rc <? 0 then mret rc else consume callback samples (n + 1)
  end.

Definition poll {W A} `{Part W State} (callback : A -> M W Z) (samples : list A)
    (this : BpfRingBuffer) : M W Z :=
  _ ← zoom (rb ← of_option (rb_ this); use rb);
  consume callback samples 0.

End Classes.

(** ** Ownership

    [safe need P m Q]: from a world in which the resources [need] exist and [P]
    holds, [m] uses nothing that does not exist; when it comes back, what
    exists is what existed before, except that a constructor that failed to
    load an object has left that object behind; and [Q] holds of its result. *)

Definition wf (s : State) : Prop :=
  NoDup (live s) /\ Forall (fun r => id_of r < next_id s)%nat (live s).

Lemma remove_first_app (l k : list resource) r :
  r ∉ l -> remove_first r (l ++ r :: k) = l ++ k.
Proof.
  induction l as [|x l IH]; intros Hr; cbn; [by rewrite decide_True|].
  apply not_elem_of_cons in Hr as [Hne Hr]. rewrite decide_False, IH by done. done.
Qed.

Lemma wf_alloc s mk : (forall id, id_of (mk id) = id) -> wf s ->
  wf (MkState (mk (next_id s) :: live s) (S (next_id s))).
Proof.
  intros Hmk [Hnd Hid]. split; cbn.
  - constructor; [|done]. intros Hin. rewrite Forall_forall in Hid. apply Hid in Hin.
    rewrite Hmk in Hin. lia.
  - constructor; [rewrite Hmk; lia|]. eapply Forall_impl; [exact Hid|]. cbn. lia.
Qed.

Lemma wf_remove s l r k : wf s -> live s = l ++ r :: k ->
  (r ∉ l) /\ wf (MkState (l ++ k) (next_id s)).
Proof.
  intros [Hnd Hid] Hl. rewrite Hl in Hnd, Hid. apply NoDup_app in Hnd as (Hn1 & Hn2 & Hn3).
  apply NoDup_cons in Hn3 as [Hr Hn3]. apply Forall_app in Hid as [Hi1 Hi2].
  apply Forall_cons in Hi2 as [_ Hi2]. split; [intros Hin; apply (Hn2 r Hin); left|].
  split; cbn; [|by apply Forall_app]. apply NoDup_app. split_and!; try done.
  intros x Hx Hk. apply (Hn2 x Hx). by right.
Qed.

Section Ownership.
Context (L : Libbpf) {W : Type} `{PW : PartLaws W State}.

(** What an unwound constructor leaves behind. *)
Definition leak_ok {A} (o : outcome A) (leak : list resource) : Prop :=
  match o with
  | Throw _ => leak = [] \/ exists id path, leak = [Object id path] /\ load_err L path <> 0
  | _ => leak = []
  end.

Definition settled {A} (before : list resource) (o : outcome A) (w : W) : Prop :=
  wf (part w) /\ exists leak, leak_ok o leak /\ live (part w) = leak ++ before.

Definition safe {A} (need : list resource) (P : W -> Prop) (m : M W A) (Q : A -> W -> Prop) : Prop :=
  forall w, wf (part w) -> need ⊆ live (part w) -> P w ->
    wp m (fun o w' => o <> Halt Undefined /\ (finished o -> settled (live (part w)) o w') /\
                      forall a, o = Ok a -> Q a w') w.

(** A constructor whose object owns a resource afterwards, a destructor that gives it up. *)
Definition acquires {R} (need : list resource) (P : W -> Prop) (ctor : M W R)
    (owned : R -> option resource) (Q : R -> W -> Prop) : Prop :=
  forall w, wf (part w) -> need ⊆ live (part w) -> P w ->
    wp ctor (fun o w' =>
      match o with
      | Ok r => wf (part w') /\ Q r w' /\
                exists x, owned r = Some x /\ live (part w') = x :: live (part w)
      | Throw e => settled (live (part w)) o w'
      | Halt h => h <> Undefined
      end) w.

Definition releases (dtor : M W ()) (r : resource) : Prop :=
  forall w, r ∈ live (part w) ->
    dtor w = (Ok (), set_part (MkState (remove_first r (live (part w))) (next_id (part w))) w).

Lemma safe_bind {A B} need P (m : M W A) (k : A -> M W B) R Q :
  safe need P m R -> (forall a, safe need (R a) (k a) Q) -> safe need P (m ≫= k) Q.
Proof.
  intros Hm Hk w Hwf Hneed HP. apply wp_bind. eapply wp_mono; [by apply Hm|].
  intros [a|e|h] w' (Hu & Hs & HR); cbn.
  - destruct (Hs I) as (Hwf' & leak & Hleak & Hl). cbn in Hleak. subst leak. rewrite app_nil_l in Hl.
    rewrite <- Hl. apply Hk; [done|by rewrite Hl|by apply HR].
  - split_and!; try done; naive_solver.
  - split_and!; try done; naive_solver.
Qed.

Lemma safe_weaken {A} need need' (P P' : W -> Prop) (m : M W A) (Q Q' : A -> W -> Prop) :
  safe need P m Q -> need ⊆ need' -> (forall w, P' w -> P w) -> (forall a w, Q a w -> Q' a w) ->
  safe need' P' m Q'.
Proof.
  intros Hm Hn HP HQ w Hwf Hneed HP'. eapply wp_mono; [apply Hm; try done; [set_solver|auto]|].
  naive_solver.
Qed.

(** Steps that leave libbpf alone. *)
Lemma safe_other {A} need P (m : M W A) Q :
  (forall w, P w -> wp m (fun o w' => o <> Halt Undefined /\ (finished o -> part w' = part w) /\
                                    forall a, o = Ok a -> Q a w') w) ->
  safe need P m Q.
Proof.
  intros Hm w Hwf _ HP. eapply wp_mono; [by apply Hm|]. intros o w' (Hu & Hs & HQ).
  split; [done|]. split; [|done]. intros Hf. specialize (Hs Hf). split; [by rewrite Hs|].
  exists []. split; [by destruct o; [|left|]|]. by rewrite Hs.
Qed.

Lemma safe_ret {A} need P (a : A) (Q : A -> W -> Prop) : (forall w, P w -> Q a w) -> safe need P (mret a) Q.
Proof. intros HQ. apply safe_other. intros w HP. cbn. naive_solver. Qed.

(** Leaving the scope of an owner. *)
Lemma settled_leave {A} (dtor : M W ()) r before (o : outcome A) w Q :
  releases dtor r -> settled (r :: before) o w ->
  (forall w', settled before o w' -> (forall s, w' = set_part s w -> Q o w')) ->
  finished o -> leaving dtor Q o w.
Proof.
  intros Hd (Hwf & leak & Hleak & Hl) HQ Hf.
  destruct (wf_remove _ _ _ _ Hwf Hl) as [Hr Hwf'].
  assert (wp dtor (fun o' w' => o' = Ok () /\ settled before o w' /\ exists s, w' = set_part s w) w) as Hdtor.
  { unfold wp. rewrite Hd by (rewrite Hl; set_solver). split; [done|].
    rewrite Hl, remove_first_app by done. split; [|eauto]. split; [by rewrite part_set|].
    exists leak. by rewrite part_set. }
  destruct o; [..|done]; (eapply wp_mono; [exact Hdtor|]);
    intros o' w' (-> & Hs & s & ->); by eapply HQ.
Qed.

(** The scope of an owner. *)
Lemma safe_raii {R A} need P (ctor : M W R) dtor (body : R -> M W A) owned PR Q :
  (forall a s w, Q a w -> Q a (set_part s w)) ->
  acquires need P ctor owned PR -> (forall r x, owned r = Some x -> releases (dtor r) x) ->
  (forall r x, owned r = Some x -> safe (x :: need) (PR r) (body r) Q) ->
  safe need P (raii ctor dtor body) Q.
Proof.
  intros HQ Hc Hd Hb w Hwf Hneed HP. apply wp_raii. eapply wp_mono; [by apply Hc|].
  intros [r|e|h] w1; cbn; [|naive_solver|naive_solver].
  intros (Hwf1 & HPR & x & Hx & Hl1).
  eapply wp_mono; [apply (Hb r x Hx); [done|rewrite Hl1; set_solver|done]|].
  intros o w2 (Hu & Hs & HR). rewrite Hl1 in Hs.
  destruct o as [a|e|h]; [..|naive_solver];
    (eapply settled_leave; [by apply (Hd r x)|by apply Hs| |done]);
    intros w3 Hs3 s ->; (split; [done|]); (split; [done|]); naive_solver.
Qed.

(** A local object that owns nothing of libbpf. *)
Lemma safe_scope {R A} need P (ctor : M W R) dtor (body : R -> M W A) PR Qb Q :
  safe need P ctor PR -> (forall r, safe need (PR r) (body r) Qb) ->
  (forall r, safe need (fun _ => True) (dtor r) (fun _ _ => True)) ->
  (forall r a, safe need (Qb a) (dtor r) (fun _ => Q a)) ->
  safe need P (raii ctor dtor body) Q.
Proof.
  intros Hc Hb Hd HdQ w Hwf Hneed HP. apply wp_raii. eapply wp_mono; [by apply Hc|].
  intros [r|e|h] w1 (Hu & Hs & HR); cbn; [|naive_solver|naive_solver].
  destruct (Hs I) as (Hwf1 & leak & Hleak & Hl1). cbn in Hleak. subst leak. rewrite app_nil_l in Hl1.
  eapply wp_mono; [apply Hb; [done|by rewrite Hl1|by apply HR]|].
  intros o w2 (Hu2 & Hs2 & HR2). rewrite Hl1 in Hs2.
  destruct o as [a|e|h]; cbn; [..|naive_solver]; destruct (Hs2 I) as (Hwf2 & leak & Hleak & Hl2).
  - eapply wp_mono; [apply (HdQ r a); [done|rewrite Hl2; set_solver|by apply HR2]|].
    intros [u|e|h] w3 (Hu3 & Hs3 & HR3); [|naive_solver..].
    split; [done|]. split; [|intros ? [= <-]; by eapply HR3].
    intros _. destruct (Hs3 I) as (Hwf3 & leak3 & Hleak3 & Hl3). cbn in Hleak, Hleak3. subst.
    split; [done|]. exists []. split; [done|]. by rewrite Hl3, Hl2.
  - eapply wp_mono; [apply (Hd r); [done|rewrite Hl2; set_solver|done]|].
    intros [u|e'|h] w3 (Hu3 & Hs3 & HR3); [|naive_solver..].
    split; [done|]. split; [|done].
    intros _. destruct (Hs3 I) as (Hwf3 & leak3 & Hleak3 & Hl3). cbn in Hleak3. subst.
    split; [done|]. exists leak. split; [done|]. by rewrite Hl3, Hl2.
Qed.

(** *** The classes *)

Lemma use_live r w : r ∈ live (part w) -> zoom (use r) w = (Ok (), w).
Proof. intros Hr. unfold zoom, use. by rewrite decide_True, set_part_part. Qed.

Lemma releases_destroy r : releases (zoom (destroy r)) r.
Proof.
  intros w Hr. unfold zoom, destroy, use, mbind, M_bind. by rewrite decide_True.
Qed.

(** A resource that is created, or an exception without one. *)
Lemma settled_same {A} w (e : exn) : wf (part w) -> settled (live (part w)) (Throw e : outcome A) w.
Proof. intros Hwf. split; [done|]. exists []. by split; [left|]. Qed.

Section Frame.
Context (need : list resource) (P : W -> Prop) (HP : forall s w, P w -> P (set_part s w)).

Lemma acquires_object path : acquires need P (zoom (BpfObject_ctor L path)) obj_ (fun _ => P).
Proof.
  intros w Hwf _ Hw. unfold wp, zoom, BpfObject_ctor, bpf_object__open, bpf_object__load, use,
    mbind, M_bind, allocate, mret, M_ret.
  destruct (open_ok L path); cbn.
  - rewrite decide_True by left. destruct (Z.eqb_spec (load_err L path) 0) as [|Hl]; cbn.
    + rewrite part_set. split; [by apply (wf_alloc _ (fun id => Object id path))|]. split; [by apply HP|]. eauto.
    + split; rewrite part_set; [by apply (wf_alloc _ (fun id => Object id path))|]. eexists [_]. split; [right; eauto|done].
  - rewrite set_part_part. by apply settled_same.
Qed.

Lemma releases_object o x : obj_ o = Some x -> releases (zoom (BpfObject_dtor o)) x.
Proof. unfold BpfObject_dtor. intros ->. apply releases_destroy. Qed.

Lemma releases_link l x : link_ l = Some x -> releases (zoom (BpfLink_dtor l)) x.
Proof. unfold BpfLink_dtor. intros ->. apply releases_destroy. Qed.

Lemma releases_ring r x : rb_ r = Some x -> releases (zoom (BpfRingBuffer_dtor r)) x.
Proof. unfold BpfRingBuffer_dtor. intros ->. apply releases_destroy. Qed.

(** Runs a method of an object that exists; case analysis on an answer of
    libbpf, where a refusal is an exception that leaves the state alone. *)
#[local] Tactic Notation "run_method" constr(Ho) :=
  unfold wp, zoom, attach_kprobe, attach_tracepoint, find_map, get_obj,
    bpf_object__find_program_by_name, bpf_object__find_map_by_name, bpf_program__attach_kprobe,
    bpf_program__attach_tracepoint, BpfLink_ctor, BpfRingBuffer_ctor, ring_buffer__new, use,
    mbind, M_bind, allocate, of_option, mret, M_ret;
  rewrite Ho, !decide_True by done.

#[local] Tactic Notation "run_answer" constr(q) :=
  destruct q; cbn; [rewrite ?decide_True by done|rewrite set_part_part; by apply settled_same].

Lemma acquired {R} (r : R) owned x mk w :
  wf (part w) -> P w -> (forall id, id_of (mk id) = id) -> x = mk (next_id (part w)) ->
  owned r = Some x ->
  let w' := set_part (MkState (x :: live (part w)) (S (next_id (part w)))) w in
  wf (part w') /\ P w' /\ exists y, owned r = Some y /\ live (part w') = y :: live (part w).
Proof.
  intros Hwf Hw Hmk -> Ho w'. unfold w'. rewrite part_set.
  split; [by apply wf_alloc|]. split; [by apply HP|]. eauto.
Qed.

(** [BpfLink link(obj.attach_kprobe(...))]. *)
Lemma acquires_kprobe o x func prog :
  obj_ o = Some x -> x ∈ need ->
  acquires need P (zoom (l ← attach_kprobe L o func prog; BpfLink_ctor l)) link_ (fun _ => P).
Proof.
  intros Ho Hx w Hwf Hneed Hw. apply Hneed in Hx. run_method Ho.
  run_answer (has_program L (object_path x) prog). run_answer (kprobe_ok L prog func).
  by apply (acquired _ _ _ (fun id => Link id prog)).
Qed.

Lemma acquires_tracepoint o x category name prog :
  obj_ o = Some x -> x ∈ need ->
  acquires need P (zoom (l ← attach_tracepoint L o category name prog; BpfLink_ctor l)) link_ (fun _ => P).
Proof.
  intros Ho Hx w Hwf Hneed Hw. apply Hneed in Hx. run_method Ho.
  run_answer (has_program L (object_path x) prog). run_answer (tracepoint_ok L prog category name).
  by apply (acquired _ _ _ (fun id => Link id prog)).
Qed.

(** [BpfRingBuffer rb(obj.find_map(...), ...)]. *)
Lemma acquires_ring o x map :
  obj_ o = Some x -> x ∈ need ->
  acquires need P (zoom (m ← find_map L o map; BpfRingBuffer_ctor L m)) rb_ (fun _ => P).
Proof.
  intros Ho Hx w Hwf Hneed Hw. apply Hneed in Hx. run_method Ho.
  run_answer (has_map L (object_path x) map). run_answer (ring_ok L map).
  by apply (acquired _ _ _ (fun id => Ring id map)).
Qed.

Lemma safe_find_map o x map :
  obj_ o = Some x -> x ∈ need -> safe need P (zoom (find_map L o map)) (fun _ => P).
Proof.
  intros Ho Hx w Hwf Hneed Hw. apply Hneed in Hx. run_method Ho.
  destruct (has_map L (object_path x) map); cbn; rewrite set_part_part;
    (split; [done|]); (split; [|done]); intros _; [|by apply settled_same].
  split; [done|]. by exists [].
Qed.

End Frame.

(** A poll with the ring buffer in place is the callback on the samples. *)
Lemma poll_live {A} (callback : A -> M W Z) samples rb x w :
  rb_ rb = Some x -> x ∈ live (part w) -> poll callback samples rb w = consume callback samples 0 w.
Proof.
  intros Hrb Hx. unfold poll. rewrite Hrb.
  change (zoom (rb ← of_option (Some x); use rb)) with (zoom (W := W) (use x)).
  unfold mbind, M_bind. by rewrite use_live.
Qed.

End Ownership.
End Bpf.

(** ** Properties *)

Section Properties.
Import Bpf.

(** An object that cannot be loaded: the constructor throws with the text
    of the error, the body of its scope does not run, and since the destructor
    of an object under construction does not run either, the opened object is
    never closed. *)
Theorem load_failure_leaks L path (body : BpfObject -> M State ()) s :
  open_ok L path = true -> load_err L path <> 0 ->
  let '(o, s') := raii (BpfObject_ctor L path) BpfObject_dtor body s in
  o = Throw (Error (lit "bpf_object__load failed: " ++ strerror L (- load_err L path))) /\
  live s' = Object (next_id s) path :: live s.
Proof.
  intros Ho Hl. unfold raii, BpfObject_ctor, bpf_object__open, bpf_object__load, allocate, use,
    mbind, M_bind, mret, M_ret. rewrite Ho. cbn -[lit]. rewrite decide_True by left.
  by destruct (Z.eqb_spec (load_err L path) 0).
Qed.

End Properties.

(** ** Witnesses *)

Module LoaderWitness.
Import Bpf.

(** Everything succeeds, but the object [path] does not load. *)
Definition libbpf (bad : str -> Z) : Libbpf :=
  MkLibbpf (fun _ => true) bad (fun _ _ => true) (fun _ _ => true) (fun _ _ _ => true)
    (fun _ _ => true) (fun _ => true) (fun _ => lit "Operation not permitted").

End LoaderWitness.

Section Witnesses.
Import Bpf LoaderWitness.

Lemma load_failure_leaks_witness :
  live (raii (BpfObject_ctor (libbpf (fun _ => -1)) (lit "a.o")) BpfObject_dtor
          (fun _ => mret ()) (MkState [] 0)).2 = [Object 0 (lit "a.o")].
Proof.
  refine (proj2 (load_failure_leaks (libbpf (fun _ => -1)) (lit "a.o") (fun _ => mret ()) (MkState [] 0) _ _));
    [reflexivity|vm_compute; congruence].
Defined.

End Witnesses.
