(* ===== verification/ServerLifecycle.v ===== *)
(** * ServerLifecycle: src/http/async_server.h, start to stop

    Construction, [start], the server thread, [stop] and the destructor of the
    HTTP server.  [socket], [bind], [listen], [epoll_create1], [epoll_ctl],
    [eventfd] and [htons] are parameters; which descriptors are open is part of
    the state. *)

From S2P Require Import Prelude HttpServer Effects.
From Stdlib Require Import Ascii.

Module Srv.

(** What the kernel answers: a descriptor or a negative number; an error number
    or 0. *)
Record Sockets := MkSockets {
  socket_fd : Z;
  bind_errno : Z -> Z;        (** [sin_port] *)
  listen_ok : bool;
  epoll_create1_fd : Z;
  epoll_ctl_errno : Z -> Z;   (** descriptor *)
  eventfd_fd : Z;
  htons : Z -> Z;
  strerror : Z -> str
}.

(** The members, with what [Http] keeps of the kernel's state, and whether the
    eventfd was written. *)
Record State := MkState {
  listen_fd_ : Z;
  epoll_fd_ : Z;
  stop_fd_ : Z;
  port_ : Z;
  io : Http.Server;
  stop_written : bool
}.

Section Lifecycle.
Context (K : Sockets) (sigpipe : Http.disposition).

Definition set_io (f : Http.Server -> Http.Server) (s : State) : State :=
  MkState (listen_fd_ s) (epoll_fd_ s) (stop_fd_ s) (port_ s) (f (io s)) (stop_written s).

Definition with_open (f : gset Z -> gset Z) (i : Http.Server) : Http.Server :=
  Http.MkServer (Http.read_bufs_ i) (Http.epoll_set i) (f (Http.open_fds i)) (Http.sent i)
                (Http.running_ i).

Definition set_running (b : bool) (i : Http.Server) : Http.Server :=
  Http.MkServer (Http.read_bufs_ i) (Http.epoll_set i) (Http.open_fds i) (Http.sent i) b.

(** A call that returns a descriptor, or fails. *)
Definition opened (fd : Z) : gset Z -> gset Z :=
  if fd <? 0 then fun fds => fds else fun fds => {[fd]} ∪ fds.

Definition set_listen_fd (fd : Z) (s : State) : State :=
  MkState fd (epoll_fd_ s) (stop_fd_ s) (port_ s) (io s) (stop_written s).
Definition set_epoll_fd (fd : Z) (s : State) : State :=
  MkState (listen_fd_ s) fd (stop_fd_ s) (port_ s) (io s) (stop_written s).
Definition set_stop_fd (fd : Z) (s : State) : State :=
  MkState (listen_fd_ s) (epoll_fd_ s) fd (port_ s) (io s) (stop_written s).

Definition O_NONBLOCK : Z := 2048.

Definition throw_if (b : bool) (what : str) : M State () := when b (throw (StdException what)).

(** The constructor; the process may have descriptors open already. *)
Definition AsyncHttpServer (port : Z) : M State () :=
  modify (fun s => MkState (-1) (-1) (-1) port
                     (Http.MkServer ∅ ∅ (Http.open_fds (io s)) (Http.sent (io s)) false) false).

(** [fcntl(fd, F_GETFL)] and [fcntl(fd, F_SETFL, flags)] are arguments; nothing
    in the repository calls the function. *)
Definition set_nonblocking (getfl : Z -> Z) (setfl : Z -> Z -> Z) (fd : Z) : M State () :=
  let flags := getfl fd in
  _ ← throw_if (flags <? 0) (lit "fcntl F_GETFL failed");
  throw_if (setfl fd (Z.lor flags O_NONBLOCK) <? 0) (lit "fcntl F_SETFL O_NONBLOCK failed").

Definition epoll_add (fd : Z) : M State () :=
  let errno := epoll_ctl_errno K fd in
  _ ← throw_if (negb (errno =? 0)) (lit "epoll_ctl ADD: " ++ strerror K errno);
  modify (set_io (fun i => Http.MkServer (Http.read_bufs_ i) ({[fd]} ∪ Http.epoll_set i)
                             (Http.open_fds i) (Http.sent i) (Http.running_ i))).

Definition start : M State () :=
  _ ← modify (fun s => set_listen_fd (socket_fd K) (set_io (with_open (opened (socket_fd K))) s));
  s ← get;
  _ ← throw_if (listen_fd_ s <? 0) (lit "socket() failed");
  (* setsockopt SO_REUSEADDR: its result is not used *)
  let errno := bind_errno K (htons K (port_ s)) in
  _ ← throw_if (negb (errno =? 0)) (lit "bind() failed: " ++ strerror K errno);
  _ ← throw_if (negb (listen_ok K)) (lit "listen() failed");
  _ ← modify (fun s => set_epoll_fd (epoll_create1_fd K)
                         (set_io (with_open (opened (epoll_create1_fd K))) s));
  s ← get;
  _ ← throw_if (epoll_fd_ s <? 0) (lit "epoll_create1() failed");
  _ ← epoll_add (listen_fd_ s);
  _ ← modify (fun s => set_stop_fd (eventfd_fd K) (set_io (with_open (opened (eventfd_fd K))) s));
  s ← get;
  _ ← throw_if (stop_fd_ s <? 0) (lit "eventfd() failed");
  _ ← epoll_add (stop_fd_ s);
  modify (set_io (set_running true)).

(** Wakes the loop through the eventfd. *)
Definition stop : M State () :=
  s ← get;
  when ((0 <=? stop_fd_ s) && Http.running_ (io s))
    (modify (fun s => MkState (listen_fd_ s) (epoll_fd_ s) (stop_fd_ s) (port_ s) (io s) true)).

Definition close (fd : Z) : M State () := modify (set_io (with_open (fun fds => fds ∖ {[fd]}))).

(** [if (fd >= 0) { ::close(fd); fd = -1; }] for each of the three, at the end
    of the destructor. *)
Definition close_fds : M State () :=
  s ← get;
  _ ← when (0 <=? listen_fd_ s) (_ ← close (listen_fd_ s); modify (set_listen_fd (-1)));
  _ ← when (0 <=? epoll_fd_ s) (_ ← close (epoll_fd_ s); modify (set_epoll_fd (-1)));
  when (0 <=? stop_fd_ s) (_ ← close (stop_fd_ s); modify (set_stop_fd (-1))).

Definition AsyncHttpServer_dtor : M State () := _ ← stop; close_fds.

Definition is_running : M State bool := s ← get; mret (Http.running_ (io s)).
Definition port : M State Z := s ← get; mret (port_ s).

(** ** The server thread *)

(** One [epoll_wait] of [run] and the events it returns; an exception that
    escapes the thread's function calls [std::terminate], and SIGPIPE with its
    default action ends the process as well. *)
Definition http_wait (w : Http.RouteHandler * list Http.event) : M State () := fun s =>
  if Http.running_ (io s) then
    match Http.process_events sigpipe (listen_fd_ s) (stop_fd_ s) w.1 w.2 (io s) with
    | (i, None) => (Ok (), set_io (fun _ => i) s)
    | (i, Some _) => (Halt Terminated, set_io (fun _ => i) s)
    end
  else (Ok (), s).

Fixpoint http_waits (ws : list (Http.RouteHandler * list Http.event)) : M State () :=
  match ws with
  | [] => mret ()
  | w :: ws => _ ← http_wait w; http_waits ws
  end.

(** The readable eventfd, as [epoll_wait] reports it from then on. *)
Definition stop_event (s : State) : Http.event :=
  Http.MkEvent (stop_fd_ s) [] (Http.Wrote 0) [].

(** Joining the thread: it handles what arrives ([waits]) and then, when the
    eventfd was written, the stop event; without it the thread waits for ever. *)
Definition join (waits : list (Http.RouteHandler * list Http.event)) : M State () := fun s =>
  let waits := waits ++ (if stop_written s then [(None, [stop_event s])] else []) in
  match Http.run sigpipe (listen_fd_ s) (epoll_fd_ s) (stop_fd_ s) waits (io s) with
  | (i, Some _) => (Halt Terminated, set_io (fun _ => i) s)
  | (i, None) =>
      if Http.running_ i then (Halt Blocked, set_io (fun _ => i) s)
      else (Ok (), MkState (-1) (-1) (-1) (port_ s) i (stop_written s))
  end.

End Lifecycle.

(** ** Lemmas *)

(** The kernel returns -1 or a descriptor that is not in use. *)
Record fresh_fds (K : Sockets) (fds : gset Z) : Prop := {
  fresh_range : -1 <= socket_fd K /\ -1 <= epoll_create1_fd K /\ -1 <= eventfd_fd K;
  fresh_socket : (socket_fd K ∉ fds);
  fresh_epoll : (epoll_create1_fd K ∉ fds) /\
                (0 <= socket_fd K -> epoll_create1_fd K <> socket_fd K);
  fresh_eventfd : (eventfd_fd K ∉ fds) /\
                  (0 <= socket_fd K -> eventfd_fd K <> socket_fd K) /\
                  (0 <= epoll_create1_fd K -> eventfd_fd K <> epoll_create1_fd K)
}.

(** A server as the constructor leaves it. *)
Definition constructed (port : Z) (fds : gset Z) (sent : list (Z * str)) : State :=
  MkState (-1) (-1) (-1) port (Http.MkServer ∅ ∅ fds sent false) false.

(** What the destructor does to the open descriptors. *)
Definition closed (fd : Z) (fds : gset Z) : gset Z := if 0 <=? fd then fds ∖ {[fd]} else fds.

Lemma dtor_closes s fds :
  -1 <= listen_fd_ s -> -1 <= epoll_fd_ s -> -1 <= stop_fd_ s ->
  Http.running_ (io s) = false ->
  closed (stop_fd_ s) (closed (epoll_fd_ s) (closed (listen_fd_ s) (Http.open_fds (io s)))) = fds ->
  AsyncHttpServer_dtor s =
  (Ok (), MkState (-1) (-1) (-1) (port_ s) (with_open (fun _ => fds) (io s)) (stop_written s)).
Proof.
  intros Hl He Hs Hr <-. destruct s as [l e st port [rb es fds sent r] wr]. cbn in *. subst r.
  unfold AsyncHttpServer_dtor, stop, close_fds, when, get, mbind, M_bind. cbn.
  rewrite andb_false_r. cbn. unfold closed.
  destruct (Z.leb_spec 0 l); [|replace l with (-1) by lia];
    (destruct (Z.leb_spec 0 e); [|replace e with (-1) by lia]);
    (destruct (Z.leb_spec 0 st); [|replace st with (-1) by lia]); reflexivity.
Qed.

(** A failed [start], for any state it can leave. *)
Lemma start_failed port fds s e what :
  e = StdException what -> Http.running_ (io s) = false ->
  -1 <= listen_fd_ s -> -1 <= epoll_fd_ s -> -1 <= stop_fd_ s -> port_ s = port ->
  stop_written s = false ->
  closed (stop_fd_ s) (closed (epoll_fd_ s) (closed (listen_fd_ s) (Http.open_fds (io s)))) = fds ->
  (exists what, e = StdException what) /\
  exists i, AsyncHttpServer_dtor s = (Ok (), MkState (-1) (-1) (-1) port i false) /\
      Http.open_fds i = fds /\ Http.running_ i = false.
Proof.
  intros -> Hr Hl He Hst <- Hw Hc. split; [eauto|].
  eexists. rewrite (dtor_closes s fds), Hw by done. by split.
Qed.

(** Events before the stop: the eventfd is silent, [epoll_ctl] accepts every
    client, and no client has gone when it is answered. *)
Definition quiet_event (stop_fd : Z) (e : Http.event) : Prop :=
  Http.fd e <> stop_fd /\ Forall (fun c => c.2 = true) (Http.clients e) /\
  Http.written e <> Http.BrokenPipe.

Definition quiet (stop_fd : Z) (w : Http.RouteHandler * list Http.event) : Prop :=
  Forall (quiet_event stop_fd) w.2.

(** What a quiet thread keeps: it goes on running, and no half-read request is
    left behind. *)
Definition kept (s s' : Http.Server) : Prop :=
  Http.running_ s' = Http.running_ s /\ (Http.read_bufs_ s = ∅ -> Http.read_bufs_ s' = ∅).

#[export] Instance kept_preorder : PreOrder kept.
Proof.
  split; [by split|]. intros s1 s2 s3 [Hr1 Hb1] [Hr2 Hb2]. split; [congruence|auto].
Qed.

Lemma accept_quiet clients s :
  Forall (fun c => c.2 = true) clients ->
  exists s', Http.accept_clients clients s = (s', None) /\ kept s s'.
Proof.
  intros Hc. revert s. induction Hc as [|[c b] clients Hb Hc IH]; intros s; [by exists s|].
  cbn in Hb. subst b. cbn [Http.accept_clients]. destruct (IH (Http.MkServer (Http.read_bufs_ s)
    ({[c]} ∪ Http.epoll_set s) ({[c]} ∪ Http.open_fds s) (Http.sent s) (Http.running_ s)))
    as (s' & Ha & Hr). by exists s'.
Qed.

Lemma handle_kept h sp fd reads written s s' :
  Http.handle_client h sp fd reads written s = (s', None) -> kept s s'.
Proof.
  intros (Hb & _ & _ & Hr)%Http.handle_client_fds. split; [done|].
  intros He. by rewrite Hb, He, delete_empty.
Qed.

Lemma process_quiet sp l st h events s :
  Forall (quiet_event st) events ->
  exists s', Http.process_events sp l st h events s = (s', None) /\ kept s s'.
Proof.
  intros Hev. revert s. induction Hev as [|e events (Hst & Hc & Hw) Hev IH]; intros s; [by exists s|].
  cbn [Http.process_events]. destruct (Z.eqb_spec (Http.fd e) st) as [|_]; [done|].
  destruct (Http.fd e =? l).
  - destruct (accept_quiet (Http.clients e) s Hc) as (s1 & -> & Hr1).
    destruct (IH s1) as (s' & Hp & Hr). exists s'. split; [done|]. by etrans.
  - destruct (Http.handle_client_wrote h sp (Http.fd e) (Http.reads e) (Http.written e) s Hw) as [s1 Hh].
    rewrite Hh. destruct (IH s1) as (s' & Hp & Hr).
    exists s'. split; [done|]. etrans; [by eapply handle_kept|done].
Qed.

Lemma run_quiet sp l ep st waits more s :
  Forall (quiet st) waits -> Http.running_ s = true ->
  exists s', Http.running_ s' = true /\ Http.run sp l ep st (waits ++ more) s = Http.run sp l ep st more s'.
Proof.
  intros Hw. revert s. induction Hw as [|[h events] waits Hq Hw IH]; intros s Hr; [by exists s|].
  rewrite <- app_comm_cons. cbn [Http.run]. rewrite Hr.
  destruct (process_quiet sp l st h events s Hq) as (s1 & -> & Hr1 & _). apply IH. congruence.
Qed.

(** The stop event ends the loop, which closes the server's descriptors. *)
Lemma run_stop_event sp l ep st h s :
  Http.running_ s = true ->
  Http.run sp l ep st [(h, [Http.MkEvent st [] (Http.Wrote 0) []])] s =
  (Http.close_server l ep st (set_running false s), None).
Proof. intros Hr. cbn. rewrite Hr, Z.eqb_refl. done. Qed.

Lemma join_stopped sp waits s :
  Http.running_ (io s) = true -> stop_written s = true -> Forall (quiet (stop_fd_ s)) waits ->
  exists i, join sp waits s = (Ok (), MkState (-1) (-1) (-1) (port_ s) i true) /\
    Http.running_ i = false /\
    (listen_fd_ s ∉ Http.open_fds i) /\ (epoll_fd_ s ∉ Http.open_fds i) /\
    (stop_fd_ s ∉ Http.open_fds i).
Proof.
  intros Hr Hst Hw. unfold join. rewrite Hst.
  destruct (run_quiet sp (listen_fd_ s) (epoll_fd_ s) (stop_fd_ s) waits
              [(None, [stop_event s])] (io s) Hw Hr) as (i & Hri & ->).
  unfold stop_event. rewrite run_stop_event by done. cbn.
  eexists. split; [reflexivity|]. split; [done|]. cbn. set_solver.
Qed.

(** Without the write the thread never ends. *)
Lemma join_waits_forever sp waits s :
  Http.running_ (io s) = true -> stop_written s = false -> Forall (quiet (stop_fd_ s)) waits ->
  exists s', join sp waits s = (Halt Blocked, s').
Proof.
  intros Hr Hst Hw. unfold join. rewrite Hst.
  destruct (run_quiet sp (listen_fd_ s) (epoll_fd_ s) (stop_fd_ s) waits [] (io s) Hw Hr) as (i & Hri & ->).
  cbn. rewrite Hri, Hri. eauto.
Qed.

Lemma http_wait_quiet sp w s :
  quiet (stop_fd_ s) w ->
  exists i, http_wait sp w s = (Ok (), set_io (fun _ => i) s) /\ kept (io s) i.
Proof.
  intros Hq. unfold http_wait. destruct (Http.running_ (io s)) eqn:Hr.
  - destruct (process_quiet sp (listen_fd_ s) (stop_fd_ s) w.1 w.2 (io s) Hq) as (i & -> & Hi). by exists i.
  - exists (io s). split; [|done]. by destruct s.
Qed.

Lemma http_waits_quiet sp ws s :
  Forall (quiet (stop_fd_ s)) ws ->
  exists i, http_waits sp ws s = (Ok (), set_io (fun _ => i) s) /\ kept (io s) i.
Proof.
  revert s. induction ws as [|w ws IH]; intros s Hq.
  { exists (io s). by destruct s. }
  apply Forall_cons in Hq as [Hw Hq]. destruct (http_wait_quiet sp w s Hw) as (i & Hi & Hr).
  destruct (IH (set_io (fun _ => i) s) Hq) as (i' & Hi' & Hr'). exists i'. cbn [http_waits].
  unfold mbind, M_bind. rewrite Hi, Hi'. split; [done|]. by etrans.
Qed.

(** A branch of [start] that throws. *)
#[local] Ltac start_throws :=
  eapply start_failed; try done; cbn; try lia; unfold closed; cbn;
  repeat match goal with
  | |- context [0 <=? ?x] => destruct (Z.leb_spec 0 x); try lia
  end; set_solver.

(** [start] either leaves a server that listens, with exactly its listening
    socket and its eventfd registered and running, or throws; and when it
    throws, the destructor closes every descriptor it had opened and no other. *)
Lemma start_spec K port fds sent :
  fresh_fds K fds ->
  match start K (constructed port fds sent) with
  | (Ok _, s) =>
      (0 <= listen_fd_ s /\ 0 <= epoll_fd_ s /\ 0 <= stop_fd_ s) /\
      bind_errno K (htons K port) = 0 /\ listen_ok K = true /\
      io s = Http.MkServer ∅ {[listen_fd_ s; stop_fd_ s]}
               ({[listen_fd_ s; epoll_fd_ s; stop_fd_ s]} ∪ fds) sent true /\
      stop_written s = false
  | (Throw e, s) =>
      (exists what, e = StdException what) /\
      exists i, AsyncHttpServer_dtor s = (Ok (), MkState (-1) (-1) (-1) port i false) /\
        Http.open_fds i = fds /\ Http.running_ i = false
  | (Halt _, _) => False
  end.
Proof.
  intros [(Rs & Re & Rv) Hs [He1 He2] (Hv1 & Hv2 & Hv3)].
  unfold start, epoll_add, throw_if, when, get, modify, throw, mbind, M_bind, mret, M_ret, opened.
  cbn [listen_fd_ epoll_fd_ stop_fd_ port_ set_listen_fd set_io constructed].
  destruct (Z.ltb_spec (socket_fd K) 0); [start_throws|].
  destruct (Z.eqb_spec (bind_errno K (htons K port)) 0) as [Hbind|]; [cbn [negb]|start_throws].
  destruct (listen_ok K) eqn:Hlisten; [cbn [negb]|start_throws].
  cbn [listen_fd_ epoll_fd_ stop_fd_ set_listen_fd set_epoll_fd set_io].
  destruct (Z.ltb_spec (epoll_create1_fd K) 0); [start_throws|].
  destruct (Z.eqb_spec (epoll_ctl_errno K (socket_fd K)) 0); [cbn [negb]|start_throws].
  cbn [listen_fd_ epoll_fd_ stop_fd_ set_listen_fd set_epoll_fd set_stop_fd set_io].
  destruct (Z.ltb_spec (eventfd_fd K) 0); [start_throws|].
  destruct (Z.eqb_spec (epoll_ctl_errno K (eventfd_fd K)) 0); [cbn [negb]|start_throws].
  cbn. split_and!; try done. unfold set_running. cbn. f_equal; set_solver.
Qed.

(** The state [start] returns with. *)
Lemma start_running K s s' :
  start K s = (Ok (), s') -> Http.running_ (io s') = true /\ 0 <= stop_fd_ s' /\ port_ s' = port_ s /\
    stop_written s' = stop_written s.
Proof.
  unfold start, epoll_add, throw_if, when, get, modify, throw, mbind, M_bind, mret, M_ret.
  cbn [listen_fd_ epoll_fd_ stop_fd_ port_ set_listen_fd set_epoll_fd set_stop_fd set_io].
  repeat (case_match; try discriminate); intros [= <-];
    repeat match goal with
    | H : (_, _) = (_, _) |- _ => injection H; clear H; intros; subst
    end; break_bool; cbn in *; try discriminate; done.
Qed.

(** The methods other than [run] come back. *)
Lemma returns_throw_if b what : returns (throw_if b what).
Proof. unfold throw_if. auto with returns. Qed.
#[export] Hint Resolve returns_throw_if : returns.

Lemma returns_epoll_add K fd : returns (epoll_add K fd).
Proof. unfold epoll_add. auto with returns. Qed.
#[export] Hint Resolve returns_epoll_add : returns.

Lemma returns_start K : returns (start K).
Proof. unfold start. auto 20 with returns. Qed.

Lemma returns_stop : returns stop.
Proof. unfold stop. auto with returns. Qed.
#[export] Hint Resolve returns_stop : returns.

Lemma returns_dtor : returns AsyncHttpServer_dtor.
Proof. unfold AsyncHttpServer_dtor, close_fds, close. auto 20 with returns. Qed.

End Srv.

#[export] Existing Instance Srv.kept_preorder.
#[export] Hint Resolve Srv.returns_start Srv.returns_stop Srv.returns_dtor : returns.

(** ** Properties *)

Section Properties.
Import Srv.

(** Shutting down: whatever requests a started server has handled, after
    [stop] the thread that runs it can be joined whatever requests are still to
    come, the server's descriptors are closed, and the destructor has nothing
    left to do; without [stop] the thread is never joined. *)
Theorem server_stops K sp port fds sent s before after :
  start K (constructed port fds sent) = (Ok (), s) ->
  Forall (quiet (stop_fd_ s)) before -> Forall (quiet (stop_fd_ s)) after ->
  (exists i, let s' := MkState (-1) (-1) (-1) port i true in
     (_ ← http_waits sp before; _ ← stop; join sp after) s = (Ok (), s') /\ Http.running_ i = false /\
     (forall fd, fd ∈ [listen_fd_ s; epoll_fd_ s; stop_fd_ s] -> fd ∉ Http.open_fds i) /\
     AsyncHttpServer_dtor s' = (Ok (), s')) /\
  (exists s', (_ ← http_waits sp before; join sp after) s = (Halt Blocked, s')).
Proof.
  intros Hs Hb Ha. apply start_running in Hs as (Hr & Hfd & Hp & Hw). cbn in Hp, Hw.
  destruct (http_waits_quiet sp before s Hb) as (i & Hi & Hri & _). rewrite Hr in Hri.
  unfold mbind, M_bind. rewrite Hi. split.
  - unfold stop, when, get, mbind, M_bind. cbn [stop_fd_ io set_io]. rewrite Hri.
    rewrite (proj2 (Z.leb_le 0 (stop_fd_ s))) by done. cbn.
    destruct (join_stopped sp after (MkState (listen_fd_ s) (epoll_fd_ s) (stop_fd_ s) (port_ s) i true))
      as (i' & Hj & Hr' & Hl & He & Hst); [done..|].
    exists i'. unfold set_io. cbn. rewrite Hj. cbn [port_] in *. rewrite Hp. split; [done|].
    split; [done|]. split.
    + cbn in Hl, He, Hst. intros fd. rewrite !elem_of_cons, elem_of_nil. naive_solver.
    + erewrite dtor_closes; [|done..]. by destruct i'.
  - apply join_waits_forever; [done|by rewrite <- Hw|done].
Qed.

End Properties.

(** ** Witnesses *)

Module ServerWitness.
Import Srv.

(** A kernel that hands out 3, 4 and 5, and one where the port is taken. *)
Definition kernel : Sockets :=
  MkSockets 3 (fun _ => 0) true 4 (fun _ => 0) 5 (fun p => p) (fun _ => lit "error").
Definition busy : Sockets :=
  MkSockets 3 (fun _ => 98) true 4 (fun _ => 0) 5 (fun p => p) (fun _ => lit "Address already in use").

Definition started : State := (start kernel (constructed 9090 {[0; 1; 2]} [])).2.

(** A client that connects, then one that sends garbage. *)
Definition waits : list (Http.RouteHandler * list Http.event) :=
  [(None, [Http.MkEvent 3 [] (Http.Wrote 0) [(7, true)]]); (None, [Http.MkEvent 7 [Http.Eof] (Http.Wrote 0) []])].

End ServerWitness.

Section Witnesses.
Import Srv ServerWitness.

Lemma server_stops_witness :
  exists i, (_ ← http_waits Http.SIG_DFL waits; _ ← stop; join Http.SIG_DFL waits) started =
    (Ok (), MkState (-1) (-1) (-1) 9090 i true) /\ Http.running_ i = false.
Proof.
  assert (Forall (quiet (stop_fd_ started)) waits) as Hq
    by (repeat constructor; vm_compute; congruence).
  destruct (server_stops kernel Http.SIG_DFL 9090 {[0; 1; 2]} [] started waits waits) as [(i & Hi & Hr & _) _];
    [vm_compute; reflexivity|exact Hq|exact Hq|].
  exists i. split; [exact Hi|exact Hr].
Defined.

End Witnesses.
