(* ===== verification/Lifecycle.v ===== *)
(** * Lifecycle: run_monitor and main of src/monitor.cpp

    The whole daemon: objects are loaded, probes attached, the HTTP server and
    its thread started, ring buffers opened, the main loop run and everything
    taken down again, with the destructors of all local objects on every path.
    The server thread runs between the steps of the main thread, one event at a
    time ([Http.run_split]: an [epoll_wait] with several events is as many
    steps), and for /metrics in two steps, as that route takes the lock of the
    [StatsReporter] twice; [ReporterConcurrent] shows that a method of
    [StatsReporter] is one step. *)

From S2P Require Import Prelude Common BpfMaps TcpTracer StatsReporter HttpServer.
From S2P Require Import Metrics Monitor MonitorLoop Effects Loader ServerLifecycle.
From Stdlib Require Import Ascii.

Module Daemon.

(** ** The world *)

(** The signals the program deals with, or should. *)
Inductive signal := SIGINT | SIGTERM | SIGPIPE.

#[export] Instance signal_eq_dec : EqDecision signal.
Proof. solve_decision. Defined.

Record World {FM : Type} := MkWorld {
  bpf : Bpf.State;
  srv : Srv.State;
  glob : Mon.Globals;
  filters : FM;                              (** the BPF map of the tracer *)
  reporter : Reporter.StatsReporter;         (** see [the_reporter] *)
  counted : option Reporter.StatsReporter;   (** see [Count] *)
  disp : signal -> Http.disposition          (** what the process does on a signal *)
}.
Arguments World : clear implicits.

#[export] Instance bpf_part {FM} : Part (World FM) Bpf.State :=
  {| part := bpf; set_part s w := MkWorld _ s (srv w) (glob w) (filters w) (reporter w) (counted w) (disp w) |}.
#[export] Instance srv_part {FM} : Part (World FM) Srv.State :=
  {| part := srv; set_part s w := MkWorld _ (bpf w) s (glob w) (filters w) (reporter w) (counted w) (disp w) |}.
#[export] Instance glob_part {FM} : Part (World FM) Mon.Globals :=
  {| part := glob; set_part s w := MkWorld _ (bpf w) (srv w) s (filters w) (reporter w) (counted w) (disp w) |}.

#[export] Instance bpf_part_laws {FM} : PartLaws (World FM) Bpf.State.
Proof. by split; [|intros []]. Qed.
#[export] Instance srv_part_laws {FM} : PartLaws (World FM) Srv.State.
Proof. by split; [|intros []]. Qed.
#[export] Instance glob_part_laws {FM} : PartLaws (World FM) Mon.Globals.
Proof. by split; [|intros []]. Qed.

(** ** What happens from outside *)

(** Between two steps of the main thread: the server thread deals with an event
    of its [epoll_wait], or a signal arrives.  While it answers a request for
    /metrics it takes the reporter's lock twice: [Count] is the first time, in
    [connection_count]; the second time belongs to the [HttpEvent] that
    follows. *)
Inductive action :=
| HttpEvent (now_ms : Z) (e : Http.event)
| Count
| Interrupt      (** SIGINT *)
| Terminate.     (** SIGTERM *)

(** A sample of a ring buffer, with what happens before the callback runs. *)
Definition sample : Type := list action * list Z.

(** One turn of the main loop: the samples of both polls, what happens before
    the clock is read, and the time it shows (nanoseconds). *)
Record turn := MkTurn {
  tcp_samples : list sample;
  audit_samples : list sample;
  others : list action;
  now : Z
}.

Record Inputs := MkInputs {
  setup : list action;                       (** before the loop *)
  start_time : Z;
  turns : list turn;
  joining : list (Z * Http.event)            (** while the thread is joined *)
}.

Section Daemon.
Context (L : Bpf.Libbpf) (K : Srv.Sockets).
(** [std::system_error] when the thread cannot be created. *)
Context (thread_error : option str).
Context (inet_ntop : Z -> string) (ntohs : Z -> Z).
Context (iter : gmap Reporter.ConnectionKey Reporter.ConnectionStats -> list Reporter.item).
Context `{StdSort}.
Context {FM : Type} `{!ArrayMapOps Z FM}.

#[local] Abbreviation W := (World FM).

Definition on_signal (g : Mon.Globals) : Mon.Globals :=
  Mon.MkGlobals (Mon.g_reporter g) (Mon.g_json g) true (Mon.stdout g) (Mon.stderr g).

Definition on_glob (f : Mon.Globals -> Mon.Globals) : M W () := zoom (modify f).

(** A callback or a report of [Mon]. *)
Definition lift {A} (f : Mon.Globals -> option (A * Mon.Globals)) : M W A := zoom (fun g =>
  match f g with Some (a, g) => (Ok a, g) | None => (Halt Undefined, g) end).

Definition cout (s : str) : M W () := on_glob (Mon.print s).
Definition cerr (s : str) : M W () := on_glob (fun g =>
  Mon.MkGlobals (Mon.g_reporter g) (Mon.g_json g) (Mon.g_stop g) (Mon.stdout g) (Mon.stderr g ++ s)).

(** [g_reporter = &reporter] and [g_reporter = nullptr].  While the pointer is
    set, the value of the local variable is kept with it. *)
Definition the_reporter (w : W) : Reporter.StatsReporter :=
  default (reporter w) (Mon.g_reporter (glob w)).

Definition point (r : option Reporter.StatsReporter) (g : Mon.Globals) : Mon.Globals :=
  Mon.MkGlobals r (Mon.g_json g) (Mon.g_stop g) (Mon.stdout g) (Mon.stderr g).

Definition set_g_reporter : M W () := on_glob (point (Some Reporter.new_reporter)).

Definition reset_g_reporter : M W () := modify (fun w : W =>
  MkWorld FM (bpf w) (srv w) (point None (glob w)) (filters w) (the_reporter w) (counted w) (disp w)).

Definition set_counted (r : option Reporter.StatsReporter) (w : W) : W :=
  MkWorld FM (bpf w) (srv w) (glob w) (filters w) (reporter w) r (disp w).

(** The server's handler: the lambda reads [reporter].  [connection_count] finds
    it now unless it was called before. *)
Definition handler (now_ms : Z) (w : W) : Http.RouteHandler :=
  Some (fun path => Mon.http_route inet_ntop ntohs iter now_ms path
                      (default (the_reporter w) (counted w)) (the_reporter w)).

(** [std::signal(sg, d)]. *)
Definition std_signal (sg : signal) (d : Http.disposition) : M W () := modify (fun w : W =>
  MkWorld FM (bpf w) (srv w) (glob w) (filters w) (reporter w) (counted w)
    (fun x => if decide (x = sg) then d else disp w x)).

(** A signal arrives; the only handler of the program is [on_signal]. *)
Definition raise (sg : signal) : M W () :=
  w ← get;
  match disp w sg with
  | Http.SIG_DFL => halt_with Terminated
  | Http.SIG_IGN => mret ()
  | Http.SIG_HANDLER => on_glob on_signal
  end.

Definition act (a : action) : M W () :=
  match a with
  | HttpEvent now_ms e =>
      w ← get;
      _ ← zoom (Srv.http_wait (disp w SIGPIPE) (handler now_ms w, [e]));
      modify (set_counted None)
  | Count => modify (fun w : W => set_counted (Some (the_reporter w)) w)
  | Interrupt => raise SIGINT
  | Terminate => raise SIGTERM
  end.

Fixpoint acts (l : list action) : M W () :=
  match l with
  | [] => mret ()
  | a :: l => _ ← act a; acts l
  end.

(** ** The main loop *)

Definition on_sample (callback : list Z -> Mon.Globals -> option (Z * Mon.Globals)) (x : sample) : M W Z :=
  _ ← acts x.1; lift (callback x.2).

Definition loop_body (tcp_rb audit_rb : Bpf.BpfRingBuffer) (t : turn) (last_print : Z) : M W Z :=
  _ ← Bpf.poll (on_sample (Mon.handle_tcp_event inet_ntop)) (tcp_samples t) tcp_rb;
  _ ← Bpf.poll (on_sample Mon.handle_syscall_event) (audit_samples t) audit_rb;
  _ ← acts (others t);
  w ← get;
  if negb (Mon.g_json (glob w)) && ((now t - last_print) ÷ 1000000000 >=? Mon.PRINT_INTERVAL_SEC) then
    report ← of_option (Reporter.print_top iter inet_ntop 10 (the_reporter w));
    _ ← cout (lit report);
    mret (now t)
  else mret last_print.

(** At the end of the inputs the loop is still polling. *)
Fixpoint event_loop (tcp_rb audit_rb : Bpf.BpfRingBuffer) (turns : list turn) (last_print : Z) : M W () :=
  w ← get;
  if Mon.g_stop (glob w) then mret () else
  match turns with
  | [] => halt_with Blocked
  | t :: turns =>
      last_print ← loop_body tcp_rb audit_rb t last_print;
      event_loop tcp_rb audit_rb turns last_print
  end.

(** ** run_monitor *)

Definition set_filter (idx val : Z) : M W () := fun w =>
  let '(ok, m) := Tracer.set_filter (filters w) idx val in
  when (negb ok) (cerr (lit "Warning: could not set filter" ++ nl))
    (MkWorld FM (bpf w) (srv w) (glob w) m (reporter w) (counted w) (disp w)).

Definition install_filters (cfg : Mon.Config) (tcp_obj : Bpf.BpfObject) : M W () :=
  let pid := Mon.filter_pid cfg in let port := Mon.filter_port cfg in
  when (negb (pid =? 0) || negb (port =? 0))
    (_ ← zoom (Bpf.find_map L tcp_obj (lit "filters"));
     _ ← when (negb (pid =? 0)) (set_filter 0 pid);
     when (negb (port =? 0)) (set_filter 1 port)).

Definition banner (cfg : Mon.Config) : str :=
  lit "eBPF monitor running. HTTP metrics at http://localhost:" ++ decimal (Mon.http_port cfg) ++
  lit "/metrics" ++ nl ++
  lit "Endpoints: /metrics  /connections  /health" ++ nl ++
  lit "Press Ctrl+C to stop." ++ nl ++
  (if Mon.filter_pid cfg =? 0 then [] else lit "  Filtering PID:  " ++ decimal (Mon.filter_pid cfg) ++ nl) ++
  (if Mon.filter_port cfg =? 0 then [] else lit "  Filtering Port: " ++ decimal (Mon.filter_port cfg) ++ nl).

Definition object (path : string) : (Bpf.BpfObject -> M W ()) -> M W () :=
  raii (zoom (Bpf.BpfObject_ctor L (lit path))) (fun o => zoom (Bpf.BpfObject_dtor o)).

Definition kprobe (obj : Bpf.BpfObject) (func prog : string) : (Bpf.BpfLink -> M W ()) -> M W () :=
  raii (zoom (l ← Bpf.attach_kprobe L obj (lit func) (lit prog); Bpf.BpfLink_ctor l))
       (fun l => zoom (Bpf.BpfLink_dtor l)).

Definition tracepoint (obj : Bpf.BpfObject) (category name prog : string)
    : (Bpf.BpfLink -> M W ()) -> M W () :=
  raii (zoom (l ← Bpf.attach_tracepoint L obj (lit category) (lit name) (lit prog); Bpf.BpfLink_ctor l))
       (fun l => zoom (Bpf.BpfLink_dtor l)).

Definition ring_buffer (obj : Bpf.BpfObject) (map : string) : (Bpf.BpfRingBuffer -> M W ()) -> M W () :=
  raii (zoom (m ← Bpf.find_map L obj (lit map); Bpf.BpfRingBuffer_ctor L m))
       (fun rb => zoom (Bpf.BpfRingBuffer_dtor rb)).

Definition http_server (port : Z) : (() -> M W ()) -> M W () :=
  raii (zoom (Srv.AsyncHttpServer port)) (fun _ => zoom Srv.AsyncHttpServer_dtor).

(** What the thread still handles when nobody else changes the reporter. *)
Definition last_waits (waits : list (Z * Http.event)) (w : W) : list (Http.RouteHandler * list Http.event) :=
  match waits with
  | [] => []
  | x :: waits =>
      (handler x.1 w, [x.2]) :: ((fun x => (handler x.1 (set_counted None w), [x.2])) <$> waits)
  end.

(** [std::jthread]: the destructor joins. *)
Definition join_thread (waits : list (Z * Http.event)) : M W () :=
  w ← get; zoom (Srv.join (disp w SIGPIPE) (last_waits waits w)).

Definition http_thread (waits : list (Z * Http.event)) : (() -> M W ()) -> M W () :=
  raii (match thread_error with Some what => throw (StdException what) | None => mret () end)
       (fun _ => join_thread waits).

(** From the server thread on. *)
Definition serve (cfg : Mon.Config) (inp : Inputs) (tcp_obj audit_obj : Bpf.BpfObject) : M W () :=
  http_thread (joining inp) (fun _ =>
  _ ← cout (banner cfg);
  _ ← acts (setup inp);
  ring_buffer tcp_obj "tcp_events" (fun tcp_rb =>
  ring_buffer audit_obj "syscall_events" (fun audit_rb =>
  _ ← event_loop tcp_rb audit_rb (turns inp) (start_time inp);
  _ ← cout (nl ++ lit "Shutting down." ++ nl);
  _ ← zoom Srv.stop;
  reset_g_reporter))).

Definition run_monitor (cfg : Mon.Config) (inp : Inputs) : M W () :=
  object "bpf/tcp_tracer.bpf.o" (fun tcp_obj =>
  object "bpf/syscall_audit.bpf.o" (fun audit_obj =>
  _ ← install_filters cfg tcp_obj;
  kprobe tcp_obj "tcp_connect" "trace_tcp_connect" (fun tcp_connect_link =>
  kprobe tcp_obj "tcp_close" "trace_tcp_close" (fun tcp_close_link =>
  tracepoint audit_obj "raw_syscalls" "sys_enter" "audit_syscall" (fun audit_link =>
  _ ← set_g_reporter;
  http_server (Mon.http_port cfg) (fun _ =>
  _ ← zoom (Srv.start K);
  serve cfg inp tcp_obj audit_obj)))))).

(** ** main *)

Definition report_exception (e : exn) : M W Z :=
  match e with
  | Error what =>
      _ ← cerr (lit "eBPF error: " ++ what ++ nl);
      _ ← cerr (lit "Tip: run as root (sudo) and ensure BTF is available" ++ nl);
      mret 1
  | StdException what => _ ← cerr (lit "Error: " ++ what ++ nl); mret 1
  end.

(** [parse_args] is called outside the [try]; [what()] of the exceptions of
    [std::stoul] is implementation-defined, libstdc++ says stoul. *)
Definition bad_number : exn := StdException (lit "stoul").

Definition main (opts : list Mon.option_) (inp : Inputs) : M W Z :=
  w ← get;
  match Mon.parse_args opts Mon.default_config (glob w) with
  | inr _ => throw bad_number
  | inl (rc, cfg, g) =>
      _ ← on_glob (fun _ => g);
      if negb (rc =? 0) then mret (if rc <? 0 then 0 else rc)
      else
        _ ← std_signal SIGINT Http.SIG_HANDLER;
        _ ← std_signal SIGTERM Http.SIG_HANDLER;
        try_catch (_ ← run_monitor cfg inp; mret 0) report_exception
  end.

(** ** The main thread and the server thread

    [sim q m w o g]: run from [w], with the handlers installed, [m] ends with [o]
    and leaves the globals [g], whatever the server thread does in between,
    unless the server thread terminates the program; nothing else changes but
    the state of the server, and when its events are as [q] says, it stays as it
    was started. *)

Definition handled (w : W) : Prop := disp w SIGINT = Http.SIG_HANDLER /\ disp w SIGTERM = Http.SIG_HANDLER.

Definition srv_same (w w' : W) : Prop :=
  exists i, srv w' = Srv.set_io (fun _ => i) (srv w) /\ Srv.kept (Srv.io (srv w)) i.

Definition sim {A} (q : Z -> Prop) (m : M W A) (w : W) (o : outcome A) (g : Mon.Globals) : Prop :=
  handled w ->
  wp m (fun o' w' =>
    bpf w' = bpf w /\ filters w' = filters w /\ reporter w' = reporter w /\ disp w' = disp w /\
    (o' = o /\ glob w' = g \/ o' = Halt Terminated) /\
    (q (Srv.stop_fd_ (srv w)) -> o' = o /\ srv_same w w')) w.

Definition quiet_action (st : Z) (a : action) : Prop :=
  match a with HttpEvent _ e => Srv.quiet_event st e | _ => True end.

Definition quiet_sample (st : Z) (x : sample) : Prop := Forall (quiet_action st) x.1.

Definition quiet_turn (st : Z) (t : turn) : Prop :=
  Forall (quiet_sample st) (tcp_samples t) /\ Forall (quiet_sample st) (audit_samples t) /\
  Forall (quiet_action st) (others t).

(** The signals among the actions. *)
Definition is_signal (a : action) : bool :=
  match a with Interrupt | Terminate => true | _ => false end.

Definition signals (l : list action) (g : Mon.Globals) : Mon.Globals :=
  if existsb is_signal l then on_signal g else g.

Lemma srv_same_refl w : srv_same w w.
Proof. exists (Srv.io (srv w)). by destruct (srv w). Qed.

Lemma srv_same_trans w1 w2 w3 : srv_same w1 w2 -> srv_same w2 w3 -> srv_same w1 w3.
Proof.
  intros (i & Hi & Hr) (j & Hj & Hs). exists j. rewrite Hj, Hi. split; [done|].
  rewrite Hi in Hs. etrans; [exact Hr|exact Hs].
Qed.

Lemma srv_same_stop w w' : srv_same w w' -> Srv.stop_fd_ (srv w') = Srv.stop_fd_ (srv w).
Proof. by intros (i & -> & _). Qed.

Lemma sim_weaken {A} (q q' : Z -> Prop) (m : M W A) w o g :
  sim q m w o g -> (forall st, q' st -> q st) -> sim q' m w o g.
Proof.
  intros Hm Hq Hh. eapply wp_mono; [exact (Hm Hh)|]. cbn. intros o' w' (? & ? & ? & ? & ? & Hs). auto 10.
Qed.

Lemma sim_ret {A} q (a : A) w : sim q (mret a) w (Ok a) (glob w).
Proof. intros Hh. apply wp_ret. split_and!; auto. intros _. split; [done|apply srv_same_refl]. Qed.

Lemma sim_halt {A} q h w : sim q (halt_with h : M W A) w (Halt h) (glob w).
Proof. intros Hh. unfold wp. cbn. split_and!; auto. intros _. split; [done|apply srv_same_refl]. Qed.

Lemma sim_bind {A B} q (m : M W A) (k : A -> M W B) w a g o g' :
  sim q m w (Ok a) g ->
  (forall w', glob w' = g -> bpf w' = bpf w -> sim q (k a) w' o g') ->
  sim q (m ≫= k) w o g'.
Proof.
  intros Hm Hk Hh. apply wp_bind. eapply wp_mono; [exact (Hm Hh)|].
  intros o1 w1 (Hb & Hf & Hr & Hd & [[-> Hg]| ->] & Hq); unfold then_.
  - eapply wp_mono; [apply Hk; [done|done|unfold handled in *; by rewrite Hd]|].
    intros o2 w2 (Hb2 & Hf2 & Hr2 & Hd2 & Ho & Hq2).
    split_and!; try congruence. intros H1. destruct (Hq H1) as [_ Hs1].
    rewrite (srv_same_stop _ _ Hs1) in Hq2. destruct (Hq2 H1) as [-> Hs2].
    split; [done|]. by eapply srv_same_trans.
  - split_and!; auto. intros H1. destruct (Hq H1) as [[=] _].
Qed.

Lemma sim_glob q f w : sim q (on_glob f) w (Ok ()) (f (glob w)).
Proof.
  intros Hh. unfold on_glob, wp. cbn. split_and!; auto. intros _. split; [done|].
  exists (Srv.io (srv w)). by destruct (srv w).
Qed.

Lemma sim_get {A} q (k : W -> M W A) w o g : sim q (k w) w o g -> sim q (get ≫= k) w o g.
Proof. done. Qed.

Lemma sim_lift {A} q (f : Mon.Globals -> option (A * Mon.Globals)) w a g :
  f (glob w) = Some (a, g) -> sim q (lift f) w (Ok a) g.
Proof.
  intros Hf Hh. unfold lift, zoom, wp. cbn. rewrite Hf. cbn. split_and!; auto.
  intros _. split; [done|]. exists (Srv.io (srv w)). by destruct (srv w).
Qed.

Lemma sim_raise q sg w :
  disp w sg = Http.SIG_HANDLER -> sim q (raise sg) w (Ok ()) (on_signal (glob w)).
Proof. intros Hd. unfold raise. apply sim_get. rewrite Hd. apply sim_glob. Qed.

Lemma sim_event now_ms e w :
  sim (fun st => Srv.quiet_event st e) (act (HttpEvent now_ms e)) w (Ok ()) (glob w).
Proof.
  intros Hh. unfold act, wp, mbind, M_bind, get, zoom, part, srv_part.
  destruct (Srv.http_wait (disp w SIGPIPE) (handler now_ms w, [e]) (srv w)) as [o s] eqn:He.
  assert (o = Ok () \/ o = Halt Terminated) as Ho.
  { unfold Srv.http_wait in He. destruct (Http.running_ _); [|injection He as <- <-; auto].
    destruct (Http.process_events _ _ _ _ _ _) as [i [err|]]; injection He as <- <-; auto. }
  assert (Srv.quiet_event (Srv.stop_fd_ (srv w)) e -> o = Ok () /\
    exists i, s = Srv.set_io (fun _ => i) (srv w) /\ Srv.kept (Srv.io (srv w)) i) as Hq.
  { intros Hq. destruct (Srv.http_wait_quiet (disp w SIGPIPE) (handler now_ms w, [e]) (srv w)) as (i & Hi & Hr);
      [by apply Forall_singleton|]. rewrite Hi in He. injection He as <- <-. eauto. }
  destruct Ho as [-> | ->]; cbn; split_and!; auto; intros [Hok Hi]%Hq; done.
Qed.

Lemma sim_act a w : sim (fun st => quiet_action st a) (act a) w (Ok ()) (signals [a] (glob w)).
Proof.
  destruct a as [now_ms e| | |]; intros Hh.
  - by apply sim_event.
  - cbn. split_and!; auto. intros _. split; [done|]. exists (Srv.io (srv w)). by destruct w as [b []].
  - exact (sim_raise (fun _ => True) SIGINT w (proj1 Hh) Hh).
  - exact (sim_raise (fun _ => True) SIGTERM w (proj2 Hh) Hh).
Qed.

Lemma signals_cons a l g : signals l (signals [a] g) = signals (a :: l) g.
Proof. destruct a; try done; unfold signals; cbn; by destruct (existsb _ _). Qed.

Lemma sim_acts l w : sim (fun st => Forall (quiet_action st) l) (acts l) w (Ok ()) (signals l (glob w)).
Proof.
  revert w. induction l as [|a l IH]; intros w; [apply sim_ret|].
  cbn [acts]. eapply sim_bind.
  - eapply sim_weaken; [apply sim_act|]. intros st Hq. by apply Forall_cons in Hq as [? _].
  - intros w' Hg _. eapply sim_weaken; [rewrite <- signals_cons, <- Hg; apply IH|].
    intros st Hq. by apply Forall_cons in Hq as [_ ?].
Qed.

(** *** Samples *)

(** A callback that returns 0 and neither reads nor writes [g_stop]. *)
Definition ignores_stop (callback : list Z -> Mon.Globals -> option (Z * Mon.Globals)) : Prop :=
  forall data g rc g', callback data g = Some (rc, g') ->
    rc = 0 /\ callback data (on_signal g) = Some (rc, on_signal g').

Lemma ignores_stop_tcp : ignores_stop (Mon.handle_tcp_event inet_ntop).
Proof.
  intros data g rc g'. unfold Mon.handle_tcp_event, on_signal. cbn [Mon.g_json].
  destruct (tcp_event_of_bytes data) as [ev|]; cbn [mbind option_bind]; [|done].
  destruct (Mon.g_json g); [destruct (Mon.json_line inet_ntop ev); cbn [mbind option_bind]; [|done]|];
    by intros [= <- <-].
Qed.

Lemma ignores_stop_audit : ignores_stop Mon.handle_syscall_event.
Proof.
  intros data g rc g'. unfold Mon.handle_syscall_event, on_signal.
  destruct (syscall_event_of_bytes data) as [ev|]; cbn [mbind option_bind]; [|done].
  destruct (Mon.print_comm _); cbn [mbind option_bind]; [|done]. by intros [= <- <-].
Qed.

Lemma signals_app l k g : signals k (signals l g) = signals (l ++ k) g.
Proof. unfold signals. rewrite existsb_app. by destruct (existsb _ l), (existsb _ k). Qed.

Lemma callback_signals callback l data g rc g' :
  ignores_stop callback -> callback data g = Some (rc, g') ->
  rc = 0 /\ callback data (signals l g) = Some (rc, signals l g').
Proof.
  intros Hc Hd. destruct (Hc _ _ _ _ Hd) as [-> Hs]. split; [done|]. unfold signals.
  by destruct (existsb _ _).
Qed.

Lemma poll_signals callback l samples g g' :
  ignores_stop callback -> Mon.poll callback samples g = Some g' ->
  Mon.poll callback samples (signals l g) = Some (signals l g').
Proof.
  intros Hc. revert g. induction samples as [|x samples IH]; intros g; cbn [Mon.poll].
  { by intros [= <-]. }
  destruct (callback x g) as [[rc g1]|] eqn:Hx; [|done]. cbn [mbind option_bind].
  destruct (callback_signals _ l _ _ _ _ Hc Hx) as [_ ->]. apply IH.
Qed.

Lemma sim_on_sample callback x w rc g :
  ignores_stop callback -> callback x.2 (glob w) = Some (rc, g) ->
  sim (fun st => quiet_sample st x) (on_sample callback x) w (Ok rc) (signals x.1 g).
Proof.
  intros Hc Hx. destruct (callback_signals _ x.1 _ _ _ _ Hc Hx) as [_ Hx'].
  eapply sim_bind; [eapply sim_weaken; [apply sim_acts|by intros st Hq]|].
  intros w1 Hg _. apply sim_lift. rewrite Hg. exact Hx'.
Qed.

Lemma sim_consume callback samples n w g' :
  ignores_stop callback -> Mon.poll callback samples.*2 (glob w) = Some g' ->
  sim (fun st => Forall (quiet_sample st) samples) (Bpf.consume (on_sample callback) samples n) w
    (Ok (n + Z.of_nat (length samples))) (signals (mjoin samples.*1) g').
Proof.
  intros Hc. revert n w g'. induction samples as [|[l data] samples IH]; intros n w g'.
  { intros [= <-]. rewrite Z.add_0_r. apply sim_ret. }
  rewrite !fmap_cons. cbn [Mon.poll snd fst Bpf.consume].
  destruct (callback data (glob w)) as [[rc g1]|] eqn:Hx; [|done]. cbn [mbind option_bind].
  intros Hp. destruct (callback_signals _ l _ _ _ _ Hc Hx) as [-> _].
  eapply sim_bind.
  - eapply sim_weaken; [by apply (sim_on_sample _ (l, data) _ 0 g1)|].
    intros st Hq. by apply Forall_cons in Hq as [Hq _].
  - intros w1 Hg _. change (0 <? 0) with false. cbv iota.
    apply (poll_signals _ l) in Hp; [|done]. cbn [fst] in Hg. rewrite <- Hg in Hp.
    eapply sim_weaken; [|intros st Hq; apply Forall_cons in Hq as [_ Hq]; exact Hq].
    replace (n + Z.of_nat (length ((l, data) :: samples)))
      with (n + 1 + Z.of_nat (length samples)) by (cbn [length]; lia).
    change (mjoin (l :: samples.*1)) with (l ++ mjoin samples.*1).
    rewrite <- signals_app. by apply IH.
Qed.

(** When nothing but signals comes between, only the globals change. *)
Lemma acts_signals l w :
  handled w -> Forall (fun a => is_signal a = true) l ->
  acts l w = (Ok (), set_part (signals l (glob w)) w).
Proof.
  intros Hh Hl. revert w Hh. induction Hl as [|a l Ha Hl IH]; intros w Hh; [by destruct w|].
  assert (act a w = (Ok (), set_part (signals [a] (glob w)) w)) as Hact.
  { destruct Hh as [H1 H2]. destruct a; try done; cbn [act]; unfold raise, get, mbind, M_bind;
      rewrite ?H1, ?H2; by destruct w. }
  cbn [acts]. unfold mbind, M_bind. rewrite Hact, IH by done. cbn. by rewrite signals_cons.
Qed.

Lemma consume_signals callback samples n w g' :
  ignores_stop callback -> Mon.poll callback samples.*2 (glob w) = Some g' ->
  handled w -> Forall (fun x => Forall (fun a => is_signal a = true) x.1) samples ->
  Bpf.consume (on_sample callback) samples n w =
    (Ok (n + Z.of_nat (length samples)), set_part (signals (mjoin samples.*1) g') w).
Proof.
  intros Hc Hp Hh Hl. revert n w g' Hp Hh. induction Hl as [|[l data] samples Ha Hl IH]; intros n w g' Hp Hh.
  { injection Hp as <-. rewrite Z.add_0_r. by destruct w. }
  rewrite !fmap_cons in *. cbn [Mon.poll snd fst Bpf.consume] in *.
  destruct (callback data (glob w)) as [[rc g1]|] eqn:Hx; [|done]. cbn [mbind option_bind] in Hp.
  destruct (callback_signals _ l _ _ _ _ Hc Hx) as [-> Hx'].
  assert (on_sample callback (l, data) w = (Ok 0, set_part (signals l g1) w)) as Hw.
  { unfold on_sample, lift, zoom, mbind, M_bind. cbn [fst snd]. rewrite acts_signals by done. cbn. by rewrite Hx'. }
  unfold mbind, M_bind. rewrite Hw. change (0 <? 0) with false. cbv iota.
  set (w1 := set_part (signals l g1) w). apply (poll_signals _ l) in Hp; [|done].
  rewrite (IH _ w1 (signals l g') Hp) by done.
  change (mjoin (l :: samples.*1)) with (l ++ mjoin samples.*1). rewrite <- signals_app.
  f_equal. f_equal. cbn [length]. lia.
Qed.

(** *** The loop is that of [Mon], with the server thread in between *)

Definition turn_actions (t : turn) : list action :=
  mjoin (tcp_samples t).*1 ++ mjoin (audit_samples t).*1 ++ others t.

Definition main_turn (t : turn) : Mon.turn :=
  Mon.MkTurn (tcp_samples t).*2 (audit_samples t).*2 (now t) (existsb is_signal (turn_actions t)).

Section Rings.
Context (tcp_rb audit_rb : Bpf.BpfRingBuffer) (x y : Bpf.resource).
Context (Hx : Bpf.rb_ tcp_rb = Some x) (Hy : Bpf.rb_ audit_rb = Some y).

Lemma sim_poll {A} q (callback : A -> M W Z) samples rb r w o g :
  Bpf.rb_ rb = Some r -> r ∈ Bpf.live (bpf w) ->
  sim q (Bpf.consume callback samples 0) w o g -> sim q (Bpf.poll callback samples rb) w o g.
Proof. intros Hr Hin Hm Hh. unfold wp. rewrite (Bpf.poll_live callback samples rb r w) by done. by apply Hm. Qed.

Lemma sim_loop_body t last w last' g' :
  x ∈ Bpf.live (bpf w) -> y ∈ Bpf.live (bpf w) ->
  Mon.loop_turn inet_ntop iter (main_turn t) last (glob w) = Some (last', g') ->
  sim (fun st => quiet_turn st t) (loop_body tcp_rb audit_rb t last) w (Ok last') g'.
Proof.
  intros Hxl Hyl. unfold Mon.loop_turn, main_turn, loop_body.
  cbn [Mon.tcp_samples Mon.audit_samples Mon.now Mon.signalled].
  destruct (Mon.poll _ (tcp_samples t).*2 _) as [g1|] eqn:H1; cbn [mbind option_bind]; [|done].
  destruct (Mon.poll _ (audit_samples t).*2 g1) as [g2|] eqn:H2; cbn [mbind option_bind]; [|done].
  intros Hrest. eapply sim_bind.
  { eapply sim_poll; [done|done|].
    eapply sim_weaken; [apply sim_consume; [apply ignores_stop_tcp|exact H1]|]. by intros st (? & _). }
  intros w1 Hg1 Hb1.
  apply (poll_signals _ (mjoin (tcp_samples t).*1) _ _ _ ignores_stop_audit) in H2. rewrite <- Hg1 in H2.
  eapply sim_bind.
  { eapply sim_poll; [done|by rewrite Hb1|].
    eapply sim_weaken; [apply sim_consume; [apply ignores_stop_audit|exact H2]|]. by intros st (_ & ? & _). }
  intros w2 Hg2 Hb2. rewrite signals_app in Hg2. eapply sim_bind.
  { eapply sim_weaken; [apply sim_acts|]. by intros st (_ & _ & ?). }
  intros w3 Hg3 Hb3. apply sim_get. rewrite Hg2, signals_app, <- app_assoc in Hg3.
  fold (turn_actions t) in Hg3.
  assert (glob w3 = Mon.MkGlobals (Mon.g_reporter g2) (Mon.g_json g2)
    (Mon.g_stop g2 || existsb is_signal (turn_actions t)) (Mon.stdout g2) (Mon.stderr g2)) as Hg.
  { rewrite Hg3. unfold signals, on_signal. destruct (existsb _ _); [by rewrite orb_true_r|].
    rewrite orb_false_r. by destruct g2. }
  rewrite <- Hg in Hrest. unfold the_reporter. destruct (negb (Mon.g_json (glob w3)) && _).
  - destruct (Mon.g_reporter (glob w3)) as [r|] eqn:Hr; [|done].
    change (default (reporter w3) (Some r)) with r.
    destruct (Reporter.print_top iter inet_ntop 10 r) as [report|]; [|done].
    cbn [mbind option_bind] in Hrest. injection Hrest as <- <-.
    eapply sim_bind; [apply sim_ret|]. intros w4 Hg4 _. rewrite <- Hg4.
    eapply sim_bind; [apply sim_glob|]. intros w5 Hg5 _. rewrite <- Hg5. apply sim_ret.
  - injection Hrest as <- <-. apply sim_ret.
Qed.

Lemma sim_event_loop turns last w last' g' :
  x ∈ Bpf.live (bpf w) -> y ∈ Bpf.live (bpf w) ->
  Mon.main_loop inet_ntop iter (main_turn <$> turns) last (glob w) = Some (last', g') ->
  sim (fun st => Forall (quiet_turn st) turns) (event_loop tcp_rb audit_rb turns last) w
    (if Mon.g_stop g' then Ok () else Halt Blocked) g'.
Proof.
  revert last w. induction turns as [|t turns IH]; intros last w Hxl Hyl Hm; apply sim_get;
    destruct (Mon.g_stop (glob w)) eqn:Hs; rewrite ?fmap_cons in Hm; cbn [fmap list_fmap Mon.main_loop] in Hm;
    rewrite Hs in Hm.
  - injection Hm as <- <-. rewrite Hs. apply sim_ret.
  - injection Hm as <- <-. rewrite Hs. apply sim_halt.
  - injection Hm as <- <-. rewrite Hs. apply sim_ret.
  - destruct (Mon.loop_turn _ _ _ _ _) as [[last1 g1]|] eqn:Ht; [|done]. cbn [mbind option_bind] in Hm.
    eapply sim_bind.
    + eapply sim_weaken; [by apply sim_loop_body|]. intros st Hq. by apply Forall_cons in Hq as [? _].
    + intros w1 Hg1 Hb1. eapply sim_weaken; [apply IH; [by rewrite Hb1..|by rewrite Hg1]|].
      intros st Hq. by apply Forall_cons in Hq as [_ ?].
Qed.

End Rings.

(** ** Ownership of the BPF objects *)

Definition reporting (w : W) : Prop := is_Some (Mon.g_reporter (glob w)) /\ handled w.

(** The samples are events. *)
Definition fed (ts : list turn) (fs : list Loop.feed) : Prop :=
  main_turn <$> ts = Loop.turn_of <$> fs /\ Forall Loop.ok_feed fs.

Section Safety.
Context (need : list Bpf.resource).

Lemma safe_sim {A} P (m : M W A) (Q : A -> W -> Prop) :
  (forall w, P w -> handled w) ->
  (forall w, need ⊆ Bpf.live (bpf w) -> P w -> exists o g, sim (fun _ => False) m w o g /\
     o <> Halt Undefined /\ forall a, o = Ok a -> forall w', handled w' -> glob w' = g -> Q a w') ->
  Bpf.safe L need P m Q.
Proof.
  intros HPh Hm w Hwf Hneed HP. destruct (Hm w Hneed HP) as (o & g & Hsim & Hu & HQ).
  eapply wp_mono; [exact (Hsim (HPh w HP))|]. intros o' w' (Hb & _ & _ & Hd & Ho & _). cbn.
  split; [destruct Ho as [[-> _]| ->]; congruence|]. split.
  - intros Hf. split; cbn; rewrite Hb; [done|]. exists []. split; [|done]. by destruct o'; [|left|].
  - intros a ->. destruct Ho as [[<- Hg]|[=]]. apply (HQ a); [done| |done].
    unfold handled. rewrite Hd. by apply HPh.
Qed.

Lemma safe_srv {A} (P : W -> Prop) (m : M Srv.State A) :
  (forall (s : Srv.State) (w : W), P w -> P (set_part s w)) -> returns m ->
  Bpf.safe L need P (zoom m) (fun _ => P).
Proof.
  intros HP Hm. apply Bpf.safe_other. intros w Hw. apply wp_zoom. unfold wp.
  specialize (Hm (part w) Undefined). destruct (m (part w)) as [o s]. split; [done|]. split; [done|].
  intros _ _. by apply HP.
Qed.

Lemma safe_glob (P : W -> Prop) f (Q : W -> Prop) :
  (forall w, P w -> Q (set_part (f (glob w)) w)) -> Bpf.safe L need P (on_glob f) (fun _ => Q).
Proof. intros HQ. apply Bpf.safe_other. intros w Hw. cbn. split_and!; try done. intros _ _. by apply HQ. Qed.

Lemma safe_cout (P : W -> Prop) s :
  (forall g (w : W), Mon.g_reporter g = Mon.g_reporter (glob w) -> P w -> P (set_part g w)) ->
  Bpf.safe L need P (cout s) (fun _ => P).
Proof. intros HP. apply safe_glob. intros w Hw. by apply HP. Qed.

Lemma safe_acts l : Bpf.safe L need reporting (acts l) (fun _ => reporting).
Proof.
  apply safe_sim; [by intros w [_ Hh]|]. intros w _ [HP _].
  do 2 eexists. split; [eapply sim_weaken; [apply sim_acts|done]|].
  split; [done|]. intros _ _ w' Hh Hg. split; [|done]. rewrite Hg. unfold signals. by destruct (existsb _ _).
Qed.

Lemma safe_event_loop tcp_rb audit_rb x y ts fs last :
  Bpf.rb_ tcp_rb = Some x -> Bpf.rb_ audit_rb = Some y -> x ∈ need -> y ∈ need -> fed ts fs ->
  Bpf.safe L need reporting (event_loop tcp_rb audit_rb ts last) (fun _ _ => True).
Proof.
  intros Hx Hy Hxn Hyn [Hts Hfs]. apply safe_sim; [by intros w [_ Hh]|]. intros w Hneed [[r Hr] _].
  assert (exists last' g', Mon.main_loop inet_ntop iter (main_turn <$> ts) last (glob w) = Some (last', g'))
    as (last' & g' & Hm).
  { rewrite Hts. destruct (Mon.g_stop (glob w)) eqn:Hs.
    - rewrite Loop.main_loop_stopped by done. eauto.
    - destruct (Loop.main_loop_spec inet_ntop iter fs last (glob w) r Hfs Hr Hs) as (? & ? & -> & _). eauto. }
  do 2 eexists. split; [eapply sim_weaken; [|by intros ?]|].
  { apply (sim_event_loop tcp_rb audit_rb x y Hx Hy ts last w last' g'); [by apply Hneed..|exact Hm]. }
  by split; [destruct (Mon.g_stop g')|].
Qed.

Lemma safe_install_filters cfg obj x :
  Bpf.obj_ obj = Some x -> x ∈ need ->
  Bpf.safe L need handled (install_filters cfg obj) (fun _ => handled).
Proof.
  intros Ho Hx. assert (forall i v, Bpf.safe L need handled (set_filter i v) (fun _ => handled)) as Hset.
  { intros i v. apply Bpf.safe_other. intros w Hw. unfold set_filter, wp.
    destruct (Tracer.set_filter (filters w) i v) as [[] m]; by cbn. }
  assert (forall (b : bool) i v, Bpf.safe L need handled (when b (set_filter i v)) (fun _ => handled)) as Hwhen.
  { intros [] i v; [apply Hset|by apply Bpf.safe_ret]. }
  unfold install_filters, when at 1. destruct (negb _ || negb _); [|by apply Bpf.safe_ret].
  eapply Bpf.safe_bind; [by apply (Bpf.safe_find_map L need handled obj x)|]. intros ?.
  eapply Bpf.safe_bind; [apply Hwhen|]. intros ?. apply Hwhen.
Qed.

End Safety.

Lemma join_defined sp waits s : (Srv.join sp waits s).1 <> Halt Undefined.
Proof. unfold Srv.join. by repeat case_match. Qed.

Lemma safe_join need P waits : Bpf.safe L need P (join_thread waits) (fun _ _ => True).
Proof.
  apply Bpf.safe_other. intros w _. unfold join_thread. wp_steps. unfold wp.
  pose proof (join_defined (disp w SIGPIPE) (last_waits waits w) (part w)) as Hj.
  cbn in *. by destruct (Srv.join _ _ _).
Qed.

Lemma safe_serve need cfg inp fs tcp_obj audit_obj x y :
  Bpf.obj_ tcp_obj = Some x -> Bpf.obj_ audit_obj = Some y -> x ∈ need -> y ∈ need ->
  fed (turns inp) fs ->
  Bpf.safe L need reporting (serve cfg inp tcp_obj audit_obj) (fun _ _ => True).
Proof.
  intros Hx Hy Hxn Hyn Hfs. unfold serve, http_thread.
  apply (Bpf.safe_scope L _ _ _ _ _ (fun _ => reporting) (fun _ _ => True)); [|intros _|intros _|intros _ _];
    [|..|apply safe_join|apply safe_join].
  { destruct thread_error; [|by apply Bpf.safe_ret]. apply Bpf.safe_other. intros w Hw. by apply wp_throw. }
  eapply Bpf.safe_bind; [by apply safe_cout; intros g w Hg; unfold reporting; cbn; rewrite Hg|intros ?].
  eapply Bpf.safe_bind; [apply safe_acts|intros ?]. unfold ring_buffer.
  eapply Bpf.safe_raii; [apply _|done|by apply (Bpf.acquires_ring L _ reporting) with (x := x)
                        |by apply Bpf.releases_ring|intros tcp_rb rx Hrx].
  eapply Bpf.safe_raii; [apply _|done|apply (Bpf.acquires_ring L _ reporting) with (x := y); [done|done|by right]
                        |by apply Bpf.releases_ring|intros audit_rb ry Hry].
  eapply Bpf.safe_bind;
    [apply (safe_event_loop _ tcp_rb audit_rb rx ry (turns inp) fs); try done; set_solver|intros ?].
  eapply Bpf.safe_bind; [by apply (safe_cout _ (fun _ => True))|intros ?].
  eapply Bpf.safe_bind; [apply (safe_srv _ (fun _ => True)); auto with returns|intros ?].
  by apply Bpf.safe_other.
Qed.

Lemma safe_run_monitor cfg inp fs :
  fed (turns inp) fs -> Bpf.safe L [] handled (run_monitor cfg inp) (fun _ _ => True).
Proof.
  intros Hfs. unfold run_monitor, object, kprobe, tracepoint, http_server.
  eapply Bpf.safe_raii; [apply _|done|by apply (Bpf.acquires_object L _ handled)
                        |apply Bpf.releases_object|intros tcp_obj x Hx].
  eapply Bpf.safe_raii; [apply _|done|by apply (Bpf.acquires_object L _ handled)
                        |apply Bpf.releases_object|intros audit_obj y Hy].
  eapply Bpf.safe_bind; [apply (safe_install_filters _ cfg tcp_obj x); [done|set_solver]|intros ?].
  eapply Bpf.safe_raii; [apply _|done|apply (Bpf.acquires_kprobe L _ handled) with (x := x); [done|done|set_solver]
                        |apply Bpf.releases_link|intros link1 l1 _].
  eapply Bpf.safe_raii; [apply _|done|apply (Bpf.acquires_kprobe L _ handled) with (x := x); [done|done|set_solver]
                        |apply Bpf.releases_link|intros link2 l2 _].
  eapply Bpf.safe_raii; [apply _|done|apply (Bpf.acquires_tracepoint L _ handled) with (x := y); [done|done|set_solver]
                        |apply Bpf.releases_link|intros link3 l3 _].
  eapply Bpf.safe_bind; [by apply (safe_glob _ handled _ reporting); intros w Hh; split; [eexists|]|intros ?].
  apply (Bpf.safe_scope L _ _ _ _ _ (fun _ => reporting) (fun _ _ => True)); [|intros ?..|intros ? ?];
    [|..|by apply (safe_srv _ (fun _ => True)); auto with returns
        |by apply (safe_srv _ (fun _ => True)); auto with returns].
  { by apply safe_srv. }
  eapply Bpf.safe_bind; [apply safe_srv; auto with returns|intros ?].
  apply (safe_serve _ cfg inp fs tcp_obj audit_obj x y); try done; set_solver.
Qed.

(** ** Set-up, step by step *)

(** A world with another libbpf state. *)
Definition with_bpf (s : Bpf.State) (w : W) : W := set_part s w.

Definition push (r : Bpf.resource) (s : Bpf.State) : Bpf.State :=
  Bpf.MkState (r :: Bpf.live s) (S (Bpf.next_id s)).

Definition fresh (w : W) : nat := Bpf.next_id (bpf w).

Lemma wp_object path body Q w :
  Bpf.open_ok L (lit path) = true -> Bpf.load_err L (lit path) = 0 ->
  (forall o, Bpf.obj_ o = Some (Bpf.Object (fresh w) (lit path)) ->
     wp (body o) (leaving (zoom (Bpf.BpfObject_dtor o)) Q)
        (with_bpf (push (Bpf.Object (fresh w) (lit path)) (bpf w)) w)) ->
  wp (object path body) Q w.
Proof.
  intros Ho Hl Hb. unfold object. apply wp_raii, wp_zoom.
  unfold wp, Bpf.BpfObject_ctor, Bpf.bpf_object__open, Bpf.bpf_object__load, Bpf.allocate, Bpf.use,
    mbind, M_bind. rewrite Ho. cbn. rewrite decide_True by left. rewrite Hl. by apply Hb.
Qed.

Lemma wp_kprobe obj x func prog body Q w :
  Bpf.obj_ obj = Some x -> x ∈ Bpf.live (bpf w) ->
  Bpf.has_program L (Bpf.object_path x) (lit prog) = true -> Bpf.kprobe_ok L (lit prog) (lit func) = true ->
  (forall l, Bpf.link_ l = Some (Bpf.Link (fresh w) (lit prog)) ->
     wp (body l) (leaving (zoom (Bpf.BpfLink_dtor l)) Q)
        (with_bpf (push (Bpf.Link (fresh w) (lit prog)) (bpf w)) w)) ->
  wp (kprobe obj func prog body) Q w.
Proof.
  intros Hx Hin Hp Hk Hb. unfold kprobe. apply wp_raii, wp_zoom.
  unfold wp, Bpf.attach_kprobe, Bpf.get_obj, Bpf.bpf_object__find_program_by_name,
    Bpf.bpf_program__attach_kprobe, Bpf.allocate, Bpf.use, Bpf.BpfLink_ctor, mbind, M_bind, of_option.
  rewrite Hx. cbn. rewrite decide_True, Hp by done. cbn. rewrite decide_True, Hk by done. by apply Hb.
Qed.

Lemma wp_tracepoint obj x category name prog body Q w :
  Bpf.obj_ obj = Some x -> x ∈ Bpf.live (bpf w) ->
  Bpf.has_program L (Bpf.object_path x) (lit prog) = true ->
  Bpf.tracepoint_ok L (lit prog) (lit category) (lit name) = true ->
  (forall l, Bpf.link_ l = Some (Bpf.Link (fresh w) (lit prog)) ->
     wp (body l) (leaving (zoom (Bpf.BpfLink_dtor l)) Q)
        (with_bpf (push (Bpf.Link (fresh w) (lit prog)) (bpf w)) w)) ->
  wp (tracepoint obj category name prog body) Q w.
Proof.
  intros Hx Hin Hp Hk Hb. unfold tracepoint. apply wp_raii, wp_zoom.
  unfold wp, Bpf.attach_tracepoint, Bpf.get_obj, Bpf.bpf_object__find_program_by_name,
    Bpf.bpf_program__attach_tracepoint, Bpf.allocate, Bpf.use, Bpf.BpfLink_ctor, mbind, M_bind, of_option.
  rewrite Hx. cbn. rewrite decide_True, Hp by done. cbn. rewrite decide_True, Hk by done. by apply Hb.
Qed.

Lemma wp_ring obj x map body Q w :
  Bpf.obj_ obj = Some x -> x ∈ Bpf.live (bpf w) ->
  Bpf.has_map L (Bpf.object_path x) (lit map) = true -> Bpf.ring_ok L (lit map) = true ->
  (forall rb, Bpf.rb_ rb = Some (Bpf.Ring (fresh w) (lit map)) ->
     wp (body rb) (leaving (zoom (Bpf.BpfRingBuffer_dtor rb)) Q)
        (with_bpf (push (Bpf.Ring (fresh w) (lit map)) (bpf w)) w)) ->
  wp (ring_buffer obj map body) Q w.
Proof.
  intros Hx Hin Hm Hr Hb. unfold ring_buffer. apply wp_raii, wp_zoom.
  unfold wp, Bpf.find_map, Bpf.get_obj, Bpf.bpf_object__find_map_by_name, Bpf.BpfRingBuffer_ctor,
    Bpf.ring_buffer__new, Bpf.allocate, Bpf.use, mbind, M_bind, of_option.
  rewrite Hx. cbn. rewrite decide_True, Hm by done. cbn. rewrite decide_True, Hr by done. by apply Hb.
Qed.

(** A ring buffer that cannot be opened. *)
Lemma wp_no_ring obj x map body Q w :
  Bpf.obj_ obj = Some x -> x ∈ Bpf.live (bpf w) ->
  Bpf.has_map L (Bpf.object_path x) (lit map) && Bpf.ring_ok L (lit map) = false ->
  (forall what, Q (Throw (Error what)) w) -> wp (ring_buffer obj map body) Q w.
Proof.
  intros Hx Hin Hm HQ. unfold ring_buffer. apply wp_raii, wp_zoom.
  unfold wp, Bpf.find_map, Bpf.get_obj, Bpf.bpf_object__find_map_by_name, Bpf.BpfRingBuffer_ctor,
    Bpf.ring_buffer__new, Bpf.allocate, Bpf.use, mbind, M_bind, of_option.
  rewrite Hx. cbn. rewrite decide_True by done. destruct (Bpf.has_map L _ _); cbn in *; destruct w; [|apply HQ].
  rewrite decide_True, Hm by done. apply HQ.
Qed.

(** Leaving the scope of the newest resource. *)
Lemma leaving_release (dtor : M W ()) r rest Q (o : outcome ()) w :
  finished o -> Bpf.releases dtor r -> Bpf.live (bpf w) = r :: rest ->
  Q o (with_bpf (Bpf.MkState rest (Bpf.next_id (bpf w))) w) -> leaving dtor Q o w.
Proof.
  intros Hf Hd Hl HQ. destruct o as [a|e|h]; [..|done]; unfold leaving, wp;
    rewrite Hd by (cbn; rewrite Hl; left); cbn; rewrite Hl; cbn; by rewrite decide_True by done.
Qed.

(** The globals up to messages on standard error. *)
Definition same_but_stderr (g g' : Mon.Globals) : Prop :=
  exists err, g' = Mon.MkGlobals (Mon.g_reporter g) (Mon.g_json g) (Mon.g_stop g) (Mon.stdout g) err.

Definition with_filters (g : Mon.Globals) (m : FM) (w : W) : W :=
  MkWorld FM (bpf w) (srv w) g m (reporter w) (counted w) (disp w).

Lemma set_filter_run i v w :
  exists g, set_filter i v w = (Ok (), with_filters g (Tracer.set_filter (filters w) i v).2 w) /\
    same_but_stderr (glob w) g.
Proof.
  unfold set_filter. destruct (Tracer.set_filter (filters w) i v) as [[] m]; cbn.
  - exists (glob w). split; [done|]. exists (Mon.stderr (glob w)). by destruct (glob w).
  - eexists. split; [reflexivity|]. by eexists.
Qed.

Lemma same_but_stderr_trans g1 g2 g3 :
  same_but_stderr g1 g2 -> same_but_stderr g2 g3 -> same_but_stderr g1 g3.
Proof. intros [e1 ->] [e2 ->]. by exists e2. Qed.

Definition no_filters (cfg : Mon.Config) : Prop := Mon.filter_pid cfg = 0 /\ Mon.filter_port cfg = 0.

Lemma when_set_filter (b : bool) i v w :
  exists g, when b (set_filter i v) w =
    (Ok (), with_filters g (if b then (Tracer.set_filter (filters w) i v).2 else filters w) w) /\
    same_but_stderr (glob w) g.
Proof.
  destruct b; [apply set_filter_run|]. exists (glob w). split; [by destruct w|].
  exists (Mon.stderr (glob w)). by destruct (glob w).
Qed.

Lemma find_map_run obj x name (w : W) :
  Bpf.obj_ obj = Some x -> x ∈ Bpf.live (bpf w) -> Bpf.has_map L (Bpf.object_path x) name = true ->
  zoom (Bpf.find_map L obj name) w = (Ok (Bpf.MkMap x name), w).
Proof.
  intros Ho Hx Hm. unfold zoom, Bpf.find_map, Bpf.get_obj, Bpf.bpf_object__find_map_by_name, Bpf.use,
    mbind, M_bind, of_option. rewrite Ho. cbn. rewrite decide_True, Hm by done. by destruct w.
Qed.

Lemma install_filters_run cfg obj x w :
  Bpf.obj_ obj = Some x -> x ∈ Bpf.live (bpf w) ->
  no_filters cfg \/ Bpf.has_map L (Bpf.object_path x) (lit "filters") = true ->
  exists g, install_filters cfg obj w =
    (Ok (), with_filters g
              (Tracer.install_filters (Mon.filter_pid cfg) (Mon.filter_port cfg) (filters w)) w) /\
    same_but_stderr (glob w) g.
Proof.
  intros Ho Hx Hm. unfold install_filters, Tracer.install_filters.
  destruct (negb _ || negb _) eqn:Hb; cbn [when].
  2:{ exists (glob w). split; [by destruct w|]. exists (Mon.stderr (glob w)). by destruct (glob w). }
  assert (zoom (Bpf.find_map L obj (lit "filters")) w = (Ok (Bpf.MkMap x (lit "filters")), w)) as Hf.
  { destruct Hm as [[Hp Hq]|Hm]; [by rewrite Hp, Hq in Hb|]. by apply find_map_run. }
  unfold mbind, M_bind. rewrite Hf.
  destruct (when_set_filter (negb (Mon.filter_pid cfg =? 0)) 0 (Mon.filter_pid cfg) w) as (g1 & -> & Hg1).
  destruct (when_set_filter (negb (Mon.filter_port cfg =? 0)) 1 (Mon.filter_port cfg)
    (with_filters g1 (if negb (Mon.filter_pid cfg =? 0)
       then (Tracer.set_filter (filters w) 0 (Mon.filter_pid cfg)).2 else filters w) w))
    as (g2 & Hg2 & Hs2).
  exists g2. split; [exact Hg2|]. by eapply same_but_stderr_trans.
Qed.

(** Objects load and probes attach. *)
Record attach_ok (cfg : Mon.Config) : Prop := {
  ao_tcp : Bpf.open_ok L (lit "bpf/tcp_tracer.bpf.o") = true /\
           Bpf.load_err L (lit "bpf/tcp_tracer.bpf.o") = 0;
  ao_audit : Bpf.open_ok L (lit "bpf/syscall_audit.bpf.o") = true /\
             Bpf.load_err L (lit "bpf/syscall_audit.bpf.o") = 0;
  ao_filters : no_filters cfg \/ Bpf.has_map L (lit "bpf/tcp_tracer.bpf.o") (lit "filters") = true;
  ao_connect : Bpf.has_program L (lit "bpf/tcp_tracer.bpf.o") (lit "trace_tcp_connect") = true /\
               Bpf.kprobe_ok L (lit "trace_tcp_connect") (lit "tcp_connect") = true;
  ao_close : Bpf.has_program L (lit "bpf/tcp_tracer.bpf.o") (lit "trace_tcp_close") = true /\
             Bpf.kprobe_ok L (lit "trace_tcp_close") (lit "tcp_close") = true;
  ao_sys : Bpf.has_program L (lit "bpf/syscall_audit.bpf.o") (lit "audit_syscall") = true /\
           Bpf.tracepoint_ok L (lit "audit_syscall") (lit "raw_syscalls") (lit "sys_enter") = true
}.

(** The server starts, and its thread. *)
Record server_ok (cfg : Mon.Config) : Prop := {
  so_fds : 0 <= Srv.socket_fd K /\ 0 <= Srv.epoll_create1_fd K /\ 0 <= Srv.eventfd_fd K;
  so_calls : Srv.bind_errno K (Srv.htons K (Mon.http_port cfg)) = 0 /\ Srv.listen_ok K = true /\
             forall fd, Srv.epoll_ctl_errno K fd = 0;
  so_thread : thread_error = None
}.

(** The resources then alive, newest first; the world the server is started in,
    and the one its thread is started in. *)
Definition attached (n : nat) : list Bpf.resource :=
  [Bpf.Link (4 + n) (lit "audit_syscall"); Bpf.Link (3 + n) (lit "trace_tcp_close");
   Bpf.Link (2 + n) (lit "trace_tcp_connect"); Bpf.Object (1 + n) (lit "bpf/syscall_audit.bpf.o");
   Bpf.Object n (lit "bpf/tcp_tracer.bpf.o")].

Record probing (cfg : Mon.Config) (w w1 : W) : Prop := {
  pr_bpf : bpf w1 = Bpf.MkState (attached (fresh w) ++ Bpf.live (bpf w)) (5 + fresh w);
  pr_filters : filters w1 = Tracer.install_filters (Mon.filter_pid cfg) (Mon.filter_port cfg) (filters w);
  pr_disp : disp w1 = disp w;
  pr_glob : exists g, same_but_stderr (glob w) g /\ glob w1 = point (Some Reporter.new_reporter) g
}.

Record ready (cfg : Mon.Config) (w w1 : W) : Prop := {
  rd_probing : probing cfg w w1;
  rd_fds : Srv.listen_fd_ (srv w1) = Srv.socket_fd K /\ Srv.epoll_fd_ (srv w1) = Srv.epoll_create1_fd K /\
           Srv.stop_fd_ (srv w1) = Srv.eventfd_fd K;
  rd_running : Http.running_ (Srv.io (srv w1)) = true /\ Srv.stop_written (srv w1) = false
}.

Lemma ready_handled cfg w w1 : ready cfg w w1 -> handled w -> handled w1.
Proof. intros [[_ _ Hd _] _ _] Hh. unfold handled. by rewrite Hd. Qed.

Lemma start_succeeds cfg s :
  server_ok cfg -> Srv.port_ s = Mon.http_port cfg -> Srv.stop_written s = false ->
  exists s', Srv.start K s = (Ok (), s') /\ Http.running_ (Srv.io s') = true /\
    Srv.stop_written s' = false /\ Srv.listen_fd_ s' = Srv.socket_fd K /\
    Srv.epoll_fd_ s' = Srv.epoll_create1_fd K /\ Srv.stop_fd_ s' = Srv.eventfd_fd K.
Proof.
  intros [(Hs & He & Hv) (Hb & Hl & Hctl) _] Hp Hst.
  unfold Srv.start, Srv.epoll_add, Srv.throw_if, when, get, modify, throw, mbind, M_bind, mret, M_ret.
  cbn [Srv.listen_fd_ Srv.epoll_fd_ Srv.stop_fd_ Srv.port_ Srv.set_listen_fd Srv.set_io].
  destruct (Z.ltb_spec (Srv.socket_fd K) 0); [lia|]. rewrite Hp, Hb, Hl. cbn [negb Z.eqb].
  cbn [Srv.listen_fd_ Srv.epoll_fd_ Srv.stop_fd_ Srv.set_listen_fd Srv.set_epoll_fd Srv.set_io].
  destruct (Z.ltb_spec (Srv.epoll_create1_fd K) 0); [lia|]. rewrite !Hctl. cbn [negb Z.eqb].
  cbn [Srv.listen_fd_ Srv.epoll_fd_ Srv.stop_fd_ Srv.set_listen_fd Srv.set_epoll_fd Srv.set_stop_fd Srv.set_io].
  destruct (Z.ltb_spec (Srv.eventfd_fd K) 0); [lia|]. rewrite !Hctl. cbn [negb Z.eqb].
  eexists. split; [reflexivity|]. by cbn.
Qed.

(** What the end of the server's scope must satisfy for [run_monitor] to end
    with [Q]: the destructors of the links and the objects run. *)
Definition unwound (w : W) (Q : outcome () -> W -> Prop) (o : outcome ()) (w2 : W) : Prop :=
  (forall h, o = Halt h -> Q o w2) /\
  (finished o -> Bpf.live (bpf w2) = attached (fresh w) ++ Bpf.live (bpf w) /\
     Q o (with_bpf (Bpf.MkState (Bpf.live (bpf w)) (Bpf.next_id (bpf w2))) w2)).

Lemma unwind_links w Q o w2 l1 l2 l3 o1 o2 :
  let n := fresh w in
  Bpf.link_ l1 = Some (Bpf.Link (2 + n) (lit "trace_tcp_connect")) ->
  Bpf.link_ l2 = Some (Bpf.Link (3 + n) (lit "trace_tcp_close")) ->
  Bpf.link_ l3 = Some (Bpf.Link (4 + n) (lit "audit_syscall")) ->
  Bpf.obj_ o1 = Some (Bpf.Object n (lit "bpf/tcp_tracer.bpf.o")) ->
  Bpf.obj_ o2 = Some (Bpf.Object (1 + n) (lit "bpf/syscall_audit.bpf.o")) ->
  unwound w Q o w2 ->
  leaving (zoom (Bpf.BpfLink_dtor l3))
    (leaving (zoom (Bpf.BpfLink_dtor l2))
      (leaving (zoom (Bpf.BpfLink_dtor l1))
        (leaving (zoom (Bpf.BpfObject_dtor o2)) (leaving (zoom (Bpf.BpfObject_dtor o1)) Q)))) o w2.
Proof.
  intros n H1 H2 H3 H4 H5 [Hh Hf].
  assert (finished o \/ exists h, o = Halt h) as [Hfo|[h ->]] by (destruct o; cbn; eauto);
    [|exact (Hh h eq_refl)].
  destruct (Hf Hfo) as (Hl & HQ).
  eapply leaving_release; [done|by apply Bpf.releases_link, H3|exact Hl|].
  eapply leaving_release; [done|by apply Bpf.releases_link, H2|reflexivity|].
  eapply leaving_release; [done|by apply Bpf.releases_link, H1|reflexivity|].
  eapply leaving_release; [done|by apply Bpf.releases_object, H5|reflexivity|].
  eapply leaving_release; [done|by apply Bpf.releases_object, H4|reflexivity|].
  exact HQ.
Qed.

Definition obj_of (w : W) (tcp_obj audit_obj : Bpf.BpfObject) : Prop :=
  Bpf.obj_ tcp_obj = Some (Bpf.Object (fresh w) (lit "bpf/tcp_tracer.bpf.o")) /\
  Bpf.obj_ audit_obj = Some (Bpf.Object (1 + fresh w) (lit "bpf/syscall_audit.bpf.o")).

(** [run_monitor] up to the server. *)
Lemma wp_attach cfg inp w Q :
  attach_ok cfg ->
  (forall w1 tcp_obj audit_obj, probing cfg w w1 -> srv w1 = srv w -> obj_of w tcp_obj audit_obj ->
     wp (http_server (Mon.http_port cfg) (fun _ => _ ← zoom (Srv.start K); serve cfg inp tcp_obj audit_obj))
       (unwound w Q) w1) ->
  wp (run_monitor cfg inp) Q w.
Proof.
  intros Hok Hserve. destruct Hok as [[Ht1 Ht2] [Ha1 Ha2] Hfil [Hc1 Hc2] [Hcl1 Hcl2] [Hs1 Hs2]].
  unfold run_monitor. apply wp_object; [done|done|intros tcp_obj Ho1].
  apply wp_object; [done|done|intros audit_obj Ho2].
  set (w1 := with_bpf (push (Bpf.Object _ (lit "bpf/syscall_audit.bpf.o")) _) _) in *.
  destruct (install_filters_run cfg tcp_obj (Bpf.Object (fresh w) (lit "bpf/tcp_tracer.bpf.o")) w1)
    as (g & Hins & Hg); [done|right; left|done|].
  apply wp_bind. unfold wp at 1. rewrite Hins. cbn [then_].
  eapply wp_kprobe; [exact Ho1|right; left|done|done|intros l1 Hl1].
  eapply wp_kprobe; [exact Ho1|right; right; left|done|done|intros l2 Hl2].
  eapply wp_tracepoint; [exact Ho2|right; right; left|done|done|intros l3 Hl3].
  apply wp_bind, wp_zoom, wp_modify. cbn [then_].
  eapply wp_mono; [apply Hserve; [|done|split; [exact Ho1|exact Ho2]]|].
  - split; [reflexivity..|]. exists g. by split.
  - intros o w2 Hu. exact (unwind_links w Q o w2 l1 l2 l3 tcp_obj audit_obj Hl1 Hl2 Hl3 Ho1 Ho2 Hu).
Qed.

(** When the server starts, too. *)
Lemma wp_run_monitor cfg inp w Q :
  attach_ok cfg -> server_ok cfg ->
  (forall w1 tcp_obj audit_obj, ready cfg w w1 -> obj_of w tcp_obj audit_obj ->
     wp (serve cfg inp tcp_obj audit_obj) (leaving (zoom Srv.AsyncHttpServer_dtor) (unwound w Q)) w1) ->
  wp (run_monitor cfg inp) Q w.
Proof.
  intros Hok Hsrv Hserve. apply wp_attach; [done|]. intros w1 tcp_obj audit_obj [Hb Hf Hd Hg] Hs Hobj.
  unfold http_server. apply wp_raii, wp_zoom, wp_modify. cbn [then_]. apply wp_bind, wp_zoom.
  match goal with |- wp (Srv.start K) _ ?s => destruct (start_succeeds cfg s Hsrv) as
    (s' & Hstart & Hr & Hw & Hfl & Hfe & Hfs); [done|done|] end.
  unfold wp at 1. rewrite Hstart. cbn [then_]. by apply Hserve; [split|].
Qed.

(** ** Serving *)

(** A quiet server thread leaves the main thread to itself. *)
Lemma wp_sim {A} q (m : M W A) w o g Q :
  sim q m w o g -> handled w -> q (Srv.stop_fd_ (srv w)) -> (forall h, o = Halt h -> h = Blocked) ->
  (forall w', bpf w' = bpf w -> glob w' = g -> filters w' = filters w -> disp w' = disp w -> srv_same w w' -> Q o w') ->
  wp m Q w.
Proof.
  intros Hsim Hha Hq Hh HQ. eapply wp_mono; [exact (Hsim Hha)|].
  intros o' w' (Hb & Hf & Hr & Hd & Ho & Hq'). destruct (Hq' Hq) as [-> Hsame].
  destruct Ho as [[_ Hg]|Ho]; [|exfalso; by apply Hh in Ho]. by apply HQ.
Qed.

Lemma last_waits_quiet st waits w :
  Forall (fun x => Srv.quiet_event st x.2) waits -> Forall (Srv.quiet st) (last_waits waits w).
Proof.
  intros Hw. destruct Hw as [|x waits Hx Hw]; cbn; [by constructor|].
  constructor; [by apply Forall_singleton|]. apply Forall_fmap. eapply Forall_impl; [exact Hw|].
  intros y Hy. by apply Forall_singleton.
Qed.

Lemma join_thread_stopped waits w Q :
  let s := srv w in
  Http.running_ (Srv.io s) = true -> Srv.stop_written s = true ->
  Forall (fun x => Srv.quiet_event (Srv.stop_fd_ s) x.2) waits ->
  (forall i, Http.running_ i = false ->
     (forall fd, fd ∈ [Srv.listen_fd_ s; Srv.epoll_fd_ s; Srv.stop_fd_ s] -> fd ∉ Http.open_fds i) ->
     Q (Ok ()) (set_part (Srv.MkState (-1) (-1) (-1) (Srv.port_ s) i true) w)) ->
  wp (join_thread waits) Q w.
Proof.
  intros s Hr Hst Hw HQ. unfold join_thread. wp_steps.
  destruct (Srv.join_stopped (disp w SIGPIPE) (last_waits waits w) s)
    as (i & Hj & Hri & H1 & H2 & H3); [done|done|by apply last_waits_quiet|].
  unfold wp. cbn. fold s. rewrite Hj. apply HQ; [done|].
  intros fd. rewrite !elem_of_cons, elem_of_nil. naive_solver.
Qed.

(** The end of a clean run: the loop is over, the rings, the thread. *)
Lemma wp_finish waits tcp_rb audit_rb x y rest w Q :
  let s := srv w in
  Bpf.rb_ tcp_rb = Some x -> Bpf.rb_ audit_rb = Some y -> Bpf.live (bpf w) = y :: x :: rest ->
  Http.running_ (Srv.io s) = true -> 0 <= Srv.stop_fd_ s ->
  Forall (fun x => Srv.quiet_event (Srv.stop_fd_ s) x.2) waits ->
  (forall i w', Http.running_ i = false ->
     (forall fd, fd ∈ [Srv.listen_fd_ s; Srv.epoll_fd_ s; Srv.stop_fd_ s] -> fd ∉ Http.open_fds i) ->
     Bpf.live (bpf w') = rest -> srv w' = Srv.MkState (-1) (-1) (-1) (Srv.port_ s) i true ->
     glob w' = point None (Mon.print (nl ++ lit "Shutting down." ++ nl) (glob w)) ->
     filters w' = filters w -> reporter w' = the_reporter w -> Q (Ok ()) w') ->
  wp (_ ← cout (nl ++ lit "Shutting down." ++ nl); _ ← zoom Srv.stop; reset_g_reporter)
    (leaving (zoom (Bpf.BpfRingBuffer_dtor audit_rb))
      (leaving (zoom (Bpf.BpfRingBuffer_dtor tcp_rb)) (leaving (join_thread waits) Q))) w.
Proof.
  intros s Hx Hy Hl Hr Hfd Hw HQ. destruct w as [b s0 g f rep]. cbn in s, Hl. subst s.
  apply wp_bind, wp_zoom, wp_modify. cbn [then_].
  apply wp_bind, wp_zoom. unfold Srv.stop. apply wp_bind, wp_get. cbn [then_].
  match goal with |- wp (when ?b _) _ _ =>
    change b with ((0 <=? Srv.stop_fd_ s0) && Http.running_ (Srv.io s0)) end.
  rewrite Hr, (proj2 (Z.leb_le 0 (Srv.stop_fd_ s0))) by done. apply wp_modify. cbn [then_].
  apply wp_modify.
  eapply leaving_release; [done|by apply Bpf.releases_ring, Hy|exact Hl|].
  eapply leaving_release; [done|by apply Bpf.releases_ring, Hx|reflexivity|].
  unfold leaving. apply join_thread_stopped; [done|done|done|intros i Hi Hfds]. by eapply HQ.
Qed.

Definition rings_ok : Prop :=
  Bpf.has_map L (lit "bpf/tcp_tracer.bpf.o") (lit "tcp_events") = true /\
  Bpf.ring_ok L (lit "tcp_events") = true /\
  Bpf.has_map L (lit "bpf/syscall_audit.bpf.o") (lit "syscall_events") = true /\
  Bpf.ring_ok L (lit "syscall_events") = true.

(** The server thread sees no event of the eventfd before it is written,
    [epoll_ctl] does not fail and no connection breaks before its answer. *)
Definition quiet_inputs (inp : Inputs) : Prop :=
  let st := Srv.eventfd_fd K in
  Forall (quiet_action st) (setup inp) /\ Forall (quiet_turn st) (turns inp) /\
  Forall (fun x => Srv.quiet_event st x.2) (joining inp).

(** The turns the main loop takes. *)
Definition taken (inp : Inputs) (fs : list Loop.feed) : list Loop.feed :=
  if existsb is_signal (setup inp) then [] else Loop.served fs.

(** What --json prints for events. *)
Definition json_output (es : list tcp_event) : str := mjoin (Loop.json_text inet_ntop <$> es).

(** The loop, after the actions of the set-up. *)
Lemma taken_loop inp fs last g r :
  Forall Loop.ok_feed fs -> Mon.g_reporter g = Some r -> Mon.g_stop g = false ->
  existsb is_signal (setup inp) || existsb Loop.signal fs = true ->
  exists last' out err,
    Mon.main_loop inet_ntop iter (Loop.turn_of <$> fs) last (signals (setup inp) g) =
    Some (last', Mon.MkGlobals (Some (Reporter.record_all (Loop.tcp_of (taken inp fs)) r)) (Mon.g_json g)
      true (Mon.stdout g ++ out) err) /\
    (Mon.g_json g = true -> out = json_output (Loop.tcp_of (taken inp fs))).
Proof.
  intros Hfs Hr Hs Hsig. unfold taken, signals. destruct (existsb is_signal (setup inp)) eqn:He.
  - rewrite Loop.main_loop_stopped by done. exists last, [], (Mon.stderr g).
    unfold on_signal. cbn. by rewrite Hr, app_nil_r.
  - cbn in Hsig. destruct (Loop.main_loop_spec inet_ntop iter fs last g r Hfs Hr Hs) as (last' & reps & -> & _).
    rewrite Hsig. do 3 eexists. split; [done|]. by intros ->.
Qed.

(** What a clean run leaves. *)
Record shut_down (cfg : Mon.Config) (inp : Inputs) (fs : list Loop.feed) (g0 : Mon.Globals)
    (w2 : W) : Prop := {
  sd_srv : exists i, srv w2 = Srv.MkState (-1) (-1) (-1) (Srv.port_ (srv w2)) i true /\
             Http.running_ i = false /\
             forall fd, fd ∈ [Srv.socket_fd K; Srv.epoll_create1_fd K; Srv.eventfd_fd K] ->
               fd ∉ Http.open_fds i;
  sd_pointer : Mon.g_reporter (glob w2) = None;
  sd_reporter : reporter w2 = Reporter.record_all (Loop.tcp_of (taken inp fs)) Reporter.new_reporter;
  sd_stdout : exists out, Mon.stdout (glob w2) =
    Mon.stdout g0 ++ banner cfg ++ out ++ nl ++ lit "Shutting down." ++ nl /\
    (Mon.g_json g0 = true -> out = json_output (Loop.tcp_of (taken inp fs)))
}.

Lemma serve_shuts_down cfg inp fs w w1 tcp_obj audit_obj :
  server_ok cfg -> rings_ok -> ready cfg w w1 -> obj_of w tcp_obj audit_obj ->
  handled w -> fed (turns inp) fs -> quiet_inputs inp -> Mon.g_stop (glob w) = false ->
  existsb is_signal (setup inp) || existsb Loop.signal fs = true ->
  wp (serve cfg inp tcp_obj audit_obj) (fun o w2 =>
    o = Ok () /\ Bpf.live (bpf w2) = Bpf.live (bpf w1) /\ filters w2 = filters w1 /\
    shut_down cfg inp fs (glob w) w2) w1.
Proof.
  intros Hok (Hr1 & Hr2 & Hr3 & Hr4) Hready [Ho1 Ho2] Hh0 [Hts Hfeeds] (Hq1 & Hq2 & Hq3) Hstop Hsig.
  pose proof (ready_handled _ _ _ Hready Hh0) as Hh1.
  destruct Hready as [[Hb Hf _ (g & [err Hg] & Hg1)] (Hfl & Hfe & Hfs) [Hrun Hst]].
  unfold serve, http_thread. rewrite (so_thread cfg Hok). apply wp_raii, wp_ret. cbn [then_].
  apply wp_bind, wp_zoom, wp_modify. cbn [then_]. apply wp_bind.
  eapply wp_sim; [apply sim_acts|exact Hh1|by cbn; rewrite Hfs|done|intros w3 Hb3 Hg3 Hf3 Hd3 Hs3]. cbn [then_].
  cbn [bpf set_part glob_part filters] in Hb3, Hf3.
  eapply wp_ring; [exact Ho1|rewrite Hb3, Hb; set_solver|done|done|intros tcp_rb Hx].
  eapply wp_ring; [exact Ho2|cbn; rewrite Hb3, Hb; set_solver|done|done|intros audit_rb Hy].
  apply wp_bind. change (glob w3 = signals (setup inp) (Mon.print (banner cfg) (glob w1))) in Hg3.
  destruct (taken_loop inp fs (start_time inp) (Mon.print (banner cfg) (glob w1)) Reporter.new_reporter)
    as (last' & out & err' & Hloop & Hjson); [done|by rewrite Hg1|by rewrite Hg1, Hg|done|].
  rewrite <- Hts in Hloop.
  eapply wp_sim; [eapply sim_event_loop; [exact Hx|exact Hy|right; left|left|cbn; rewrite Hg3; exact Hloop]
    |unfold handled; cbn; by rewrite Hd3|cbn; rewrite (srv_same_stop _ _ Hs3); cbn; by rewrite Hfs|by intros h|intros w4 Hb4 Hg4 Hf4 _ Hs4].
  cbn [then_ Mon.g_stop].
  pose proof (srv_same_trans _ _ _ Hs3 Hs4) as (i & Hi & Hri & _). cbn in Hri, Hi. rewrite Hrun in Hri.
  apply (wp_finish _ _ _ _ _ (Bpf.live (bpf w1)) _ _ Hx Hy);
    [by rewrite Hb4; cbn; rewrite Hb3|by rewrite Hi|rewrite Hi; cbn; rewrite Hfs; apply (so_fds cfg Hok)
    |by rewrite Hi; cbn; rewrite Hfs|intros i5 w5 Hi5 Hfds Hl5 Hs5 Hg5 Hf5 Hr5].
  rewrite Hi in Hfds, Hs5. cbn in Hfds, Hs5. rewrite Hfl, Hfe, Hfs in Hfds.
  assert ((Mon.stdout (Mon.print (banner cfg) (glob w1)) ++ out) ++ nl ++ lit "Shutting down." ++ nl =
    Mon.stdout (glob w) ++ banner cfg ++ out ++ nl ++ lit "Shutting down." ++ nl) as Hout.
  { rewrite Hg1, Hg. unfold Mon.print, point. cbn [Mon.stdout]. by rewrite <- !app_assoc. }
  split; [done|]. split; [done|]. split; [by rewrite Hf5, Hf4|]. split.
  - exists i5. split; [by rewrite Hs5|]. by split.
  - by rewrite Hg5.
  - unfold the_reporter in Hr5. by rewrite Hr5, Hg4.
  - exists out. rewrite Hg5, Hg4. split; [exact Hout|]. intros Hj. apply Hjson. by rewrite Hg1, Hg.
Qed.

(** An exception after the thread was started: its destructor waits for ever. *)
Lemma join_thread_blocked waits w Q :
  let s := srv w in
  Http.running_ (Srv.io s) = true -> Srv.stop_written s = false ->
  Forall (fun x => Srv.quiet_event (Srv.stop_fd_ s) x.2) waits ->
  (forall s', Q (Halt Blocked) (set_part (S := Srv.State) s' w)) -> wp (join_thread waits) Q w.
Proof.
  intros s Hr Hst Hw HQ. unfold join_thread. wp_steps.
  destruct (Srv.join_waits_forever (disp w SIGPIPE) (last_waits waits w) s)
    as (s' & Hj); [done|done|by apply last_waits_quiet|].
  unfold wp. cbn. fold s. rewrite Hj. apply HQ.
Qed.

Definition ring_opens (obj map : string) : bool :=
  Bpf.has_map L (lit obj) (lit map) && Bpf.ring_ok L (lit map).

Lemma serve_hangs cfg inp w w1 tcp_obj audit_obj :
  server_ok cfg -> ready cfg w w1 -> obj_of w tcp_obj audit_obj ->
  ring_opens "bpf/tcp_tracer.bpf.o" "tcp_events" = false \/
  ring_opens "bpf/syscall_audit.bpf.o" "syscall_events" = false -> quiet_inputs inp -> handled w ->
  wp (serve cfg inp tcp_obj audit_obj) (fun o w2 =>
    o = Halt Blocked /\ Bpf.live (bpf w2) = Bpf.live (bpf w1)) w1.
Proof.
  intros Hok Hready [Ho1 Ho2] Hring (Hq1 & Hq2 & Hq3) Hh0.
  pose proof (ready_handled _ _ _ Hready Hh0) as Hh1.
  destruct Hready as [[Hb Hf _ _] (Hfl & Hfe & Hfs) [Hrun Hst]].
  unfold serve, http_thread. rewrite (so_thread cfg Hok). apply wp_raii, wp_ret. cbn [then_].
  apply wp_bind, wp_zoom, wp_modify. cbn [then_]. apply wp_bind.
  eapply wp_sim; [apply sim_acts|exact Hh1|by cbn; rewrite Hfs|done|intros w3 Hb3 Hg3 Hf3 _ (i & Hi & Hri & _)]. cbn [then_].
  cbn in Hb3, Hi, Hri. rewrite Hrun in Hri.
  assert (forall w4, srv w4 = srv w3 -> Bpf.live (bpf w4) = Bpf.live (bpf w1) ->
    wp (join_thread (joining inp)) (fun o w2 => match o with
      | Ok _ => False | Throw _ => False
      | Halt h => h = Blocked /\ Bpf.live (bpf w2) = Bpf.live (bpf w1) end) w4) as Hjoin.
  { intros w4 Hs4 Hl4. apply join_thread_blocked; rewrite ?Hs4, ?Hi; try done. cbn. by rewrite Hfs. }
  assert (forall what w4, srv w4 = srv w3 -> Bpf.live (bpf w4) = Bpf.live (bpf w1) ->
    leaving (join_thread (joining inp)) (fun o w2 => o = Halt Blocked /\ Bpf.live (bpf w2) = Bpf.live (bpf w1))
      (Throw (Error what) : outcome ()) w4) as Hleave.
  { intros what w4 Hs4 Hl4. unfold leaving. eapply wp_mono; [by apply Hjoin|].
    intros [?|?|h] w5 Hw5; [done|done|]. destruct Hw5 as [-> Hw5]. done. }
  destruct (ring_opens "bpf/tcp_tracer.bpf.o" "tcp_events") eqn:Ht.
  - destruct Hring as [|Hring]; [done|]. apply andb_true_iff in Ht as [Ht1 Ht2].
    eapply wp_ring; [exact Ho1|rewrite Hb3, Hb; set_solver|done|done|intros tcp_rb Hx].
    eapply wp_no_ring; [exact Ho2|cbn; rewrite Hb3, Hb; set_solver|exact Hring|intros what].
    eapply leaving_release; [done|by apply Bpf.releases_ring, Hx|reflexivity|].
    apply Hleave; [done|]. cbn. by rewrite Hb3.
  - eapply wp_no_ring; [exact Ho1|rewrite Hb3, Hb; set_solver|exact Ht|intros what].
    apply Hleave; [done|]. by rewrite Hb3.
Qed.

(** *** A client that has gone

    [alive st l w]: the server runs and nobody has asked it to stop, its eventfd
    and its listening socket are [st] and [l]; signals are handled, SIGPIPE is
    not. *)

Record alive (st l : Z) (w : W) : Prop := {
  al_fds : Srv.stop_fd_ (srv w) = st /\ Srv.listen_fd_ (srv w) = l;
  al_running : Http.running_ (Srv.io (srv w)) = true /\ Srv.stop_written (srv w) = false;
  al_handled : handled w;
  al_sigpipe : disp w SIGPIPE = Http.SIG_DFL
}.

Definition dies {A} (st l : Z) (m : M W A) (w : W) : Prop :=
  wp m (fun o w' => o = Halt Terminated /\ bpf w' = bpf w /\ alive st l w') w.

(** The client is answered in vain: the write raises SIGPIPE. *)
Definition gone (st l : Z) (e : Http.event) : Prop :=
  Http.fd e <> st /\ Http.fd e <> l /\ Http.written e = Http.BrokenPipe /\
  exists chunks, Http.reads e = Http.Data <$> chunks.

Definition broken_actions (st l : Z) (actions : list action) : Prop :=
  exists before now_ms e after, actions = before ++ HttpEvent now_ms e :: after /\
    Forall (quiet_action st) before /\ gone st l e.

Definition broken_samples (st l : Z) (samples : list sample) : Prop :=
  exists before x after, samples = before ++ x :: after /\
    Forall (quiet_sample st) before /\ broken_actions st l x.1.

Definition broken_turn (st l : Z) (t : turn) : Prop :=
  broken_samples st l (tcp_samples t) \/
  Forall (quiet_sample st) (tcp_samples t) /\
    (broken_samples st l (audit_samples t) \/
     Forall (quiet_sample st) (audit_samples t) /\ broken_actions st l (others t)).

(** In some turn, before any signal has ended the loop. *)
Definition broken_turns (st l : Z) (ts : list turn) : Prop :=
  exists before t after, ts = before ++ t :: after /\
    Forall (fun u => quiet_turn st u /\ existsb is_signal (turn_actions u) = false) before /\
    broken_turn st l t.

Lemma alive_same st l w w' :
  alive st l w -> disp w' = disp w -> srv_same w w' -> alive st l w'.
Proof.
  intros [[Hs Hl] [Hr Hw] Hh Hp] Hd (i & Hi & Hk & _). split; rewrite ?Hi; cbn.
  - by split.
  - by rewrite Hk.
  - unfold handled. by rewrite Hd.
  - by rewrite Hd.
Qed.

Lemma dies_bind {A B} st l (m : M W A) (k : A -> M W B) w : dies st l m w -> dies st l (m ≫= k) w.
Proof. intros Hm. apply wp_bind. eapply wp_mono; [exact Hm|]. by intros o w' (-> & ? & ?). Qed.

Lemma dies_after {A B} q st l (m : M W A) (k : A -> M W B) w a g :
  sim q m w (Ok a) g -> q st -> alive st l w ->
  (forall w', glob w' = g -> bpf w' = bpf w -> alive st l w' -> dies st l (k a) w') ->
  dies st l (m ≫= k) w.
Proof.
  intros Hm Hq Hal Hk. apply wp_bind. eapply wp_mono; [exact (Hm (al_handled _ _ _ Hal))|].
  intros o w' (Hb & _ & _ & Hd & Ho & Hs). rewrite (proj1 (al_fds _ _ _ Hal)) in Hs.
  destruct (Hs Hq) as [-> Hsame]. destruct Ho as [[_ Hg]|[=]]. cbn [then_].
  eapply wp_mono; [apply Hk; [done|done|by eapply alive_same]|].
  intros o w2 (-> & Hb2 & Hal2). by rewrite Hb2.
Qed.

Lemma dies_gone st l now_ms e w : gone st l e -> alive st l w -> dies st l (act (HttpEvent now_ms e)) w.
Proof.
  intros (Hst & Hli & Hw & chunks & Hr) [[Hfs Hfl] [Hrun Hsw] Hh Hp].
  unfold dies, wp, act, mbind, M_bind, get, zoom, part, srv_part, Srv.http_wait. rewrite Hrun, Hp.
  cbn [Http.process_events fst snd]. rewrite Hfs, Hfl, Hw, Hr.
  rewrite (proj2 (Z.eqb_neq (Http.fd e) st)), (proj2 (Z.eqb_neq (Http.fd e) l)) by done.
  destruct (Http.handle_client_broken (handler now_ms w) (Http.fd e) chunks (Srv.io (srv w)))
    as (i & -> & _ & _ & _ & Hi).
  cbn. split_and!; [done|done|]. split; cbn; [done|by rewrite Hi|done|done].
Qed.

Lemma dies_acts st l actions w :
  broken_actions st l actions -> alive st l w -> dies st l (acts actions) w.
Proof.
  intros (before & now_ms & e & after & -> & Hq & Hg). revert w.
  induction Hq as [|a before Ha Hq IH]; intros w Hal; cbn [acts app].
  - by apply dies_bind, dies_gone.
  - eapply (dies_after (fun st => quiet_action st a)); [apply sim_act|done|done|].
    intros w' _ _ Hal'. by apply IH.
Qed.

Lemma dies_consume st l callback samples n w g' :
  ignores_stop callback -> Mon.poll callback samples.*2 (glob w) = Some g' ->
  broken_samples st l samples -> alive st l w ->
  dies st l (Bpf.consume (on_sample callback) samples n) w.
Proof.
  intros Hc Hp (before & x & after & -> & Hq & Hbr). revert n w g' Hp.
  induction Hq as [|[ls data] before Ha Hq IH]; intros n w g' Hp Hal; cbn [app Bpf.consume].
  { by apply dies_bind, dies_bind, dies_acts. }
  rewrite <- app_comm_cons, fmap_cons in Hp. cbn [Mon.poll snd] in Hp.
  destruct (callback data (glob w)) as [[rc g1]|] eqn:Hx; [|done]. cbn [mbind option_bind] in Hp.
  destruct (callback_signals _ ls _ _ _ _ Hc Hx) as [-> _].
  eapply (dies_after (fun st => quiet_sample st (ls, data)));
    [by eapply sim_on_sample|done|done|].
  intros w' Hg _ Hal'. change (0 <? 0) with false. cbv iota.
  apply (poll_signals _ ls) in Hp; [|done]. eapply IH; [rewrite Hg; exact Hp|done].
Qed.

Section Gone.
Context (tcp_rb audit_rb : Bpf.BpfRingBuffer) (x y : Bpf.resource).
Context (Hx : Bpf.rb_ tcp_rb = Some x) (Hy : Bpf.rb_ audit_rb = Some y).

Lemma dies_poll {A} st l (callback : A -> M W Z) samples rb r w :
  Bpf.rb_ rb = Some r -> r ∈ Bpf.live (bpf w) ->
  dies st l (Bpf.consume callback samples 0) w -> dies st l (Bpf.poll callback samples rb) w.
Proof. intros Hr Hin Hm. unfold dies, wp. by rewrite (Bpf.poll_live callback samples rb r w). Qed.

Lemma dies_loop_body st l t last w r f :
  x ∈ Bpf.live (bpf w) -> y ∈ Bpf.live (bpf w) -> Mon.g_reporter (glob w) = Some r ->
  main_turn t = Loop.turn_of f -> Loop.ok_feed f ->
  broken_turn st l t -> alive st l w -> dies st l (loop_body tcp_rb audit_rb t last) w.
Proof.
  intros Hxl Hyl Hr Hf [Htcp Haud] Hbr Hal. injection Hf as Hts Has _ _.
  pose proof (Loop.poll_tcp_events inet_ntop (Loop.tcp f) (glob w) r Htcp Hr) as H1. rewrite <- Hts in H1.
  match type of H1 with _ = Some ?g => set (g1 := g) in * end.
  pose proof (Loop.poll_audit_events (Loop.audit f) g1 Haud) as H2. rewrite <- Has in H2.
  unfold loop_body. destruct Hbr as [Hbr|[Hqt Hbr]].
  { apply dies_bind. eapply dies_poll; [done|done|].
    by eapply dies_consume; [apply ignores_stop_tcp|exact H1|..]. }
  eapply (dies_after (fun st => Forall (quiet_sample st) (tcp_samples t)));
    [eapply sim_poll; [done|done|by apply sim_consume; [apply ignores_stop_tcp|]]|done|done|].
  intros w1 Hg1 Hb1 Hal1.
  apply (poll_signals _ (mjoin (tcp_samples t).*1) _ _ _ ignores_stop_audit) in H2. rewrite <- Hg1 in H2.
  destruct Hbr as [Hbr|[Hqa Hbr]].
  { apply dies_bind. eapply dies_poll; [done|by rewrite Hb1|].
    by eapply dies_consume; [apply ignores_stop_audit|exact H2|..]. }
  eapply (dies_after (fun st => Forall (quiet_sample st) (audit_samples t)));
    [eapply sim_poll; [done|by rewrite Hb1|by apply sim_consume; [apply ignores_stop_audit|]]|done|done|].
  intros w2 _ _ Hal2. by apply dies_bind, dies_acts.
Qed.

Lemma dies_event_loop st l ts fs last w r :
  x ∈ Bpf.live (bpf w) -> y ∈ Bpf.live (bpf w) -> Mon.g_reporter (glob w) = Some r ->
  Mon.g_stop (glob w) = false -> fed ts fs ->
  broken_turns st l ts -> alive st l w -> dies st l (event_loop tcp_rb audit_rb ts last) w.
Proof.
  intros Hxl Hyl Hr Hs Hfed (before & t & after & -> & Hq & Hbr).
  revert fs last w r Hxl Hyl Hr Hs Hfed.
  induction Hq as [|u before [Hu Hsig] Hq IH]; intros fs last w r Hxl Hyl Hr Hs [Hts Hfs] Hal;
    (destruct fs as [|f fs]; [done|]); rewrite <- ?app_comm_cons, !fmap_cons in Hts;
    apply (inj2 cons) in Hts as [Hf Hts]; apply Forall_cons in Hfs as [Hok Hfs];
    cbn [app event_loop]; unfold dies; apply wp_bind, wp_get; cbn [then_]; rewrite Hs.
  - apply dies_bind. by eapply dies_loop_body.
  - pose proof (Loop.loop_turn_spec inet_ntop iter f last (glob w) r Hok Hr) as Hturn. rewrite <- Hf in Hturn.
    eapply (dies_after (fun st => quiet_turn st u)); [by eapply sim_loop_body; [exact Hx|exact Hy|..]|done|done|].
    intros w1 Hg1 Hb1 Hal1.
    eapply IH; [by rewrite Hb1..|by rewrite Hg1| |by split|done].
    rewrite Hg1. unfold Loop.after_turn. cbn. rewrite Hs. cbn. injection Hf as _ _ _ Hsg.
    by rewrite <- Hsg.
Qed.

End Gone.

(** Where in a run the client may be: before the ring buffers are opened, or
    while the main loop runs. *)
Definition broken_inputs (inp : Inputs) : Prop :=
  let st := Srv.eventfd_fd K in let l := Srv.socket_fd K in
  broken_actions st l (setup inp) \/
  Forall (quiet_action st) (setup inp) /\ existsb is_signal (setup inp) = false /\
  rings_ok /\ broken_turns st l (turns inp).

Lemma serve_killed cfg inp fs w w1 tcp_obj audit_obj :
  server_ok cfg -> ready cfg w w1 -> obj_of w tcp_obj audit_obj -> handled w ->
  disp w SIGPIPE = Http.SIG_DFL -> Mon.g_stop (glob w) = false ->
  fed (turns inp) fs -> broken_inputs inp ->
  wp (serve cfg inp tcp_obj audit_obj) (fun o w2 =>
    o = Halt Terminated /\ alive (Srv.eventfd_fd K) (Srv.socket_fd K) w2 /\
    exists rings, Bpf.live (bpf w2) = rings ++ Bpf.live (bpf w1)) w1.
Proof.
  intros Hok Hready [Ho1 Ho2] Hh0 Hp Hstop Hfed Hbr.
  pose proof (ready_handled _ _ _ Hready Hh0) as Hh1.
  destruct Hready as [[Hb Hf Hd (g & [err Hg] & Hg1)] (Hfl & Hfe & Hfs) [Hrun Hst]].
  unfold serve, http_thread. rewrite (so_thread cfg Hok). apply wp_raii, wp_ret. cbn [then_].
  apply wp_bind, wp_zoom, wp_modify. cbn [then_]. apply wp_bind.
  match goal with |- wp _ _ ?u => set (w2 := u) end.
  assert (alive (Srv.eventfd_fd K) (Srv.socket_fd K) w2) as Hal2 by (split; cbn; rewrite ?Hd; done).
  destruct Hbr as [Hbr|(Hq & Hsig & (Hr1 & Hr2 & Hr3 & Hr4) & Hbr)].
  { eapply wp_mono; [by apply dies_acts|]. intros o w3 (-> & Hb3 & Hal3). cbn.
    split; [done|]. split; [done|]. exists []. by rewrite Hb3. }
  eapply wp_sim; [apply sim_acts|done|by cbn; rewrite Hfs|done|intros w3 Hb3 Hg3 _ Hd3 Hs3]. cbn [then_].
  pose proof (alive_same _ _ _ _ Hal2 Hd3 Hs3) as Hal3.
  eapply wp_ring; [exact Ho1|rewrite Hb3; cbn; rewrite Hb; set_solver|done|done|intros tcp_rb Hx].
  eapply wp_ring; [exact Ho2|cbn; rewrite Hb3; cbn; rewrite Hb; set_solver|done|done|intros audit_rb Hy].
  apply wp_bind. unfold signals in Hg3. rewrite Hsig in Hg3.
  match goal with |- wp _ _ ?u => set (w4 := u) in * end.
  eapply wp_mono; [eapply (dies_event_loop tcp_rb audit_rb _ _ Hx Hy _ _ (turns inp) fs _ w4 Reporter.new_reporter);
    [right; left|left|by cbn; rewrite Hg3; cbn; rewrite Hg1|by cbn; rewrite Hg3; cbn; rewrite Hg1, Hg|done|done|]|].
  { destruct Hal3. by split. }
  intros o w5 (-> & Hb5 & Hal5). cbn. split; [done|]. split; [done|]. rewrite Hb5. cbn. rewrite Hb3.
  by eexists [_; _].
Qed.

(** *** A server that cannot start *)

Lemma wp_no_server port inp cfg tcp_obj audit_obj what w w1 Q :
  let i := Srv.io (srv w1) in
  Srv.fresh_fds K (Http.open_fds i) ->
  (Srv.start K (Srv.constructed port (Http.open_fds i) (Http.sent i))).1 = Throw (StdException what) ->
  (forall s, Http.open_fds (Srv.io s) = Http.open_fds i ->
     unwound w Q (Throw (StdException what)) (set_part (S := Srv.State) s w1)) ->
  wp (http_server port (fun _ => _ ← zoom (Srv.start K); serve cfg inp tcp_obj audit_obj)) (unwound w Q) w1.
Proof.
  intros i Hfresh Hthrow HQ. unfold http_server. apply wp_raii, wp_zoom, wp_modify. cbn [then_].
  apply wp_bind, wp_zoom. pose proof (Srv.start_spec K port _ (Http.sent i) Hfresh) as Hspec.
  unfold wp at 1. match goal with |- context [Srv.start K ?s] =>
    change s with (Srv.constructed port (Http.open_fds i) (Http.sent i)) end.
  destruct (Srv.start K (Srv.constructed port (Http.open_fds i) (Http.sent i))) as [o s].
  cbn in Hthrow. subst o. destruct Hspec as (_ & j & Hd & Hj & _). cbn [then_]. unfold leaving.
  apply wp_zoom. unfold wp. cbn. rewrite Hd. by apply HQ.
Qed.

(** *** From [run_monitor] to [main] *)

(** What [main] does before it calls [run_monitor]. *)
Definition installed (g : Mon.Globals) (w : W) : W :=
  MkWorld FM (bpf w) (srv w) g (filters w) (reporter w) (counted w)
    (fun x => if decide (x = SIGTERM) then Http.SIG_HANDLER
              else if decide (x = SIGINT) then Http.SIG_HANDLER else disp w x).

Lemma installed_handled g w : handled (installed g w).
Proof. by split. Qed.

Lemma wp_main opts inp cfg g w Q :
  Mon.parse_args opts Mon.default_config (glob w) = inl (0, cfg, g) ->
  wp (run_monitor cfg inp) (fun o w' => match o with
    | Ok _ => Q (Ok 0) w' | Throw e => wp (report_exception e) Q w' | Halt h => Q (Halt h) w' end)
    (installed g w) ->
  wp (main opts inp) Q w.
Proof.
  intros Hp Hrun. unfold main. apply wp_bind, wp_get. cbn [then_]. rewrite Hp.
  apply wp_bind, wp_zoom, wp_modify. cbn [then_ negb Z.eqb].
  do 2 (apply wp_bind, wp_modify; cbn [then_]).
  apply wp_try_catch, wp_bind. eapply wp_mono; [exact Hrun|]. by intros [[]|e|h] w'.
Qed.

(** A clean run. *)
Lemma wp_shuts_down opts inp fs cfg g w :
  Mon.parse_args opts Mon.default_config (glob w) = inl (0, cfg, g) ->
  attach_ok cfg -> server_ok cfg -> rings_ok ->
  fed (turns inp) fs -> quiet_inputs inp -> Mon.g_stop g = false ->
  existsb is_signal (setup inp) || existsb Loop.signal fs = true ->
  wp (main opts inp) (fun o w' => o = Ok 0 /\ Bpf.live (bpf w') = Bpf.live (bpf w) /\
    filters w' = Tracer.install_filters (Mon.filter_pid cfg) (Mon.filter_port cfg) (filters w) /\
    shut_down cfg inp fs g w') w.
Proof.
  intros Hp Hat Hsrv Hrings Hfed Hq Hstop Hsig.
  eapply wp_main; [done|]. apply wp_run_monitor; [done|done|]. intros w1 tcp_obj audit_obj Hready Hobj.
  eapply wp_mono; [by eapply serve_shuts_down; try apply installed_handled|].
  intros o w2 (-> & Hl & Hf & [(i & Hi & Hr & Hfds) Hptr Hrep Hout]).
  unfold leaving. apply wp_zoom. unfold wp.
  rewrite (Srv.dtor_closes (part w2) (Http.open_fds i)) by (cbn; rewrite Hi; done).
  split; [done|]. intros _. pose proof (rd_probing _ _ _ Hready) as [Hb1 Hf1 _ _].
  split; [cbn; by rewrite Hl, Hb1|]. split; [done|]. split; [done|]. split; [by cbn; rewrite Hf, Hf1|].
  split; [|done..]. exists i. cbn. rewrite Hi. cbn. split; [by destruct i|]. by split.
Qed.

End Daemon.
End Daemon.

(** ** Properties *)

Section Properties.
Import Daemon.
Context (L : Bpf.Libbpf) (K : Srv.Sockets) (thread_error : option str).
Context (inet_ntop : Z -> string) (ntohs : Z -> Z).
Context (iter : gmap Reporter.ConnectionKey Reporter.ConnectionStats -> list Reporter.item).
Context `{StdSort} {FM : Type} `{!ArrayMapOps Z FM}.
#[local] Abbreviation run_main := (main L K thread_error inet_ntop ntohs iter (FM := FM)).

(** What main leaves of the BPF objects that were [before]. *)
Definition released (before : list Bpf.resource) (o : outcome Z) (w' : World FM) : Prop :=
  o <> Halt Undefined /\
  forall rc, o = Ok rc ->
    Bpf.live (bpf w') = before \/
    rc = 1 /\ exists id path, Bpf.live (bpf w') = Bpf.Object id path :: before /\ Bpf.load_err L path <> 0.

(** C7: whatever libbpf, the sockets and the thread library answer, whatever
    options are given and whatever happens while the daemon runs: it uses no
    BPF object, link or ring buffer that does not exist; when main returns, all
    of them are released, except one object whose load failed, and then the
    exit code is 1.  An exception leaves main exactly when a number on the
    command line cannot be read, and then nothing was acquired; every exception
    of run_monitor is caught. *)
Theorem daemon_releases opts inp fs (w : World FM) :
  Bpf.wf (bpf w) -> fed (turns inp) fs ->
  let '(o, w') := run_main opts inp w in
  released (Bpf.live (bpf w)) o w' /\
  ((exists e, o = Throw e) <-> exists e, Mon.parse_args opts Mon.default_config (glob w) = inr e) /\
  (forall e, o = Throw e -> e = bad_number /\ w' = w).
Proof.
  intros Hwf Hfed.
  change (wp (run_main opts inp) (fun o w' => released (Bpf.live (bpf w)) o w' /\
    ((exists e, o = Throw e) <-> exists e, Mon.parse_args opts Mon.default_config (glob w) = inr e) /\
    (forall e, o = Throw e -> e = bad_number /\ w' = w)) w).
  destruct (Mon.parse_args opts Mon.default_config (glob w)) as [[[rc cfg] g]|e] eqn:Hp.
  2:{ unfold wp, main, get, mbind, M_bind. rewrite Hp. cbn. unfold released. naive_solver. }
  assert (forall (o : outcome Z) w', (forall e, o <> Throw e) -> released (Bpf.live (bpf w)) o w' ->
    released (Bpf.live (bpf w)) o w' /\
    ((exists e, o = Throw e) <-> exists e : stoul_error, inl (rc, cfg, g) = inr e) /\
    (forall e, o = Throw e -> e = bad_number /\ w' = w)) as Hret by naive_solver.
  destruct (Z.eqb_spec rc 0) as [->|Hrc].
  - eapply wp_main; [done|]. eapply wp_mono;
      [apply (safe_run_monitor L K thread_error inet_ntop ntohs iter cfg inp fs Hfed);
       [done|set_solver|apply installed_handled]|].
    intros [[]|e|h] w' (Hu & Hs & _).
    + destruct (Hs I) as (_ & leak & Hleak & Hl). cbn in Hleak. subst leak. apply Hret; [done|]. split; auto.
    + destruct (Hs I) as (_ & leak & Hleak & Hl). cbn in Hl, Hleak.
      destruct e; apply Hret; try done; (split; [done|]); intros rc [= <-]; cbn;
        (destruct Hleak as [->|(id & path & -> & He)]; [by left|right; split; [done|]; eauto]).
    + apply Hret; [done|]. split; [|done]. intros [= ->]. done.
  - unfold wp, main, get, mbind, M_bind. rewrite Hp. cbn.
    rewrite (proj2 (Z.eqb_neq rc 0)) by done. cbn. apply Hret; [done|]. split; [done|]. auto.
Qed.

(** C9: a run of the daemon: when every set-up call succeeds, a signal arrives at
    some time and the server thread is not cut short (no client's connection is
    broken when it is answered, epoll_ctl accepts every client, and the eventfd is
    silent until it is written), main returns 0; the filters are the configured
    ones, the reporter recorded exactly the events of the turns up to the signal,
    the global pointer is reset, every BPF object is released, the server's
    descriptors are closed and its thread has ended; standard output is the
    banner, what the loop wrote, and the farewell, and under --json the loop wrote
    exactly one line per event. *)
Theorem daemon_shuts_down opts inp fs cfg g (w : World FM) :
  Mon.parse_args opts Mon.default_config (glob w) = inl (0, cfg, g) ->
  attach_ok L cfg -> server_ok K thread_error cfg -> rings_ok L ->
  fed (turns inp) fs -> quiet_inputs K inp -> Mon.g_stop g = false ->
  existsb is_signal (setup inp) || existsb Loop.signal fs = true ->
  exists w', run_main opts inp w = (Ok 0, w') /\
    Bpf.live (bpf w') = Bpf.live (bpf w) /\
    filters w' = Tracer.install_filters (Mon.filter_pid cfg) (Mon.filter_port cfg) (filters w) /\
    shut_down K inet_ntop cfg inp fs g w'.
Proof.
  intros Hp Hat Hsrv Hrings Hfed Hq Hstop Hsig.
  pose proof (wp_shuts_down L K thread_error inet_ntop ntohs iter opts inp fs cfg g w
    Hp Hat Hsrv Hrings Hfed Hq Hstop Hsig) as Hwp.
  unfold wp in Hwp. destruct (run_main opts inp w) as [o w']. destruct Hwp as (-> & Hwp). eauto.
Qed.

(** C26: a ring buffer that cannot be opened: the exception is thrown after the
    server thread was started, nothing has asked the thread to stop, and its
    destructor waits for it: the daemon hangs with the probes attached, instead
    of exiting with an error. *)
Theorem ring_failure_hangs opts inp cfg g (w : World FM) :
  Mon.parse_args opts Mon.default_config (glob w) = inl (0, cfg, g) ->
  attach_ok L cfg -> server_ok K thread_error cfg -> quiet_inputs K inp ->
  ring_opens L "bpf/tcp_tracer.bpf.o" "tcp_events" = false \/
  ring_opens L "bpf/syscall_audit.bpf.o" "syscall_events" = false ->
  exists w', run_main opts inp w = (Halt Blocked, w') /\
    Bpf.live (bpf w') = attached (fresh w) ++ Bpf.live (bpf w).
Proof.
  intros Hp Hat Hsrv Hq Hring.
  set (Q := fun (o : outcome Z) (w' : World FM) => o = Halt Blocked /\
    Bpf.live (bpf w') = attached (fresh w) ++ Bpf.live (bpf w)).
  assert (wp (run_main opts inp) Q w) as Hwp.
  2:{ unfold wp in Hwp. destruct (run_main opts inp w) as [o w']. destruct Hwp as (-> & Hwp). eauto. }
  eapply wp_main; [done|]. apply wp_run_monitor; [done|done|]. intros w1 tcp_obj audit_obj Hready Hobj.
  eapply wp_mono; [by eapply serve_hangs; try apply installed_handled|]. intros o w2 (-> & Hl).
  pose proof (rd_probing _ _ _ _ Hready) as [Hb1 _ _ _]. unfold leaving. split; [|done].
  intros h [= <-]. split; [done|]. by rewrite Hl, Hb1.
Qed.

(** A server that cannot start, for instance because its port is taken:
    main returns 1 with the reason on standard error, and takes everything down
    that was set up before: probes, objects, and the descriptors opened so
    far. *)
Theorem server_failure_reported opts inp cfg g what (w : World FM) :
  let i := Srv.io (srv w) in
  Mon.parse_args opts Mon.default_config (glob w) = inl (0, cfg, g) ->
  attach_ok L cfg -> Srv.fresh_fds K (Http.open_fds i) ->
  (Srv.start K (Srv.constructed (Mon.http_port cfg) (Http.open_fds i) (Http.sent i))).1 =
    Throw (StdException what) ->
  exists w' err, run_main opts inp w = (Ok 1, w') /\
    Bpf.live (bpf w') = Bpf.live (bpf w) /\ Http.open_fds (Srv.io (srv w')) = Http.open_fds i /\
    Mon.stderr (glob w') = err ++ lit "Error: " ++ what ++ nl.
Proof.
  intros i Hp Hat Hfresh Hthrow.
  set (Q := fun (o : outcome Z) (w' : World FM) => o = Ok 1 /\
    Bpf.live (bpf w') = Bpf.live (bpf w) /\ Http.open_fds (Srv.io (srv w')) = Http.open_fds i /\
    exists err, Mon.stderr (glob w') = err ++ lit "Error: " ++ what ++ nl).
  assert (wp (run_main opts inp) Q w) as Hwp.
  2:{ unfold wp in Hwp. destruct (run_main opts inp w) as [o w'].
      destruct Hwp as (-> & Hl & Hfds & err & Herr). eauto 10. }
  eapply wp_main; [done|]. apply wp_attach; [done|]. intros w1 tcp_obj audit_obj [Hb1 _ _ _] Hs1 _.
  apply (wp_no_server L K thread_error inet_ntop ntohs iter _ inp cfg tcp_obj audit_obj what);
    [by rewrite Hs1|by rewrite Hs1|]. intros s Hfds. split; [done|]. intros _.
  split; [by cbn; rewrite Hb1|].
  apply wp_bind, wp_zoom, wp_modify. cbn [then_]. apply wp_ret. split; [done|]. split; [done|].
  split; [by cbn; rewrite Hfds, Hs1|]. eexists. reflexivity.
Qed.

(** C37: a request in the middle of a poll.  The callback has run for some
    samples, with any quiet requests of other clients in between; then the server
    thread counts the connections, as it does first for /metrics; the callback
    runs for more samples; then the thread answers a request all of whose bytes
    are there before a read would block.  The response is the route's text, where
    the number of connections is that after the first events, and everything else
    that of all events handled so far. *)
Theorem live_request_served es1 es2 samples1 samples2 (w : World FM) r fd chunks method path rest room now_ms :
  let st := srv w in
  handled w ->
  samples1.*2 = tcp_event_bytes <$> es1 -> samples2.*2 = tcp_event_bytes <$> es2 ->
  Forall Loop.ok_tcp es1 -> Forall Loop.ok_tcp es2 ->
  Forall (quiet_sample (Srv.stop_fd_ st)) samples1 ->
  Forall (fun x => Forall (fun a => is_signal a = true) x.1) samples2 ->
  Mon.g_reporter (glob w) = Some r ->
  Http.running_ (Srv.io st) = true -> Http.read_bufs_ (Srv.io st) = ∅ ->
  fd <> Srv.stop_fd_ st -> fd <> Srv.listen_fd_ st ->
  CR ∉ method -> CR ∉ path -> space ∉ method -> space ∉ path ->
  mjoin chunks = method ++ space :: path ++ space :: rest ->
  contains (CRLF ++ CRLF) (mjoin chunks) = true ->
  let body := Mon.http_route inet_ntop ntohs iter now_ms path
                (Reporter.record_all es1 r) (Reporter.record_all (es1 ++ es2) r) in
  let status := if bool_decide (path = []) || bool_decide (body = []) then 404 else 200 in
  let ct := if decide (path = lit "/metrics") then "text/plain; version=0.0.4; charset=utf-8"
            else "application/json" in
  let request := HttpEvent now_ms (Http.MkEvent fd (Http.Data <$> chunks) (Http.Wrote room) []) in
  let callback := on_sample inet_ntop ntohs iter (Mon.handle_tcp_event inet_ntop) in
  exists w1 w2,
    (_ ← Bpf.consume callback samples1 0; _ ← act inet_ntop ntohs iter Count;
     Bpf.consume callback samples2 0) w = (Ok (Z.of_nat (length samples2)), w1) /\
    act inet_ntop ntohs iter request w1 = (Ok (), w2) /\
    Http.sent (Srv.io (srv w2)) = Http.sent (Srv.io (srv w1)) ++
      [(fd, take room (Http.build_response status (lit ct) body))].
Proof.
  intros st Hh Hs1 Hs2 Hes1 Hes2 Hq Hsig Hr Hrun Hbuf Hfd1 Hfd2 Hm Hp Hsm Hsp Hreq Hend body status ct request callback.
  pose proof (sim_consume inet_ntop ntohs iter _ samples1 0 w _ (ignores_stop_tcp inet_ntop)
    ltac:(rewrite Hs1; by apply Loop.poll_tcp_events)) as Hsim.
  specialize (Hsim Hh). unfold wp in Hsim. fold callback in Hsim. unfold mbind, M_bind.
  destruct (Bpf.consume callback samples1 0 w) as [o w1].
  destruct Hsim as (_ & _ & _ & Hd & Ho & Hsame). destruct (Hsame Hq) as [-> (i & Hi & Hri & Hbi)].
  destruct Ho as [[_ Hg]|Ho]; [|done]. cbn [act].
  set (r1 := Reporter.record_all es1 r) in *.
  assert (Mon.g_reporter (glob w1) = Some r1) as Hr1.
  { rewrite Hg. unfold signals. by destruct (existsb _ _). }
  assert (the_reporter w1 = r1) as Hrep by (unfold the_reporter; by rewrite Hr1).
  unfold modify, callback. rewrite Hrep.
  rewrite (consume_signals inet_ntop ntohs iter _ samples2 0 (set_counted (Some r1) w1) _
    (ignores_stop_tcp inet_ntop) ltac:(rewrite Hs2; by apply (Loop.poll_tcp_events _ _ _ r1)));
    [|unfold handled; cbn; by rewrite Hd|done].
  match goal with |- context [set_part ?g (set_counted _ w1)] => set (g3 := g) in * end.
  set (w3 := set_part g3 (set_counted (Some r1) w1)).
  assert (the_reporter w3 = Reporter.record_all (es1 ++ es2) r) as Hrep3.
  { unfold the_reporter, w3, g3, signals. rewrite Loop.record_all_app. by destruct (existsb _ _). }
  exists w3. assert (srv w3 = srv w1) as Hsrv by done.
  unfold act, request, mbind, M_bind, get, zoom, part, srv_part, Srv.http_wait. rewrite Hsrv, Hi.
  cbn [Srv.io Srv.set_io Srv.listen_fd_ Srv.stop_fd_ fst snd]. fold st. rewrite Hri. fold st. rewrite Hrun.
  cbn [Http.process_events Http.fd Http.reads Http.written].
  rewrite (proj2 (Z.eqb_neq fd (Srv.stop_fd_ st))), (proj2 (Z.eqb_neq fd (Srv.listen_fd_ st))) by done.
  unfold handler. rewrite Hrep3. change (default _ (counted w3)) with r1.
  set (h := fun p => Mon.http_route inet_ntop ntohs iter now_ms p r1 (Reporter.record_all (es1 ++ es2) r)).
  pose proof (Http.whole_request h (disp w3 SIGPIPE) fd chunks method path rest room i) as Hsent.
  destruct (Http.handle_client_wrote (Some h) (disp w3 SIGPIPE) fd (Http.Data <$> chunks) (Http.Wrote room) i) as [i' Hi'];
    [done|].
  eexists. rewrite Hi' in Hsent |- *. split; [done|]. split; [reflexivity|].
  cbn. apply Hsent; try done. by rewrite (Hbi Hbuf).
Qed.

(** C27: a client whose connection is broken when it is answered: main installs
    handlers for SIGINT and SIGTERM only, so when the process started with the
    default action for SIGPIPE, the write of the response ends the whole daemon at
    once, wherever the client comes between the start of the server thread and the
    signal that ends the main loop, and whatever well-behaved clients and events
    came before: main does not return, nothing asks the server to stop, and no
    destructor takes down the probes, the objects or the ring buffers. *)
Theorem broken_pipe_kills opts inp fs cfg g (w : World FM) :
  Mon.parse_args opts Mon.default_config (glob w) = inl (0, cfg, g) ->
  attach_ok L cfg -> server_ok K thread_error cfg -> fed (turns inp) fs -> Mon.g_stop g = false ->
  disp w SIGPIPE = Http.SIG_DFL -> broken_inputs L K inp ->
  exists w' rings, run_main opts inp w = (Halt Terminated, w') /\
    Bpf.live (bpf w') = rings ++ attached (fresh w) ++ Bpf.live (bpf w) /\
    Http.running_ (Srv.io (srv w')) = true /\ Srv.stop_written (srv w') = false.
Proof.
  intros Hp Hat Hsrv Hfed Hstop Hpipe Hbr.
  set (Q := fun (o : outcome Z) (w' : World FM) => o = Halt Terminated /\
    (exists rings, Bpf.live (bpf w') = rings ++ attached (fresh w) ++ Bpf.live (bpf w)) /\
    Http.running_ (Srv.io (srv w')) = true /\ Srv.stop_written (srv w') = false).
  assert (wp (run_main opts inp) Q w) as Hwp.
  2:{ unfold wp in Hwp. destruct (run_main opts inp w) as [o w'].
      destruct Hwp as (-> & (rings & Hl) & Hr). exists w', rings. by split. }
  eapply wp_main; [done|]. apply wp_run_monitor; [done|done|]. intros w1 tcp_obj audit_obj Hready Hobj.
  eapply wp_mono; [by eapply serve_killed; try apply installed_handled|].
  intros o w2 (-> & [_ Hal _ _] & rings & Hl).
  pose proof (rd_probing _ _ _ _ Hready) as [Hb1 _ _ _]. unfold leaving. split; [|done].
  intros h [= <-]. split; [done|]. split; [exists rings; by rewrite Hl, Hb1|done].
Qed.

End Properties.

(** ** Witnesses *)

Module LifecycleWitness.
Import Daemon.

Definition all_ok : Bpf.Libbpf := LoaderWitness.libbpf (fun _ => 0).

(** The same without the ring buffer of the tracer. *)
Definition no_ring : Bpf.Libbpf :=
  Bpf.MkLibbpf (fun _ => true) (fun _ => 0) (fun _ _ => true) (fun _ _ => true) (fun _ _ _ => true)
    (fun _ _ => true) (fun m => negb (bool_decide (m = lit "tcp_events"))) (fun _ => lit "error").

Definition options : list Mon.option_ := [Mon.FilterPid (lit "42"); Mon.Json].
Definition config : Mon.Config := Mon.MkConfig 42 0 9090.

Definition globals0 : Mon.Globals := Mon.MkGlobals None false false [] [].

Definition world0 : World (gmap Z Z) :=
  MkWorld _ (Bpf.MkState [] 0)
    (Srv.MkState (-1) (-1) (-1) 0 (Http.MkServer ∅ ∅ {[0; 1; 2]} [] false) false)
    globals0 ∅ Reporter.new_reporter None (fun _ => Http.SIG_DFL).

(** A client connects between two samples and asks for the health of the
    daemon; then the signal. *)
Definition inputs : Inputs :=
  MkInputs [HttpEvent 5 (Http.MkEvent 3 [] (Http.Wrote 0) [(7, true)])] 0
    [MkTurn [([], tcp_event_bytes (ReporterWitness.event 0 1 0 0));
             ([HttpEvent 6 (Http.MkEvent 7 [Http.Data (lit "GET /health HTTP/1.1" ++ CRLF ++ CRLF)] (Http.Wrote 500) [])],
              tcp_event_bytes (ReporterWitness.event 1 1 10 20))] [] [] 100;
     MkTurn [] [] [Interrupt] 200]
    [(9, Http.MkEvent 3 [] (Http.Wrote 0) [(8, true)])].

Definition feeds : list Loop.feed :=
  [Loop.MkFeed demo_events [] 100 false; Loop.MkFeed [] [] 200 true].

Lemma inputs_fed : fed (turns inputs) feeds.
Proof.
  split; [vm_compute; reflexivity|].
  repeat constructor; try (vm_compute; congruence); apply (bool_decide_unpack _); vm_compute; exact I.
Qed.

Lemma inputs_quiet : quiet_inputs ServerWitness.kernel inputs.
Proof. repeat constructor; vm_compute; congruence. Qed.

Lemma all_attach : attach_ok all_ok config.
Proof. split; try split; try reflexivity. right. reflexivity. Qed.

Lemma no_ring_attach : attach_ok no_ring config.
Proof. split; try split; try reflexivity. right. reflexivity. Qed.

Lemma kernel_starts : server_ok ServerWitness.kernel None config.
Proof. split; [cbn; lia|by cbn|reflexivity]. Qed.

End LifecycleWitness.

Section Witnesses.
Import TracerWitness Daemon LifecycleWitness ReporterWitness.

Lemma daemon_releases_witness :
  Bpf.live (bpf (main (LoaderWitness.libbpf (fun _ => -1)) ServerWitness.kernel None ntop (fun z => z)
    map_to_list options inputs world0).2) = [Bpf.Object 0 (lit "bpf/tcp_tracer.bpf.o")].
Proof.
  assert (Bpf.wf (bpf world0)) as Hwf by (split; constructor).
  pose proof (daemon_releases (LoaderWitness.libbpf (fun _ => -1)) ServerWitness.kernel None ntop
    (fun z => z) map_to_list options inputs feeds world0 Hwf inputs_fed) as Hr.
  destruct (main _ _ _ _ _ _ _ _ _) as [o w'] eqn:Hm. destruct Hr as ((_ & Hr) & _).
  vm_compute in Hm. injection Hm as <- <-.
  destruct (Hr 1 eq_refl) as [Hl|(_ & id & path & Hl & _)]; [discriminate Hl|]. vm_compute. reflexivity.
Defined.

Lemma daemon_shuts_down_witness :
  exists w', main all_ok ServerWitness.kernel None ntop (fun z => z) map_to_list options inputs world0 =
      (Ok 0, w') /\
    Bpf.live (bpf w') = [] /\ Mon.g_reporter (glob w') = None /\
    reporter w' = Reporter.record_all demo_events Reporter.new_reporter.
Proof.
  destruct (daemon_shuts_down all_ok ServerWitness.kernel None ntop (fun z => z) map_to_list
    options inputs feeds config (Mon.set_json globals0) world0) as (w' & Hm & Hl & _ & [_ Hp Hr _]);
    [vm_compute; reflexivity|exact all_attach|exact kernel_starts|repeat split|exact inputs_fed
    |exact inputs_quiet|reflexivity|reflexivity|].
  exists w'. split; [exact Hm|]. split; [exact Hl|]. split; [exact Hp|exact Hr].
Defined.

Lemma ring_failure_hangs_witness :
  exists w', main no_ring ServerWitness.kernel None ntop (fun z => z) map_to_list options inputs world0 =
      (Halt Blocked, w') /\ length (Bpf.live (bpf w')) = 5%nat.
Proof.
  destruct (ring_failure_hangs no_ring ServerWitness.kernel None ntop (fun z => z) map_to_list
    options inputs config (Mon.set_json globals0) world0) as (w' & Hm & Hl);
    [vm_compute; reflexivity|exact no_ring_attach|exact kernel_starts|exact inputs_quiet
    |left; vm_compute; reflexivity|].
  exists w'. split; [exact Hm|]. rewrite Hl. reflexivity.
Defined.

Lemma server_failure_reported_witness :
  exists w' err, main all_ok ServerWitness.busy None ntop (fun z => z) map_to_list options inputs world0 =
      (Ok 1, w') /\ Bpf.live (bpf w') = [] /\ Http.open_fds (Srv.io (srv w')) = {[0; 1; 2]} /\
    Mon.stderr (glob w') = err ++ lit "Error: bind() failed: Address already in use" ++ nl.
Proof.
  destruct (server_failure_reported all_ok ServerWitness.busy None ntop (fun z => z) map_to_list
    options inputs config (Mon.set_json globals0) (lit "bind() failed: Address already in use") world0)
    as (w' & err & Hm & Hl & Hf & He);
    [vm_compute; reflexivity|exact all_attach| |vm_compute; reflexivity|].
  - constructor; cbn; repeat split; try lia; apply (bool_decide_unpack _); vm_compute; exact I.
  - exists w', err. split; [exact Hm|]. split; [exact Hl|]. split; [exact Hf|exact He].
Defined.

(** The loop alone, with both ring buffers open. *)
Definition loop_world : World (gmap Z Z) :=
  MkWorld _ (Bpf.MkState [Bpf.Ring 1 (lit "b"); Bpf.Ring 0 (lit "a")] 2) ServerWitness.started
    (point (Some Reporter.new_reporter) (Mon.set_json globals0)) ∅ Reporter.new_reporter None
    (fun _ => Http.SIG_HANDLER).

(** /metrics is asked for between the events of two connections: the second one
    is listed, and not counted. *)
Definition scrape_request : list str := [lit "GET /met"; lit "rics HTTP/1.1" ++ CRLF ++ CRLF].

Lemma live_request_served_witness :
  exists w1 w2 : World (gmap Z Z),
    act ntop (fun z => z) map_to_list (HttpEvent 6
      (Http.MkEvent 7 (Http.Data <$> scrape_request) (Http.Wrote 5000) [])) w1 = (Ok (), w2) /\
    Http.sent (Srv.io (srv w2)) = Http.sent (Srv.io (srv w1)) ++
      [(7, take 5000 (Http.build_response 200 (lit "text/plain; version=0.0.4; charset=utf-8")
             (Mon.http_route ntop (fun z => z) map_to_list 6 (lit "/metrics")
               (Reporter.record_all [ReporterWitness.event 0 1 0 0] Reporter.new_reporter)
               (Reporter.record_all [ReporterWitness.event 0 1 0 0; ReporterWitness.event 0 2 0 0]
                 Reporter.new_reporter))))].
Proof.
  destruct (live_request_served ntop (fun z => z) map_to_list
    [ReporterWitness.event 0 1 0 0] [ReporterWitness.event 0 2 0 0]
    [([], tcp_event_bytes (ReporterWitness.event 0 1 0 0))]
    [([Interrupt], tcp_event_bytes (ReporterWitness.event 0 2 0 0))] loop_world Reporter.new_reporter 7
    scrape_request (lit "GET") (lit "/metrics") (lit "HTTP/1.1" ++ CRLF ++ CRLF) 5000 6)
    as (w1 & w2 & _ & Hact & Hsent);
    [split; reflexivity|vm_compute; reflexivity|vm_compute; reflexivity| | |repeat constructor
    |repeat constructor|try (vm_compute; congruence)..|].
  1,2: repeat constructor; try (vm_compute; congruence); apply (bool_decide_unpack _); vm_compute; exact I.
  1-4: apply (bool_decide_unpack _); vm_compute; exact I.
  exists w1, w2. split; [exact Hact|exact Hsent].
Defined.

(** A client connects while the loop runs, and has gone when its request is
    answered. *)
Definition gone_turn : turn :=
  MkTurn [([HttpEvent 5 (Http.MkEvent 3 [] (Http.Wrote 0) [(7, true)])],
           tcp_event_bytes (ReporterWitness.event 0 1 0 0));
          ([HttpEvent 6 (Http.MkEvent 7 (Http.Data <$> HttpWitness.pieces) Http.BrokenPipe [])],
           tcp_event_bytes (ReporterWitness.event 1 1 10 20))] [] [Interrupt] 100.

Definition gone_inputs : Inputs := MkInputs [] 0 [gone_turn] [].

Lemma broken_pipe_kills_witness :
  exists w' rings, main all_ok ServerWitness.kernel None ntop (fun z => z) map_to_list options gone_inputs world0 =
      (Halt Terminated, w') /\ Bpf.live (bpf w') = rings ++ attached 0.
Proof.
  destruct (broken_pipe_kills all_ok ServerWitness.kernel None ntop (fun z => z) map_to_list
    options gone_inputs [Loop.MkFeed demo_events [] 100 true] config (Mon.set_json globals0) world0)
    as (w' & rings & Hm & Hl & _);
    [vm_compute; reflexivity|exact all_attach|exact kernel_starts| |reflexivity|reflexivity| |].
  - split; [vm_compute; reflexivity|].
    repeat constructor; try (vm_compute; congruence); apply (bool_decide_unpack _); vm_compute; exact I.
  - right. split; [constructor|]. split; [reflexivity|]. split; [repeat split|].
    exists [], gone_turn, []. split; [reflexivity|]. split; [constructor|]. left.
    eexists [_], _, []. split; [reflexivity|]. split; [repeat constructor; vm_compute; congruence|].
    eexists [], 6, _, []. split; [reflexivity|]. split; [constructor|].
    split; [vm_compute; congruence|]. split; [vm_compute; congruence|]. split; [reflexivity|].
    exists HttpWitness.pieces. reflexivity.
  - exists w', rings. split; [exact Hm|]. rewrite Hl. reflexivity.
Defined.

End Witnesses.
