(* ===== verification/Formats.v ===== *)
(** * Formats: the texts clients of the daemon read

    Readers, after the documents that define the formats, for the two texts the
    daemon serves: JSON (RFC 8259; the values the daemon writes are unsigned
    integers, strings, arrays and objects, without white space) and the
    Prometheus text exposition format.  They are the specifications the
    printers of [Monitor] and [Metrics] are judged against; the lemmas say that
    a reader gives back what was printed, with enough fuel when the fuel is the
    length of the text. *)

From S2P Require Import Prelude HttpServer Metrics Monitor.
From Stdlib Require Import Ascii.

(** ** Characters *)

Definition quote : ascii := ascii_of_nat 34.
Definition backslash : ascii := ascii_of_nat 92.

(** A character that stands for itself between quotes in both formats. *)
Definition plain_char (c : ascii) : bool :=
  negb (bool_decide (c = quote)) && negb (bool_decide (c = backslash)) &&
  (32 <=? nat_of_ascii c)%nat.

Definition plain (s : str) : bool := forallb plain_char s.

(** What may follow a number: not another digit. *)
Definition boundary (rest : str) : Prop :=
  match rest with [] => True | c :: _ => digit c = None end.

(** [item] reads [x] from its printed form [pr x], whatever follows it. *)
Definition reads {A} (item : str -> option (A * str)) (pr : A -> str) (x : A) : Prop :=
  forall rest, boundary rest -> item (pr x ++ rest) = Some (x, rest).

(** ** Numbers *)

(** The digits at the front, their value, and the rest. *)
Fixpoint read_digits (acc : Z) (s : str) : Z * str :=
  match s with
  | [] => (acc, [])
  | c :: s' => match digit c with Some d => read_digits (10 * acc + d) s' | None => (acc, s) end
  end.

(** An unsigned integer has no leading zero. *)
Definition read_number (s : str) : option (Z * str) :=
  match s with
  | [] => None
  | c :: s' =>
      match digit c with
      | None => None
      | Some 0 => Some (0, s')
      | Some d => Some (read_digits d s')
      end
  end.

Lemma read_digits_app acc s rest :
  Forall is_digit s -> boundary rest -> read_digits acc (s ++ rest) = (digits acc s, rest).
Proof.
  intros Hs Hr. revert acc. induction Hs as [|c s Hc Hs IH]; intros acc; simpl.
  - destruct rest as [|c rest]; simpl in *; [done|]. by rewrite Hr.
  - unfold is_digit in Hc. by destruct (digit c).
Qed.

Lemma go_all_digits x s : Forall is_digit (lit s) -> Forall is_digit (lit (pretty_N_go x s)).
Proof.
  revert s. induction (N.lt_wf_0 x) as [x _ IH]. intros s Hs.
  destruct (decide (0 < x)%N) as [Hx|Hx].
  - rewrite pretty_N_go_step by done. apply IH; [by apply N.div_lt|]. constructor; [|done].
    unfold is_digit. by rewrite digit_char by (apply N.mod_lt; lia).
  - replace x with 0%N by lia. by rewrite pretty_N_go_0.
Qed.

Lemma go_head_nonzero x s :
  (0 < x)%N -> exists c s' d, lit (pretty_N_go x s) = c :: s' /\ digit c = Some d /\ 0 < d.
Proof.
  revert s. induction (N.lt_wf_0 x) as [x _ IH]. intros s Hx. rewrite pretty_N_go_step by done.
  destruct (decide (0 < x `div` 10)%N) as [Hq|Hq]; [apply IH; [by apply N.div_lt|done]|].
  assert (x `div` 10 = 0)%N as Hz by (apply N.le_0_r, N.nlt_ge; exact Hq).
  rewrite Hz, pretty_N_go_0. assert (x < 10)%N as Hs by by apply N.div_small_iff.
  do 3 eexists. split; [reflexivity|]. rewrite N.mod_small by done.
  split; [by apply digit_char|lia].
Qed.

Lemma decimal_all_digits n : 0 <= n -> Forall is_digit (decimal n).
Proof.
  intros Hn. unfold decimal. destruct n as [|n|n]; [by repeat constructor| |lia].
  change (pretty (Z.pos n)) with (pretty_N_go (N.pos n) ""). by apply go_all_digits.
Qed.

Lemma decimal_nonzero n :
  0 < n -> exists c s d, decimal n = c :: s /\ digit c = Some d /\ 0 < d.
Proof.
  intros Hn. unfold decimal. destruct n as [|n|n]; try lia.
  change (pretty (Z.pos n)) with (pretty_N_go (N.pos n) ""). by apply go_head_nonzero.
Qed.

Lemma read_number_decimal n : 0 <= n -> reads read_number decimal n.
Proof.
  intros Hn rest Hr. destruct (decide (n = 0)) as [->|Hz]; [done|].
  destruct (decimal_nonzero n) as (c & s & d & Hc & Hd & Hpos); [lia|].
  pose proof (decimal_digits n Hn) as Hv. pose proof (decimal_all_digits n Hn) as Hall.
  rewrite Hc in *. cbn [app read_number digits] in *. rewrite Hd in *.
  apply Forall_cons in Hall as [_ Hall].
  change (10 * 0 + d) with d in Hv.
  destruct d; try lia. by rewrite read_digits_app, Hv.
Qed.

(** ** Strings *)

(** The escapes of one letter. *)
Definition unescape (c : ascii) : option ascii :=
  if decide (c = quote \/ c = backslash \/ c = "/"%char) then Some c
  else if decide (c = "b"%char) then Some (ascii_of_nat 8)
  else if decide (c = "f"%char) then Some (ascii_of_nat 12)
  else if decide (c = "n"%char) then Some (ascii_of_nat 10)
  else if decide (c = "r"%char) then Some (ascii_of_nat 13)
  else if decide (c = "t"%char) then Some (ascii_of_nat 9)
  else None.

(** The characters up to the closing quote, the opening one read already. *)
Fixpoint read_string (s : str) : option (str * str) :=
  match s with
  | [] => None
  | c :: s' =>
      if decide (c = quote) then Some ([], s')
      else if decide (c = backslash) then
        match s' with
        | [] => None
        | e :: s'' => x ← unescape e; '(t, r) ← read_string s''; Some (x :: t, r)
        end
      else if (nat_of_ascii c <? 32)%nat then None
      else '(t, r) ← read_string s'; Some (c :: t, r)
  end.

Lemma plain_char_spec c :
  plain_char c = true -> c <> quote /\ c <> backslash /\ (nat_of_ascii c <? 32)%nat = false.
Proof.
  unfold plain_char. rewrite !andb_true_iff, !negb_true_iff, !bool_decide_eq_false, Nat.leb_le.
  intros [[Hq Hb] Hc]. split; [done|]. split; [done|]. by apply Nat.ltb_ge.
Qed.

Lemma read_string_plain s rest :
  plain s = true -> read_string (s ++ quote :: rest) = Some (s, rest).
Proof.
  induction s as [|c s IH]; [done|]. simpl. intros [Hc Hs]%andb_true_iff.
  apply plain_char_spec in Hc as (Hq & Hb & Hc).
  rewrite !decide_False, Hc by done. by rewrite IH.
Qed.

Lemma plain_app s t : plain (s ++ t) = plain s && plain t.
Proof. apply forallb_app. Qed.

Lemma digit_plain c : is_digit c -> plain_char c = true.
Proof.
  intros Hc. destruct c as [b0 b1 b2 b3 b4 b5 b6 b7].
  destruct b0, b1, b2, b3, b4, b5, b6, b7; try (by destruct Hc); done.
Qed.

Lemma plain_decimal n : 0 <= n -> plain (decimal n) = true.
Proof.
  intros Hn. apply forallb_forall. intros c Hc. apply digit_plain.
  pose proof (decimal_all_digits n Hn) as Hall. rewrite List.Forall_forall in Hall. by apply Hall.
Qed.

(** ** Sequences with separators *)

Lemma comma_join_cons (x y : str) l :
  comma_join (x :: y :: l) = x ++ ","%char :: comma_join (y :: l).
Proof. done. Qed.

Section Items.
Context {A : Type} (item : str -> option (A * str)) (close : ascii).

(** One item or more, with commas between them, and the closing bracket. *)
Fixpoint read_items (fuel : nat) (s : str) : option (list A * str) :=
  match fuel with
  | O => None
  | S fuel =>
      '(x, s) ← item s;
      match s with
      | [] => None
      | c :: s =>
          if decide (c = close) then Some ([x], s)
          else if decide (c = ","%char) then '(l, s) ← read_items fuel s; Some (x :: l, s)
          else None
      end
  end.

Definition read_list (fuel : nat) (s : str) : option (list A * str) :=
  match s with
  | [] => None
  | c :: s' => if decide (c = close) then Some ([], s') else read_items fuel s
  end.

Context (pr : A -> str).
Hypothesis close_boundary : digit close = None.
Hypothesis close_comma : close <> ","%char.

Lemma read_items_join fuel x l rest :
  Forall (reads item pr) (x :: l) -> (length l < fuel)%nat ->
  read_items fuel (comma_join (pr <$> x :: l) ++ close :: rest) = Some (x :: l, rest).
Proof.
  revert x fuel. induction l as [|y l IH]; intros x fuel Hall Hf;
    (destruct fuel as [|fuel]; [simpl in Hf; lia|]); apply Forall_cons in Hall as [Hx Hall].
  - cbn. rewrite app_nil_r, Hx by done. cbn. by rewrite decide_True.
  - specialize (IH y fuel Hall ltac:(simpl in Hf; lia)).
    rewrite !fmap_cons in *. rewrite comma_join_cons, <- app_assoc. cbn [read_items].
    rewrite Hx by done. cbn [mbind option_bind app].
    rewrite decide_False, decide_True by done. by rewrite IH.
Qed.

Lemma read_list_join fuel l rest :
  Forall (reads item pr) l -> (length l <= fuel)%nat ->
  (forall x, x ∈ l -> exists c s, pr x = c :: s /\ c <> close) ->
  read_list fuel (comma_join (pr <$> l) ++ close :: rest) = Some (l, rest).
Proof.
  intros Hall Hf Hopen. destruct l as [|x l]; [cbn; by rewrite decide_True|].
  destruct (Hopen x) as (c & s & Hc & Hne); [set_solver|].
  pose proof (read_items_join fuel x l rest Hall ltac:(simpl in Hf; lia)) as Hi.
  rewrite fmap_cons in *. cbn [comma_join] in *. rewrite Hc in *. cbn [app read_list].
  by rewrite decide_False.
Qed.

End Items.

Lemma plain_no_LF s : plain s = true -> LF ∉ s.
Proof.
  intros Hp Hin. unfold plain in Hp. rewrite forallb_forall in Hp.
  apply list_elem_of_In in Hin. by specialize (Hp _ Hin).
Qed.

Lemma comma_join_no_LF (ls : list str) : Forall (fun l => LF ∉ l) ls -> LF ∉ comma_join ls.
Proof.
  induction 1 as [|x [|y l] Hx Hl IH]; [apply not_elem_of_nil|cbn; by rewrite app_nil_r|].
  rewrite comma_join_cons, not_elem_of_app, not_elem_of_cons. done.
Qed.

(** ** JSON *)

Module Json.

Inductive json :=
| Num (n : Z)
| Str (s : str)
| Arr (l : list json)
| Obj (fields : list (str * json)).

(** Induction with the hypothesis for the elements of arrays and objects. *)
Section Induction.
Context (P : json -> Prop).
Hypothesis HNum : forall n, P (Num n).
Hypothesis HStr : forall s, P (Str s).
Hypothesis HArr : forall l, Forall P l -> P (Arr l).
Hypothesis HObj : forall fs, Forall (fun f => P f.2) fs -> P (Obj fs).

Fixpoint json_nested_ind (v : json) : P v :=
  match v with
  | Num n => HNum n
  | Str s => HStr s
  | Arr l => HArr l ((fix go l := match l return Forall P l with
      | [] => Forall_nil_2 _
      | x :: l => Forall_cons_2 _ _ _ (json_nested_ind x) (go l) end) l)
  | Obj fs => HObj fs ((fix go fs := match fs return Forall (fun f => P f.2) fs with
      | [] => Forall_nil_2 _
      | f :: fs => Forall_cons_2 _ _ _ (json_nested_ind f.2) (go fs) end) fs)
  end.
End Induction.

(** The compact text of a value. *)
Fixpoint print (v : json) : str :=
  match v with
  | Num n => decimal n
  | Str s => quote :: s ++ [quote]
  | Arr l => "["%char :: comma_join (print <$> l) ++ ["]"%char]
  | Obj fs =>
      "{"%char :: comma_join ((fun f => quote :: f.1 ++ quote :: ":"%char :: print f.2) <$> fs) ++
      ["}"%char]
  end.

Definition print_member (f : str * json) : str := quote :: f.1 ++ quote :: ":"%char :: print f.2.

(** A value whose text is JSON: numbers are unsigned, strings need no escape. *)
Fixpoint printable (v : json) : Prop :=
  match v with
  | Num n => 0 <= n
  | Str s => plain s = true
  | Arr l => foldr (fun v P => printable v /\ P) True l
  | Obj fs => foldr (fun f P => (plain f.1 = true /\ printable f.2) /\ P) True fs
  end.

(** One member of an object. *)
Definition read_member (value : str -> option (json * str)) (s : str)
    : option (str * json * str) :=
  match s with
  | [] => None
  | c :: s =>
      if decide (c = quote) then
        '(name, s) ← read_string s;
        match s with
        | [] => None
        | c :: s => if decide (c = ":"%char) then '(v, s) ← value s; Some ((name, v), s) else None
        end
      else None
  end.

Fixpoint read_value (fuel : nat) (s : str) : option (json * str) :=
  match fuel with
  | O => None
  | S fuel =>
      match s with
      | [] => None
      | c :: s' =>
          if decide (c = quote) then '(t, r) ← read_string s'; Some (Str t, r)
          else if decide (c = "["%char) then
            '(l, r) ← read_list (read_value fuel) "]" fuel s'; Some (Arr l, r)
          else if decide (c = "{"%char) then
            '(fs, r) ← read_list (read_member (read_value fuel)) "}" fuel s'; Some (Obj fs, r)
          else '(n, r) ← read_number s; Some (Num n, r)
      end
  end.

(** The value of a whole text. *)
Definition parse (s : str) : option json :=
  '(v, r) ← read_value (length s) s;
  if decide (r = []) then Some v else None.

(** The members of an object with a given name: a reader may take any. *)
Definition lookup_all (name : string) (v : json) : list json :=
  match v with
  | Obj fs => (filter (fun f : str * json => f.1 = lit name) fs).*2
  | _ => []
  end.

Lemma print_arr l : print (Arr l) = "["%char :: comma_join (print <$> l) ++ ["]"%char].
Proof. done. Qed.

Lemma print_obj fs : print (Obj fs) = "{"%char :: comma_join (print_member <$> fs) ++ ["}"%char].
Proof. done. Qed.

Lemma printable_arr l : printable (Arr l) <-> Forall printable l.
Proof. induction l as [|v l IH]; simpl; rewrite ?Forall_nil, ?Forall_cons; [done|]. by rewrite <- IH. Qed.

Lemma printable_obj fs :
  printable (Obj fs) <-> Forall (fun f => plain f.1 = true /\ printable f.2) fs.
Proof. induction fs as [|v l IH]; simpl; rewrite ?Forall_nil, ?Forall_cons; [done|]. by rewrite <- IH. Qed.

(** The items and the commas of a list fit in its text. *)
Lemma comma_join_length {A} (pr : A -> str) l :
  (forall x, x ∈ l -> (length (pr x) <= length (comma_join (pr <$> l)))%nat) /\
  (Forall (fun x => pr x <> []) l -> (length l <= length (comma_join (pr <$> l)))%nat).
Proof.
  induction l as [|x [|y l] [IH1 IH2]].
  - split; [set_solver|done].
  - split; cbn; rewrite app_nil_r.
    + intros z ->%list_elem_of_singleton. done.
    + intros [Hx _]%Forall_cons. destruct (pr x); [done|]. simpl. lia.
  - rewrite !fmap_cons in *. rewrite comma_join_cons, length_app.
    cbn [length] in *. split.
    + intros z [->|Hz]%elem_of_cons; [lia|]. specialize (IH1 z Hz). lia.
    + intros [Hx Hl]%Forall_cons. specialize (IH2 Hl).
      destruct (pr x); [done|]. cbn [length]. lia.
Qed.

(** A text starts with a character that closes nothing. *)
Lemma print_head v : printable v -> exists c s, print v = c :: s /\ c <> "]"%char /\ c <> "}"%char.
Proof.
  destruct v as [n|s|l|fs]; try (intros; do 2 eexists; by split).
  simpl. intros Hn. destruct (decimal_head n Hn) as (c & s & Hc & Hd). exists c, s.
  split; [done|]. split; intros ->; by destruct Hd.
Qed.

Lemma member_length f : (length (print f.2) <= length (print_member f))%nat.
Proof. unfold print_member. cbn [length]. rewrite length_app. cbn [length]. lia. Qed.

Lemma read_member_print (value : str -> option (json * str)) f :
  plain f.1 = true -> reads value print f.2 -> reads (read_member value) print_member f.
Proof.
  intros Hp Hv rest Hr. destruct f as [name v]. cbn [fst snd] in *. unfold read_member, print_member.
  cbn [app fst snd]. rewrite decide_True, <- app_assoc by done. cbn [app].
  rewrite read_string_plain by done. cbn [mbind option_bind]. rewrite decide_True by done.
  by rewrite Hv.
Qed.

(** A number is not mistaken for another kind of value. *)
Lemma digit_not_opening c : is_digit c -> c <> quote /\ c <> "["%char /\ c <> "{"%char.
Proof. intros Hc. by split_and!; intros ->. Qed.

Lemma read_value_print fuel v :
  printable v -> (length (print v) <= fuel)%nat -> reads (read_value fuel) print v.
Proof.
  revert fuel. induction v as [n|s|l IH|fs IH] using json_nested_ind; intros fuel Hp Hf rest Hr;
    (destruct fuel as [|fuel];
     [destruct (print_head _ Hp) as (? & ? & Hh & _); rewrite Hh in Hf; simpl in Hf; lia|]).
  - pose proof (read_number_decimal n Hp rest Hr) as Hn. simpl.
    destruct (decimal_head n Hp) as (c & s & Hc & Hd). rewrite Hc in *. cbn [app] in *.
    destruct (digit_not_opening c Hd) as (H1 & H2 & H3).
    rewrite !decide_False by done. by rewrite Hn.
  - simpl. rewrite <- app_assoc. simpl. by rewrite read_string_plain.
  - rewrite print_arr in *. cbn [app length] in *. rewrite length_app in Hf. cbn [length] in Hf.
    destruct (comma_join_length print l) as [Hlen Hcnt].
    apply printable_arr in Hp. rewrite Forall_forall in IH, Hp. cbn [read_value].
    rewrite decide_False, decide_True, <- app_assoc by done. cbn [app].
    rewrite (read_list_join (read_value fuel) "]" print); try done.
    + apply Forall_forall. intros v Hv. apply IH; [done|by apply Hp|]. specialize (Hlen v Hv). lia.
    + transitivity (length (comma_join (print <$> l))); [|lia]. apply Hcnt.
      apply Forall_forall. intros v Hv. destruct (print_head v) as (? & ? & -> & _); [by apply Hp|done].
    + intros v Hv. destruct (print_head v) as (c & s & -> & Hc & _); [by apply Hp|]. by exists c, s.
  - rewrite print_obj in *. cbn [app length] in *. rewrite length_app in Hf. cbn [length] in Hf.
    destruct (comma_join_length print_member fs) as [Hlen Hcnt].
    apply printable_obj in Hp. rewrite Forall_forall in IH, Hp. cbn [read_value].
    rewrite !decide_False, decide_True, <- app_assoc by done. cbn [app].
    rewrite (read_list_join (read_member (read_value fuel)) "}" print_member); try done.
    + apply Forall_forall. intros f Hin. destruct (Hp f Hin) as [Hn Hv].
      apply read_member_print; [done|]. apply IH; [done..|]. specialize (Hlen f Hin).
      pose proof (member_length f). lia.
    + transitivity (length (comma_join (print_member <$> fs))); [|lia]. apply Hcnt.
      by apply Forall_forall.
    + intros f _. by do 2 eexists.
Qed.

Lemma parse_print v : printable v -> parse (print v) = Some v.
Proof.
  intros Hp. unfold parse.
  pose proof (read_value_print (length (print v)) v Hp ltac:(lia) [] I) as Hr.
  rewrite app_nil_r in Hr. rewrite Hr. done.
Qed.

(** A printed value stays on its line. *)
Lemma print_no_LF v : printable v -> LF ∉ print v.
Proof.
  induction v as [n|s|l IH|fs IH] using json_nested_ind; intros Hp.
  - by apply plain_no_LF, plain_decimal.
  - cbn [print]. rewrite not_elem_of_cons, not_elem_of_app, list_elem_of_singleton.
    split_and!; [done| |done]. by apply plain_no_LF.
  - rewrite print_arr. apply printable_arr in Hp.
    rewrite not_elem_of_cons, not_elem_of_app, list_elem_of_singleton. split_and!; [done| |done].
    apply comma_join_no_LF, Forall_fmap, Forall_forall. rewrite Forall_forall in IH, Hp. auto.
  - rewrite print_obj. apply printable_obj in Hp.
    rewrite not_elem_of_cons, not_elem_of_app, list_elem_of_singleton. split_and!; [done| |done].
    apply comma_join_no_LF, Forall_fmap, Forall_forall. rewrite Forall_forall in IH, Hp.
    intros f Hf. destruct (Hp f Hf) as [Hn Hv]. unfold compose, print_member.
    rewrite !not_elem_of_cons, not_elem_of_app, !not_elem_of_cons.
    split_and!; try done; [by apply plain_no_LF|by apply IH].
Qed.

End Json.

(** ** Lines *)

(** The lines of a text, every one ended by a line feed; [cur] is the line
    read so far, backwards. *)
Fixpoint lines_from (cur s : str) : option (list str) :=
  match s with
  | [] => if decide (cur = []) then Some [] else None
  | c :: s =>
      if decide (c = LF) then ls ← lines_from [] s; Some (rev cur :: ls)
      else lines_from (c :: cur) s
  end.

Definition lines (s : str) : option (list str) := lines_from [] s.

Definition unlines (ls : list str) : str := mjoin ((fun l => l ++ nl) <$> ls).

Lemma lines_from_app cur l s :
  LF ∉ l -> lines_from cur (l ++ LF :: s) = ls ← lines s; Some ((rev cur ++ l) :: ls).
Proof.
  revert cur. induction l as [|c l IH]; intros cur Hl; cbn [app lines_from].
  - by rewrite decide_True, app_nil_r.
  - apply not_elem_of_cons in Hl as [Hc Hl]. rewrite decide_False, IH by done.
    cbn [rev]. by rewrite <- app_assoc.
Qed.

Lemma lines_unlines ls : Forall (fun l => LF ∉ l) ls -> lines (unlines ls) = Some ls.
Proof.
  induction 1 as [|l ls Hl _ IH]; [done|]. unfold unlines, lines, nl in *. rewrite fmap_cons.
  change (mjoin (?a :: ?b)) with (a ++ mjoin b). rewrite <- app_assoc. cbn [app].
  rewrite lines_from_app by done. unfold lines. by rewrite IH.
Qed.

(** ** The Prometheus exposition format *)

Module Expo.

(** A sample with its labels in the order written. *)
Record sample := MkSample {
  name : str;
  labels : list (str * str);
  value : Z;
  time : Z
}.

Definition name_char (c : ascii) : bool :=
  let n := nat_of_ascii c in
  (((97 <=? n) && (n <=? 122)) || ((65 <=? n) && (n <=? 90)) || ((48 <=? n) && (n <=? 57)) ||
   (n =? 95) || (n =? 58))%nat%bool.

(** The longest name at the front. *)
Fixpoint read_name (s : str) : str * str :=
  match s with
  | [] => ([], [])
  | c :: s' => if name_char c then let '(n, r) := read_name s' in (c :: n, r) else ([], s)
  end.

(** A label value up to its closing quote: a backslash escapes itself, a quote
    and the line feed. *)
Fixpoint read_label_value (s : str) : option (str * str) :=
  match s with
  | [] => None
  | c :: s' =>
      if decide (c = quote) then Some ([], s')
      else if decide (c = backslash) then
        match s' with
        | [] => None
        | e :: s'' =>
            x ← (if decide (e = quote \/ e = backslash) then Some e
                 else if decide (e = "n"%char) then Some LF else None);
            '(t, r) ← read_label_value s''; Some (x :: t, r)
        end
      else '(t, r) ← read_label_value s'; Some (c :: t, r)
  end.

(** [name] then an equals sign, a quote and the value. *)
Definition read_label (s : str) : option (str * str * str) :=
  let '(n, s) := read_name s in
  match s with
  | c :: q :: s =>
      if decide (n <> [] /\ c = "="%char /\ q = quote) then
        '(v, s) ← read_label_value s; Some ((n, v), s)
      else None
  | _ => None
  end.

(** A space and a number. *)
Definition read_field (s : str) : option (Z * str) :=
  match s with
  | c :: s => if decide (c = space) then read_number s else None
  | [] => None
  end.

Definition read_sample (l : str) : option sample :=
  let '(n, s) := read_name l in
  if decide (n = []) then None else
  '(ls, s) ← match s with
             | c :: s' => if decide (c = "{"%char) then read_list read_label "}" (length s') s'
                          else Some ([], s)
             | [] => Some ([], [])
             end;
  '(v, s) ← read_field s;
  '(t, s) ← read_field s;
  if decide (s = []) then Some (MkSample n ls v t) else None.

(** Empty lines and comments, HELP and TYPE among them, carry no sample. *)
Definition is_comment (l : str) : bool :=
  match l with [] => true | c :: _ => bool_decide (c = "#"%char) end.

(** A lenient reader, as scrapers are: the lines of a metric may be anywhere. *)
Definition parse (s : str) : option (list sample) :=
  ls ← lines s; mapM read_sample (filter (fun l => is_comment l = false) ls).

(** The format asks for more: all lines of a metric, its HELP and TYPE lines
    among them, are to be one group. *)
Definition metric_of (l : str) : option str :=
  if decide (take 7 l = lit "# HELP " \/ take 7 l = lit "# TYPE ") then Some (read_name (drop 7 l)).1
  else if is_comment l then None else Some (read_name l).1.

Fixpoint squeeze (l : list str) : list str :=
  match l with
  | x :: (y :: _) as l' => if decide (x = y) then squeeze l' else x :: squeeze l'
  | _ => l
  end.

Definition grouped (ls : list str) : bool := bool_decide (NoDup (squeeze (omap metric_of ls))).

Definition parse_strict (s : str) : option (list sample) :=
  ls ← lines s; if grouped ls then parse s else None.

(** *** Printed samples *)

Definition print_label (l : str * str) : str := l.1 ++ "="%char :: quote :: l.2 ++ [quote].

Definition print_labels (ls : list (str * str)) : str :=
  match ls with [] => [] | _ => "{"%char :: comma_join (print_label <$> ls) ++ ["}"%char] end.

Definition print_sample (x : sample) : str :=
  name x ++ print_labels (labels x) ++ space :: decimal (value x) ++ space :: decimal (time x).

Definition is_name (s : str) : Prop := s <> [] /\ Forall (fun c => name_char c = true) s.

Record printable (x : sample) : Prop := {
  p_name : is_name (name x);
  p_labels : Forall (fun l => is_name l.1 /\ plain l.2 = true) (labels x);
  p_value : 0 <= value x;
  p_time : 0 <= time x
}.

Lemma read_name_app n rest :
  Forall (fun c => name_char c = true) n ->
  match rest with [] => True | c :: _ => name_char c = false end ->
  read_name (n ++ rest) = (n, rest).
Proof.
  intros Hn Hr. induction Hn as [|c n Hc Hn IH]; cbn [app read_name].
  - destruct rest as [|c rest]; [done|]. cbn [read_name]. by rewrite Hr.
  - by rewrite Hc, IH.
Qed.

Lemma read_label_value_plain s rest :
  plain s = true -> read_label_value (s ++ quote :: rest) = Some (s, rest).
Proof.
  induction s as [|c s IH]; [done|]. cbn [plain forallb app read_label_value].
  intros [Hc Hs]%andb_true_iff. apply plain_char_spec in Hc as (Hq & Hb & _).
  rewrite !decide_False by done. by rewrite IH.
Qed.

Lemma read_label_print l :
  is_name l.1 -> plain l.2 = true -> reads read_label print_label l.
Proof.
  intros [Hne Hn] Hv rest _. destruct l as [n v]. cbn [fst snd] in *.
  unfold read_label, print_label. cbn [fst snd]. rewrite <- app_assoc, read_name_app by done.
  cbn [app]. rewrite decide_True, <- app_assoc by done. cbn [app].
  by rewrite read_label_value_plain.
Qed.

Lemma read_labels_print ls rest :
  ls <> [] -> Forall (fun l => is_name l.1 /\ plain l.2 = true) ls ->
  exists s, print_labels ls ++ rest = "{"%char :: s /\
    read_list read_label "}" (length s) s = Some (ls, rest).
Proof.
  intros Hne Hall. exists (comma_join (print_label <$> ls) ++ "}"%char :: rest).
  destruct ls as [|l ls]; [done|]. split.
  { cbn [print_labels app]. by rewrite <- app_assoc. }
  assert (forall l', l' ∈ l :: ls -> is_name l'.1 /\ plain l'.2 = true) as Hin
    by by apply Forall_forall.
  apply read_list_join; try done.
  - eapply Forall_impl; [exact Hall|]. intros l' [? ?]. by apply read_label_print.
  - rewrite length_app. etransitivity; [apply (Json.comma_join_length print_label)|lia].
    apply Forall_forall. intros l' [[Hn _] _]%Hin Hnil. apply app_eq_nil in Hnil as [? _]. done.
  - intros l' [[Hn Hc] _]%Hin. destruct l' as [[|c n] v]; [done|]. do 2 eexists.
    split; [reflexivity|]. apply Forall_cons in Hc as [Hc _]. by intros ->.
Qed.

Lemma read_field_decimal n rest :
  0 <= n -> boundary rest -> read_field (space :: decimal n ++ rest) = Some (n, rest).
Proof. intros Hn Hr. cbn. rewrite decide_True by done. by apply read_number_decimal. Qed.

Lemma read_sample_print x : printable x -> read_sample (print_sample x) = Some x.
Proof.
  intros [[Hne Hn] Hl Hv Ht]. destruct x as [n ls v t]. cbn [name labels value time] in *.
  unfold read_sample, print_sample. cbn [name labels value time].
  assert (forall ls' : list (str * str),
    ('(v, s) ← read_field (space :: decimal v ++ space :: decimal t);
     '(t, s) ← read_field s;
     if decide (s = []) then Some (MkSample n ls' v t) else None) = Some (MkSample n ls' v t)) as Hend.
  { intros ls'. rewrite read_field_decimal by done. cbn [mbind option_bind].
    pose proof (read_field_decimal t [] Ht I) as Hf. rewrite app_nil_r in Hf. by rewrite Hf. }
  destruct ls as [|l ls].
  - cbn [print_labels app]. rewrite read_name_app by done. rewrite decide_False by done.
    rewrite decide_False by done. cbn [mbind option_bind]. apply Hend.
  - destruct (read_labels_print (l :: ls) (space :: decimal v ++ space :: decimal t))
      as (s & Hs & Hr); [done..|]. rewrite Hs, read_name_app by done.
    rewrite decide_False, decide_True, Hr by done. cbn [mbind option_bind]. apply Hend.
Qed.

Lemma metric_of_sample x : printable x -> metric_of (print_sample x) = Some (name x).
Proof.
  intros [[Hne Hn] _ _ _]. destruct x as [[|c n] ls v t]; [done|]. cbn [name] in *.
  assert (name_char c = true) as Hc by by apply Forall_cons in Hn as [? _].
  assert (c <> "#"%char) as Hh by by intros ->. unfold metric_of, print_sample. cbn [name labels value time].
  rewrite decide_False by (intros [[=]|[=]]; done).
  cbn [is_comment app]. rewrite bool_decide_eq_false_2 by done.
  rewrite app_comm_cons, read_name_app; [done|done|]. by destruct ls.
Qed.

Lemma squeeze_head x l : x ∈ squeeze (x :: l).
Proof.
  revert x. induction l as [|y l IH]; intros x; [by left|]. cbn [squeeze].
  destruct (decide (x = y)) as [->|]; [apply IH|by left].
Qed.

Lemma squeeze_app l a b k : a <> b -> squeeze (l ++ a :: b :: k) = squeeze (l ++ [a]) ++ squeeze (b :: k).
Proof.
  intros Hab. induction l as [|x l IH]; [cbn; by rewrite decide_False|].
  destruct l as [|y l]; cbn [app squeeze] in *; destruct (decide (x = _)); by rewrite IH.
Qed.

Lemma print_sample_no_comment x : printable x -> is_comment (print_sample x) = false.
Proof.
  intros [[Hne Hn] _ _ _]. destruct x as [[|c n] ls v t]; [done|].
  cbn [name] in Hn. apply Forall_cons in Hn as [Hc _]. cbn.
  apply bool_decide_eq_false. by intros ->.
Qed.

Lemma name_no_LF n : Forall (fun c => name_char c = true) n -> LF ∉ n.
Proof. intros Hn Hin. rewrite Forall_forall in Hn. by specialize (Hn _ Hin). Qed.

Lemma print_sample_no_LF x : printable x -> LF ∉ print_sample x.
Proof.
  intros [[_ Hn] Hl Hv Ht]. unfold print_sample.
  rewrite !not_elem_of_app, !not_elem_of_cons, !not_elem_of_app, !not_elem_of_cons.
  split_and!; try done; try (by apply name_no_LF); try (apply plain_no_LF; by apply plain_decimal).
  destruct (labels x) as [|l ls]; [apply not_elem_of_nil|]. cbn [print_labels].
  rewrite not_elem_of_cons, not_elem_of_app. split_and!; [done| |by rewrite list_elem_of_singleton].
  apply comma_join_no_LF, Forall_fmap. eapply Forall_impl; [exact Hl|].
  intros [m w] [[_ Hm] Hw]. unfold print_label. cbn [fst snd compose].
  rewrite not_elem_of_app, !not_elem_of_cons, not_elem_of_app, list_elem_of_singleton.
  split_and!; try done; [by apply name_no_LF|by apply plain_no_LF].
Qed.

Lemma read_samples_print xs :
  Forall printable xs ->
  mapM read_sample (filter (fun l => is_comment l = false) (print_sample <$> xs)) = Some xs.
Proof.
  induction 1 as [|x xs Hx Hxs IH]; [done|]. rewrite fmap_cons.
  rewrite filter_cons_True by by apply print_sample_no_comment.
  cbn [mapM]. rewrite read_sample_print by done. cbn [mbind option_bind]. by rewrite IH.
Qed.

(** Comments and printed samples, in any arrangement [front] followed by samples. *)
Lemma parse_unlines front fs xs :
  Forall (fun l => LF ∉ l) front ->
  filter (fun l => is_comment l = false) front = print_sample <$> fs ->
  Forall printable (fs ++ xs) ->
  parse (unlines (front ++ (print_sample <$> xs))) = Some (fs ++ xs).
Proof.
  intros Hfront Hfilter Hp. unfold parse. rewrite lines_unlines.
  - cbn [mbind option_bind]. rewrite filter_app, Hfilter.
    pose proof (read_samples_print _ Hp) as Hr. rewrite fmap_app, filter_app in Hr.
    rewrite <- Hfilter, list_filter_filter in Hr.
    rewrite (list_filter_iff _ (fun l => is_comment l = false)) in Hr by tauto.
    by rewrite <- Hfilter.
  - apply Forall_app. split; [done|]. apply Forall_fmap. apply Forall_app in Hp as [_ Hp].
    eapply Forall_impl; [exact Hp|]. intros x Hx. by apply print_sample_no_LF.
Qed.

End Expo.

(** ** Texts put together *)

Lemma unlines_app a b : unlines (a ++ b) = unlines a ++ unlines b.
Proof. unfold unlines. by rewrite fmap_app, join_app. Qed.

Lemma comma_join_app (l1 l2 : list str) :
  comma_join (l1 ++ l2) =
  match l1, l2 with
  | [], _ => comma_join l2
  | _, [] => comma_join l1
  | _, _ => comma_join l1 ++ ","%char :: comma_join l2
  end.
Proof.
  induction l1 as [|x l1 IH]; [done|]. destruct l1 as [|y l1].
  - destruct l2; [done|]. cbn [app]. rewrite comma_join_cons. cbn. by rewrite app_nil_r.
  - cbn [app] in *. rewrite !comma_join_cons, IH. destruct l2; [done|]. by rewrite <- app_assoc.
Qed.

(** The text up to an item, and the rest. *)
Lemma comma_join_at (l1 l2 : list str) x :
  comma_join (l1 ++ x :: l2) = comma_join (l1 ++ [[]]) ++ comma_join (x :: l2).
Proof. rewrite !comma_join_app. destruct l1; [done|]. by rewrite <- app_assoc. Qed.

(** An item that is two items. *)
Lemma comma_join_two (l1 l2 : list str) a b :
  comma_join (l1 ++ (a ++ ","%char :: b) :: l2) = comma_join (l1 ++ a :: b :: l2).
Proof.
  assert (comma_join ((a ++ ","%char :: b) :: l2) = comma_join (a :: b :: l2)) as Hj.
  { rewrite comma_join_cons. destruct l2; [cbn; by rewrite !app_nil_r|].
    by rewrite !comma_join_cons, <- app_assoc. }
  rewrite !comma_join_app. by destruct l1; rewrite Hj.
Qed.

(** The reader stops at the first item it cannot read. *)
Lemma read_items_stuck {A} (item : str -> option (A * str)) close (pr : A -> str) fuel l bad :
  Forall (reads item pr) l -> digit close = None -> close <> ","%char ->
  item bad = None ->
  read_items item close fuel (comma_join ((pr <$> l) ++ [[]]) ++ bad) = None.
Proof.
  intros Hall Hd Hc Hbad. revert fuel. induction Hall as [|x l Hx Hall IH]; intros fuel;
    (destruct fuel as [|fuel]; [done|]).
  - cbn. by rewrite Hbad.
  - rewrite fmap_cons, comma_join_app. cbn [read_items]. specialize (IH fuel).
    rewrite <- app_assoc.
    destruct l as [|y l].
    + cbn [fmap list_fmap comma_join]. csimpl. rewrite app_nil_r, Hx by done.
      cbn [mbind option_bind app]. rewrite decide_False, decide_True by done.
      cbn in IH. by rewrite IH.
    + rewrite fmap_cons in *. rewrite comma_join_cons, <- app_assoc. cbn [app].
      rewrite Hx by done. cbn [mbind option_bind]. rewrite decide_False, decide_True by done.
      rewrite comma_join_app in IH. rewrite <- app_assoc in IH. cbn [app] in IH.
      by rewrite IH.
Qed.
