(* ===== verification/Endpoints.v ===== *)
(** * Endpoints: what clients read from the daemon's texts

    The documents the daemon means to publish, as values of the formats of
    [Formats], and the theorems that relate them to the text printed: read by a
    JSON reader, /connections and the --json lines give back the statistics and
    the events, but not the other lines of standard output; read by a lenient
    scraper, /metrics gives one series per connection and counter, and a strict
    one refuses it; and what a process name with a quote does to them. *)

From S2P Require Import Prelude Common BpfMaps TcpTracer StatsReporter HttpServer Metrics Monitor.
From S2P Require Import MonitorLoop Effects Loader ServerLifecycle Lifecycle Formats.
From Stdlib Require Import Ascii.

(** Two ways to put one text together. *)
Ltac text := repeat (progress (csimpl; rewrite <- ?app_assoc)); rewrite ?app_nil_r; reflexivity.

Module Endpoint.

Section Documents.
Context (inet_ntop : Z -> string) (ntohs : Z -> Z).

(** An address and a port, as the texts show them. *)
Definition shown_addr (ip port : Z) : str := lit (inet_ntop ip) ++ lit ":" ++ decimal port.

(** One connection of /connections. *)
Definition connection_doc (i : Reporter.item) : Json.json :=
  let '(k, s) := i in
  Json.Obj [
    (lit "comm", Json.Str (lit (Reporter.comm s)));
    (lit "pid", Json.Num (Reporter.pid k));
    (lit "src", Json.Str (shown_addr (Reporter.src_ip k) (ntohs (Reporter.src_port k))));
    (lit "dst", Json.Str (shown_addr (Reporter.dst_ip k) (ntohs (Reporter.dst_port k))));
    (lit "tx", Json.Num (Reporter.bytes_tx s));
    (lit "rx", Json.Num (Reporter.bytes_rx s));
    (lit "connects", Json.Num (Reporter.connects s))].

(** One line of --json. *)
Definition event_doc (e : tcp_event) : Json.json :=
  Json.Obj [
    (lit "ts", Json.Num (TcpEvent.timestamp_ns e));
    (lit "pid", Json.Num (TcpEvent.pid e));
    (lit "comm", Json.Str (lit (c_string (TcpEvent.comm e))));
    (lit "src", Json.Str (shown_addr (TcpEvent.src_ip e) (TcpEvent.src_port e)));
    (lit "dst", Json.Str (shown_addr (TcpEvent.dst_ip e) (TcpEvent.dst_port e)));
    (lit "action", Json.Num (TcpEvent.action e));
    (lit "tx", Json.Num (TcpEvent.bytes_tx e));
    (lit "rx", Json.Num (TcpEvent.bytes_rx e))].

(** The labels and the three series of a connection in /metrics. *)
Definition series_labels (i : Reporter.item) : list (str * str) :=
  let '(k, s) := i in [
    (lit "comm", lit (Reporter.comm s));
    (lit "pid", decimal (Reporter.pid k));
    (lit "src", shown_addr (Reporter.src_ip k) (ntohs (Reporter.src_port k)));
    (lit "dst", shown_addr (Reporter.dst_ip k) (ntohs (Reporter.dst_port k)))].

Definition series (now_ms : Z) (i : Reporter.item) : list Expo.sample := [
  Expo.MkSample (lit "ebpf_connection_bytes_tx_total") (series_labels i)
    (Reporter.bytes_tx i.2) now_ms;
  Expo.MkSample (lit "ebpf_connection_bytes_rx_total") (series_labels i)
    (Reporter.bytes_rx i.2) now_ms;
  Expo.MkSample (lit "ebpf_connection_connects_total") (series_labels i)
    (Reporter.connects i.2) now_ms].

Definition scrape (count now_ms : Z) (l : list Reporter.item) : list Expo.sample :=
  Expo.MkSample (lit "ebpf_active_connections") [] count now_ms ::
  mjoin (series now_ms <$> l).

(** ** The texts are the documents' *)

Lemma connection_json_doc i :
  Mon.connection_json inet_ntop ntohs i.1 i.2 = Json.print (connection_doc i).
Proof.
  destruct i as [k s]. unfold connection_doc. rewrite Json.print_obj.
  unfold Mon.connection_json, Mon.field, Mon.quoted, shown_addr, Json.print_member, dq.
  text.
Qed.

Lemma json_line_doc e :
  0 ∈ TcpEvent.comm e -> Mon.json_line inet_ntop e = Some (Json.print (event_doc e) ++ nl).
Proof.
  intros Hc. unfold Mon.json_line, Mon.print_comm. rewrite decide_True by done.
  cbn [mbind option_bind]. f_equal. unfold event_doc. rewrite Json.print_obj.
  unfold Mon.field, Mon.quoted, shown_addr, Json.print_member, dq, nl. text.
Qed.

Lemma labels_doc i :
  Prom.labels inet_ntop ntohs i.1 i.2 = Expo.print_labels (series_labels i).
Proof.
  destruct i as [k s]. unfold Prom.labels, series_labels, shown_addr, dq.
  cbn [fst snd Expo.print_labels]. unfold Expo.print_label. text.
Qed.

Lemma connection_lines_doc now_ms i :
  Prom.connection_lines inet_ntop ntohs now_ms i.1 i.2 =
  unlines (Expo.print_sample <$> series now_ms i).
Proof.
  unfold Prom.connection_lines, Prom.sample, unlines, nl. rewrite labels_doc.
  unfold series. rewrite !fmap_cons, fmap_nil. unfold Expo.print_sample, space.
  cbn [Expo.name Expo.labels Expo.value Expo.time].
  change (mjoin (?a :: ?b)) with (a ++ mjoin b). change (lit " ") with [ascii_of_nat 32].
  generalize (lit "ebpf_connection_bytes_tx_total"), (lit "ebpf_connection_bytes_rx_total"),
    (lit "ebpf_connection_connects_total"), (Expo.print_labels (series_labels i)).
  intros n1 n2 n3 ls. text.
Qed.

(** The lines of /metrics before the connections: comments, one sample. *)
Definition preamble_lines (count now_ms : Z) : list str :=
  let help n h := lit "# HELP " ++ n ++ lit " " ++ h in
  let type n t := lit "# TYPE " ++ n ++ lit " " ++ t in
  [help (lit "ebpf_active_connections") (lit "Number of tracked TCP connections");
   type (lit "ebpf_active_connections") (lit "gauge");
   Expo.print_sample (Expo.MkSample (lit "ebpf_active_connections") [] count now_ms);
   [];
   help (lit "ebpf_connection_bytes_tx_total") (lit "Bytes transmitted per connection");
   type (lit "ebpf_connection_bytes_tx_total") (lit "counter");
   help (lit "ebpf_connection_bytes_rx_total") (lit "Bytes received per connection");
   type (lit "ebpf_connection_bytes_rx_total") (lit "counter");
   help (lit "ebpf_connection_connects_total") (lit "TCP connect events per connection");
   type (lit "ebpf_connection_connects_total") (lit "counter")].

Lemma preamble_doc count now_ms :
  Prom.preamble count now_ms = unlines (preamble_lines count now_ms).
Proof.
  unfold Prom.preamble, Prom.emit_help, Prom.emit_type, unlines, preamble_lines, nl.
  rewrite !fmap_cons, fmap_nil. unfold Expo.print_sample. text.
Qed.

(** ** Statistics that print well *)

(** The name an event carries needs no escape. *)
Definition plain_name (e : tcp_event) : Prop :=
  plain (lit (c_string (take 16 (TcpEvent.comm e)))) = true.

Record printable_item (i : Reporter.item) : Prop := {
  pi_name : plain (lit (Reporter.comm i.2)) = true;
  pi_key : Reporter.wf_key i.1;
  pi_stats : Reporter.wf_stats i.2
}.

Hypothesis ntop_plain : forall a, plain (lit (inet_ntop a)) = true.
Hypothesis ntohs_port : forall z, in_width 16 z -> in_width 16 (ntohs z).

Lemma shown_addr_plain ip port : 0 <= port -> plain (shown_addr ip port) = true.
Proof.
  intros Hp. unfold shown_addr. rewrite !plain_app, ntop_plain, plain_decimal by done. done.
Qed.

Lemma connection_doc_printable i : printable_item i -> Json.printable (connection_doc i).
Proof.
  intros [Hn [Hsi Hdi Hsp Hdp Hpid] [_ _ Htx Hrx Hc _]]. destruct i as [k s]. cbn [fst snd] in *.
  destruct (ntohs_port _ Hsp) as [Hsp' _], (ntohs_port _ Hdp) as [Hdp' _].
  destruct Htx, Hrx, Hc, Hpid. unfold connection_doc. apply Json.printable_obj.
  repeat (apply Forall_cons; split; [split; [reflexivity|]|]); try apply Forall_nil_2;
    cbn [snd Json.printable]; try done; by apply shown_addr_plain.
Qed.

Lemma event_doc_printable e :
  wf_tcp_event e -> plain_name e -> Json.printable (event_doc e).
Proof.
  intros [[Hts _] [Hpid _] _ Hl _ _ [Hsp _] [Hdp _] _ [Ha _] _ [Htx _] [Hrx _]] Hn.
  unfold plain_name in Hn. rewrite firstn_all2 in Hn by lia.
  unfold event_doc. apply Json.printable_obj.
  repeat (apply Forall_cons; split; [split; [reflexivity|]|]); try apply Forall_nil_2;
    cbn [snd Json.printable]; try done; by apply shown_addr_plain.
Qed.

Lemma series_printable now_ms i :
  0 <= now_ms -> printable_item i -> Forall Expo.printable (series now_ms i).
Proof.
  intros Ht [Hn [Hsi Hdi Hsp Hdp Hpid] [_ _ Htx Hrx Hc _]]. destruct i as [k s]. cbn [fst snd] in *.
  destruct (ntohs_port _ Hsp) as [Hsp' _], (ntohs_port _ Hdp) as [Hdp' _].
  destruct Htx, Hrx, Hc, Hpid.
  assert (forall n, forallb Expo.name_char n = true -> n <> [] -> Expo.is_name n) as Hname.
  { intros n Hall Hne. split; [done|]. apply Forall_forall. intros c Hin.
    rewrite forallb_forall in Hall. apply Hall. by apply list_elem_of_In. }
  assert (Forall (fun l => Expo.is_name l.1 /\ plain l.2 = true) (series_labels (k, s))) as Hl.
  { unfold series_labels. repeat (apply Forall_cons; split; [split; [by apply Hname|]|]);
      try apply Forall_nil_2; cbn [snd]; try done;
      first [by apply plain_decimal | by apply shown_addr_plain]. }
  unfold series. repeat (apply Forall_cons; split); try apply Forall_nil_2;
    (split; [by apply Hname|exact Hl|done|exact Ht]).
Qed.

(** *** Recorded events *)

Context (iter : gmap Reporter.ConnectionKey Reporter.ConnectionStats -> list Reporter.item).
Hypothesis iter_perm : forall m, iter m ≡ₚ map_to_list m.

Lemma recorded_printable evs i :
  Forall wf_tcp_event evs -> Forall plain_name evs ->
  i ∈ iter (Reporter.stats_ (Reporter.record_all evs Reporter.new_reporter)) -> printable_item i.
Proof.
  intros Hwf Hn Hi. destruct i as [k s]. rewrite iter_perm in Hi. apply elem_of_map_to_list in Hi.
  pose proof (Reporter.wf_record_all evs Reporter.new_reporter Hwf (map_Forall_empty _)) as Hr.
  destruct (Hr _ _ Hi) as [Hk Hs]. rewrite Reporter.record_all_lookup in Hi.
  destruct (Reporter.aggregate_name _ _ _ Hi) as (e & He & Hc). split; [|done..].
  cbn [snd]. rewrite Hc. rewrite Forall_forall in Hn. by apply Hn.
Qed.

Lemma connections_text now_ms counted r :
  Mon.http_route inet_ntop ntohs iter now_ms (lit "/connections") counted r =
  Json.print (Json.Arr (connection_doc <$> iter (Reporter.stats_ r))).
Proof.
  unfold Mon.http_route. rewrite decide_False by done. rewrite decide_True by done.
  rewrite connections_json, Json.print_arr, <- list_fmap_compose.
  rewrite (list_fmap_ext _ (Json.print ∘ connection_doc) (iter (Reporter.stats_ r))); [done|].
  intros _ i _. apply connection_json_doc.
Qed.

Lemma metrics_text now_ms counted r :
  Mon.http_route inet_ntop ntohs iter now_ms (lit "/metrics") counted r =
  unlines (preamble_lines (Reporter.connection_count counted) now_ms ++
           (Expo.print_sample <$> mjoin (series now_ms <$> iter (Reporter.stats_ r)))).
Proof.
  change (Mon.http_route inet_ntop ntohs iter now_ms (lit "/metrics") counted r)
    with (Prom.from_reporter iter inet_ntop ntohs now_ms counted r).
  unfold Prom.from_reporter. rewrite for_each_append, preamble_doc, unlines_app.
  f_equal.
  induction (iter (Reporter.stats_ r)) as [|i l IH]; [done|]. rewrite !fmap_cons.
  change (mjoin (?a :: ?b)) with (a ++ mjoin b).
  by rewrite fmap_app, unlines_app, <- connection_lines_doc, IH.
Qed.

Lemma preamble_no_LF count now_ms :
  0 <= count -> 0 <= now_ms -> Forall (fun l => LF ∉ l) (preamble_lines count now_ms).
Proof.
  intros Hc Ht. unfold preamble_lines.
  repeat (apply Forall_cons; split); try apply Forall_nil_2;
    try (apply (bool_decide_unpack _); vm_compute; exact I).
  apply Expo.print_sample_no_LF. split; [|apply Forall_nil_2|done|done].
  split; [done|]. apply (bool_decide_unpack _). vm_compute. exact I.
Qed.

Lemma active_printable count now_ms :
  0 <= count -> 0 <= now_ms ->
  Expo.printable (Expo.MkSample (lit "ebpf_active_connections") [] count now_ms).
Proof.
  intros Hc Ht. split; [|apply Forall_nil_2|done|done].
  split; [done|]. apply (bool_decide_unpack _). vm_compute. exact I.
Qed.

Lemma all_series_printable now_ms l :
  0 <= now_ms -> Forall printable_item l -> Forall Expo.printable (mjoin (series now_ms <$> l)).
Proof.
  intros Ht Hl. induction Hl as [|i l Hi Hl IH]; [apply Forall_nil_2|]. rewrite fmap_cons.
  change (mjoin (?a :: ?b)) with (a ++ mjoin b). apply Forall_app. split; [by apply series_printable|done].
Qed.

(** A scraper reads the samples of the listed connections. *)
Lemma metrics_scraped count now_ms l :
  0 <= now_ms -> 0 <= count -> Forall printable_item l ->
  Expo.parse (unlines (preamble_lines count now_ms ++
    (Expo.print_sample <$> mjoin (series now_ms <$> l)))) = Some (scrape count now_ms l).
Proof.
  intros Ht Hc Hi. unfold scrape.
  apply (Expo.parse_unlines _ [Expo.MkSample (lit "ebpf_active_connections") [] count now_ms]).
  - by apply preamble_no_LF.
  - unfold preamble_lines.
    do 2 (rewrite filter_cons_False by done).
    rewrite filter_cons_True by (apply Expo.print_sample_no_comment; by apply active_printable).
    by do 7 (rewrite filter_cons_False by done).
  - cbn [app]. apply Forall_cons. split; [by apply active_printable|]. by apply all_series_printable.
Qed.

(** The metrics of the lines, in order. *)
Lemma preamble_metrics count now_ms :
  0 <= count -> 0 <= now_ms ->
  Expo.squeeze (omap Expo.metric_of (preamble_lines count now_ms)) =
    [lit "ebpf_active_connections"; lit "ebpf_connection_bytes_tx_total";
     lit "ebpf_connection_bytes_rx_total"; lit "ebpf_connection_connects_total"].
Proof.
  intros Hc Ht. unfold preamble_lines. set (x := Expo.print_sample _).
  assert (Expo.metric_of x = Some (lit "ebpf_active_connections")) as Hx
    by by apply Expo.metric_of_sample, active_printable.
  clearbody x. do 2 csimpl. rewrite Hx. reflexivity.
Qed.

Lemma preamble_last count now_ms :
  exists ls, omap Expo.metric_of (preamble_lines count now_ms) = ls ++ [lit "ebpf_connection_connects_total"].
Proof.
  change (preamble_lines count now_ms) with
    (take 9 (preamble_lines count now_ms) ++ drop 9 (preamble_lines count now_ms)).
  rewrite omap_app. by eexists.
Qed.

(** A reader that insists on groups takes the text while there is no
    connection to list. *)
Lemma metrics_grouped count now_ms l :
  0 <= now_ms -> 0 <= count -> Forall printable_item l ->
  Expo.grouped (preamble_lines count now_ms ++ (Expo.print_sample <$> mjoin (series now_ms <$> l))) =
  bool_decide (l = []).
Proof.
  intros Ht Hc Hl. unfold Expo.grouped. destruct l as [|i l].
  { cbn [fmap list_fmap mjoin list_join]. rewrite app_nil_r, preamble_metrics by done. reflexivity. }
  rewrite (bool_decide_eq_false_2 (i :: l = [])) by done. apply bool_decide_eq_false.
  pose proof (all_series_printable now_ms (i :: l) Ht Hl) as Hp. destruct i as [k st].
  rewrite fmap_cons in *. change (mjoin (?a :: ?b)) with (a ++ mjoin b) in *.
  pose proof (preamble_metrics count now_ms Hc Ht) as Hsq.
  destruct (preamble_last count now_ms) as [ls Hls]. rewrite omap_app, Hls in *.
  unfold series in *. cbn [app fmap list_fmap] in *. apply Forall_cons in Hp as [Hp _].
  rewrite <- app_assoc. cbn [app omap list_omap]. rewrite (Expo.metric_of_sample _ Hp). cbn [Expo.name].
  rewrite Expo.squeeze_app, Hsq by done. rewrite NoDup_app. intros (_ & Hd & _).
  apply (Hd (lit "ebpf_connection_bytes_tx_total")); [right; left|apply Expo.squeeze_head].
Qed.

Lemma metrics_no_LF count now_ms l :
  0 <= now_ms -> 0 <= count -> Forall printable_item l ->
  Forall (fun s => LF ∉ s)
    (preamble_lines count now_ms ++ (Expo.print_sample <$> mjoin (series now_ms <$> l))).
Proof.
  intros Ht Hc Hl. apply Forall_app. split; [by apply preamble_no_LF|]. apply Forall_fmap.
  eapply Forall_impl; [by apply (all_series_printable now_ms)|]. intros x Hx. by apply Expo.print_sample_no_LF.
Qed.

(** *** Distinct series *)

(** No two addresses are shown alike, and none with a colon. *)
Hypothesis ntop_inj : forall a b,
  in_width 32 a -> in_width 32 b -> inet_ntop a = inet_ntop b -> a = b.
Hypothesis ntop_colon : forall a, ":"%char ∉ lit (inet_ntop a).
Hypothesis ntohs_inj : forall a b, in_width 16 a -> in_width 16 b -> ntohs a = ntohs b -> a = b.

Lemma decimal_inj a b : 0 <= a -> 0 <= b -> decimal a = decimal b -> a = b.
Proof. intros Ha Hb Heq. by rewrite <- (decimal_digits a), <- (decimal_digits b), Heq. Qed.

Lemma lit_inj a b : lit a = lit b -> a = b.
Proof.
  unfold lit. intros Heq. rewrite <- (String.string_of_list_ascii_of_string a),
    <- (String.string_of_list_ascii_of_string b). by rewrite Heq.
Qed.

Lemma shown_addr_inj a b p q :
  in_width 32 a -> in_width 32 b -> 0 <= p -> 0 <= q ->
  shown_addr a p = shown_addr b q -> a = b /\ p = q.
Proof.
  intros Ha Hb Hp Hq Heq. unfold shown_addr in Heq.
  apply not_elem_of_app_cons_inv_l in Heq as (Hip & _ & Hport); try apply ntop_colon.
  split; [apply ntop_inj; [done..|by apply lit_inj]|by apply decimal_inj].
Qed.

Lemma series_labels_inj i j :
  Reporter.wf_key i.1 -> Reporter.wf_key j.1 -> series_labels i = series_labels j -> i.1 = j.1.
Proof.
  destruct i as [[a b p q d] s], j as [[a' b' p' q' d'] s'].
  intros [Ha Hb Hp Hq Hd] [Ha' Hb' Hp' Hq' Hd'] Heq. cbn in *. injection Heq as _ Hpid Hsrc Hdst.
  pose proof (ntohs_port _ Hp) as [? _]. pose proof (ntohs_port _ Hq) as [? _].
  pose proof (ntohs_port _ Hp') as [? _]. pose proof (ntohs_port _ Hq') as [? _].
  apply shown_addr_inj in Hsrc as [-> ?%ntohs_inj]; try done.
  apply shown_addr_inj in Hdst as [-> ?%ntohs_inj]; try done.
  destruct Hd, Hd'. apply decimal_inj in Hpid; try done. by subst.
Qed.

(** What identifies a series. *)
Definition series_id (x : Expo.sample) : str * list (str * str) := (Expo.name x, Expo.labels x).

Lemma series_distinct now_ms l :
  NoDup l.*1 -> Forall (fun i => Reporter.wf_key i.1) l ->
  NoDup (series_id <$> mjoin (series now_ms <$> l)).
Proof.
  induction l as [|i l IH]; [intros; apply NoDup_nil_2|].
  intros [Hi Hnd]%NoDup_cons [Hk Hks]%Forall_cons. rewrite fmap_cons.
  change (mjoin (?a :: ?b)) with (a ++ mjoin b). rewrite fmap_app. apply NoDup_app.
  split; [|split; [|by apply IH]].
  - unfold series, series_id. csimpl. rewrite !NoDup_cons, !not_elem_of_cons.
    split_and!; try apply not_elem_of_nil; try apply NoDup_nil_2; intros Heq; congruence.
  - intros x Hx Hy. apply Hi.
    apply list_elem_of_fmap in Hy as (y & Hy & Hin). apply list_elem_of_join in Hin as (ss & Hin & Hss).
    apply list_elem_of_fmap in Hss as (j & -> & Hj).
    assert (forall i z, z ∈ series now_ms i -> Expo.labels z = series_labels i) as Hlab.
    { intros i' z. unfold series. rewrite !elem_of_cons.
      intros [->|[->|[->|[]%elem_of_nil]]]; done. }
    apply list_elem_of_fmap in Hx as (z & Hz & Hzin).
    apply Hlab in Hin, Hzin. subst x. injection Hy as _ Hy. rewrite Hin, Hzin in Hy.
    rewrite (series_labels_inj i j); [|done| |done].
    + apply list_elem_of_fmap. by exists j.
    + rewrite Forall_forall in Hks. by apply Hks.
Qed.

Lemma scrape_distinct count now_ms l :
  NoDup l.*1 -> Forall (fun i => Reporter.wf_key i.1) l -> NoDup (series_id <$> scrape count now_ms l).
Proof.
  intros Hnd Hk. unfold scrape. rewrite fmap_cons. apply NoDup_cons.
  split; [|by apply series_distinct]. rewrite list_elem_of_fmap. intros (x & Hx & Hin).
  apply list_elem_of_join in Hin as (ss & Hin & Hss).
  apply list_elem_of_fmap in Hss as (j & -> & _). unfold series in Hin.
  rewrite !elem_of_cons in Hin. destruct Hin as [->|[->|[->|[]%elem_of_nil]]];
    destruct j as [k s]; discriminate Hx.
Qed.

(** *** Standard output under --json *)

Lemma taken_ok inp fs : Forall Loop.ok_feed fs -> Forall Loop.ok_tcp (Loop.tcp_of (Daemon.taken inp fs)).
Proof.
  intros Hfs. unfold Daemon.taken. destruct (existsb _ _); [apply Forall_nil_2|].
  apply Forall_forall. intros e He. apply list_elem_of_join in He as (l & He & Hl).
  apply list_elem_of_fmap in Hl as (f & -> & Hf). apply Loop.elem_of_served in Hf.
  rewrite Forall_forall in Hfs. destruct (Hfs f Hf) as [Ht _]. rewrite Forall_forall in Ht. by apply Ht.
Qed.

Lemma json_output_doc es :
  Forall Loop.ok_tcp es ->
  Daemon.json_output inet_ntop es = unlines (Json.print <$> (event_doc <$> es)).
Proof.
  intros Hes. unfold Daemon.json_output, unlines. induction Hes as [|e es [_ Hc] Hes IH]; [done|].
  rewrite !fmap_cons. change (mjoin (?a :: ?b)) with (a ++ mjoin b). rewrite IH.
  unfold Loop.json_text. by rewrite json_line_doc.
Qed.

Lemma parse_printed vs : Forall Json.printable vs -> mapM Json.parse (Json.print <$> vs) = Some vs.
Proof.
  intros Hvs. induction Hvs as [|v vs Hv Hvs IH]; [done|]. rewrite fmap_cons. cbn [mapM].
  rewrite Json.parse_print by done. cbn [mbind option_bind]. by rewrite IH.
Qed.

Definition banner_lines (cfg : Mon.Config) : list str :=
  [lit "eBPF monitor running. HTTP metrics at http://localhost:" ++ decimal (Mon.http_port cfg) ++
     lit "/metrics";
   lit "Endpoints: /metrics  /connections  /health"; lit "Press Ctrl+C to stop."] ++
  (if Mon.filter_pid cfg =? 0 then [] else [lit "  Filtering PID:  " ++ decimal (Mon.filter_pid cfg)]) ++
  (if Mon.filter_port cfg =? 0 then [] else [lit "  Filtering Port: " ++ decimal (Mon.filter_port cfg)]).

Lemma banner_doc cfg : Daemon.banner cfg = unlines (banner_lines cfg).
Proof.
  unfold Daemon.banner, banner_lines, nl. rewrite !unlines_app.
  destruct (Mon.filter_pid cfg =? 0), (Mon.filter_port cfg =? 0); unfold unlines; text.
Qed.

Lemma banner_no_json cfg : Forall (fun l => Json.parse l = None) (banner_lines cfg).
Proof.
  unfold banner_lines. destruct (Mon.filter_pid cfg =? 0), (Mon.filter_port cfg =? 0);
    repeat (apply Forall_cons; split; [done|]); apply Forall_nil_2.
Qed.

End Documents.
End Endpoint.

(** ** Names with a quote *)

Module Injection.
Import Endpoint.

(** A process named by one double quote. *)
Definition breaking_name : string := String quote EmptyString.

(** A name that closes its object and opens another: thirteen characters. *)
Definition forging_name : string :=
  String quote ("},{" +:+ String quote ("comm" +:+ String quote (":" +:+ String quote "x"))).

Definition renamed (name : string) (i : Reporter.item) : Reporter.item :=
  (i.1, Reporter.MkStats name (Reporter.uid i.2) (Reporter.bytes_tx i.2) (Reporter.bytes_rx i.2)
          (Reporter.connects i.2) (Reporter.timestamp i.2)).

Section Injection.
Context (inet_ntop : Z -> string) (ntohs : Z -> Z).

Lemma forged_text i :
  Reporter.comm i.2 = forging_name ->
  Mon.connection_json inet_ntop ntohs i.1 i.2 =
  Json.print (Json.Obj [(lit "comm", Json.Str [])]) ++ ","%char ::
  Json.print (connection_doc inet_ntop ntohs (renamed "x" i)).
Proof.
  intros Hc. rewrite <- connection_json_doc. unfold renamed, Mon.connection_json. rewrite Hc.
  cbn [fst snd Reporter.comm Reporter.bytes_tx Reporter.bytes_rx Reporter.connects].
  unfold forging_name, Mon.field, Mon.quoted, dq. text.
Qed.

Lemma broken_text fuel i rest :
  Reporter.comm i.2 = breaking_name ->
  Json.read_value fuel (Mon.connection_json inet_ntop ntohs i.1 i.2 ++ rest) = None.
Proof.
  intros Hc. unfold Mon.connection_json. rewrite Hc.
  do 3 (destruct fuel as [|fuel]; [reflexivity|]). reflexivity.
Qed.

Lemma connection_doc_open j :
  exists s, Json.print (connection_doc inet_ntop ntohs j) = "{"%char :: s.
Proof. destruct j. by eexists. Qed.

(** An array whose first unreadable element follows readable ones. *)
Lemma stuck_array l1 i l2 :
  Forall Json.printable (connection_doc inet_ntop ntohs <$> l1) ->
  (forall fuel rest,
     Json.read_value fuel (Json.print (connection_doc inet_ntop ntohs i) ++ rest) = None) ->
  Json.parse ("["%char ::
    comma_join (Json.print <$> (connection_doc inet_ntop ntohs <$> l1 ++ i :: l2)) ++ ["]"%char]) = None.
Proof.
  intros Hl1 Hbad. pose proof connection_doc_open as Hopen.
  set (doc := connection_doc inet_ntop ntohs) in *.
  set (text := comma_join _). unfold Json.parse. cbn [length Json.read_value].
  rewrite decide_False, decide_True by done.
  assert (exists s, text = "{"%char :: s) as [s Hs].
  { unfold text. destruct l1 as [|j l1]; cbn [app]; rewrite !fmap_cons; cbn [comma_join];
      [destruct (Hopen i) as [s ->]|destruct (Hopen j) as [s ->]]; by eexists. }
  set (fuel := length (text ++ ["]"%char])).
  assert (read_list (Json.read_value fuel) "]" fuel (text ++ ["]"%char]) = None) as Hr; [|by rewrite Hr].
  unfold read_list. rewrite Hs at 1. cbn [app]. rewrite decide_False by done.
  unfold text. rewrite !fmap_app, !fmap_cons, comma_join_at. cbn [comma_join].
  rewrite <- !app_assoc. apply read_items_stuck; try done.
  apply Forall_forall. intros v Hv. rewrite Forall_forall in Hl1.
  apply Json.read_value_print; [by apply Hl1|]. unfold fuel. rewrite length_app.
  destruct (Json.comma_join_length Json.print (doc <$> l1 ++ i :: l2)) as [Hlen _].
  specialize (Hlen v). rewrite fmap_app in Hlen at 1. fold text in Hlen.
  assert (length (Json.print v) <= length text)%nat; [apply Hlen; set_solver|lia].
Qed.

End Injection.
End Injection.

(** ** Properties *)

Section Properties.
Import Endpoint Injection.
Context (inet_ntop : Z -> string) (ntohs : Z -> Z).
Context (iter : gmap Reporter.ConnectionKey Reporter.ConnectionStats -> list Reporter.item).
Hypothesis iter_perm : forall m, iter m ≡ₚ map_to_list m.
Hypothesis ntop_plain : forall a, plain (lit (inet_ntop a)) = true.
Hypothesis ntohs_port : forall z, in_width 16 z -> in_width 16 (ntohs z).

(** C16: /connections read by a JSON reader: after any sequence of well-formed
    events whose names need no escape, the text parses to the array of the
    connections, each once, and every object has the name, the process, the
    addresses and the sums of the connection's events. *)
Theorem connections_readable evs now_ms counted :
  Forall wf_tcp_event evs -> Forall plain_name evs ->
  exists items : list Reporter.item,
    NoDup items.*1 /\ (forall k, k ∈ items.*1 <-> k ∈ Reporter.key_of <$> evs) /\
    (forall i, i ∈ items -> Reporter.aggregate i.1 evs = Some i.2) /\
    Json.parse (Mon.http_route inet_ntop ntohs iter now_ms (lit "/connections") counted
                  (Reporter.record_all evs Reporter.new_reporter)) =
    Some (Json.Arr (connection_doc inet_ntop ntohs <$> items)).
Proof.
  intros Hwf Hn. eexists. destruct (listed_keys iter evs iter_perm) as (Hnd & Hks & Hagg).
  split; [exact Hnd|]. split; [exact Hks|]. split; [exact Hagg|].
  rewrite connections_text. apply Json.parse_print, Json.printable_arr, Forall_fmap, Forall_forall.
  intros i Hi. apply connection_doc_printable; [done..|]. by eapply recorded_printable.
Qed.

(** C17: /metrics, asked for after some events, with more events recorded between
    the two times it takes the reporter's lock, all names needing no escape.  A
    scraper that is lenient about the order of the lines reads the number of
    connections of the first events and, for each connection of all of them, its
    three counters with the sums of its events; no two samples have the same name
    and labels.  A reader that insists on the format's rule that all lines of a
    metric are one group refuses the text as soon as a connection is listed. *)
Theorem metrics_scrapeable evs1 evs2 now_ms :
  (forall a b, in_width 32 a -> in_width 32 b -> inet_ntop a = inet_ntop b -> a = b) ->
  (forall a, ":"%char ∉ lit (inet_ntop a)) ->
  (forall a b, in_width 16 a -> in_width 16 b -> ntohs a = ntohs b -> a = b) ->
  0 <= now_ms -> Forall wf_tcp_event (evs1 ++ evs2) -> Forall plain_name (evs1 ++ evs2) ->
  let text := Mon.http_route inet_ntop ntohs iter now_ms (lit "/metrics")
    (Reporter.record_all evs1 Reporter.new_reporter)
    (Reporter.record_all (evs1 ++ evs2) Reporter.new_reporter) in
  let count := Z.of_nat (length (remove_dups (Reporter.key_of <$> evs1))) in
  exists items : list Reporter.item,
    (forall k, k ∈ items.*1 <-> k ∈ Reporter.key_of <$> evs1 ++ evs2) /\
    (forall i, i ∈ items -> Reporter.aggregate i.1 (evs1 ++ evs2) = Some i.2) /\
    Expo.parse text = Some (scrape inet_ntop ntohs count now_ms items) /\
    NoDup (series_id <$> scrape inet_ntop ntohs count now_ms items) /\
    Expo.parse_strict text =
      if decide (evs1 ++ evs2 = []) then Some (scrape inet_ntop ntohs count now_ms items) else None.
Proof.
  intros Hinj Hcolon Hnt Ht Hwf Hn text count. set (evs := evs1 ++ evs2) in *.
  set (r := Reporter.record_all evs Reporter.new_reporter) in *. exists (iter (Reporter.stats_ r)).
  destruct (listed_keys iter evs iter_perm) as (Hnd & Hks & Hagg). fold r in Hnd, Hks, Hagg.
  split; [exact Hks|]. split; [exact Hagg|].
  assert (Forall printable_item (iter (Reporter.stats_ r))) as Hi
    by (apply Forall_forall; intros i; by apply recorded_printable).
  assert (text = unlines (preamble_lines count now_ms ++
    (Expo.print_sample <$> mjoin (series inet_ntop ntohs now_ms <$> iter (Reporter.stats_ r))))) as Htext
    by (unfold text; by rewrite metrics_text, (proj1 (connection_count_distinct evs1))).
  assert (0 <= count) as Hc by lia.
  assert (Expo.parse text = Some (scrape inet_ntop ntohs count now_ms (iter (Reporter.stats_ r)))) as Hp
    by (rewrite Htext; by apply metrics_scraped).
  split; [exact Hp|]. split.
  { apply scrape_distinct; try done. eapply Forall_impl; [exact Hi|]. by intros i [_ ? _]. }
  assert (iter (Reporter.stats_ r) = [] <-> evs = []) as Hnil.
  { split; intros Hnil; [|apply (fmap_nil_inv fst)]; apply elem_of_nil_inv; intros k.
    - rewrite Hnil in Hks. intros Hk. apply (not_elem_of_nil (Reporter.key_of k)), Hks.
      by apply list_elem_of_fmap_2.
    - rewrite Hks, Hnil. apply not_elem_of_nil. }
  unfold Expo.parse_strict. rewrite Hp, Htext, lines_unlines by by apply metrics_no_LF.
  cbn [mbind option_bind]. rewrite metrics_grouped by done. by destruct (decide (evs = [])) as [He|He];
    [rewrite bool_decide_eq_true_2 by by apply Hnil|rewrite bool_decide_eq_false_2 by by rewrite Hnil].
Qed.


(** C18: names are not escaped: with every other name plain, one process
    named by a double quote leaves the whole list of connections unreadable,
    and one with a name of thirteen characters adds an object of its own to
    the array. *)
Theorem name_corrupts_connections r now_ms counted l1 i l2 :
  iter (Reporter.stats_ r) = l1 ++ i :: l2 ->
  (forall j, j ∈ l1 ++ renamed "x" i :: l2 -> printable_item j) ->
  let text := Mon.http_route inet_ntop ntohs iter now_ms (lit "/connections") counted r in
  let doc := connection_doc inet_ntop ntohs in
  (Reporter.comm i.2 = breaking_name -> Json.parse text = None) /\
  (Reporter.comm i.2 = forging_name ->
   Json.parse text = Some (Json.Arr ((doc <$> l1) ++ Json.Obj [(lit "comm", Json.Str [])] ::
                                     doc (renamed "x" i) :: (doc <$> l2)))).
Proof.
  intros Hit Hp text doc.
  assert (Forall Json.printable ((doc <$> l1) ++ doc (renamed "x" i) :: (doc <$> l2))) as Hdocs.
  { rewrite <- fmap_cons, <- fmap_app. apply Forall_fmap, Forall_forall.
    intros j Hj. apply connection_doc_printable; auto. }
  split; intros Hc; unfold text; rewrite connections_text, Hit, Json.print_arr.
  - apply stuck_array; [by apply Forall_app in Hdocs as [? _]|]. intros fuel rest.
    rewrite <- connection_json_doc. by apply broken_text.
  - assert (Json.print (doc i) = Json.print (Json.Obj [(lit "comm", Json.Str [])]) ++ ","%char ::
              Json.print (doc (renamed "x" i))) as Htext
      by (unfold doc; rewrite <- connection_json_doc; by apply forged_text).
    rewrite !fmap_app, !fmap_cons. fold doc. rewrite Htext, comma_join_two.
    rewrite <- !fmap_cons, <- fmap_app, <- Json.print_arr. apply Json.parse_print, Json.printable_arr.
    apply Forall_app in Hdocs as [H1 H2]. apply Forall_app. split; [done|].
    apply Forall_cons. split; [|done]. cbn. done.
Qed.

End Properties.

(** ** Witnesses: addresses in dotted form, a process named curl *)

Module EndpointWitness.

(** The four bytes of an address in memory order. *)
Definition byte (n : nat) (a : Z) : Z := Z.shiftr a (8 * Z.of_nat n) `mod` 256.

Definition dotted_str (a : Z) : str :=
  decimal (byte 0 a) ++ "."%char :: decimal (byte 1 a) ++ "."%char ::
  decimal (byte 2 a) ++ "."%char :: decimal (byte 3 a).

Definition dotted (a : Z) : string := String.string_of_list_ascii (dotted_str a).

Lemma lit_dotted a : lit (dotted a) = dotted_str a.
Proof. apply String.list_ascii_of_string_of_list_ascii. Qed.

Lemma byte_bound n a : 0 <= byte n a.
Proof. apply Z.mod_pos_bound. lia. Qed.

Lemma dotted_plain a : plain (lit (dotted a)) = true.
Proof.
  rewrite lit_dotted. unfold dotted_str.
  repeat (rewrite plain_app, plain_decimal by apply byte_bound; cbn [plain forallb andb];
          change (forallb plain_char) with plain).
  by rewrite plain_decimal by apply byte_bound.
Qed.

Lemma dotted_colon a : ":"%char ∉ lit (dotted a).
Proof.
  rewrite lit_dotted. unfold dotted_str.
  assert (forall n, ":"%char ∉ decimal (byte n a)) as Hd.
  { intros n Hin. pose proof (decimal_all_digits _ (byte_bound n a)) as Hall.
    rewrite Forall_forall in Hall. by destruct (Hall _ Hin). }
  repeat rewrite ?not_elem_of_app, ?not_elem_of_cons. by split_and!.
Qed.

(** Numbers before a separator are read off one by one. *)
Lemma decimal_split a b s t :
  0 <= a -> 0 <= b -> boundary s -> boundary t -> decimal a ++ s = decimal b ++ t -> a = b /\ s = t.
Proof.
  intros Ha Hb Hs Ht Heq. pose proof (read_number_decimal a Ha s Hs) as H1.
  rewrite Heq, (read_number_decimal b Hb t Ht) in H1. by injection H1.
Qed.

Lemma bytes_of a :
  in_width 32 a -> a = byte 0 a + 256 * byte 1 a + 65536 * byte 2 a + 16777216 * byte 3 a.
Proof.
  unfold in_width, byte. intros Ha. rewrite !Z.shiftr_div_pow2 by lia. cbn [Z.of_nat].
  change (2 ^ (8 * 0)) with 1. change (2 ^ (8 * Z.pos (Pos.of_succ_nat 0))) with 256.
  change (2 ^ (8 * Z.pos (Pos.of_succ_nat 1))) with 65536.
  change (2 ^ (8 * Z.pos (Pos.of_succ_nat 2))) with 16777216. change (2 ^ 32) with 4294967296 in Ha.
  Z.div_mod_to_equations. lia.
Qed.

Lemma dotted_inj a b : in_width 32 a -> in_width 32 b -> dotted a = dotted b -> a = b.
Proof.
  intros Ha Hb Heq. apply (f_equal lit) in Heq. rewrite !lit_dotted in Heq. unfold dotted_str in Heq.
  apply decimal_split in Heq as [H0 [=Heq]]; try apply byte_bound; try done.
  apply decimal_split in Heq as [H1 [=Heq]]; try apply byte_bound; try done.
  apply decimal_split in Heq as [H2 [=Heq]]; try apply byte_bound; try done.
  apply Endpoint.decimal_inj in Heq; try apply byte_bound.
  rewrite (bytes_of a Ha), (bytes_of b Hb). congruence.
Qed.

Lemma bswap16_inj a b :
  in_width 16 a -> in_width 16 b -> Tracer.bswap16 a = Tracer.bswap16 b -> a = b.
Proof.
  intros Ha Hb Heq. by rewrite <- (Tracer.bswap16_involutive a), Heq, Tracer.bswap16_involutive.
Qed.

Lemma demo_names : Forall Endpoint.plain_name demo_events.
Proof. repeat constructor. Qed.

(** A process with a breaking or forging name, after curl. *)
Definition named (name : string) : Reporter.StatsReporter :=
  Reporter.MkReporter {[ Reporter.MkKey 1 2 40000 443 42 :=
    Reporter.MkStats name 1000 10 20 1 7 ]}.

End EndpointWitness.

Section Witnesses.
Import TracerWitness ReporterWitness EndpointWitness Endpoint Injection.

Lemma connections_readable_witness :
  exists items : list Reporter.item,
    Json.parse (Mon.http_route dotted Tracer.bswap16 map_to_list 5 (lit "/connections") Reporter.new_reporter
                  (Reporter.record_all demo_events Reporter.new_reporter)) =
    Some (Json.Arr (connection_doc dotted Tracer.bswap16 <$> items)) /\
    (forall k, k ∈ items.*1 <-> k ∈ Reporter.key_of <$> demo_events).
Proof.
  destruct (connections_readable dotted Tracer.bswap16 map_to_list (fun m => reflexivity _)
    dotted_plain Tracer.bswap16_bound demo_events 5 Reporter.new_reporter demo_events_wf demo_names)
    as (items & _ & Hk & _ & Hp).
  exists items. split; [exact Hp|exact Hk].
Defined.

Lemma metrics_scrapeable_witness :
  exists items : list Reporter.item,
    Expo.parse (Mon.http_route dotted Tracer.bswap16 map_to_list 5 (lit "/metrics")
                  (Reporter.record_all (take 1 demo_events) Reporter.new_reporter)
                  (Reporter.record_all demo_events Reporter.new_reporter)) =
    Some (scrape dotted Tracer.bswap16 1 5 items) /\
    NoDup (series_id <$> scrape dotted Tracer.bswap16 1 5 items).
Proof.
  destruct (metrics_scrapeable dotted Tracer.bswap16 map_to_list (fun m => reflexivity _)
    dotted_plain Tracer.bswap16_bound (take 1 demo_events) (drop 1 demo_events) 5 dotted_inj dotted_colon
    bswap16_inj ltac:(lia) demo_events_wf demo_names) as (items & _ & _ & Hp & Hd & _).
  exists items. split; [exact Hp|exact Hd].
Defined.


Lemma name_corrupts_connections_witness :
  Json.parse (Mon.http_route dotted Tracer.bswap16 map_to_list 5 (lit "/connections") Reporter.new_reporter
                (named breaking_name)) = None /\
  exists doc, Json.parse (Mon.http_route dotted Tracer.bswap16 map_to_list 5 (lit "/connections") Reporter.new_reporter
                            (named forging_name)) =
    Some (Json.Arr [Json.Obj [(lit "comm", Json.Str [])]; doc]).
Proof.
  assert (forall name, printable_item (renamed "x" (Reporter.MkKey 1 2 40000 443 42,
    Reporter.MkStats name 1000 10 20 1 7))) as Hp.
  { intros name. split; [reflexivity| |]; split; vm_compute; intuition (congruence || lia). }
  assert (forall name j, j ∈ [renamed "x" (Reporter.MkKey 1 2 40000 443 42,
    Reporter.MkStats name 1000 10 20 1 7)] -> printable_item j) as Hl.
  { intros name j ->%list_elem_of_singleton. apply Hp. }
  split.
  - apply (name_corrupts_connections dotted Tracer.bswap16 map_to_list dotted_plain
      Tracer.bswap16_bound (named breaking_name) 5 Reporter.new_reporter [] (Reporter.MkKey 1 2 40000 443 42,
      Reporter.MkStats breaking_name 1000 10 20 1 7) []);
      [apply map_to_list_singleton|apply Hl|reflexivity].
  - eexists. apply (name_corrupts_connections dotted Tracer.bswap16 map_to_list dotted_plain
      Tracer.bswap16_bound (named forging_name) 5 Reporter.new_reporter [] (Reporter.MkKey 1 2 40000 443 42,
      Reporter.MkStats forging_name 1000 10 20 1 7) []);
      [apply map_to_list_singleton|apply Hl|reflexivity].
Defined.

End Witnesses.
