(* ===== verification/EndToEnd.v ===== *)
(** * EndToEnd: from the probes to the client

    The components put together: the tracer's records, through the ring buffer,
    the callbacks and the reporter, to the response of the HTTP server. *)

From S2P Require Import Prelude Common BpfMaps TcpTracer.
From S2P Require Import StatsReporter HttpServer Metrics Monitor MonitorLoop Formats Endpoints.
From Stdlib Require Import Ascii.

Module Pipeline.

(** ** One connection among the records *)

Section Records.
Context {FM PM RB : Type}.
Context `{AM : ArrayMap Z FM Tracer.filters_max}.
Context `{HM : HashMap Z tcp_event PM Tracer.pending_max}.
Context `{RL : RingBuf tcp_event RB}.
#[local] Abbreviation S := (Tracer.State FM PM RB).

(** A process connects, others run, it closes: the three states after it. *)
Record connection (t t' : Task) (sk sk' : Tracer.Sock) (s0 s2 : S) : Prop := {
  cn_typed : forall b g b', rb_reserve b = Some (g, b') -> wf_tcp_event g;
  cn_records : rb_records (Tracer.tcp_events s0) = [];
  cn_pending : hm_keys (Tracer.pending_connects s0) = [];
  cn_tasks : wf_task t /\ wf_task t' /\ Tracer.wf_sock sk /\ Tracer.wf_sock sk';
  cn_pid : pid_of t' = pid_of t;
  cn_pass : Tracer.filtered t sk s0 = false;
  cn_room : is_Some (rb_reserve (Tracer.tcp_events s0)) /\ is_Some (rb_reserve (Tracer.tcp_events s2));
  cn_others : rtc (Tracer.others (pid_of t)) (Tracer.trace_tcp_connect t sk s0).2 s2
}.

Definition records_after (t' : Task) (sk' : Tracer.Sock) (s2 : S) : list tcp_event :=
  rb_records (Tracer.tcp_events (Tracer.trace_tcp_close t' sk' s2).2).

Lemma connection_records t t' sk sk' s0 s2 :
  connection t t' sk sk' s0 s2 ->
  let c := Tracer.event_of_connect t sk in
  exists between, records_after t' sk' s2 = c :: between ++ [Tracer.finish_close t' sk' c] /\
    Forall (fun e => TcpEvent.pid e <> pid_of t) between /\
    Forall Loop.ok_tcp (records_after t' sk' s2).
Proof.
  intros [Hty Hr Hp (Ht & Ht' & Hk & Hk') Hpid Hf [[p0 Hr0] [[j rb] Hr2]] Ho] c.
  pose proof (Tracer.tracer_inv_initial s0 Hr Hp) as HI0.
  pose proof (Tracer.inv_trace_connect t sk s0 Ht Hk HI0) as HI1.
  destruct (Tracer.others_records Hty (pid_of t) _ s2 Ho HI1) as (HI2 & between & Hb & Hpids).
  destruct (Tracer.connect_spec t sk s0) as [_ Hc]. cbn in Hc. rewrite Hf in Hc.
  destruct Hc as [Hpend Hrec]. specialize (Hpend (pid_of t)).
  rewrite decide_True in Hpend by (split; [done|right; rewrite Hp; cbn; unfold Tracer.pending_max; lia]).
  apply (Tracer.others_pending _ _ _ _ Ho) in Hpend.
  destruct (Tracer.close_spec t' sk' s2) as [_ Hc]. cbn in Hc. rewrite Hr2, Hpid, Hpend in Hc.
  destruct Hc as [_ Hlast]. unfold records_after.
  exists between. rewrite Hlast, Hb, Hrec, Hr. unfold Tracer.submitted. rewrite Hr0.
  split; [done|]. split; [done|].
  pose proof (Tracer.inv_trace_close Hty t' sk' s2 Ht' Hk' HI2) as [Hok _].
  rewrite Hlast, Hb, Hrec, Hr in Hok. unfold Tracer.submitted in Hok. rewrite Hr0 in Hok.
  eapply Forall_impl; [exact Hok|]. intros e (Hwf & Hc & _). by split.
Qed.

(** The statistics the monitor has of it: one connect, the bytes of the close. *)
Definition expected_stats (t t' : Task) (sk' : Tracer.Sock) : Reporter.ConnectionStats :=
  Reporter.MkStats (c_string (current_comm t)) (uid_of t) (Tracer.bytes_sent sk')
    (Tracer.bytes_received sk') 1 (ktime_ns t').

Lemma connection_aggregate t t' sk sk' s0 s2 :
  connection t t' sk sk' s0 s2 ->
  Reporter.aggregate (Reporter.key_of (Tracer.event_of_connect t sk)) (records_after t' sk' s2) =
  Some (expected_stats t t' sk').
Proof.
  intros Hc. destruct (connection_records _ _ _ _ _ _ Hc) as (between & -> & Hpids & _).
  destruct (cn_tasks _ _ _ _ _ _ Hc) as ([_ Hlen _] & _ & _ & [_ _ _ _ Htx Hrx]).
  set (c := Tracer.event_of_connect t sk). set (d := Tracer.finish_close t' sk' c).
  assert (Reporter.events_of (Reporter.key_of c) (c :: between ++ [d]) = [c; d]) as He.
  { unfold Reporter.events_of. rewrite filter_cons_True, filter_app by done.
    rewrite (filter_cons_True _ d) by done. f_equal.
    rewrite filter_none; [done|]. eapply Forall_impl; [exact Hpids|].
    cbn. intros e Hpid Hkey. apply Hpid. by injection Hkey. }
  unfold Reporter.aggregate. rewrite He. cbn [last fmap option_fmap option_map]. f_equal.
  assert (Reporter.is_connect c /\ ~ Reporter.is_connect d) as [Hcc Hcd] by done.
  unfold Reporter.totals, Reporter.closes, expected_stats.
  rewrite (filter_cons_False (fun e => ~ Reporter.is_connect e)) by tauto.
  rewrite (filter_cons_True (fun e => ~ Reporter.is_connect e)), (filter_cons_True Reporter.is_connect),
    (filter_cons_False Reporter.is_connect) by done.
  cbn. rewrite firstn_all2 by lia. rewrite land_u32. fold (uid_of t).
  by rewrite !Z.add_0_r, !u64_small.
Qed.

End Records.
(** ** Turns without a signal *)

Lemma served_all fs : existsb Loop.signal fs = false -> Loop.served fs = fs.
Proof.
  induction fs as [|f fs IH]; cbn; [done|]. intros [-> Hf]%orb_false_iff. by rewrite IH.
Qed.

Lemma feeds_of_records fs :
  Forall Loop.ok_tcp (Loop.tcp_of fs) -> Forall (fun f => Forall Loop.ok_audit (Loop.audit f)) fs ->
  Forall Loop.ok_feed fs.
Proof.
  intros Ht Ha. induction Ha as [|f fs Hf Ha IH]; [done|]. unfold Loop.tcp_of in Ht.
  rewrite fmap_cons in Ht. change (mjoin (?x :: ?k)) with (x ++ mjoin k) in Ht.
  apply Forall_app in Ht as [Hft Ht]. constructor; [by split|]. by apply IH.
Qed.

(** ** The list of connections over HTTP *)

Section Request.
Context (inet_ntop : Z -> string) (ntohs : Z -> Z).
Context (iter : gmap Reporter.ConnectionKey Reporter.ConnectionStats -> list Reporter.item).

(** A well-formed request for /connections: [chunks] is what the reads of one
    drain of the socket return before a read would block. *)
Record connections_request (fd : Z) (chunks : list str) (srv : Http.Server) : Prop := {
  cr_line : exists method rest, (CR ∉ method) /\ (space ∉ method) /\
    (mjoin chunks = method ++ (space :: lit "/connections" ++ space :: rest));
  cr_end : contains (CRLF ++ CRLF) (mjoin chunks) = true;
  cr_new : Http.read_bufs_ srv !! fd = None
}.

Definition connections_body (l : list Reporter.item) : str :=
  lit "[" ++ comma_join ((fun i => Mon.connection_json inet_ntop ntohs i.1 i.2) <$> l) ++ lit "]".

Lemma connections_response now_ms counted r sigpipe fd chunks room srv :
  connections_request fd chunks srv ->
  Http.sent (Http.handle_client (Some (fun path => Mon.http_route inet_ntop ntohs iter now_ms path counted r))
               sigpipe fd (Http.Data <$> chunks) (Http.Wrote room) srv).1 =
  Http.sent srv ++ [(fd, take room (Http.build_response 200 (lit "application/json")
                                      (connections_body (iter (Reporter.stats_ r)))))].
Proof.
  intros [(method & rest & Hm & Hsm & Hline) Hend Hnew].
  erewrite (Http.whole_request _ sigpipe fd chunks method (lit "/connections") rest room srv);
    [|done|apply (bool_decide_unpack _); vm_compute; exact I|done
     |apply (bool_decide_unpack _); vm_compute; exact I|exact Hline|done|done].
  assert (Mon.http_route inet_ntop ntohs iter now_ms (lit "/connections") counted r =
    connections_body (iter (Reporter.stats_ r))) as ->.
  { unfold Mon.http_route. rewrite decide_False by done. rewrite decide_True by done.
    rewrite connections_json. unfold connections_body. by rewrite <- app_assoc. }
  rewrite (decide_False (P := lit "/connections" = lit "/metrics")) by done.
  by rewrite !bool_decide_eq_false_2 by done.
Qed.

(** A client: the head of the response line by line, its status, the JSON of
    its body. *)
Definition client_reads (bytes : str) : option Json.json :=
  '(head, body) ← Http.read_head 5 bytes;
  if decide (hd_error head = Some (lit "HTTP/1.1 200 OK")) then Json.parse body else None.

Lemma client_reads_connections (l : list Reporter.item) room :
  (forall a, plain (lit (inet_ntop a)) = true) ->
  (forall z, in_width 16 z -> in_width 16 (ntohs z)) ->
  (forall i, i ∈ l -> Endpoint.printable_item i) ->
  let response := Http.build_response 200 (lit "application/json") (connections_body l) in
  (length response <= room)%nat ->
  client_reads (take room response) =
  Some (Json.Arr (Endpoint.connection_doc inet_ntop ntohs <$> l)).
Proof.
  intros Hip Hp Hl response Hroom. rewrite firstn_all2 by done. unfold client_reads, response.
  rewrite Http.read_response; [|by left|apply Http.lit_no_CR; reflexivity].
  cbn [mbind option_bind]. rewrite decide_True by done.
  replace (connections_body l) with
    (Json.print (Json.Arr (Endpoint.connection_doc inet_ntop ntohs <$> l))).
  - apply Json.parse_print, Json.printable_arr, Forall_fmap, Forall_forall.
    intros i Hi. apply Endpoint.connection_doc_printable; auto.
  - rewrite Json.print_arr, <- list_fmap_compose. unfold connections_body.
    rewrite <- (list_fmap_ext (fun i => Mon.connection_json inet_ntop ntohs i.1 i.2)); [done|].
    intros _ i _. apply Endpoint.connection_json_doc.
Qed.

End Request.
End Pipeline.

(** ** Properties *)

Section Properties.
Import Pipeline.
Context {FM PM RB : Type}.
Context `{AM : ArrayMap Z FM Tracer.filters_max}.
Context `{HM : HashMap Z tcp_event PM Tracer.pending_max}.
Context `{RL : RingBuf tcp_event RB} `{StdSort}.
Context (inet_ntop : Z -> string) (ntohs : Z -> Z).
Context (iter : gmap Reporter.ConnectionKey Reporter.ConnectionStats -> list Reporter.item).

(** C6: one connection, end to end: with a tracer that has just been loaded (no
    records, no pending connects), a process makes a connection that passes the
    filters and later closes it, other processes run in between, and the ring
    buffer has room for both events.  The records of the tracer, read by the
    monitor in any division into turns, leave the connection in the statistics
    with one connect and exactly the bytes the socket had sent and received at its
    close; and a client whose request for /connections is there as a whole when
    the server reads it is answered 200 with a list of all connections that has
    this one.  When the process names need no escape and the socket takes the
    whole response, the client that reads head and JSON gets the object of this
    connection. *)
Theorem connection_end_to_end t t' sk sk' s0 s2 fs last g counted sigpipe fd chunks room srv now_ms :
  connection (FM := FM) (PM := PM) (RB := RB) t t' sk sk' s0 s2 ->
  Loop.tcp_of fs = records_after t' sk' s2 ->
  Forall (fun f => Forall Loop.ok_audit (Loop.audit f)) fs -> existsb Loop.signal fs = false ->
  Mon.g_reporter g = Some Reporter.new_reporter -> Mon.g_stop g = false ->
  (forall m, iter m ≡ₚ map_to_list m) -> connections_request fd chunks srv ->
  let key := Reporter.key_of (Tracer.event_of_connect t sk) in
  exists last' g' r l,
    Mon.main_loop inet_ntop iter (Loop.turn_of <$> fs) last g = Some (last', g') /\
    Mon.g_reporter g' = Some r /\
    l ≡ₚ map_to_list (Reporter.stats_ r) /\ (key, expected_stats t t' sk') ∈ l /\
    Http.sent (Http.handle_client (Some (fun path => Mon.http_route inet_ntop ntohs iter now_ms path counted r))
                 sigpipe fd (Http.Data <$> chunks) (Http.Wrote room) srv).1 =
    Http.sent srv ++ [(fd, take room (Http.build_response 200 (lit "application/json")
                                        (connections_body inet_ntop ntohs l)))] /\
    ((forall a, plain (lit (inet_ntop a)) = true) ->
     (forall z, in_width 16 z -> in_width 16 (ntohs z)) ->
     Forall Endpoint.plain_name (records_after t' sk' s2) ->
     (length (Http.build_response 200 (lit "application/json")
                (connections_body inet_ntop ntohs l)) <= room)%nat ->
     exists docs, client_reads (take room (Http.build_response 200 (lit "application/json")
                                  (connections_body inet_ntop ntohs l))) = Some (Json.Arr docs) /\
       Endpoint.connection_doc inet_ntop ntohs (key, expected_stats t t' sk') ∈ docs).
Proof.
  intros Hc Hfs Ha Hsig Hr Hs Hiter Hreq key.
  destruct (connection_records _ _ _ _ _ _ Hc) as (_ & _ & _ & Hok).
  assert (Forall Loop.ok_feed fs) as Hfeeds by (apply feeds_of_records; [by rewrite Hfs|done]).
  destruct (Loop.main_loop_spec inet_ntop iter fs last g _ Hfeeds Hr Hs) as (last' & reps & Hrun & _).
  rewrite served_all, Hfs in Hrun by done.
  set (r := Reporter.record_all (records_after t' sk' s2) Reporter.new_reporter) in *.
  do 2 eexists. exists r, (iter (Reporter.stats_ r)). split; [exact Hrun|]. split; [done|].
  assert ((key, expected_stats t t' sk') ∈ iter (Reporter.stats_ r)) as Hin.
  { rewrite Hiter. apply elem_of_map_to_list. unfold r. rewrite Reporter.record_all_lookup.
    exact (connection_aggregate _ _ _ _ _ _ Hc). }
  split; [apply Hiter|]. split; [done|]. split; [by apply connections_response|].
  intros Hip Hport Hnames Hroom.
  exists (Endpoint.connection_doc inet_ntop ntohs <$> iter (Reporter.stats_ r)).
  split; [|by apply list_elem_of_fmap_2].
  apply client_reads_connections; try done. intros i Hi.
  eapply Endpoint.recorded_printable; [exact Hiter| |exact Hnames|exact Hi].
  eapply Forall_impl; [exact Hok|]. by intros e [].
Qed.

End Properties.

(** ** Witness: process 42 connects and closes, process 77 connects in between *)

Section Witnesses.
Import Pipeline TracerWitness.

Definition e2e_feeds : list Loop.feed :=
  [Loop.MkFeed [Tracer.event_of_connect (task 1) sock1;
                Tracer.event_of_connect other_task sock2] [] 1 false;
   Loop.MkFeed [Tracer.finish_close (task 3) sock1
                  (Tracer.event_of_connect (task 1) sock1)] [] 2 false].

Definition e2e_request : list str :=
  [lit "GET /connections HTTP/1.1" ++ CRLF ++ CRLF].

Lemma connection_end_to_end_witness :
  exists last' g' r,
    Mon.main_loop (H := ReporterWitness.merge_std_sort) ntop map_to_list
      (Loop.turn_of <$> e2e_feeds) 0 g0 = Some (last', g') /\
    Mon.g_reporter g' = Some r /\
    Reporter.stats_ r !! Reporter.MkKey 1 2 40000 443 42 =
      Some (Reporter.MkStats "aaaaaaaaaaaaaaa" 1000 1500 90000 1 3).
Proof.
  destruct (connection_end_to_end (H2 := ReporterWitness.merge_std_sort) ntop (fun z => z) map_to_list
    (task 1) (task 3) sock1 sock1
    s0 s2 e2e_feeds 0 g0 Reporter.new_reporter Http.SIG_DFL 7 e2e_request 500 HttpWitness.s0 9)
    as (last' & g' & r & l & Hrun & Hr & Hl & Hin & _).
  - split; try reflexivity.
    + exact reserve_typed.
    + split_and!; [by apply wf_task_task|by apply wf_task_task
        |exact wf_sock1|exact wf_sock1].
    + split; eexists; vm_compute; reflexivity.
    + apply rtc_once. exists (Some (pid_of other_task)).
      split; [vm_compute; congruence|].
      apply Tracer.step_connect; [exact wf_other_task|exact wf_sock2].
  - vm_compute. reflexivity.
  - repeat constructor.
  - reflexivity.
  - reflexivity.
  - reflexivity.
  - intros m. reflexivity.
  - split; [|vm_compute; reflexivity|reflexivity].
    exists (lit "GET"), (lit "HTTP/1.1" ++ CRLF ++ CRLF).
    split_and!; first [vm_compute; reflexivity | apply (bool_decide_unpack _); vm_compute; exact I].
  - exists last', g', r. split; [exact Hrun|]. split; [exact Hr|].
    rewrite Hl in Hin. apply elem_of_map_to_list in Hin. exact Hin.
Defined.

End Witnesses.
