(* ===== verification/Conformance.v ===== *)
(** * Conformance: the repository's unit tests, run on the models

    The tests of src/tests/ that need neither timing nor real threads, written
    in terms of the definitions of this library and evaluated: a definition
    that strayed from the program in what its authors check would fail here.
    A test is a program of the option monad; undefined behaviour and a violated
    expectation are both [None].  The tests with threads are covered by the
    theorems on all interleavings; the last section has the facts they
    observe. *)

From S2P Require Import Prelude SpscRing MemoryPool PacketProcessor Common StatsReporter.
From S2P Require Import RequestStats ThreadPool HttpServer Metrics Endpoints.
From Stdlib Require Import Ascii.

Module Gtest.

Definition test : Type := option ().

(** [EXPECT_TRUE], [ASSERT_TRUE] and the like. *)
Definition expect (b : bool) : test := if b then Some () else None.

Definition expect_eq {A} `{EqDecision A} (x y : A) : test := expect (bool_decide (x = y)).

(** Loops of a test: [for (int i = ...)] over a state. *)
Fixpoint for_ {S} (xs : list Z) (f : Z -> S -> option S) (s : S) : option S :=
  match xs with [] => Some s | i :: xs => s ← f i s; for_ xs f s end.

Definition passes (ts : list test) : bool := forallb (fun t => bool_decide (t = Some ())) ts.

End Gtest.
Import Gtest.

(** ** test_common.cpp *)

Module CommonStructs.

Definition TcpEventSize : test := expect (sizeof tcp_event_members <=? 128).
Definition SyscallEventSize : test := expect (sizeof syscall_event_members <=? 128).
Definition ActionConstants : test :=
  expect_eq TCP_ACTION_CONNECT 0;; expect_eq TCP_ACTION_CLOSE 1.
Definition TcpEventFieldOffsets : test :=
  expect_eq (offsetof tcp_event_members 0) (Some 0);;
  expect_eq (fst <$> tcp_event_members !! 3%nat) (Some 16).
Definition NetStatsKeyPadding : test := expect_eq (sizeof net_stats_key_members) 4.
Definition NetStatsValLayout : test := expect_eq (sizeof net_stats_val_members) 16.

Example common_structs_pass :
  passes [TcpEventSize; SyscallEventSize; ActionConstants; TcpEventFieldOffsets;
          NetStatsKeyPadding; NetStatsValLayout] = true.
Proof. vm_compute. reflexivity. Qed.

End CommonStructs.

(** ** test_dpdk_sim.cpp *)

Module SpscRingTests.

(** [EXPECT_TRUE(ring.enqueue(x))]; [EXPECT_TRUE(ring.dequeue(v)); EXPECT_EQ(v, x)]. *)
Definition put (cap x : Z) (r : Ring.SpscRing Z) : option (Ring.SpscRing Z) :=
  '(ok, r) ← Ring.enqueue cap x r; expect ok;; Some r.
Definition take_eq (cap x : Z) (r : Ring.SpscRing Z) : option (Ring.SpscRing Z) :=
  '(ok, v, r) ← Ring.dequeue cap (-1) r; expect ok;; expect_eq v x;; Some r.

Definition InitiallyEmpty : test :=
  let ring := Ring.new_ring 16 0 in
  expect (Ring.empty ring);; expect (negb (Ring.full 16 ring));; expect_eq (Ring.size ring) 0.

Definition EnqueueDequeue : test :=
  ring ← put 8 42 (Ring.new_ring 8 0);
  expect_eq (Ring.size ring) 1;;
  ring ← take_eq 8 42 ring;
  expect (Ring.empty ring).

Definition FillAndDrain : test :=
  ring ← for_ (seqZ 0 8) (put 8) (Ring.new_ring 8 0);
  expect (Ring.full 8 ring);;
  '(ok, ring) ← Ring.enqueue 8 99 ring;
  expect (negb ok);;
  ring ← for_ (seqZ 0 8) (take_eq 8) ring;
  expect (Ring.empty ring).

Definition BurstEnqueueDequeue : test :=
  '(n, ring) ← Ring.enqueue_burst 64 (seqZ 0 32) 32 (Ring.new_ring 64 0);
  expect_eq n 32;;
  expect_eq (Ring.size ring) 32;;
  '(got, dst, ring) ← Ring.dequeue_burst 64 (replicate 32 0) 32 ring;
  expect_eq got 32;;
  expect_eq dst (seqZ 0 32).

Definition BurstPartialFull : test :=
  let src := [1; 2; 3; 4; 5; 6; 7; 8] in
  '(n, ring) ← Ring.enqueue_burst 8 src 6 (Ring.new_ring 8 0);
  expect_eq n 6;;
  '(n, ring) ← Ring.enqueue_burst 8 src 4 ring;
  expect_eq n 2;;
  expect (Ring.full 8 ring).

Definition WrapAround : test :=
  ring ← for_ (seqZ 0 4) (put 4) (Ring.new_ring 4 0);
  ring ← for_ [0; 1] (take_eq 4) ring;
  ring ← for_ [10; 11] (put 4) ring;
  expect (Ring.full 4 ring);;
  ring ← for_ [2; 3; 10; 11] (take_eq 4) ring;
  Some ().

Example spsc_ring_tests_pass :
  passes [InitiallyEmpty; EnqueueDequeue; FillAndDrain; BurstEnqueueDequeue; BurstPartialFull;
          WrapAround] = true.
Proof. vm_compute. reflexivity. Qed.

End SpscRingTests.

Module MemoryPoolTests.

Definition InitialAvailability : test :=
  pool ← Pool.new_pool 64;
  expect_eq (Pool.available pool) 64;; expect_eq (Pool.capacity 64) 64;;
  expect_eq (Pool.in_use 64 pool) 0.

Definition non_null (p : ptr) : test := expect (bool_decide (p <> nullptr)).

Definition AllocFree : test :=
  pool ← Pool.new_pool 8;
  '(p, pool) ← Pool.alloc 8 pool;
  non_null p;;
  expect_eq (Pool.available pool) 7;;
  expect_eq (Pool.in_use 8 pool) 1;;
  pool ← Pool.free 8 p pool;
  expect_eq (Pool.available pool) 8.

Definition Exhaustion : test :=
  pool ← Pool.new_pool 4;
  '(ptrs, pool) ← for_ (seqZ 0 4)
    (fun _ '(ptrs, pool) => '(p, pool) ← Pool.alloc 4 pool; Some (ptrs ++ [p], pool)) ([], pool);
  '(p, pool) ← Pool.alloc 4 pool;
  expect_eq p nullptr;;
  '(_, pool) ← for_ (seqZ 0 4)
    (fun i '(ptrs, pool) => p ← array_get ptrs i; pool ← Pool.free 4 p pool; Some (ptrs, pool))
    (ptrs, pool);
  expect_eq (Pool.available pool) 4.

Definition BurstAllocFree : test :=
  pool ← Pool.new_pool 64;
  '(n, ptrs, pool) ← Pool.alloc_burst 64 (replicate 32 nullptr) 32 pool;
  expect_eq n 32;;
  expect_eq (Pool.available pool) 32;;
  pool ← Pool.free_burst 64 ptrs 32 pool;
  expect_eq (Pool.available pool) 64.

Definition TotalAllocsTracked : test :=
  pool ← Pool.new_pool 8;
  '(p1, pool) ← Pool.alloc 8 pool;
  '(p2, pool) ← Pool.alloc 8 pool;
  expect_eq (Pool.total_allocs pool) 2;;
  pool ← Pool.free 8 p1 pool;
  pool ← Pool.free 8 p2 pool;
  Some ().

Example memory_pool_tests_pass :
  passes [InitialAvailability; AllocFree; Exhaustion; BurstAllocFree; TotalAllocsTracked] = true.
Proof. vm_compute. reflexivity. Qed.

End MemoryPoolTests.

Module BatchProcessorTests.
Import Processor.

(** The processor of the tests, [BatchProcessor<256, 128>], with the packets
    and the state its handler captured. *)
Definition setup : Type := @BatchProcessor Z * @world Z.

Definition make (h : @PacketHandler Z) : option setup :=
  r ← new_processor 256 128 (Some h);
  match r with inr bp => Some (bp, (0, replicate 128 zero_packet)) | inl _ => None end.

(** [pkt->len = n] *)
Definition set_len (n : Z) (b : ptr) (mem : list Packet) : list Packet :=
  match b with
  | nullptr => mem
  | Blk i => alter (fun p => MkPacket (src_ip p) (dst_ip p) (src_port p) (dst_port p) (proto p)
                               (_pad p) n (timestamp_ns p) (data p)) i mem
  end.

(** Allocate a packet, set its length and send it. *)
Definition send_one (n : Z) (s : setup) : option setup :=
  let '(bp, (c, mem)) := s in
  '(pkt, bp) ← alloc_packet 128 bp;
  MemoryPoolTests.non_null pkt;;
  '(ok, bp) ← send 256 128 pkt bp;
  expect ok;;
  Some (bp, (c, set_len n pkt mem)).

(** [count.fetch_add(p->len)] *)
Definition count_len : @PacketHandler Z :=
  fun b w => (w.1 + from_option len 0 (deref w.2 b), w.2).
Definition ignore : @PacketHandler Z := fun _ w => w.

Definition SendAndProcess : test :=
  s ← make count_len;
  '(bp, w) ← for_ (seqZ 0 10) (fun _ => send_one 100) s;
  '(processed, bp, w) ← process_burst 256 128 bp w;
  expect_eq processed 10;;
  expect_eq w.1 1000;;
  expect (ring_empty bp).

Definition StatsAccumulate : test :=
  s ← make ignore;
  '(bp, w) ← for_ (seqZ 0 5) (fun _ => send_one 200) s;
  '(_, bp, _) ← process_burst 256 128 bp w;
  expect_eq (pkts_processed (stats bp)) 5;;
  expect_eq (bytes_processed (stats bp)) 1000;;
  expect_eq (bursts (stats bp)) 1.

Definition PoolReturnedAfterProcess : test :=
  s ← make ignore;
  let initial := Pool.available (pool s.1) in
  '(bp, w) ← send_one 1 s;
  expect (Pool.available (pool bp) <? initial);;
  '(_, bp, _) ← process_burst 256 128 bp w;
  expect_eq (Pool.available (pool bp)) initial.

Example batch_processor_tests_pass :
  passes [SendAndProcess; StatsAccumulate; PoolReturnedAfterProcess] = true.
Proof. vm_compute. reflexivity. Qed.

End BatchProcessorTests.

(** ** test_stats_reporter.cpp and test_http.cpp *)

Module ReporterTests.
Import Reporter.

(** [strncpy(ev.comm, comm, 15)] into a zeroed array. *)
Definition name (s : string) : list Z :=
  let cs := take 15 ((fun c => Z.of_nat (Ascii.nat_of_ascii c)) <$> lit s) in
  cs ++ replicate (16 - length cs) 0.

Definition make_event (pid : Z) (comm : string) (src dst sport dport action tx rx : Z) : tcp_event :=
  TcpEvent.Mk 123456789 pid 0 (name comm) src dst sport dport 0 action [0; 0] tx rx.

Definition CONNECT := TCP_ACTION_CONNECT.
Definition CLOSE := TCP_ACTION_CLOSE.

Definition reporter (evs : list tcp_event) : StatsReporter :=
  fold_left (fun r ev => record ev r) evs new_reporter.

Definition InitiallyEmpty : test := expect_eq (connection_count new_reporter) 0.

Definition RecordConnectIncrementsCount : test :=
  expect_eq (connection_count
    (reporter [make_event 1234 "curl" 0x01010101 0x08080808 54321 443 CONNECT 0 0])) 1.

Definition SameConnectionAggregatesBytes : test :=
  expect_eq (connection_count (reporter
    [make_event 42 "wget" 0xC0A80001 0x08080808 1234 80 CONNECT 0 0;
     make_event 42 "wget" 0xC0A80001 0x08080808 1234 80 CLOSE 512 4096;
     make_event 42 "wget" 0xC0A80001 0x08080808 1234 80 CLOSE 100 200])) 1.

Definition DifferentPidsAreDistinct : test :=
  expect_eq (connection_count (reporter
    [make_event 1 "proc1" 0x01010101 0x02020202 100 80 CONNECT 0 0;
     make_event 2 "proc2" 0x01010101 0x02020202 100 80 CONNECT 0 0])) 2.

Definition ClearResetsState : test :=
  let r := reporter [make_event 1 "a" 1 2 100 80 CONNECT 0 0;
                     make_event 2 "b" 3 4 200 443 CONNECT 0 0] in
  expect_eq (connection_count r) 2;; expect_eq (connection_count (clear r)) 0.

(** [EXPECT_NO_THROW(r.print_top(10))] *)
Definition prints (r : StatsReporter) : test :=
  print_top map_to_list EndpointWitness.dotted (H := ReporterWitness.merge_std_sort) 10 r;; Some ().

Definition PrintTopDoesNotCrashOnEmpty : test := prints new_reporter.
Definition PrintTopDoesNotCrashWithData : test :=
  prints (reporter ((fun i => make_event i "proc" i (i + 1) (1000 + i) 80 CLOSE (i * 1024) (i * 512))
                      <$> seqZ 0 15)).

(** Each callback of [for_each] counts and checks the name. *)
Definition count_named (r : StatsReporter) : Z * bool :=
  for_each map_to_list (fun _ s '(n, ok) => (n + 1, ok && negb (String.eqb (comm s) ""))) r (0, true).

Definition ForEachEmpty : test := expect_eq (count_named new_reporter) (0, true).
Definition ForEachCallsCallbackForEachConnection : test :=
  expect_eq (count_named (reporter
    [make_event 1 "a" 0x0100000A 0x0200000A 256 20480 CONNECT 0 0;
     make_event 2 "b" 0x0100000A 0x0200000A 512 20480 CONNECT 0 0])) (2, true).

Example stats_reporter_tests_pass :
  passes [InitiallyEmpty; RecordConnectIncrementsCount; SameConnectionAggregatesBytes;
          DifferentPidsAreDistinct; ClearResetsState; PrintTopDoesNotCrashOnEmpty;
          PrintTopDoesNotCrashWithData; ForEachEmpty;
          ForEachCallsCallbackForEachConnection] = true.
Proof. vm_compute. reflexivity. Qed.

End ReporterTests.

Module PrometheusTests.
Import ReporterTests.

(** [htons] and [ntohs] on a little-endian machine. *)
Definition swap16 (p : Z) : Z := Z.lor (Z.shiftl (Z.land p 255) 8) (Z.shiftr p 8).

Definition out (r : Reporter.StatsReporter) : str :=
  Prom.from_reporter map_to_list EndpointWitness.dotted swap16 1700000000000 r r.

(** [EXPECT_NE(out.find(pat), std::string::npos)] *)
Definition finds (pat : str) (r : Reporter.StatsReporter) : test := expect (contains pat (out r)).

Definition EmptyReporter : test :=
  let r := Reporter.new_reporter in
  finds (lit "# HELP ebpf_active_connections") r;;
  finds (lit "# TYPE ebpf_active_connections gauge") r;;
  finds (lit "ebpf_active_connections 0") r.

Definition HasRequiredMetrics : test :=
  let r := Reporter.new_reporter in
  finds (lit "ebpf_connection_bytes_tx_total") r;;
  finds (lit "ebpf_connection_bytes_rx_total") r;;
  finds (lit "ebpf_connection_connects_total") r.

Definition CounterIncrementsAfterRecord : test :=
  let ev := make_event 1234 "curl" 0x0100000A 0x08080808 (swap16 54321) (swap16 443) in
  let r := reporter [ev CONNECT 0 0; ev CLOSE 512 1024] in
  finds (lit "ebpf_active_connections 1") r;;
  finds (lit "comm=" ++ dq ++ lit "curl" ++ dq) r;;
  finds (lit "512") r;;
  finds (lit "1024") r.

Definition PrometheusContentTypeFormat : test :=
  expect_eq (head (out Reporter.new_reporter)) (Some "#"%char).

Definition MultipleConnectionsListed : test :=
  let r := reporter
    [make_event 100 "wget" 0x0101A8C0 0x01010101 (swap16 1111) (swap16 80) CONNECT 0 0;
     make_event 200 "nginx" 0x0101A8C0 0x08080808 (swap16 2222) (swap16 443) CONNECT 0 0] in
  finds (lit "ebpf_active_connections 2") r;; finds (lit "wget") r;; finds (lit "nginx") r.

Example prometheus_tests_pass :
  passes [EmptyReporter; HasRequiredMetrics; CounterIncrementsAfterRecord;
          PrometheusContentTypeFormat; MultipleConnectionsListed] = true.
Proof. vm_compute. reflexivity. Qed.

End PrometheusTests.

(** ** test_thread_pool.cpp *)

Module RequestStatsTests.
Import Requests.

Definition stats_of (reqs : list request) : RequestStats :=
  fold_left (fun r '(route, us, ok) => record route us ok r) reqs new_stats.

Definition SingleThread_RecordAndSnapshot : test :=
  let snap := snapshot (stats_of [("/metrics", 100, true); ("/metrics", 200, true);
                                  ("/health", 50, false)]) in
  m ← snap !! "/metrics"%string;
  h ← snap !! "/health"%string;
  expect_eq (requests m) 2;; expect_eq (errors m) 0;; expect_eq (total_us m) 300;;
  expect_eq (min_us m) 100;; expect_eq (max_us m) 200;; expect_eq (errors h) 1.

(** [EXPECT_DOUBLE_EQ(snap[...].mean_us(), 200.0)], with equality for nearness. *)
Definition MeanLatency_Correct : test :=
  s ← snapshot (stats_of [("/api", 100, true); ("/api", 300, true)]) !! "/api"%string;
  expect (SpecFloat.SFeqb (mean_us s) (double_of 200)).

Definition TotalErrors_Correct : test :=
  expect_eq (total_errors map_to_list
    (stats_of [("/a", 10, true); ("/a", 10, false); ("/b", 10, false)])) 2.

(** The scope of a timer: constructed at 0, finished after 100 microseconds. *)
Definition AutoRecordsOnDestruct : test :=
  let r := timer_life "/path" 0 [(true, 100000)] 100500 new_stats in
  expect_eq (total_requests map_to_list r) 1;; expect_eq (total_errors map_to_list r) 0.
Definition MissedFinish_RecordsAsError : test :=
  let r := timer_life "/bad" 0 [] 500 new_stats in
  expect_eq (total_requests map_to_list r) 1;; expect_eq (total_errors map_to_list r) 1.

Example request_stats_tests_pass :
  passes [SingleThread_RecordAndSnapshot; MeanLatency_Correct; TotalErrors_Correct;
          AutoRecordsOnDestruct; MissedFinish_RecordsAsError] = true.
Proof. vm_compute. reflexivity. Qed.

End RequestStatsTests.

(** ** The tests with threads *)

Section Threads.

(** ThreadPool.DefaultConstructor_HasWorkers, for every thread count. *)
Lemma pool_has_workers {R} n : 1 <= Tp.size (Tp.new_pool (R := R) n).
Proof.
  unfold Tp.size, Tp.new_pool. cbn. rewrite length_replicate.
  destruct (Nat.eqb_spec n 0); lia.
Qed.

(** ThreadPool.Completed_VisibleOnceFutureReady_Stress and the tests that
    compare completed() after waiting for every future, for every
    interleaving. *)
Lemma completed_visible_once_ready {R} (body : Tp.task -> R) p :
  Tp.reachable body p ->
  (forall t, (t < Tp.next p)%nat -> is_Some (Tp.futures p !! t)) ->
  Tp.completed p = u64 (Z.of_nat (Tp.next p)).
Proof.
  intros HI%Tp.inv_reachable_pool Hready. unfold Tp.completed. rewrite (Tp.inv_completed body p HI).
  destruct (Tp.inv_queue body p HI) as (k & Hk & _ & Hp).
  assert (length (Tp.taken p) = k) as Hlen by (by rewrite <- Hp, length_seq).
  assert (seq 0 (Tp.next p) ⊆+ Tp.done_tasks p) as Hall%submseteq_length.
  { apply NoDup_submseteq; [apply NoDup_seq|]. intros t [_ [r Hr]%Hready]%elem_of_seq.
    apply list_elem_of_fmap. exists (t, r). split; [done|]. by apply elem_of_map_to_list. }
  rewrite length_seq in Hall. unfold Tp.taken in Hlen. rewrite !length_app in Hlen.
  do 2 f_equal. rewrite length_app. unfold Tp.task in *. lia.
Qed.

(** RequestStats.MT_ConcurrentWrites_TotalCountCorrect: the totals do not
    depend on the order in which the threads get the lock. *)
Lemma concurrent_writes_counted iter (threads : list (list Requests.request)) reqs :
  (forall m, iter m ≡ₚ map_to_list m) -> reqs ≡ₚ mjoin threads ->
  Requests.total_requests iter (Requests.record_all reqs Requests.new_stats) =
  u64 (Z.of_nat (sum_list (length <$> threads))).
Proof.
  intros Hiter Hp. destruct (Requests.totals_of iter reqs Hiter) as [-> _].
  do 2 f_equal. rewrite Hp. clear Hp. induction threads as [|th threads IH]; [done|].
  csimpl. by rewrite length_app, IH.
Qed.

(** StatsReporter.ThreadSafeMultipleRecords, exactly: the connections counted
    are the distinct connections of the events, in whatever order the threads
    record them. *)
Lemma concurrent_records_counted (threads : list (list tcp_event)) evs :
  evs ≡ₚ mjoin threads ->
  Reporter.connection_count (Reporter.record_all evs Reporter.new_reporter) =
  Z.of_nat (size (list_to_set (Reporter.key_of <$> mjoin threads) : gset Reporter.ConnectionKey)).
Proof.
  intros Hp. unfold Reporter.connection_count. rewrite <- size_dom, Reporter.record_all_dom.
  do 2 f_equal. by rewrite Hp.
Qed.

End Threads.
